(** * Usage-record subsystem of CLIProxyAPI: a shallow embedding

    The Go package [usagerecord] (store, patch, plugin, gin middleware,
    candidate hook) is translated function by function.  Go strings are byte
    strings ([string] of Stdlib: a list of 8-bit characters), [int] and
    [int64] are integers of [Z] with the 64-bit wrap-around written out, Go
    maps are [gmap]s, and everything the package reads from its collaborators
    (the gin context, the clock, the SQL engine) is an explicit argument. *)

From Stdlib Require Import ZArith QArith Qround Qpower Lia Lqa List Sorted Bool Ascii String DecimalString.
From stdpp Require Import base option list gmap strings sorting.

Local Open Scope string_scope.
Local Open Scope Z_scope.

(** ** Machine integers *)

Module Int64.

Definition min_int : Z := - 2 ^ 63.
Definition max_int : Z := 2 ^ 63 - 1.

(** Two's complement wrap-around of a 64-bit signed integer. *)
Definition wrap (z : Z) : Z := (z + 2 ^ 63) mod 2 ^ 64 - 2 ^ 63.

Definition in_range (z : Z) : Prop := min_int <= z <= max_int.

Definition add (a b : Z) : Z := wrap (a + b).
Definition sub (a b : Z) : Z := wrap (a - b).
Definition mul (a b : Z) : Z := wrap (a * b).

(** Go's [/] on integers truncates toward zero. *)
Definition quot (a b : Z) : Z := wrap (Z.quot a b).

End Int64.

(** ** Byte strings: the functions of Go's [strings] and [strconv] in use *)

Module Strs.

Definition len (s : string) : Z := Z.of_nat (String.length s).

(** [strings.Repeat(unit, n)]. *)
Fixpoint Repeat (unit : string) (n : nat) : string :=
  match n with
  | O => ""
  | S k => unit ++ Repeat unit k
  end.

(** The slice [s[lo:hi]] for [0 <= lo <= hi <= len(s)]. *)
Definition slice (s : string) (lo hi : nat) : string := String.substring lo (hi - lo) s.

(** [strings.Contains(s, sub)]. *)
Fixpoint Contains (s sub : string) : bool :=
  if String.prefix sub s then true
  else match s with
       | EmptyString => false
       | String _ rest => Contains rest sub
       end.

(** [strings.ToLower] and [strings.ToUpper] as they are on a string of
    ASCII bytes: the letters A to Z and a to z change, every other byte
    stays.  HTTP field names and media types, the arguments ToLower gets
    here, are ASCII tokens.  On a string with a byte above 127 the
    functions of Go work rune by rune and also fold letters outside ASCII,
    some of them to ASCII letters (ToLower takes the Kelvin sign U+212A to
    k, ToUpper the long s U+017F to S); on such strings this model
    folds less than Go does: a name it takes as sensitive Go takes as
    sensitive too, and what is stated of a name it does not take as
    sensitive, or of a sort order, is stated for ASCII strings. *)
Definition lower_ascii (c : ascii) : ascii :=
  let n := nat_of_ascii c in
  if (65 <=? n)%nat && (n <=? 90)%nat then ascii_of_nat (n + 32) else c.

Fixpoint ToLower (s : string) : string :=
  match s with
  | EmptyString => EmptyString
  | String c rest => String (lower_ascii c) (ToLower rest)
  end.

Definition upper_ascii (c : ascii) : ascii :=
  let n := nat_of_ascii c in
  if (97 <=? n)%nat && (n <=? 122)%nat then ascii_of_nat (n - 32) else c.

Fixpoint ToUpper (s : string) : string :=
  match s with
  | EmptyString => EmptyString
  | String c rest => String (upper_ascii c) (ToUpper rest)
  end.

Definition bytes_of (codes : list nat) : string :=
  fold_right (fun n acc => String (ascii_of_nat n) acc) EmptyString codes.

(** The UTF-8 encodings of the code points for which [unicode.IsSpace]
    holds: the six ASCII blanks, U+0085, U+00A0, U+1680, U+2000..U+200A,
    U+2028, U+2029, U+202F, U+205F and U+3000. *)
Definition space_runes : list string :=
  map bytes_of
    (app [ [9]; [10]; [11]; [12]; [13]; [32];
           [194; 133]; [194; 160]; [225; 154; 128] ]
      (app (map (fun k => [226; 128; k]) (seq 128 11))
           [ [226; 128; 168]; [226; 128; 169]; [226; 128; 175];
             [226; 129; 159]; [227; 128; 128] ]))%nat.

(** The white-space rune [s] starts with, if any, as its byte count. *)
Definition leading_space (s : string) : option nat :=
  String.length <$> List.find (fun r => String.prefix r s) space_runes.

Fixpoint TrimLeft_fuel (fuel : nat) (s : string) : string :=
  match fuel with
  | O => s
  | S k =>
      match leading_space s with
      | Some n => TrimLeft_fuel k (String.substring n (String.length s - n) s)
      | None => s
      end
  end.

Definition TrimLeft (s : string) : string := TrimLeft_fuel (String.length s) s.

Definition rev (s : string) : string :=
  string_of_list_ascii (List.rev (list_ascii_of_string s)).

(** The white-space rune [s] ends with, if any. *)
Definition trailing_space (s : string) : option nat :=
  String.length <$> List.find (fun r => String.prefix (rev r) (rev s)) space_runes.

Fixpoint TrimRight_fuel (fuel : nat) (s : string) : string :=
  match fuel with
  | O => s
  | S k =>
      match trailing_space s with
      | Some n => TrimRight_fuel k (String.substring 0 (String.length s - n) s)
      | None => s
      end
  end.

Definition TrimRight (s : string) : string := TrimRight_fuel (String.length s) s.

(** [strings.TrimSpace] (and [bytes.TrimSpace]): leading and trailing
    Unicode white space removed. *)
Definition TrimSpace (s : string) : string := TrimRight (TrimLeft s).

(** [strconv.Itoa] / the verb [%d]. *)
Definition Itoa (z : Z) : string := NilEmpty.string_of_int (Z.to_int z).

(** The verb [%02d] for a non-negative argument. *)
Definition Itoa02 (z : Z) : string :=
  if (0 <=? z) && (z <? 10) then "0" ++ Itoa z else Itoa z.

Definition is_digit (c : ascii) : bool :=
  let n := nat_of_ascii c in (48 <=? n)%nat && (n <=? 57)%nat.

Definition digit_val (c : ascii) : Z := Z.of_nat (nat_of_ascii c) - 48.

(** The value of a run of decimal digits, [None] on any other byte. *)
Fixpoint digits_val (acc : Z) (s : string) : option Z :=
  match s with
  | EmptyString => Some acc
  | String c rest =>
      if is_digit c then digits_val (10 * acc + digit_val c) rest else None
  end.

(** [strconv.ParseInt(s, 10, 64)]: an optional sign, then at least one
    decimal digit and nothing else; a value outside int64 is an error. *)
Definition ParseInt (s : string) : option Z :=
  let '(neg, body) :=
    match s with
    | String "-" rest => (true, rest)
    | String "+" rest => (false, rest)
    | _ => (false, s)
    end in
  match body with
  | EmptyString => None
  | _ =>
      match digits_val 0 body with
      | Some v =>
          let z := if neg then - v else v in
          if (Int64.min_int <=? z) && (z <=? Int64.max_int) then Some z else None
      | None => None
      end
  end.

End Strs.


(** ** Go's [time] package, as far as the store uses it

    An instant is kept as Unix seconds and nanoseconds; a location is a
    fixed offset east of UTC, in seconds (no daylight-saving transitions).
    The calendar is the proleptic Gregorian one. *)

Module time.

Definition Nanosecond : Z := 1.
Definition Millisecond : Z := 1000000.
Definition Second : Z := 1000000000.
Definition Minute : Z := 60 * Second.
Definition Hour : Z := 60 * Minute.

Record Time := mkTime { sec : Z; nsec : Z; offset : Z }.

(** The zero [Time] is January 1, year 1, 00:00:00 UTC. *)
Definition zero_sec : Z := -62135596800.
Definition zero : Time := mkTime zero_sec 0 0.

Definition IsZero (t : Time) : bool := (sec t =? zero_sec) && (nsec t =? 0).

Definition UnixNano (t : Time) : Z := sec t * Second + nsec t.

(** The instant [n] nanoseconds after the Unix epoch, shown at [off]. *)
Definition of_nanos (n off : Z) : Time := mkTime (n / Second) (n mod Second) off.

(** [time.Unix(s, 0)], in the local zone [loc]. *)
Definition Unix (s loc : Z) : Time := mkTime s 0 loc.

Definition Local (loc : Z) (t : Time) : Time := mkTime (sec t) (nsec t) loc.

Definition After (t u : Time) : bool := UnixNano u <? UnixNano t.
Definition Before (t u : Time) : bool := UnixNano t <? UnixNano u.

(** [t.Sub(u)]: a Duration, saturating at the ends of int64. *)
Definition Sub (t u : Time) : Z :=
  Z.max Int64.min_int (Z.min Int64.max_int (UnixNano t - UnixNano u)).

Definition Add (t : Time) (d : Z) : Time := of_nanos (UnixNano t + d) (offset t).

(** [t.Truncate(d)]: down to a multiple of [d] since the zero time. *)
Definition Truncate (t : Time) (d : Z) : Time :=
  if d <=? 0 then t
  else Add t (- (((sec t - zero_sec) * Second + nsec t) mod d)).

(** [d.Milliseconds()]. *)
Definition Milliseconds (d : Z) : Z := Z.quot d Millisecond.

(** Days since 1970-01-01 of a civil date, and back. *)
Definition days_from_civil (y m d : Z) : Z :=
  let y' := if m <=? 2 then y - 1 else y in
  let era := y' / 400 in
  let yoe := y' - era * 400 in
  let doy := (153 * (if 2 <? m then m - 3 else m + 9) + 2) / 5 + d - 1 in
  let doe := yoe * 365 + yoe / 4 - yoe / 100 + doy in
  era * 146097 + doe - 719468.

(** The civil date of day [doe] of the 400-year era [era]. *)
Definition civil_of_era (era doe : Z) : Z * Z * Z :=
  let yoe := (doe - doe / 1460 + doe / 36524 - doe / 146096) / 365 in
  let doy := doe - (365 * yoe + yoe / 4 - yoe / 100) in
  let mp := (5 * doy + 2) / 153 in
  let d := doy - (153 * mp + 2) / 5 + 1 in
  let m := if mp <? 10 then mp + 3 else mp - 9 in
  ((if m <=? 2 then yoe + era * 400 + 1 else yoe + era * 400), m, d).

Definition civil_from_days (z : Z) : Z * Z * Z :=
  let z' := z + 719468 in
  let era := z' / 146097 in
  civil_of_era era (z' - era * 146097).

(** Seconds since the epoch on the wall clock of [t]'s location. *)
Definition wall (t : Time) : Z := sec t + offset t.

Definition civil (t : Time) : Z * Z * Z := civil_from_days (wall t / 86400).
Definition Year (t : Time) : Z := fst (fst (civil t)).
Definition Month (t : Time) : Z := snd (fst (civil t)).
Definition Day (t : Time) : Z := snd (civil t).
Definition HourOf (t : Time) : Z := (wall t mod 86400) / 3600.
Definition MinuteOf (t : Time) : Z := (wall t mod 3600) / 60.
Definition SecondOf (t : Time) : Z := wall t mod 60.

(** [time.Date(y, m, d, h, mi, s, ns, loc)]; months and days out of range
    are carried over. *)
Definition Date (y m d h mi s ns loc : Z) : Time :=
  let y' := y + (m - 1) / 12 in
  let m' := (m - 1) mod 12 + 1 in
  let days := days_from_civil y' m' 1 + (d - 1) in
  of_nanos ((days * 86400 + h * 3600 + mi * 60 + s - loc) * Second + ns) loc.

Definition AddDate (t : Time) (years months days : Z) : Time :=
  Date (Year t + years) (Month t + months) (Day t + days)
       (HourOf t) (MinuteOf t) (SecondOf t) (nsec t) (offset t).

Definition is_leap (y : Z) : bool :=
  ((y mod 4 =? 0) && negb (y mod 100 =? 0)) || (y mod 400 =? 0).

Definition daysIn (m y : Z) : Z :=
  if m =? 2 then (if is_leap y then 29 else 28)
  else if (m =? 4) || (m =? 6) || (m =? 9) || (m =? 11) then 30 else 31.

(** *** Formatting *)

Fixpoint zeros (n : nat) : string :=
  match n with O => "" | S k => "0" ++ zeros k end.

(** [appendInt(x, width)]: zero padded, the sign first. *)
Definition appendInt (x : Z) (width : nat) : string :=
  let digits := Strs.Itoa (Z.abs x) in
  (if x <? 0 then "-" else "") ++ zeros (width - String.length digits) ++ digits.

Definition fmt_date (t : Time) : string :=
  appendInt (Year t) 4 ++ "-" ++ appendInt (Month t) 2 ++ "-" ++ appendInt (Day t) 2.

Definition fmt_zone (off : Z) : string :=
  if off =? 0 then "Z"
  else
    let zone := Z.quot off 60 in
    (if zone <? 0 then "-" else "+")
      ++ appendInt (Z.abs zone / 60) 2 ++ ":" ++ appendInt (Z.abs zone mod 60) 2.

(** [t.Format(time.RFC3339)]. *)
Definition Format_RFC3339 (t : Time) : string :=
  fmt_date t ++ "T" ++ appendInt (HourOf t) 2 ++ ":" ++ appendInt (MinuteOf t) 2
    ++ ":" ++ appendInt (SecondOf t) 2 ++ fmt_zone (offset t).

(** The layout 2006-01-02. *)
Definition Format_day (t : Time) : string := fmt_date t.

(** The layout 2006-01-02 15:00 (the minutes are literal text). *)
Definition Format_hour (t : Time) : string :=
  fmt_date t ++ " " ++ appendInt (HourOf t) 2 ++ ":00".

(** *** Parsing *)

Definition parsed (A : Type) : Type := option (A * string).

Definition expect (c : ascii) (s : string) : parsed unit :=
  match s with
  | String c' rest => if Ascii.eqb c c' then Some (tt, rest) else None
  | EmptyString => None
  end.

(** The chunk 2006: four bytes, all digits. *)
Definition long_year (s : string) : parsed Z :=
  if (4 <=? String.length s)%nat then
    match Strs.digits_val 0 (String.substring 0 4 s) with
    | Some y => Some (y, String.substring 4 (String.length s - 4) s)
    | None => None
    end
  else None.

(** [getnum]: one or two digits; exactly two when [fixed]. *)
Definition getnum (fixed : bool) (s : string) : parsed Z :=
  match s with
  | String c1 rest =>
      if Strs.is_digit c1 then
        match rest with
        | String c2 rest2 =>
            if Strs.is_digit c2 then Some (10 * Strs.digit_val c1 + Strs.digit_val c2, rest2)
            else if fixed then None else Some (Strs.digit_val c1, rest)
        | EmptyString => if fixed then None else Some (Strs.digit_val c1, rest)
        end
      else None
  | EmptyString => None
  end.

Definition commaOrPeriod (c : ascii) : bool := Ascii.eqb c "." || Ascii.eqb c ",".

Fixpoint digit_run (s : string) : nat :=
  match s with
  | String c rest => if Strs.is_digit c then S (digit_run rest) else O
  | EmptyString => O
  end.

(** The nanoseconds a run of fraction digits stands for: at most nine
    digits count. *)
Definition frac_nanos (digits : string) : Z :=
  let kept := String.substring 0 9 digits in
  match Strs.digits_val 0 kept with
  | Some v => v * 10 ^ Z.of_nat (9 - String.length kept)
  | None => 0
  end.

(** A fractional second the layout does not ask for is still read when the
    input has one: a period or comma followed by at least one digit. *)
Definition optional_fraction (s : string) : Z * string :=
  match s with
  | String c rest =>
      if commaOrPeriod c && (0 <? digit_run rest)%nat then
        let n := digit_run rest in
        (frac_nanos (String.substring 0 n rest),
         String.substring n (String.length rest - n) rest)
      else (0, s)
  | EmptyString => (0, s)
  end.

(** The chunk .000: a period or comma and exactly three more bytes, read
    by [atoi], which lets a sign stand first. *)
Definition fraction3 (s : string) : parsed Z :=
  match s with
  | String c rest =>
      if commaOrPeriod c && (3 <=? String.length rest)%nat then
        let body := String.substring 0 3 rest in
        let after := String.substring 3 (String.length rest - 3) rest in
        let '(neg, ds) :=
          match body with
          | String "-" r => (true, r)
          | String "+" r => (false, r)
          | _ => (false, body)
          end in
        match Strs.digits_val 0 ds with
        | Some v => if neg && (0 <? v) then None else Some (v * 1000000, after)
        | None => None
        end
      else None
  | EmptyString => None
  end.

(** The chunk Z07:00: the letter Z, or a sign, two digits, a colon and two
    digits, with hours up to 24 and minutes up to 60. *)
Definition zone_colon (s : string) : parsed Z :=
  match s with
  | String "Z" rest => Some (0, rest)
  | String sign (String h1 (String h2 (String ":" (String m1 (String m2 rest))))) =>
      if Strs.is_digit h1 && Strs.is_digit h2 && Strs.is_digit m1 && Strs.is_digit m2 then
        let hr := 10 * Strs.digit_val h1 + Strs.digit_val h2 in
        let mm := 10 * Strs.digit_val m1 + Strs.digit_val m2 in
        if (hr <=? 24) && (mm <=? 60) then
          if Ascii.eqb sign "+" then Some ((hr * 60 + mm) * 60, rest)
          else if Ascii.eqb sign "-" then Some (- ((hr * 60 + mm) * 60), rest)
          else None
        else None
      else None
  | _ => None
  end.

(** A literal blank of the layout: the input must have one, and all the
    blanks that follow are skipped with it. *)
Fixpoint cutspace (s : string) : string :=
  match s with
  | String " " rest => cutspace rest
  | _ => s
  end.

Definition expect_space (s : string) : parsed unit :=
  match s with
  | String " " rest => Some (tt, cutspace rest)
  | _ => None
  end.

Inductive Layout : Type :=
| RFC3339          (* 2006-01-02T15:04:05Z07:00 *)
| RFC3339Nano      (* 2006-01-02T15:04:05.999999999Z07:00 *)
| ISOMillisZ       (* 2006-01-02T15:04:05.000Z *)
| ISOSecondsZ      (* 2006-01-02T15:04:05Z *)
| SQLDateTime.     (* 2006-01-02 15:04:05 *)

(** What follows the seconds field under each layout: the fraction, then
    the zone or a literal Z; the result is (nanoseconds, zone offset). *)
Definition parse_tail (l : Layout) (s : string) : parsed (Z * Z) :=
  match l with
  | RFC3339 | RFC3339Nano =>
      let '(ns, s1) := optional_fraction s in
      '(z, s2) ← zone_colon s1; Some ((ns, z), s2)
  | ISOMillisZ =>
      '(ns, s1) ← fraction3 s;
      '(_, s2) ← expect "Z" s1; Some ((ns, 0), s2)
  | ISOSecondsZ =>
      let '(ns, s1) := optional_fraction s in
      '(_, s2) ← expect "Z" s1; Some ((ns, 0), s2)
  | SQLDateTime =>
      let '(ns, s1) := optional_fraction s in Some ((ns, 0), s1)
  end.

(** [time.Parse(layout, value)] for the five layouts the package uses. *)
Definition Parse (l : Layout) (value : string) : option Time :=
  '(y, s) ← long_year value;
  '(_, s) ← expect "-" s;
  '(mo, s) ← getnum true s;
  '(_, s) ← expect "-" s;
  '(d, s) ← getnum true s;
  '(_, s) ← (match l with SQLDateTime => expect_space s | _ => expect "T" s end);
  '(h, s) ← getnum false s;
  '(_, s) ← expect ":" s;
  '(mi, s) ← getnum true s;
  '(_, s) ← expect ":" s;
  '(sc, s) ← getnum true s;
  '(ns, z, s) ← parse_tail l s;
  if (String.length s =? 0)%nat
     && (1 <=? mo) && (mo <=? 12) && (1 <=? d) && (d <=? daysIn mo y)
     && (h <? 24) && (mi <? 60) && (sc <? 60)
  then let t := Date y mo d h mi sc ns 0 in Some (mkTime (sec t - z) (nsec t) z)
  else None.

(** [t, _ := time.Parse(...)]: the zero time stands for a failure. *)
Definition Parse_or_zero (l : Layout) (value : string) : Time :=
  default zero (Parse l value).

End time.

(** ** Go's [float64]

    A finite binary64 value is kept as the rational it denotes, and every
    operation rounds the exact result to the nearest value with a 53-bit
    significand, ties to the even one (IEEE 754, which Go follows).  The
    magnitudes met here (counts, minutes, indices) stay far from the ends
    of the exponent range, so no infinity, NaN or subnormal arises. *)

Module f64.

Local Open Scope Q_scope.

(** [floor (log2 x)] for a positive rational. *)
Definition ilog2 (x : Q) : Z :=
  let k := (Z.log2 (Qnum x) - Z.log2 (Zpos (Qden x)))%Z in
  if Qle_bool (2 ^ k) x then k else (k - 1)%Z.

(** The nearest integer, ties to even. *)
Definition rne (q : Q) : Z :=
  let f := Qfloor q in
  match Qcompare (q - inject_Z f) (1 # 2) with
  | Lt => f
  | Gt => (f + 1)%Z
  | Eq => if Z.even f then f else (f + 1)%Z
  end.

Definition round_pos (x : Q) : Q :=
  let e := ilog2 x in
  inject_Z (rne (x * 2 ^ (52 - e))) * 2 ^ (e - 52).

Definition round (x : Q) : Q :=
  match Qnum x with
  | Z0 => 0
  | Zpos _ => round_pos x
  | Zneg _ => - round_pos (- x)
  end.

(** [float64(n)] for an integer [n]. *)
Definition of_int (n : Z) : Q := round (inject_Z n).

Definition add (x y : Q) : Q := round (x + y).
Definition mul (x y : Q) : Q := round (x * y).
Definition div (x y : Q) : Q := round (x / y).

(** [x > y]. *)
Definition gt (x y : Q) : bool := negb (Qle_bool x y).

(** [int(x)]: the fraction is dropped (truncation toward zero). *)
Definition to_int (x : Q) : Z := if Qle_bool 0 x then Qfloor x else Qceiling x.

End f64.

(** [d.Minutes()] of a Duration. *)
Definition Minutes (d : Z) : Q :=
  let min := Z.quot d time.Minute in
  let nsec := Z.rem d time.Minute in
  f64.add (f64.of_int min) (f64.div (f64.of_int nsec) (f64.of_int (60 * 1000000000))).

(** ** Data model *)

(** A result with Go's [error] as its message. *)
Inductive result (A : Type) : Type :=
| Ok (a : A)
| Err (msg : string).
Arguments Ok {A} a.
Arguments Err {A} msg.

Definition is_err {A : Type} (r : result A) : bool :=
  match r with Ok _ => false | Err _ => true end.

(** A value of Go's [any], as the request context and the cache hold
    them; [VOther] stands for every dynamic type the package never asserts. *)
Inductive any : Type :=
| VBytes (b : string)
| VString (s : string)
| VBool (b : bool)
| VInt64 (z : Z)
| VInt (z : Z)
| VFloat64 (q : Q)
| VTime (t : time.Time)
| VOther (tag : string).

(** A value bound to a placeholder or stored in a column. *)
Inductive SqlValue : Type :=
| SqlInt (z : Z)
| SqlText (s : string).

(** A row of a table: its columns by name. *)
Abbreviation Row := (gmap string SqlValue).

(** Go's [Record] (a keyword here, hence the longer name). *)
Record UsageRecord : Type := mkRecord {
  rec_ID : Z;
  rec_RequestID : string;
  rec_Timestamp : time.Time;
  rec_IP : string;
  rec_APIKey : string;
  rec_APIKeyMasked : string;
  rec_Model : string;
  rec_Provider : string;
  rec_IsStreaming : bool;
  rec_InputTokens : Z;
  rec_OutputTokens : Z;
  rec_TotalTokens : Z;
  rec_CachedTokens : Z;
  rec_ReasoningTokens : Z;
  rec_DurationMs : Z;
  rec_StatusCode : Z;
  rec_Success : bool;
  rec_RequestURL : string;
  rec_RequestMethod : string;
  rec_RequestHeaders : gmap string string;
  rec_RequestBody : string;
  rec_ResponseHeaders : gmap string string;
  rec_ResponseBody : string
}.

(** [RecordPatch]: a nil pointer is [None]. *)
Record RecordPatch : Type := mkPatch {
  patch_Timestamp : option time.Time;
  patch_IP : option string;
  patch_APIKey : option string;
  patch_APIKeyMasked : option string;
  patch_Model : option string;
  patch_Provider : option string;
  patch_IsStreaming : option bool;
  patch_InputTokens : option Z;
  patch_OutputTokens : option Z;
  patch_TotalTokens : option Z;
  patch_CachedTokens : option Z;
  patch_ReasoningTokens : option Z;
  patch_DurationMs : option Z;
  patch_StatusCode : option Z;
  patch_Success : option bool;
  patch_RequestURL : option string;
  patch_RequestMethod : option string;
  patch_RequestHeaders : option (gmap string string);
  patch_RequestBody : option string;
  patch_ResponseHeaders : option (gmap string string);
  patch_ResponseBody : option string
}.

Definition empty_patch : RecordPatch :=
  mkPatch None None None None None None None None None None None
          None None None None None None None None None None.

Record RequestCandidate : Type := mkCandidate {
  cand_ID : Z;
  cand_RequestID : string;
  cand_Timestamp : time.Time;
  cand_Provider : string;
  cand_APIKey : string;
  cand_APIKeyMasked : string;
  cand_Status : string;
  cand_StatusCode : Z;
  cand_Success : bool;
  cand_DurationMs : Z;
  cand_ErrorMessage : string;
  cand_CandidateIndex : Z;
  cand_RetryIndex : Z
}.

Record cacheEntry : Type := mkCacheEntry {
  expiresAt : time.Time;
  value : any
}.

Record queryCache : Type := mkQueryCache {
  ttl : Z;
  entries : gmap string cacheEntry
}.

Inductive writeTask : Type :=
| writeTaskInsertUsageRecord (usageRecord : UsageRecord)
| writeTaskInsertRequestCandidate (requestCandidate : RequestCandidate).

Definition defaultWriteQueueSize : nat := 2048.

(** The store with the database behind it: the two tables by row id, the
    id the engine gave last, and whether the engine fails its statements
    (an I/O error, an expired context).  [cache] and [writeQueue] are nil
    pointers when [None]. *)
Record Store : Type := mkStore {
  closed : bool;
  db_failing : bool;
  usage_records : gmap Z Row;
  last_usage_id : Z;
  request_candidates : gmap Z Row;
  last_candidate_id : Z;
  cache : option queryCache;
  writeQueue : option (list writeTask)
}.

Definition with_usage_records (s : Store) (tbl : gmap Z Row) (last : Z) : Store :=
  mkStore (closed s) (db_failing s) tbl last (request_candidates s)
          (last_candidate_id s) (cache s) (writeQueue s).

Definition with_request_candidates (s : Store) (tbl : gmap Z Row) (last : Z) : Store :=
  mkStore (closed s) (db_failing s) (usage_records s) (last_usage_id s) tbl last
          (cache s) (writeQueue s).

Definition with_cache (s : Store) (c : option queryCache) : Store :=
  mkStore (closed s) (db_failing s) (usage_records s) (last_usage_id s)
          (request_candidates s) (last_candidate_id s) c (writeQueue s).

Definition with_writeQueue (s : Store) (q : option (list writeTask)) : Store :=
  mkStore (closed s) (db_failing s) (usage_records s) (last_usage_id s)
          (request_candidates s) (last_candidate_id s) (cache s) q.

(** ** Masks *)

(** [MaskAPIKey]. *)
Definition MaskAPIKey (key : string) : string :=
  let n := String.length key in
  if (n <=? 4)%nat then Strs.Repeat "*" n
  else Strs.slice key 0 2 ++ Strs.Repeat "*" (n - 4) ++ Strs.slice key (n - 2) n.

(** [maskValue]. *)
Definition maskValue (value : string) : string :=
  let n := String.length value in
  if (n <=? 8)%nat then Strs.Repeat "*" n
  else Strs.slice value 0 4 ++ "..." ++ Strs.slice value (n - 4) n.

Definition sensitivePatterns : list string :=
  [ "authorization"; "x-api-key"; "api-key"; "x-goog-api-key";
    "cookie"; "set-cookie"; "x-management-key" ].

(** [isSensitiveHeader]. *)
Definition isSensitiveHeader (key : string) : bool :=
  let lower := Strs.ToLower key in
  existsb (fun pattern => Strs.Contains lower pattern) sensitivePatterns.

(** [captureHeadersBestEffort]: the first value of every header that has
    one, masked under a sensitive name. *)
Definition captureHeadersBestEffort (headers : gmap string (list string)) : gmap string string :=
  map_imap (fun key values =>
              match values with
              | [] => None
              | value :: _ =>
                  Some (if isSensitiveHeader key then maskValue value else value)
              end) headers.

(** ** The query cache *)

(** The method [clear] of the cache, on a pointer that may be nil. *)
Definition clear (c : option queryCache) : option queryCache :=
  match c with
  | None => None
  | Some qc => Some (mkQueryCache (ttl qc) ∅)
  end.

(** Modelled from the spec: [invalidateCaches], which the sources call and
    do not define; section 4.3 has every successful write clear the entries
    map of the cache. *)
Definition invalidateCaches (s : Store) : Store := with_cache s (clear (cache s)).

(** Modelled from the spec: [isClosed], called and not defined in the
    sources; the closed flag read under the store's mutex. *)
Definition isClosed (s : Store) : bool := closed s.

(** ** The store's write operations *)

Section Writes.

(** [encoding/json]'s Marshal on a header map: outside the package. *)
Variable json_Marshal : gmap string string -> string.

Definition bool_int (b : bool) : Z := if b then 1 else 0.

(** One [add(set, arg)] of PatchByID, made when the field is not nil: the
    column assigned and the value bound to its placeholder. *)
Definition add (col : string) (arg : option SqlValue) : list (string * SqlValue) :=
  match arg with
  | Some v => [(col, v)]
  | None => []
  end.

(** The SET list of PatchByID, in the order of the source. *)
Definition patch_sets (patch : RecordPatch) : list (string * SqlValue) :=
  (add "timestamp" ((fun t => SqlText (time.Format_RFC3339 t)) <$> patch_Timestamp patch)
   ++ add "ip" (SqlText <$> patch_IP patch)
   ++ add "api_key" (SqlText <$> patch_APIKey patch)
   ++ add "api_key_masked" (SqlText <$> patch_APIKeyMasked patch)
   ++ add "model" (SqlText <$> patch_Model patch)
   ++ add "provider" (SqlText <$> patch_Provider patch)
   ++ add "is_streaming" ((fun b => SqlInt (bool_int b)) <$> patch_IsStreaming patch)
   ++ add "input_tokens" (SqlInt <$> patch_InputTokens patch)
   ++ add "output_tokens" (SqlInt <$> patch_OutputTokens patch)
   ++ add "total_tokens" (SqlInt <$> patch_TotalTokens patch)
   ++ add "cached_tokens" (SqlInt <$> patch_CachedTokens patch)
   ++ add "reasoning_tokens" (SqlInt <$> patch_ReasoningTokens patch)
   ++ add "duration_ms" (SqlInt <$> patch_DurationMs patch)
   ++ add "status_code" (SqlInt <$> patch_StatusCode patch)
   ++ add "success" ((fun b => SqlInt (bool_int b)) <$> patch_Success patch)
   ++ add "request_url" (SqlText <$> patch_RequestURL patch)
   ++ add "request_method" (SqlText <$> patch_RequestMethod patch)
   ++ add "request_headers" ((fun h => SqlText (json_Marshal h)) <$> patch_RequestHeaders patch)
   ++ add "request_body" (SqlText <$> patch_RequestBody patch)
   ++ add "response_headers" ((fun h => SqlText (json_Marshal h)) <$> patch_ResponseHeaders patch)
   ++ add "response_body" (SqlText <$> patch_ResponseBody patch))%list.

(** The engine's [SET c1 = ?, c2 = ?, ...] on one row. *)
Definition assign (row : Row) (sets : list (string * SqlValue)) : Row :=
  foldl (fun r set => <[fst set := snd set]> r) row sets.

(** [UPDATE usage_records SET ... WHERE id = ?]: the table after it and the
    number of rows affected. *)
Definition exec_update (tbl : gmap Z Row) (sets : list (string * SqlValue)) (id : Z)
  : gmap Z Row * Z :=
  match tbl !! id with
  | Some row => (<[id := assign row sets]> tbl, 1)
  | None => (tbl, 0)
  end.

(** [PatchByID]. *)
Definition PatchByID (s : Store) (id : Z) (patch : RecordPatch) : Store * result Z :=
  if isClosed s then (s, Err "store is closed")
  else if id <=? 0 then (s, Err "invalid record id")
  else
    let sets := patch_sets patch in
    if (List.length sets =? 0)%nat then (s, Ok 0)
    else if db_failing s then (s, Err "failed to update record")
    else
      let '(tbl, affected) := exec_update (usage_records s) sets id in
      (invalidateCaches (with_usage_records s tbl (last_usage_id s)), Ok affected).

(** The columns [Insert] binds, in the order of its statement. *)
Definition insert_row (record : UsageRecord) : Row :=
  list_to_map
    [ ("request_id", SqlText (rec_RequestID record));
      ("timestamp", SqlText (time.Format_RFC3339 (rec_Timestamp record)));
      ("ip", SqlText (rec_IP record));
      ("api_key", SqlText (rec_APIKey record));
      ("api_key_masked", SqlText (rec_APIKeyMasked record));
      ("model", SqlText (rec_Model record));
      ("provider", SqlText (rec_Provider record));
      ("is_streaming", SqlInt (bool_int (rec_IsStreaming record)));
      ("input_tokens", SqlInt (rec_InputTokens record));
      ("output_tokens", SqlInt (rec_OutputTokens record));
      ("total_tokens", SqlInt (rec_TotalTokens record));
      ("cached_tokens", SqlInt (rec_CachedTokens record));
      ("reasoning_tokens", SqlInt (rec_ReasoningTokens record));
      ("duration_ms", SqlInt (rec_DurationMs record));
      ("status_code", SqlInt (rec_StatusCode record));
      ("success", SqlInt (bool_int (rec_Success record)));
      ("request_url", SqlText (rec_RequestURL record));
      ("request_method", SqlText (rec_RequestMethod record));
      ("request_headers", SqlText (json_Marshal (rec_RequestHeaders record)));
      ("request_body", SqlText (rec_RequestBody record));
      ("response_headers", SqlText (json_Marshal (rec_ResponseHeaders record)));
      ("response_body", SqlText (rec_ResponseBody record)) ].

(** [Insert]: the row id the engine assigns is the result. *)
Definition Insert (s : Store) (record : UsageRecord) : Store * result Z :=
  if closed s then (s, Err "store is closed")
  else if db_failing s then (s, Err "failed to insert record")
  else
    let id := last_usage_id s + 1 in
    (with_usage_records s (<[id := insert_row record]> (usage_records s)) id, Ok id).

Definition candidate_row (candidate : RequestCandidate) : Row :=
  list_to_map
    [ ("request_id", SqlText (cand_RequestID candidate));
      ("timestamp", SqlText (time.Format_RFC3339 (cand_Timestamp candidate)));
      ("provider", SqlText (cand_Provider candidate));
      ("api_key", SqlText (cand_APIKey candidate));
      ("api_key_masked", SqlText (cand_APIKeyMasked candidate));
      ("status", SqlText (cand_Status candidate));
      ("status_code", SqlInt (cand_StatusCode candidate));
      ("success", SqlInt (bool_int (cand_Success candidate)));
      ("duration_ms", SqlInt (cand_DurationMs candidate));
      ("error_message", SqlText (cand_ErrorMessage candidate));
      ("candidate_index", SqlInt (cand_CandidateIndex candidate));
      ("retry_index", SqlInt (cand_RetryIndex candidate)) ].

(** [InsertRequestCandidate]. *)
Definition InsertRequestCandidate (s : Store) (candidate : RequestCandidate)
  : Store * result Z :=
  if closed s then (s, Err "store is closed")
  else if db_failing s then (s, Err "failed to insert request candidate")
  else
    let id := last_candidate_id s + 1 in
    (with_request_candidates s
       (<[id := candidate_row candidate]> (request_candidates s)) id, Ok id).

(** A send on the bounded channel that never blocks. *)
Definition try_send (s : Store) (task : writeTask) : Store * bool :=
  match writeQueue s with
  | None => (s, false)
  | Some queue =>
      if isClosed s then (s, false)
      else if (List.length queue <? defaultWriteQueueSize)%nat
      then (with_writeQueue s (Some (queue ++ [task])%list), true)
      else (s, false)
  end.

(** [EnqueueUsageRecord]. *)
Definition EnqueueUsageRecord (s : Store) (record : UsageRecord) : Store * bool :=
  try_send s (writeTaskInsertUsageRecord record).

(** One turn of [writeLoop]: the oldest task is taken and run; an error is
    only logged. *)
Definition writeLoop_step (s : Store) : Store :=
  match writeQueue s with
  | Some (task :: rest) =>
      let s1 := with_writeQueue s (Some rest) in
      if isClosed s1 then s1
      else match task with
           | writeTaskInsertUsageRecord r => fst (Insert s1 r)
           | writeTaskInsertRequestCandidate c => fst (InsertRequestCandidate s1 c)
           end
  | _ => s
  end.

End Writes.

(** ** The request context *)

Record Request : Type := mkRequest {
  req_Method : string;
  req_URL : string;
  req_Header : gmap string (list string)
}.

Record ResponseWriter : Type := mkWriter {
  w_Status : Z;
  w_Header : gmap string (list string)
}.

(** What the package reads off a [*gin.Context]: the request (nil when
    [None]), the writer, the bag of keys, the collected errors, the client
    address and the request id the logging layer assigned. *)
Record GinContext : Type := mkGin {
  gin_Request : option Request;
  gin_Writer : ResponseWriter;
  gin_Keys : gmap string any;
  gin_Errors : list string;
  gin_ClientIP : string;
  gin_RequestID : string
}.

Definition ginUsageRecordIDKey : string := "__usage_record_id__".
Definition ginUsageRecordStartKey : string := "request_start_time".
Definition ginUsageRecordPanicKey : string := "__usage_record_panic__".

Definition gin_Get (c : GinContext) (key : string) : option any := gin_Keys c !! key.

Definition gin_Set (c : GinContext) (key : string) (v : any) : GinContext :=
  mkGin (gin_Request c) (gin_Writer c) (<[key := v]> (gin_Keys c)) (gin_Errors c)
        (gin_ClientIP c) (gin_RequestID c).

(** [Header.Get] with a key already in canonical form. *)
Definition Header_Get (h : gmap string (list string)) (key : string) : string :=
  match h !! key with
  | Some (v :: _) => v
  | _ => ""
  end.

Definition newline : string := String (ascii_of_nat 10) "".

(** gin's [errorMsgs.String] for errors without meta data. *)
Definition Errors_String (errs : list string) : string :=
  String.concat ""
    (imap (fun i msg => "Error #" ++ Strs.Itoa02 (Z.of_nat i + 1) ++ ": " ++ msg ++ newline) errs).

(** [http.StatusText]. *)
Definition StatusText (code : Z) : string :=
  match code with
  | 100 => "Continue"
  | 101 => "Switching Protocols"
  | 102 => "Processing"
  | 103 => "Early Hints"
  | 200 => "OK"
  | 201 => "Created"
  | 202 => "Accepted"
  | 203 => "Non-Authoritative Information"
  | 204 => "No Content"
  | 205 => "Reset Content"
  | 206 => "Partial Content"
  | 207 => "Multi-Status"
  | 208 => "Already Reported"
  | 226 => "IM Used"
  | 300 => "Multiple Choices"
  | 301 => "Moved Permanently"
  | 302 => "Found"
  | 303 => "See Other"
  | 304 => "Not Modified"
  | 305 => "Use Proxy"
  | 307 => "Temporary Redirect"
  | 308 => "Permanent Redirect"
  | 400 => "Bad Request"
  | 401 => "Unauthorized"
  | 402 => "Payment Required"
  | 403 => "Forbidden"
  | 404 => "Not Found"
  | 405 => "Method Not Allowed"
  | 406 => "Not Acceptable"
  | 407 => "Proxy Authentication Required"
  | 408 => "Request Timeout"
  | 409 => "Conflict"
  | 410 => "Gone"
  | 411 => "Length Required"
  | 412 => "Precondition Failed"
  | 413 => "Request Entity Too Large"
  | 414 => "Request URI Too Long"
  | 415 => "Unsupported Media Type"
  | 416 => "Requested Range Not Satisfiable"
  | 417 => "Expectation Failed"
  | 418 => "I'm a teapot"
  | 421 => "Misdirected Request"
  | 422 => "Unprocessable Entity"
  | 423 => "Locked"
  | 424 => "Failed Dependency"
  | 425 => "Too Early"
  | 426 => "Upgrade Required"
  | 428 => "Precondition Required"
  | 429 => "Too Many Requests"
  | 431 => "Request Header Fields Too Large"
  | 451 => "Unavailable For Legal Reasons"
  | 500 => "Internal Server Error"
  | 501 => "Not Implemented"
  | 502 => "Bad Gateway"
  | 503 => "Service Unavailable"
  | 504 => "Gateway Timeout"
  | 505 => "HTTP Version Not Supported"
  | 506 => "Variant Also Negotiates"
  | 507 => "Insufficient Storage"
  | 508 => "Loop Detected"
  | 510 => "Not Extended"
  | 511 => "Network Authentication Required"
  | _ => ""
  end.

Definition StatusInternalServerError : Z := 500.
Definition StatusBadRequest : Z := 400.

Definition nonempty (s : string) : bool := negb (String.length s =? 0)%nat.

(** ** The entry middleware's exit path *)

Section Middleware.

Variable json_Marshal : gmap string string -> string.

(** [fmt.Sprint] on one operand that is no string: outside the package. *)
Variable Sprint_other : any -> string.

(** [fmt.Sprint(v)]: a string operand is printed as it is. *)
Definition fmt_Sprint (v : any) : string :=
  match v with
  | VString s => s
  | _ => Sprint_other v
  end.

(** [extractResponseBodyBestEffort]: each early return of the source is a
    [Some] that ends the search. *)
Definition extractResponseBodyBestEffort (c : GinContext) (recovered : bool) : string :=
  (* Prefer actual response body captured by response writer wrapper. *)
  match
    match gin_Get c "response_body_for_log" with
    | Some (VBytes t) => if (0 <? String.length t)%nat then Some t else None
    | Some (VString t) => if nonempty (Strs.TrimSpace t) then Some t else None
    | _ => None
    end
  with
  | Some body => body
  | None =>
  (* Fallback: upstream API response. *)
  match
    match gin_Get c "API_RESPONSE" with
    | Some (VBytes b) =>
        if (0 <? String.length (Strs.TrimSpace b))%nat then Some b else None
    | _ => None
    end
  with
  | Some body => body
  | None =>
  (* Fallback: panic recovered value. *)
  match
    if recovered then
      match gin_Get c ginUsageRecordPanicKey with
      | Some v =>
          let msg := Strs.TrimSpace (fmt_Sprint v) in
          if nonempty msg then Some msg else None
      | None => None
      end
    else None
  with
  | Some msg => msg
  | None =>
  (* Fallback: gin errors. *)
  match
    if (0 <? List.length (gin_Errors c))%nat then
      let msg := Strs.TrimSpace (Errors_String (gin_Errors c)) in
      if nonempty msg then Some msg else None
    else None
  with
  | Some msg => msg
  | None =>
  (* Error responses get a line to inspect even without a body. *)
  let status := w_Status (gin_Writer c) in
  let status := if recovered then StatusInternalServerError else status in
  if StatusBadRequest <=? status then
    let text := Strs.TrimSpace (StatusText status) in
    if nonempty text then "HTTP " ++ Strs.Itoa status ++ " " ++ text
    else "HTTP " ++ Strs.Itoa status
  else ""
  end end end end.

(** The patch [patchUsageRecordFinal] hands to PatchByID.  [now] is the
    clock at the call; [c.Request] is not nil here, [method] is its
    method. *)
Definition final_patch (c : GinContext) (method : string) (start : time.Time)
    (requestURL : string) (requestHeaders : gmap string string) (requestBody : string)
    (recovered : bool) (now : time.Time) : RecordPatch :=
  let durationMs := time.Milliseconds (time.Sub now start) in
  let statusCode := w_Status (gin_Writer c) in
  let statusCode := if recovered then StatusInternalServerError else statusCode in
  let success := (0 <? statusCode) && (statusCode <? StatusBadRequest) in
  let apiKey :=
    match gin_Get c "apiKey" with
    | Some v => fmt_Sprint v
    | None => ""
    end in
  let isStreaming :=
    match gin_Get c "is_streaming" with
    | Some (VBool b) => b
    | _ => false
    end in
  let isStreaming :=
    if negb isStreaming then
      let contentType := Header_Get (w_Header (gin_Writer c)) "Content-Type" in
      Strs.Contains (Strs.ToLower contentType) "text/event-stream"
    else isStreaming in
  let respHeaders := captureHeadersBestEffort (w_Header (gin_Writer c)) in
  let responseBody := extractResponseBodyBestEffort c recovered in
  let ip := gin_ClientIP c in
  let apiKeyMasked :=
    if nonempty (Strs.TrimSpace apiKey) then MaskAPIKey apiKey else "" in
  {| patch_Timestamp := None;
     patch_IP := Some ip;
     patch_APIKey := Some apiKey;
     patch_APIKeyMasked := Some apiKeyMasked;
     patch_Model := None;
     patch_Provider := None;
     patch_IsStreaming := Some isStreaming;
     patch_InputTokens := None;
     patch_OutputTokens := None;
     patch_TotalTokens := None;
     patch_CachedTokens := None;
     patch_ReasoningTokens := None;
     patch_DurationMs := Some durationMs;
     patch_StatusCode := Some statusCode;
     patch_Success := Some success;
     patch_RequestURL := Some requestURL;
     patch_RequestMethod := Some method;
     patch_RequestHeaders := Some requestHeaders;
     patch_RequestBody := Some requestBody;
     patch_ResponseHeaders := Some respHeaders;
     patch_ResponseBody := Some responseBody |}.

(** [patchUsageRecordFinal]: an error of PatchByID is only logged. *)
Definition patchUsageRecordFinal (store : Store) (c : GinContext) (recordID : Z)
    (start : time.Time) (requestURL : string) (requestHeaders : gmap string string)
    (requestBody : string) (recovered : bool) (now : time.Time) : Store :=
  if recordID <=? 0 then store
  else
    match gin_Request c with
    | None => store
    | Some req =>
        fst (PatchByID json_Marshal store recordID
               (final_patch c (req_Method req) start requestURL requestHeaders
                            requestBody recovered now))
    end.

(** The record the middleware inserts at request entry. *)
Definition pending_record (requestID : string) (start : time.Time) (ip model : string)
    (requestURL method : string) (requestHeaders : gmap string string)
    (requestBody : string) : UsageRecord :=
  {| rec_ID := 0;
     rec_RequestID := requestID;
     rec_Timestamp := start;
     rec_IP := ip;
     rec_APIKey := "";
     rec_APIKeyMasked := "";
     rec_Model := model;
     rec_Provider := "pending";
     rec_IsStreaming := false;
     rec_InputTokens := 0;
     rec_OutputTokens := 0;
     rec_TotalTokens := 0;
     rec_CachedTokens := 0;
     rec_ReasoningTokens := 0;
     rec_DurationMs := 0;
     rec_StatusCode := 0;
     rec_Success := true;
     rec_RequestURL := requestURL;
     rec_RequestMethod := method;
     rec_RequestHeaders := requestHeaders;
     rec_RequestBody := requestBody;
     rec_ResponseHeaders := ∅;
     rec_ResponseBody := "" |}.

(** The function GinUsageRecordMiddleware defers: [panicked] is the value
    [recover()] returned, [None] for nil; [recID] is the id of the pending
    record, zero when its insert failed. *)
Definition middleware_exit (store : Store) (c : GinContext) (recID : Z)
    (start : time.Time) (requestURL : string) (requestHeaders : gmap string string)
    (requestBody : string) (panicked : option any) (now : time.Time) : Store :=
  let c :=
    match panicked with
    | Some v => gin_Set c ginUsageRecordPanicKey (VString (fmt_Sprint v))
    | None => c
    end in
  if 0 <? recID then
    patchUsageRecordFinal store c recID start requestURL requestHeaders requestBody
                          (bool_decide (is_Some panicked)) now
  else store.

End Middleware.

(** ** The usage-event plugin *)

(** [coreusage.Detail] and [coreusage.Record], the usage event. *)
Record Detail : Type := mkDetail {
  InputTokens : Z;
  OutputTokens : Z;
  ReasoningTokens : Z;
  CachedTokens : Z;
  TotalTokens : Z
}.

Record UsageEvent : Type := mkEvent {
  ev_APIKey : string;
  ev_Provider : string;
  ev_Model : string;
  ev_RequestedAt : time.Time;
  ev_Failed : bool;
  ev_Detail : Detail
}.

(** The plugin: its store (nil when [None]), the enabled flag, and whether
    each callback is installed. *)
Record Plugin : Type := mkPlugin {
  store : option Store;
  enabled : bool;
  tokenIncrementor : bool;
  usageIncrementor : bool
}.

(** A call of one of the installed callbacks. *)
Inductive Callback : Type :=
| TokenIncrement (apiKey : string) (inputTokens outputTokens : Z)
| UsageIncrement (apiKey : string).

(** What one HandleUsage did: the store afterwards, whether the pending
    row was patched, the record handed to the write queue on the fallback
    path with the queue's answer, and the callbacks called. *)
Record Handled : Type := mkHandled {
  h_store : option Store;
  h_patched : bool;
  h_enqueued : option (UsageRecord * bool);
  h_calls : list Callback
}.

Section PluginCode.

Variable json_Marshal : gmap string string -> string.

(** The id of the pending record under [ginUsageRecordIDKey]. *)
Definition recordDBID_of (c : GinContext) : Z :=
  match gin_Get c ginUsageRecordIDKey with
  | Some (VInt64 t) => t
  | Some (VInt t) => t
  | Some (VFloat64 t) => f64.to_int t
  | Some (VString t) => default 0 (Strs.ParseInt (Strs.TrimSpace t))
  | _ => 0
  end.

(** What HandleUsage reads off the gin context, when there is one. *)
Record Extracted : Type := mkExtracted {
  x_requestURL : string;
  x_requestMethod : string;
  x_requestHeaders : gmap string string;
  x_responseHeaders : gmap string string;
  x_statusCode : Z;
  x_requestBody : string;
  x_responseBody : string;
  x_isStreaming : bool;
  x_durationMs : Z;
  x_recordDBID : Z;
  x_requestID : string;
  x_ip : string
}.

Definition no_context : Extracted :=
  mkExtracted "" "" ∅ ∅ 0 "" "" false 0 0 "" "".

Definition extract (ctx : option GinContext) (record : UsageEvent) (now : time.Time)
  : Extracted :=
  match ctx with
  | None => no_context
  | Some ginCtx =>
      let durationMs :=
        match gin_Get ginCtx "request_start_time" with
        | Some (VTime st) => time.Milliseconds (time.Sub now st)
        | _ => 0
        end in
      let durationMs :=
        if (durationMs =? 0) && negb (time.IsZero (ev_RequestedAt record))
        then time.Milliseconds (time.Sub now (ev_RequestedAt record))
        else durationMs in
      {| x_requestURL := from_option req_URL "" (gin_Request ginCtx);
         x_requestMethod := from_option req_Method "" (gin_Request ginCtx);
         x_requestHeaders :=
           from_option (fun r => captureHeadersBestEffort (req_Header r)) ∅
                       (gin_Request ginCtx);
         x_responseHeaders := captureHeadersBestEffort (w_Header (gin_Writer ginCtx));
         x_statusCode := w_Status (gin_Writer ginCtx);
         x_requestBody :=
           match gin_Get ginCtx "request_body_for_log" with
           | Some (VBytes b) => b
           | _ => ""
           end;
         x_responseBody :=
           match gin_Get ginCtx "response_body_for_log" with
           | Some (VBytes b) => b
           | _ => ""
           end;
         x_isStreaming :=
           match gin_Get ginCtx "is_streaming" with
           | Some (VBool b) => b
           | _ => false
           end;
         x_durationMs := durationMs;
         x_recordDBID := recordDBID_of ginCtx;
         x_requestID := gin_RequestID ginCtx;
         x_ip := gin_ClientIP ginCtx |}
  end.

(** The patch of the pending row. *)
Definition usage_patch (record : UsageEvent) (isStreaming : bool) : RecordPatch :=
  let apiKey := ev_APIKey record in
  let apiKeyMasked := MaskAPIKey apiKey in
  let model := ev_Model record in
  let provider := ev_Provider record in
  let inputTokens := InputTokens (ev_Detail record) in
  let outputTokens := OutputTokens (ev_Detail record) in
  let totalTokens :=
    Int64.add (InputTokens (ev_Detail record)) (OutputTokens (ev_Detail record)) in
  let cachedTokens := CachedTokens (ev_Detail record) in
  let reasoningTokens := ReasoningTokens (ev_Detail record) in
  {| patch_Timestamp := None;
     patch_IP := None;
     patch_APIKey := Some apiKey;
     patch_APIKeyMasked := Some apiKeyMasked;
     patch_Model := Some model;
     patch_Provider := Some provider;
     patch_IsStreaming := Some isStreaming;
     patch_InputTokens := Some inputTokens;
     patch_OutputTokens := Some outputTokens;
     patch_TotalTokens := Some totalTokens;
     patch_CachedTokens := Some cachedTokens;
     patch_ReasoningTokens := Some reasoningTokens;
     patch_DurationMs := None;
     patch_StatusCode := None;
     patch_Success := None;
     patch_RequestURL := None;
     patch_RequestMethod := None;
     patch_RequestHeaders := None;
     patch_RequestBody := None;
     patch_ResponseHeaders := None;
     patch_ResponseBody := None |}.

(** The record of the fallback insert. *)
Definition usage_record (record : UsageEvent) (x : Extracted) (timestamp : time.Time)
    (success : bool) : UsageRecord :=
  {| rec_ID := 0;
     rec_RequestID := x_requestID x;
     rec_Timestamp := timestamp;
     rec_IP := x_ip x;
     rec_APIKey := ev_APIKey record;
     rec_APIKeyMasked := MaskAPIKey (ev_APIKey record);
     rec_Model := ev_Model record;
     rec_Provider := ev_Provider record;
     rec_IsStreaming := x_isStreaming x;
     rec_InputTokens := InputTokens (ev_Detail record);
     rec_OutputTokens := OutputTokens (ev_Detail record);
     rec_TotalTokens :=
       Int64.add (InputTokens (ev_Detail record)) (OutputTokens (ev_Detail record));
     rec_CachedTokens := CachedTokens (ev_Detail record);
     rec_ReasoningTokens := ReasoningTokens (ev_Detail record);
     rec_DurationMs := x_durationMs x;
     rec_StatusCode := x_statusCode x;
     rec_Success := success;
     rec_RequestURL := x_requestURL x;
     rec_RequestMethod := x_requestMethod x;
     rec_RequestHeaders := x_requestHeaders x;
     rec_RequestBody := x_requestBody x;
     rec_ResponseHeaders := x_responseHeaders x;
     rec_ResponseBody := x_responseBody x |}.

(** The calls of the installed callbacks. *)
Definition callbacks (p : Plugin) (record : UsageEvent) : list Callback :=
  ((if tokenIncrementor p && nonempty (ev_APIKey record)
       && ((0 <? InputTokens (ev_Detail record)) || (0 <? OutputTokens (ev_Detail record)))
    then [TokenIncrement (ev_APIKey record) (InputTokens (ev_Detail record))
                         (OutputTokens (ev_Detail record))]
    else [])
   ++ (if usageIncrementor p && nonempty (ev_APIKey record)
       then [UsageIncrement (ev_APIKey record)]
       else []))%list.

(** [HandleUsage]. *)
Definition HandleUsage (p : Plugin) (ctx : option GinContext) (record : UsageEvent)
    (now : time.Time) : Handled :=
  match store p with
  | None => mkHandled None false None []
  | Some s =>
      if negb (enabled p) then mkHandled (Some s) false None []
      else
        let x := extract ctx record now in
        let timestamp :=
          if time.IsZero (ev_RequestedAt record) then now else ev_RequestedAt record in
        let success := negb (ev_Failed record) in
        let success := if 400 <=? x_statusCode x then false else success in
        let '(s1, patched) :=
          if 0 <? x_recordDBID x then
            match PatchByID json_Marshal s (x_recordDBID x)
                            (usage_patch record (x_isStreaming x)) with
            | (s', Ok _) => (s', true)
            | (s', Err _) => (s', false)
            end
          else (s, false) in
        if patched then mkHandled (Some s1) true None (callbacks p record)
        else
          let rec := usage_record record x timestamp success in
          let '(s2, accepted) := EnqueueUsageRecord s1 rec in
          mkHandled (Some s2) false (Some (rec, accepted)) (callbacks p record)
  end.

End PluginCode.

(** ** The candidate hook *)

(** [cliproxyauth.Candidate], the routing event. *)
Record Candidate : Type := mkCandidateEvent {
  RequestID : string;
  Provider : string;
  AuthID : string;
  AuthFile : string;
  Status : string;
  StatusCode : Z;
  Success : bool;
  DurationMs : Z;
  ErrorMessage : string;
  CandidateIndex : Z;
  RetryIndex : Z
}.

Definition allowed_status (status : string) : bool :=
  String.eqb status "pending" || String.eqb status "success"
  || String.eqb status "failed" || String.eqb status "skipped".

(** The record OnCandidate builds, [None] when the event is dropped. *)
Definition candidate_record (candidate : Candidate) (now : time.Time)
  : option RequestCandidate :=
  let requestID := Strs.TrimSpace (RequestID candidate) in
  if negb (nonempty requestID) then None
  else
    let provider := Strs.TrimSpace (Provider candidate) in
    let authID := Strs.TrimSpace (AuthID candidate) in
    let authFile := Strs.TrimSpace (AuthFile candidate) in
    let authFile := if negb (nonempty authFile) then authID else authFile in
    if negb (nonempty authID) && negb (nonempty authFile) then None
    else
      let status := Strs.TrimSpace (Status candidate) in
      let status :=
        if allowed_status status then status
        else if Success candidate then "success" else "failed" in
      let statusCode := StatusCode candidate in
      let statusCode :=
        if (statusCode =? 0) && String.eqb status "success" then 200 else statusCode in
      Some {| cand_ID := 0;
              cand_RequestID := requestID;
              cand_Timestamp := now;
              cand_Provider := provider;
              cand_APIKey := authID;
              cand_APIKeyMasked := authFile;
              cand_Status := status;
              cand_StatusCode := statusCode;
              cand_Success := Success candidate;
              cand_DurationMs := DurationMs candidate;
              cand_ErrorMessage := Strs.TrimSpace (ErrorMessage candidate);
              cand_CandidateIndex := CandidateIndex candidate;
              cand_RetryIndex := RetryIndex candidate |}.

(** [OnCandidate] on the default store (nil when [None]), with the insert
    its goroutine makes; an error of the insert is only logged. *)
Definition OnCandidate (default_store : option Store) (candidate : Candidate)
    (now : time.Time) : option Store :=
  match default_store with
  | None => None
  | Some st =>
      match candidate_record candidate now with
      | None => Some st
      | Some record => Some (fst (InsertRequestCandidate st record))
      end
  end.

(** ** The read side *)

Definition timeParamLayouts : list time.Layout :=
  [ time.RFC3339; time.RFC3339Nano; time.ISOMillisZ; time.ISOSecondsZ ].

(** The first layout of the list under which [value] parses. *)
Fixpoint parse_first (layouts : list time.Layout) (value : string) : option time.Time :=
  match layouts with
  | [] => None
  | l :: rest =>
      match time.Parse l value with
      | Some t => Some t
      | None => parse_first rest value
      end
  end.

(** A Unix timestamp in seconds that the two parsers take as one. *)
Definition unix_param (param : string) : option Z :=
  match Strs.ParseInt param with
  | Some ts => if (1000000000 <? ts) && (ts <? 9999999999) then Some ts else None
  | None => None
  end.

(** [ParseTimeParam], with the local zone [loc]. *)
Definition ParseTimeParam (loc : Z) (param : string) : string :=
  if negb (nonempty param) then ""
  else
    match unix_param param with
    | Some ts => time.Format_RFC3339 (time.Unix ts loc)
    | None =>
        match parse_first timeParamLayouts param with
        | Some t => time.Format_RFC3339 (time.Local loc t)
        | None => param
        end
    end.

(** [ParseTimeParamToTime]. *)
Definition ParseTimeParamToTime (loc : Z) (param : string) : time.Time :=
  if negb (nonempty param) then time.zero
  else
    match unix_param param with
    | Some ts => time.Unix ts loc
    | None =>
        match parse_first timeParamLayouts param with
        | Some t => time.Local loc t
        | None => time.zero
        end
    end.

(** The timestamp of a stored row, read under the three formats the read
    path tolerates; the zero time when none fits. *)
Definition parse_stored (timestamp : string) : time.Time :=
  let t := time.Parse_or_zero time.RFC3339 timestamp in
  let t := if time.IsZero t then time.Parse_or_zero time.SQLDateTime timestamp else t in
  if time.IsZero t then time.Parse_or_zero time.ISOSecondsZ timestamp else t.

Record ListQuery : Type := mkListQuery {
  q_Page : Z;
  q_PageSize : Z;
  q_APIKey : string;
  q_Model : string;
  q_Provider : string;
  q_StartTime : string;
  q_EndTime : string;
  q_Success : option bool;
  q_Search : string;
  q_SortBy : string;
  q_SortOrder : string
}.

Record ListResult : Type := mkListResult {
  Records : list UsageRecord;
  Total : Z;
  Page : Z;
  PageSize : Z;
  TotalPages : Z
}.

Section ListCode.

(** The SQL engine: whether a row satisfies a WHERE clause under its
    bound arguments, and the rows in the order of an ORDER BY. *)
Variable sql_where : string -> list SqlValue -> Z * Row -> bool.
Variable sql_order : string -> string -> list (Z * Row) -> list (Z * Row).

(** [encoding/json]'s Unmarshal into a header map. *)
Variable json_Unmarshal : string -> option (gmap string string).

Variable loc : Z.

Definition like (s : string) : SqlValue := SqlText ("%" ++ s ++ "%").

(** The conditions of List and their arguments, in the order of the
    source. *)
Definition list_conditions (query : ListQuery) : list (string * list SqlValue) :=
  ((if nonempty (q_APIKey query) then [("api_key LIKE ?", [like (q_APIKey query)])] else [])
   ++ (if nonempty (q_Model query) then [("model LIKE ?", [like (q_Model query)])] else [])
   ++ (if nonempty (q_Provider query)
       then [("provider LIKE ?", [like (q_Provider query)])] else [])
   ++ (if nonempty (q_StartTime query)
       then [("timestamp >= ?", [SqlText (ParseTimeParam loc (q_StartTime query))])] else [])
   ++ (if nonempty (q_EndTime query)
       then [("timestamp <= ?", [SqlText (ParseTimeParam loc (q_EndTime query))])] else [])
   ++ match q_Success query with
      | Some true => [("success = 1", [])]
      | Some false => [("success = 0", [])]
      | None => []
      end
   ++ (if nonempty (q_Search query)
       then [("(model LIKE ? OR provider LIKE ? OR request_url LIKE ? OR api_key LIKE ? OR api_key_masked LIKE ? OR ip LIKE ?)",
              repeat (like (q_Search query)) 6)]
       else []))%list.

Definition where_clause (conditions : list string) : string :=
  if (0 <? List.length conditions)%nat
  then "WHERE " ++ String.concat " AND " conditions
  else "".

Definition sort_column (sortBy : string) : string :=
  if existsb (String.eqb sortBy)
       [ "timestamp"; "model"; "provider"; "total_tokens"; "duration_ms"; "status_code" ]
  then sortBy else "timestamp".

Definition sort_direction (sortOrder : string) : string :=
  if String.eqb (Strs.ToUpper sortOrder) "ASC" then "ASC" else "DESC".

Definition col_text (row : Row) (col : string) : option string :=
  match row !! col with
  | Some (SqlText s) => Some s
  | _ => None
  end.

Definition col_int (row : Row) (col : string) : option Z :=
  match row !! col with
  | Some (SqlInt z) => Some z
  | _ => None
  end.

(** [rows.Scan] into a Record and the decoding that follows it; [None] is
    a scan error, on which List skips the row. *)
Definition scan_record (r : Z * Row) : option UsageRecord :=
  let row := snd r in
  request_id ← col_text row "request_id";
  timestamp ← col_text row "timestamp";
  ip ← col_text row "ip";
  api_key ← col_text row "api_key";
  api_key_masked ← col_text row "api_key_masked";
  model ← col_text row "model";
  provider ← col_text row "provider";
  is_streaming ← col_int row "is_streaming";
  input_tokens ← col_int row "input_tokens";
  output_tokens ← col_int row "output_tokens";
  total_tokens ← col_int row "total_tokens";
  cached_tokens ← col_int row "cached_tokens";
  reasoning_tokens ← col_int row "reasoning_tokens";
  duration_ms ← col_int row "duration_ms";
  status_code ← col_int row "status_code";
  success ← col_int row "success";
  request_url ← col_text row "request_url";
  request_method ← col_text row "request_method";
  request_headers ← col_text row "request_headers";
  request_body ← col_text row "request_body";
  response_headers ← col_text row "response_headers";
  response_body ← col_text row "response_body";
  Some {| rec_ID := fst r;
          rec_RequestID := request_id;
          rec_Timestamp := parse_stored timestamp;
          rec_IP := ip;
          rec_APIKey := api_key;
          rec_APIKeyMasked := api_key_masked;
          rec_Model := model;
          rec_Provider := provider;
          rec_IsStreaming := is_streaming =? 1;
          rec_InputTokens := input_tokens;
          rec_OutputTokens := output_tokens;
          rec_TotalTokens := total_tokens;
          rec_CachedTokens := cached_tokens;
          rec_ReasoningTokens := reasoning_tokens;
          rec_DurationMs := duration_ms;
          rec_StatusCode := status_code;
          rec_Success := success =? 1;
          rec_RequestURL := request_url;
          rec_RequestMethod := request_method;
          rec_RequestHeaders := default ∅ (json_Unmarshal request_headers);
          rec_RequestBody := request_body;
          rec_ResponseHeaders := default ∅ (json_Unmarshal response_headers);
          rec_ResponseBody := response_body |}.

(** [List], without the optional KPI block (computed by GetUsageKPIs from
    the same filter; it touches none of the fields below).  LIMIT and
    OFFSET are the engine's: a negative offset counts as zero. *)
Definition List (s : Store) (query : ListQuery) : result ListResult :=
  if closed s then Err "store is closed"
  else
    let page := if q_Page query <? 1 then 1 else q_Page query in
    let pageSize := if q_PageSize query <? 1 then 20 else q_PageSize query in
    let pageSize := if 100 <? pageSize then 100 else pageSize in
    let conds := list_conditions query in
    let whereClause := where_clause (fst <$> conds) in
    let args := concat (snd <$> conds) in
    if db_failing s then Err "failed to count records"
    else
      let matching :=
        List.filter (sql_where whereClause args) (map_to_list (usage_records s)) in
      let total := Z.of_nat (List.length matching) in
      let sortBy := sort_column (q_SortBy query) in
      let sortOrder := sort_direction (q_SortOrder query) in
      let offset := Int64.mul (page - 1) pageSize in
      let rows :=
        take (Z.to_nat pageSize) (drop (Z.to_nat offset) (sql_order sortBy sortOrder matching)) in
      let records := omap scan_record rows in
      let totalPages := Z.quot (total + pageSize - 1) pageSize in
      Ok {| Records := records;
            Total := total;
            Page := page;
            PageSize := pageSize;
            TotalPages := totalPages |}.

End ListCode.

(** ** KPI trends *)

(** A row of the trend query: a bucket key with its counts. *)
Record aggRow : Type := mkAggRow {
  key : string;
  requests : Z;
  tokens : Z
}.

Record KPITrendPoint : Type := mkPoint {
  T : string;
  V : Z
}.

(** The trend fields of [UsageKPIs]. *)
Record UsageTrend : Type := mkTrend {
  TrendBucket : string;
  RequestsTrend : list KPITrendPoint;
  TokensTrend : list KPITrendPoint
}.

(** [strings.Replace(s, "T", " ", 1)]. *)
Fixpoint replace_first_T (s : string) : string :=
  match s with
  | EmptyString => EmptyString
  | String c rest =>
      if Ascii.eqb c "T" then String " " rest else String c (replace_first_T rest)
  end.

(** A Go map read with a missing key: the zero value. *)
Definition at_key (m : gmap string Z) (label : string) : Z := default 0 (m !! label).

(** The resolved trend window of GetUsageKPIs. *)
Definition trend_window (loc : Z) (now : time.Time) (startTime endTime : string)
  : time.Time * time.Time :=
  let trendStart := ParseTimeParamToTime loc startTime in
  let trendEnd := ParseTimeParamToTime loc endTime in
  let trendEnd := if time.IsZero trendEnd then now else trendEnd in
  let trendStart :=
    if time.IsZero trendStart then time.Add trendEnd (- (24 * time.Hour)) else trendStart in
  if time.After trendStart trendEnd then (trendEnd, trendStart) else (trendStart, trendEnd).

(** The two maps the scan loop fills, one assignment per row. *)
Definition fill_maps (bucket : string) (rows : list aggRow) : gmap string Z * gmap string Z :=
  foldl (fun maps r =>
           let label :=
             if String.eqb bucket "hour" then replace_first_T (key r) ++ ":00" else key r in
           (<[label := requests r]> (fst maps), <[label := tokens r]> (snd maps)))
        (∅, ∅) rows.

(** The loop [for t := first; !t.After(last); t = next(t)] that appends
    one point to each series; [fuel] bounds its turns. *)
Fixpoint dense_loop (fuel : nat) (next : time.Time -> time.Time)
    (label_of : time.Time -> string) (reqs toks : gmap string Z)
    (t last : time.Time) : list KPITrendPoint * list KPITrendPoint :=
  match fuel with
  | O => ([], [])
  | S k =>
      if time.After t last then ([], [])
      else
        let label := label_of t in
        let rest := dense_loop k next label_of reqs toks (next t) last in
        (mkPoint label (at_key reqs label) :: fst rest,
         mkPoint label (at_key toks label) :: snd rest)
  end.

(** The turns the loop takes from [first] to [last] in steps of [step]
    nanoseconds. *)
Definition turns (first last : time.Time) (step : Z) : nat :=
  Z.to_nat ((time.UnixNano last - time.UnixNano first) / step + 1).

Definition midnight (t : time.Time) : time.Time :=
  time.Date (time.Year t) (time.Month t) (time.Day t) 0 0 0 0 (time.offset t).

(** The trend part of [GetUsageKPIs]: the bucket and the two dense
    series.  [trend_query] is the engine's answer to the trend query under
    a bucket key expression; [now] is the clock. *)
Definition GetUsageKPIs_trend (loc : Z) (now : time.Time)
    (trend_query : string -> list aggRow) (startTime endTime : string) : UsageTrend :=
  let '(trendStart, trendEnd) := trend_window loc now startTime endTime in
  let bucket := if 48 * time.Hour <? time.Sub trendEnd trendStart then "day" else "hour" in
  let keyExpr :=
    if String.eqb bucket "day" then "substr(timestamp, 1, 10)"
    else "substr(timestamp, 1, 13)" in
  let '(aggMapRequests, aggMapTokens) := fill_maps bucket (trend_query keyExpr) in
  let series :=
    if String.eqb bucket "day" then
      let startDay := midnight trendStart in
      let endDay := midnight trendEnd in
      dense_loop (turns startDay endDay (24 * time.Hour))
                 (fun d => time.AddDate d 0 0 1) time.Format_day
                 aggMapRequests aggMapTokens startDay endDay
    else
      let startHour := time.Truncate trendStart time.Hour in
      let endHour := time.Truncate trendEnd time.Hour in
      dense_loop (turns startHour endHour time.Hour)
                 (fun h => time.Add h time.Hour) time.Format_hour
                 aggMapRequests aggMapTokens startHour endHour in
  {| TrendBucket := bucket;
     RequestsTrend := fst series;
     TokensTrend := snd series |}.

(** ** The interval timeline *)

Record recordData : Type := mkRecordData {
  timestamp : time.Time;
  model : string
}.

Record IntervalTimelinePoint : Type := mkIntervalPoint {
  X : string;
  Y : Q;
  Model : string
}.

Record IntervalTimelineResult : Type := mkIntervalResult {
  AnalysisPeriodHours : Z;
  TotalPoints : Z;
  Points : list IntervalTimelinePoint;
  Models : gset string
}.

(** The scan loop: rows whose timestamp reads as the zero time are
    skipped. *)
Definition scan_rows (rows : list (string * string)) : list recordData :=
  omap (fun row =>
          let ts := parse_stored (fst row) in
          if time.IsZero ts then None else Some (mkRecordData ts (snd row))) rows.

(** The interval in minutes between a record and the one before it. *)
Definition interval_of (prev cur : recordData) : Q :=
  Minutes (time.Sub (timestamp cur) (timestamp prev)).

Definition point_of (prev cur : recordData) : IntervalTimelinePoint :=
  let interval := interval_of prev cur in
  {| X := time.Format_RFC3339 (timestamp cur);
     Y := f64.div (f64.of_int (f64.to_int (f64.mul interval (f64.of_int 100)))) (f64.of_int 100);
     Model := model cur |}.

(** The loop over [records[1:]], [prev] being the record before. *)
Fixpoint interval_points (prev : recordData) (rest : list recordData)
  : list IntervalTimelinePoint :=
  match rest with
  | [] => []
  | cur :: rest' =>
      if f64.gt (interval_of prev cur) (f64.of_int 120) then interval_points cur rest'
      else point_of prev cur :: interval_points cur rest'
  end.

Definition all_points (records : list recordData) : list IntervalTimelinePoint :=
  match records with
  | [] => []
  | first :: rest => interval_points first rest
  end.

(** The index the sampling loop reads at turn [i]. *)
Definition sample_index (n limit i : Z) : Z :=
  let step := f64.div (f64.of_int n) (f64.of_int limit) in
  f64.to_int (f64.mul (f64.of_int i) step).

(** The even sampling down to [limit] points. *)
Definition sample (points : list IntervalTimelinePoint) (limit : Z)
  : list IntervalTimelinePoint :=
  let n := Z.of_nat (List.length points) in
  if limit <? n then
    omap (fun i =>
            let idx := sample_index n limit i in
            if idx <? n then points !! Z.to_nat idx else None)
         (seqZ 0 limit)
  else points.

Definition models_of (points : list IntervalTimelinePoint) : gset string :=
  list_to_set (List.filter nonempty (Model <$> points)).

Definition clamp_hours (hours : Z) : Z :=
  let hours := if hours <? 1 then 24 else hours in
  if 720 <? hours then 720 else hours.

Definition clamp_limit (limit : Z) : Z :=
  let limit := if limit <? 1 then 5000 else limit in
  if 10000 <? limit then 10000 else limit.

(** [GetIntervalTimeline]: [query] is the engine's answer (timestamp and
    model of the successful rows from the bound start time on, ascending
    by timestamp); [None] stands for its error. *)
Definition GetIntervalTimeline (s : Store) (now : time.Time)
    (query : string -> option (list (string * string))) (hours limit : Z)
  : result IntervalTimelineResult :=
  if closed s then Err "store is closed"
  else
    let hours := clamp_hours hours in
    let limit := clamp_limit limit in
    let startTime := time.Add now (- (hours * time.Hour)) in
    match query (time.Format_RFC3339 startTime) with
    | None => Err "failed to query interval timeline"
    | Some rows =>
        let records := scan_rows rows in
        let points := all_points records in
        let sampled := sample points limit in
        Ok {| AnalysisPeriodHours := hours;
              TotalPoints := Z.of_nat (List.length sampled);
              Points := sampled;
              Models := models_of points |}
    end.

(** ** What a patch asks of a column

    The reading of a patch the specification gives: a column is written
    exactly when the field that goes to it is not nil, with the encoding of
    the field's value. *)
Definition patch_value (json_Marshal : gmap string string -> string)
    (patch : RecordPatch) (col : string) : option SqlValue :=
  if String.eqb col "timestamp"
  then (fun t => SqlText (time.Format_RFC3339 t)) <$> patch_Timestamp patch
  else if String.eqb col "ip" then SqlText <$> patch_IP patch
  else if String.eqb col "api_key" then SqlText <$> patch_APIKey patch
  else if String.eqb col "api_key_masked" then SqlText <$> patch_APIKeyMasked patch
  else if String.eqb col "model" then SqlText <$> patch_Model patch
  else if String.eqb col "provider" then SqlText <$> patch_Provider patch
  else if String.eqb col "is_streaming"
  then (fun b => SqlInt (bool_int b)) <$> patch_IsStreaming patch
  else if String.eqb col "input_tokens" then SqlInt <$> patch_InputTokens patch
  else if String.eqb col "output_tokens" then SqlInt <$> patch_OutputTokens patch
  else if String.eqb col "total_tokens" then SqlInt <$> patch_TotalTokens patch
  else if String.eqb col "cached_tokens" then SqlInt <$> patch_CachedTokens patch
  else if String.eqb col "reasoning_tokens" then SqlInt <$> patch_ReasoningTokens patch
  else if String.eqb col "duration_ms" then SqlInt <$> patch_DurationMs patch
  else if String.eqb col "status_code" then SqlInt <$> patch_StatusCode patch
  else if String.eqb col "success"
  then (fun b => SqlInt (bool_int b)) <$> patch_Success patch
  else if String.eqb col "request_url" then SqlText <$> patch_RequestURL patch
  else if String.eqb col "request_method" then SqlText <$> patch_RequestMethod patch
  else if String.eqb col "request_headers"
  then (fun h => SqlText (json_Marshal h)) <$> patch_RequestHeaders patch
  else if String.eqb col "request_body" then SqlText <$> patch_RequestBody patch
  else if String.eqb col "response_headers"
  then (fun h => SqlText (json_Marshal h)) <$> patch_ResponseHeaders patch
  else if String.eqb col "response_body" then SqlText <$> patch_ResponseBody patch
  else None.

(** The columns a patch can write. *)
Definition all_columns : list string :=
  [ "timestamp"; "ip"; "api_key"; "api_key_masked"; "model"; "provider"; "is_streaming";
    "input_tokens"; "output_tokens"; "total_tokens"; "cached_tokens"; "reasoning_tokens";
    "duration_ms"; "status_code"; "success"; "request_url"; "request_method";
    "request_headers"; "request_body"; "response_headers"; "response_body" ].

(** The value of a column of a row of [usage_records], if the row exists
    and has the column. *)
Definition cell (s : Store) (id : Z) (col : string) : option SqlValue :=
  usage_records s !! id ≫= (fun row => row !! col).

(** ** Concrete collaborators and inputs

    Used by the examples, witnesses and counterexamples below. *)

Definition quote : string := String (ascii_of_nat 34) "".

(** A JSON object of a header map, without escapes. *)
Definition demo_marshal (h : gmap string string) : string :=
  "{" ++ String.concat ","
           ((fun kv => quote ++ fst kv ++ quote ++ ":" ++ quote ++ snd kv ++ quote)
              <$> map_to_list h) ++ "}".

Definition demo_sprint (v : any) : string :=
  match v with
  | VBytes b => b
  | VBool b => if b then "true" else "false"
  | VInt64 z | VInt z => Strs.Itoa z
  | _ => "?"
  end.

Definition demo_request : Request :=
  mkRequest "POST" "/v1/chat/completions"
    {[ "Authorization" := ["Bearer sk-test-1234567890"];
       "Content-Type" := ["application/json"] ]}.

(** A request context whose writer holds [status], with nothing captured. *)
Definition demo_context (status : Z) : GinContext :=
  mkGin (Some demo_request) (mkWriter status ∅) ∅ [] "10.0.0.7" "abc".

Definition demo_start : time.Time := time.Unix 1736582400 0.
Definition demo_now : time.Time := time.Unix 1736582401 0.

Definition demo_pending : UsageRecord :=
  pending_record "abc" demo_start "10.0.0.7" "m1" "/v1/chat/completions" "POST"
                 (captureHeadersBestEffort (req_Header demo_request)) "{}".

Definition empty_store : Store :=
  mkStore false false ∅ 0 ∅ 0 (Some (mkQueryCache 30000000000 ∅)) (Some []).

(** The store after the entry middleware inserted the pending record: its
    row has id 1. *)
Definition demo_store : Store := fst (Insert demo_marshal empty_store demo_pending).

Definition demo_event : UsageEvent :=
  mkEvent "sk-test-1234567890" "openai" "m1" demo_start false (mkDetail 10 20 0 0 999).

(** The usage event with another total reported by the API. *)
Definition with_reported_total (ev : UsageEvent) (total : Z) : UsageEvent :=
  mkEvent (ev_APIKey ev) (ev_Provider ev) (ev_Model ev) (ev_RequestedAt ev) (ev_Failed ev)
          (mkDetail (InputTokens (ev_Detail ev)) (OutputTokens (ev_Detail ev))
                    (ReasoningTokens (ev_Detail ev)) (CachedTokens (ev_Detail ev)) total).

Definition demo_patch : RecordPatch :=
  mkPatch None (Some "10.0.0.9") None None None (Some "openai") None None None None None
          None None (Some 200) (Some true) None None None None None None.

(** ** The fallback order of the response body, as the specification
    lists it (section 4.5.1), with the guard each source carries *)

Section BodySources.

Variable Sprint_other : any -> string.

Definition not_blank (s : string) : bool := nonempty (Strs.TrimSpace s).

(** Keeps [s] when [ok] holds. *)
Definition only_if (ok : bool) (s : string) : option string :=
  if ok then Some s else None.

(** [response_body_for_log]: a non-empty byte slice, or a non-blank string. *)
Definition source_captured (c : GinContext) : option string :=
  match gin_Keys c !! "response_body_for_log" with
  | Some (VBytes t) => only_if (nonempty t) t
  | Some (VString t) => only_if (not_blank t) t
  | _ => None
  end.

(** [API_RESPONSE]: non-blank raw bytes. *)
Definition source_upstream (c : GinContext) : option string :=
  match gin_Keys c !! "API_RESPONSE" with
  | Some (VBytes b) => only_if (not_blank b) b
  | _ => None
  end.

(** The recovered panic message, trimmed, when it is not blank. *)
Definition source_panic (c : GinContext) (recovered : bool) : option string :=
  if recovered then
    v ← gin_Keys c !! ginUsageRecordPanicKey;
    only_if (not_blank (fmt_Sprint Sprint_other v))
            (Strs.TrimSpace (fmt_Sprint Sprint_other v))
  else None.

(** The collected framework errors, trimmed. *)
Definition source_errors (c : GinContext) : option string :=
  match gin_Errors c with
  | [] => None
  | errs => only_if (not_blank (Errors_String errs)) (Strs.TrimSpace (Errors_String errs))
  end.

(** The synthesized line for a final status of 400 or more; a panic makes
    the final status 500, and a status without a standard reason gives the
    line without one. *)
Definition source_status (c : GinContext) (recovered : bool) : option string :=
  let status := if recovered then 500 else w_Status (gin_Writer c) in
  if 400 <=? status then
    Some (if not_blank (StatusText status)
          then "HTTP " ++ Strs.Itoa status ++ " " ++ Strs.TrimSpace (StatusText status)
          else "HTTP " ++ Strs.Itoa status)
  else None.

Definition fallback_order (c : GinContext) (recovered : bool) : list (option string) :=
  [ source_captured c; source_upstream c; source_panic c recovered;
    source_errors c; source_status c recovered ].

(** The first source that has something, the empty string when none has. *)
Fixpoint first_of (sources : list (option string)) : string :=
  match sources with
  | [] => ""
  | Some s :: _ => s
  | None :: rest => first_of rest
  end.

End BodySources.

(** A routing event whose status carries blanks around the word. *)
Definition demo_candidate : Candidate :=
  mkCandidateEvent "r1" "openai" "auth-1" "auth-1.json" " failed " 0 true 120 "" 0 0.

(** The query with other pagination values. *)
Definition with_paging (query : ListQuery) (page pageSize : Z) : ListQuery :=
  mkListQuery page pageSize (q_APIKey query) (q_Model query) (q_Provider query)
              (q_StartTime query) (q_EndTime query) (q_Success query) (q_Search query)
              (q_SortBy query) (q_SortOrder query).

(** ** Checks and readings used in the statements *)

(** The check that a day of an era has a month in 1..12 and that counting
    the days of its civil date gives the day back. *)
Definition civil_day_ok (doe : Z) : bool :=
  let '(y, m, d) := time.civil_of_era 0 doe in
  (time.days_from_civil y m 1 + (d - 1) =? doe - 719468) && (1 <=? m) && (m <=? 12)
  && (0 <=? (if m <=? 2 then y - 1 else y)) && ((if m <=? 2 then y - 1 else y) <? 400).

Fixpoint all_from (f : Z -> bool) (count : nat) (z : Z) : bool :=
  match count with
  | O => true
  | S k => f z && all_from f k (z + 1)
  end.

(** The series a dense loop is to give: [n] points, one per [step]
    nanoseconds from [first] on, each carrying what the map holds under its
    label, zero when it holds nothing. *)
Definition dense_series (label_of : time.Time -> string) (m : gmap string Z)
    (first : time.Time) (step n : Z) : list KPITrendPoint :=
  (fun k => let label := label_of (time.Add first (k * step)) in
            mkPoint label (at_key m label)) <$> seqZ 0 n.

(** The label under which the scan loop files a row of the trend query. *)
Definition row_label (bucket : string) (r : aggRow) : string :=
  if String.eqb bucket "hour" then replace_first_T (key r) ++ ":00" else key r.

(** ** The timeline in the words of its specification *)

(** The consecutive pairs of the records: each record but the first,
    with the record before it. *)
Definition consecutive (records : list recordData) : list (recordData * recordData) :=
  zip records (tail records).

(** The time from the first record of a pair to the second, in
    nanoseconds. *)
Definition gap (p : recordData * recordData) : Z :=
  time.UnixNano (timestamp p.2) - time.UnixNano (timestamp p.1).

(** The records are in ascending order of their instants. *)
Definition ascending (records : list recordData) : bool :=
  forallb (fun p => 0 <=? gap p) (consecutive records).

Definition within_two_hours (p : recordData * recordData) : bool :=
  gap p <=? 120 * time.Minute.

Definition point_of_pair (p : recordData * recordData) : IntervalTimelinePoint :=
  point_of p.1 p.2.

(** The second record of [p] is no later than the second record of [q]:
    the order of the points by their [x]. *)
Definition no_later (p q : recordData * recordData) : Prop :=
  time.UnixNano (timestamp p.2) <= time.UnixNano (timestamp q.2).

(** Rows a minute apart, [count] of them, from the Unix epoch on. *)
Definition minute_rows (count : Z) : list (string * string) :=
  (fun i => (time.Format_RFC3339 (time.of_nanos (i * time.Minute) 0), "m")) <$> seqZ 0 count.

(** Two rows with the same timestamp. *)
Definition twin_rows : list (string * string) :=
  [("2025-01-11T08:00:00Z", "m1"); ("2025-01-11T08:00:00Z", "m1")].

(** ** More of the package

    The write queue, the single reads, the deletions, the query cache,
    the middleware at entry and the management handlers. *)

(** The string holds ASCII bytes only, as the names of HTTP header
    fields do. *)
Definition ascii_only (s : string) : bool :=
  forallb (fun c => (nat_of_ascii c <? 128)%nat) (list_ascii_of_string s).

(** ** The write queue, both kinds of task *)

(** [EnqueueRequestCandidate]. *)
Definition EnqueueRequestCandidate (s : Store) (candidate : RequestCandidate) : Store * bool :=
  try_send s (writeTaskInsertRequestCandidate candidate).

(** The enqueue function that makes a task of each kind. *)
Definition enqueue (s : Store) (task : writeTask) : Store * bool :=
  match task with
  | writeTaskInsertUsageRecord r => EnqueueUsageRecord s r
  | writeTaskInsertRequestCandidate c => EnqueueRequestCandidate s c
  end.

(** The insert a task stands for, made at once. *)
Definition run_task (json_Marshal : gmap string string -> string) (s : Store)
    (task : writeTask) : Store :=
  match task with
  | writeTaskInsertUsageRecord r => fst (Insert json_Marshal s r)
  | writeTaskInsertRequestCandidate c => fst (InsertRequestCandidate s c)
  end.

(** [writeLoop] until it has received [turns] tasks. *)
Fixpoint writeLoop (json_Marshal : gmap string string -> string) (turns : nat) (s : Store)
  : Store :=
  match turns with
  | O => s
  | S k => writeLoop json_Marshal k (writeLoop_step json_Marshal s)
  end.

(** ** Reading one record *)

(** [GetByID]: no row under the id is [nil, nil]. *)
Definition GetByID (json_Unmarshal : string -> option (gmap string string)) (s : Store)
    (id : Z) : result (option UsageRecord) :=
  if closed s then Err "store is closed"
  else if db_failing s then Err "failed to get record"
  else
    match usage_records s !! id with
    | None => Ok None
    | Some row =>
        match scan_record json_Unmarshal (id, row) with
        | Some r => Ok (Some r)
        | None => Err "failed to get record"
        end
    end.

(** ** Deleting old records *)

(** The comparison [timestamp < ?] as the engine decides it for a stored
    value against a text: text against text goes byte by byte, a number
    sorts before every text, and NULL is below nothing. *)
Definition sql_lt_text (v : option SqlValue) (bound : string) : bool :=
  match v with
  | Some (SqlText t) => String.ltb t bound
  | Some (SqlInt _) => true
  | None => false
  end.

Definition older_than (cutoff : string) (row : Row) : bool :=
  sql_lt_text (row !! "timestamp") cutoff.

(** [DeleteOlderThan], with the clock at the call. *)
Definition DeleteOlderThan (s : Store) (now : time.Time) (age : Z) : Store * result Z :=
  if closed s then (s, Err "store is closed")
  else
    let cutoff := time.Format_RFC3339 (time.Add now (Int64.sub 0 age)) in
    if db_failing s then (s, Err "failed to delete old records")
    else
      let kept := filter (fun kv => older_than cutoff kv.2 = false) (usage_records s) in
      (with_usage_records s kept (last_usage_id s),
       Ok (Z.of_nat (size (usage_records s)) - Z.of_nat (size kept))).

(** [Close]: the error, if any, is that of closing the database. *)
Definition Close (s : Store) : Store * result unit :=
  if closed s then (s, Ok tt)
  else
    (mkStore true (db_failing s) (usage_records s) (last_usage_id s)
             (request_candidates s) (last_candidate_id s) (cache s) (writeQueue s),
     if db_failing s then Err "close" else Ok tt).

(** ** Looking up the query cache *)

(** [newQueryCache]. *)
Definition newQueryCache (ttl : Z) : option queryCache :=
  if ttl <=? 0 then None else Some (mkQueryCache ttl ∅).

(** The value under [key] when its entry has not expired at [now]. *)
Definition unexpired (c : queryCache) (key : string) (now : time.Time) : option any :=
  match entries c !! key with
  | Some entry => if time.Before now (expiresAt entry) then Some (value entry) else None
  | None => None
  end.

(** [get] for one caller at a time: [fn] is what the function computes
    when it is called, and [now1], [now2], [now3] are the three readings of
    the clock, in the order the method takes them. *)
Definition get (c : option queryCache) (key : string) (fn : result any)
    (now1 now2 now3 : time.Time) : option queryCache * result any :=
  match c with
  | None => (None, fn)
  | Some qc =>
      if ttl qc <=? 0 then (c, fn)
      else
        match unexpired qc key now1 with
        | Some v => (c, Ok v)
        | None =>
            match unexpired qc key now2 with
            | Some v => (c, Ok v)
            | None =>
                match fn with
                | Err msg => (c, Err msg)
                | Ok v =>
                    (Some (mkQueryCache (ttl qc)
                             (<[key := mkCacheEntry (time.Add now3 (ttl qc)) v]> (entries qc))),
                     Ok v)
                end
            end
        end
  end.

(** ** Readings of the store used in the statements *)

(** No row has an id beyond the last one the engine gave: what
    AUTOINCREMENT keeps. *)
Definition ids_bounded (s : Store) : Prop :=
  ∀ id, is_Some (usage_records s !! id) → id <= last_usage_id s.

(** The record as it reads after a stay in the table under [id]: the
    timestamp has gone through its RFC3339 text and back. *)
Definition stored_as (record : UsageRecord) (id : Z) : UsageRecord :=
  {| rec_ID := id;
     rec_RequestID := rec_RequestID record;
     rec_Timestamp := parse_stored (time.Format_RFC3339 (rec_Timestamp record));
     rec_IP := rec_IP record;
     rec_APIKey := rec_APIKey record;
     rec_APIKeyMasked := rec_APIKeyMasked record;
     rec_Model := rec_Model record;
     rec_Provider := rec_Provider record;
     rec_IsStreaming := rec_IsStreaming record;
     rec_InputTokens := rec_InputTokens record;
     rec_OutputTokens := rec_OutputTokens record;
     rec_TotalTokens := rec_TotalTokens record;
     rec_CachedTokens := rec_CachedTokens record;
     rec_ReasoningTokens := rec_ReasoningTokens record;
     rec_DurationMs := rec_DurationMs record;
     rec_StatusCode := rec_StatusCode record;
     rec_Success := rec_Success record;
     rec_RequestURL := rec_RequestURL record;
     rec_RequestMethod := rec_RequestMethod record;
     rec_RequestHeaders := rec_RequestHeaders record;
     rec_RequestBody := rec_RequestBody record;
     rec_ResponseHeaders := rec_ResponseHeaders record;
     rec_ResponseBody := rec_ResponseBody record |}.

(** A pending record without headers, and a JSON codec for header maps
    that is right on the empty map. *)
Definition demo_plain : UsageRecord :=
  pending_record "abc" demo_start "10.0.0.7" "m1" "/v1/chat/completions" "POST" ∅ "{}".

Definition empty_marshal (h : gmap string string) : string := "{}".

Definition empty_unmarshal (text : string) : option (gmap string string) :=
  if String.eqb text "{}" then Some ∅ else None.

(** An empty cache with a ttl of thirty seconds. *)
Definition demo_cache : queryCache := mkQueryCache (30 * time.Second) ∅.

(** The time parameter is one the two parsers understand: a Unix time in
    their range, or a text under one of the four layouts. *)
Definition understood (param : string) : bool :=
  nonempty param
  && (bool_decide (is_Some (unix_param param))
      || bool_decide (is_Some (parse_first timeParamLayouts param))).

(** The number of bytes [c] in [s]. *)
Fixpoint count_byte (c : ascii) (s : string) : nat :=
  match s with
  | EmptyString => 0
  | String a rest => (if Ascii.eqb a c then 1 else 0) + count_byte c rest
  end.

(** ** The snapshot file's own trimming *)

(** The four blanks [stringsTrimSpace] knows: space, tab, line feed and
    carriage return. *)
Definition is_blank (r : ascii) : bool :=
  Ascii.eqb r " " || Ascii.eqb r (ascii_of_nat 9) || Ascii.eqb r (ascii_of_nat 10)
  || Ascii.eqb r (ascii_of_nat 13).

(** The first loop: [value = value[1:]] while the first byte is a
    blank. *)
Fixpoint drop_leading (value : string) : string :=
  match value with
  | EmptyString => value
  | String r rest => if is_blank r then drop_leading rest else value
  end.

(** The second loop: [value = value[:len(value)-1]] while the last byte
    is a blank; [fuel] bounds its turns. *)
Fixpoint drop_trailing (fuel : nat) (value : string) : string :=
  match fuel with
  | O => value
  | S k =>
      let n := String.length value in
      if (0 <? n)%nat then
        match String.get (n - 1) value with
        | Some r =>
            if is_blank r then drop_trailing k (String.substring 0 (n - 1) value)
            else value
        | None => value
        end
      else value
  end.

(** [stringsTrimSpace]. *)
Definition stringsTrimSpace (value : string) : string :=
  if String.eqb value "" then ""
  else
    let value := drop_leading value in
    drop_trailing (String.length value) value.

(** Every byte of the string is one of the four blanks. *)
Fixpoint all_blank (s : string) : bool :=
  match s with
  | EmptyString => true
  | String r rest => is_blank r && all_blank rest
  end.

(** The first and the last byte of a string. *)
Definition first_byte (s : string) : option ascii := String.get 0 s.
Definition last_byte (s : string) : option ascii := String.get (String.length s - 1) s.

(** ** The model of a request *)

(** [strings.HasPrefix], [strings.TrimPrefix] and [strings.Index]. *)
Definition HasPrefix (s prefix : string) : bool := String.prefix prefix s.

Definition TrimPrefix (s prefix : string) : string :=
  if HasPrefix s prefix
  then String.substring (String.length prefix) (String.length s - String.length prefix) s
  else s.

Fixpoint Index_from (i : nat) (s substr : string) : Z :=
  if String.prefix substr s then Z.of_nat i
  else match s with
       | EmptyString => -1
       | String _ rest => Index_from (S i) rest substr
       end.

Definition Index (s substr : string) : Z := Index_from 0 s substr.

(** [extractModelBestEffort]; [gjson_model] stands for
    [gjson.GetBytes(body, "model").String()]. *)
Definition extractModelBestEffort (gjson_model : string -> string) (path body : string)
  : string :=
  let trimmedPath := Strs.TrimSpace path in
  if HasPrefix trimmedPath "/v1beta/models/" then
    let rest := TrimPrefix trimmedPath "/v1beta/models/" in
    let rest := TrimPrefix rest "/" in
    if negb (nonempty rest) then ""
    else
      let idx := Index rest "/" in
      let rest := if 0 <=? idx then Strs.slice rest 0 (Z.to_nat idx) else rest in
      let idx := Index rest ":" in
      let rest := if 0 <=? idx then Strs.slice rest 0 (Z.to_nat idx) else rest in
      Strs.TrimSpace rest
  else if (String.length body =? 0)%nat then ""
  else Strs.TrimSpace (gjson_model body).

(** The part of [s] before its first byte [c]; all of [s] when it has
    none. *)
Fixpoint before (c : ascii) (s : string) : string :=
  match s with
  | EmptyString => EmptyString
  | String a rest => if Ascii.eqb a c then EmptyString else String a (before c rest)
  end.

(** ** Reading the candidates of a request *)

Section Candidates.

(** The engine's ORDER BY candidate_index ASC, retry_index ASC. *)
Variable sql_order_candidates : list (Z * Row) -> list (Z * Row).

(** [rows.Scan] into a RequestCandidate and the decoding after it. *)
Definition scan_candidate (r : Z * Row) : option RequestCandidate :=
  let row := snd r in
  request_id ← col_text row "request_id";
  timestamp ← col_text row "timestamp";
  provider ← col_text row "provider";
  api_key ← col_text row "api_key";
  api_key_masked ← col_text row "api_key_masked";
  status ← col_text row "status";
  status_code ← col_int row "status_code";
  success ← col_int row "success";
  duration_ms ← col_int row "duration_ms";
  error_message ← col_text row "error_message";
  candidate_index ← col_int row "candidate_index";
  retry_index ← col_int row "retry_index";
  Some {| cand_ID := fst r;
          cand_RequestID := request_id;
          cand_Timestamp := parse_stored timestamp;
          cand_Provider := provider;
          cand_APIKey := api_key;
          cand_APIKeyMasked := api_key_masked;
          cand_Status := status;
          cand_StatusCode := status_code;
          cand_Success := success =? 1;
          cand_DurationMs := duration_ms;
          cand_ErrorMessage := error_message;
          cand_CandidateIndex := candidate_index;
          cand_RetryIndex := retry_index |}.

(** The filter [request_id = ?]. *)
Definition request_is (requestID : string) (r : Z * Row) : bool :=
  match snd r !! "request_id" with
  | Some (SqlText t) => String.eqb t requestID
  | _ => false
  end.

(** [GetRequestCandidates]: a row that does not scan is skipped. *)
Definition GetRequestCandidates (s : Store) (requestID : string)
  : result (list RequestCandidate) :=
  if closed s then Err "store is closed"
  else if db_failing s then Err "failed to query request candidates"
  else
    Ok (omap scan_candidate
          (sql_order_candidates
             (List.filter (request_is requestID) (map_to_list (request_candidates s))))).

End Candidates.

(** The order of the candidates: by candidate index, then by retry
    index. *)
Definition key_le (a b : Z * Z) : Prop := a.1 < b.1 ∨ (a.1 = b.1 ∧ a.2 <= b.2).

Definition row_key (r : Z * Row) : Z * Z :=
  (default 0 (col_int r.2 "candidate_index"), default 0 (col_int r.2 "retry_index")).

Definition candidate_key (c : RequestCandidate) : Z * Z :=
  (cand_CandidateIndex c, cand_RetryIndex c).

Definition rows_in_order (a b : Z * Row) : Prop := key_le (row_key a) (row_key b).

(** The candidate as it reads after a stay in the table under [id]. *)
Definition candidate_stored_as (candidate : RequestCandidate) (id : Z) : RequestCandidate :=
  {| cand_ID := id;
     cand_RequestID := cand_RequestID candidate;
     cand_Timestamp := parse_stored (time.Format_RFC3339 (cand_Timestamp candidate));
     cand_Provider := cand_Provider candidate;
     cand_APIKey := cand_APIKey candidate;
     cand_APIKeyMasked := cand_APIKeyMasked candidate;
     cand_Status := cand_Status candidate;
     cand_StatusCode := cand_StatusCode candidate;
     cand_Success := cand_Success candidate;
     cand_DurationMs := cand_DurationMs candidate;
     cand_ErrorMessage := cand_ErrorMessage candidate;
     cand_CandidateIndex := cand_CandidateIndex candidate;
     cand_RetryIndex := cand_RetryIndex candidate |}.

#[global] Instance rows_in_order_dec : RelDecision rows_in_order.
Proof. intros a b. unfold rows_in_order, key_le. apply _. Defined.

(** An engine that orders the rows by a merge sort. *)
Definition merge_order (rows : list (Z * Row)) : list (Z * Row) :=
  merge_sort rows_in_order rows.

(** A candidate of request r1, as the hook records it. *)
Definition demo_stored_candidate : RequestCandidate :=
  mkCandidate 0 "r1" demo_now "openai" "auth-1" "auth-1.json" "failed" 502 false 120 "" 0 0.

(** ** The retention cleaner *)

Definition defaultRetentionBatchSize : Z := 1000.

Section Retention.

(** The engine's ORDER BY timestamp ASC over the rows it is given. *)
Variable sql_order_timestamp : list (Z * Row) -> list (Z * Row).

(** [deleteOlderThanCutoffBatch]: the rows deleted are the first
    [batchSize] of the rows below the cutoff, in the engine's order. *)
Definition deleteOlderThanCutoffBatch (s : Store) (cutoff : string) (batchSize : Z)
  : Store * result Z :=
  let batchSize := if batchSize <=? 0 then defaultRetentionBatchSize else batchSize in
  if closed s then (s, Err "store is closed")
  else if db_failing s then (s, Err "failed to delete")
  else
    let older :=
      List.filter (fun r => older_than cutoff r.2) (map_to_list (usage_records s)) in
    let chosen := take (Z.to_nat batchSize) (sql_order_timestamp older) in
    let kept := filter (fun kv => kv.1 ∉ chosen.*1) (usage_records s) in
    (with_usage_records s kept (last_usage_id s),
     Ok (Z.of_nat (size (usage_records s)) - Z.of_nat (size kept))).

(** The loop of [runOnce], at most [fuel] turns of it.  [alive k] says
    whether at the top of turn [k] the context has not expired and the run
    time is not used up, and [stopped k] whether the cleaner is stopped
    during the pause after turn [k]. *)
Fixpoint retention_loop (fuel turn : nat) (alive stopped : nat -> bool) (s : Store)
    (cutoff : string) (batchSize : Z) (totalDeleted : Z) : Store * Z :=
  match fuel with
  | O => (s, totalDeleted)
  | S fuel' =>
      if negb (alive turn) then (s, totalDeleted)
      else
        match deleteOlderThanCutoffBatch s cutoff batchSize with
        | (s', Err _) => (s', totalDeleted)
        | (s', Ok deleted) =>
            if deleted =? 0 then (s', totalDeleted)
            else
              let totalDeleted := Int64.add totalDeleted deleted in
              if stopped turn then (s', totalDeleted)
              else retention_loop fuel' (S turn) alive stopped s' cutoff batchSize
                                  totalDeleted
        end
  end.

(** The cutoff of a run that starts at [now]. *)
Definition retention_cutoff (days : Z) (now : time.Time) : string :=
  time.Format_RFC3339
    (time.Add now (Int64.mul (Int64.mul (Int64.sub 0 days) 24) time.Hour)).

(** [runOnce] of a cleaner on [store] (nil when [None]) with
    [retentionDays] days, the batch size, pause and run time being the
    defaults NewRetentionCleaner sets. *)
Definition runOnce (fuel : nat) (store : option Store) (retentionDays : Z) (now : time.Time)
    (alive stopped : nat -> bool) : option Store :=
  match store with
  | None => None
  | Some s =>
      if retentionDays <=? 0 then Some s
      else
        Some (fst (retention_loop fuel 0 alive stopped s (retention_cutoff retentionDays now)
                                  defaultRetentionBatchSize 0))
  end.

End Retention.

(** The rows of the store whose timestamp is below the cutoff. *)
Definition rows_below (cutoff : string) (s : Store) : gmap Z Row :=
  filter (fun kv => older_than cutoff kv.2 = true) (usage_records s).

(** ** The middleware, entry to exit *)

(** What the middleware reads off the request beyond its method and
    headers: the path and the raw query of the URL, and what reading the
    body gives ([None] for a nil body, an error when the read fails). *)
Record Wire : Type := mkWire {
  url_Path : string;
  url_RawQuery : string;
  wire_Body : option (result string)
}.

(** [captureRequestBodyBestEffort]: the bytes the logging layer cached,
    else the body read off the request. *)
Definition captureRequestBodyBestEffort (c : GinContext) (w : Wire) : string :=
  let read :=
    match gin_Request c, wire_Body w with
    | Some _, Some (Ok bodyBytes) => bodyBytes
    | _, _ => ""
    end in
  match gin_Get c "request_body_for_log" with
  | Some (VBytes bodyBytes) => if (0 <? String.length bodyBytes)%nat then bodyBytes else read
  | _ => read
  end.

(** The rest of the handler chain, [c.Next()]: what it makes of the
    default store and of the context, and the value it panics with, if it
    does. *)
Definition Handler : Type :=
  option Store -> GinContext -> option Store * GinContext * option any.

Section Entry.

Variable json_Marshal : gmap string string -> string.
Variable Sprint_other : any -> string.
(** [util.MaskSensitiveQuery] and [gjson.GetBytes(body, "model").String()]. *)
Variable MaskSensitiveQuery : string -> string.
Variable gjson_model : string -> string.

(** The URL the middleware records: the path and the masked query. *)
Definition recorded_url (w : Wire) : string :=
  let masked := MaskSensitiveQuery (url_RawQuery w) in
  if nonempty masked then url_Path w ++ "?" ++ masked else url_Path w.

(** Whether the middleware tracks the request: there is a default store
    and a request, the logging layer gave a request id, and the method is
    neither GET nor OPTIONS. *)
Definition tracked (default_store : option Store) (c : GinContext) : bool :=
  match default_store, gin_Request c with
  | Some _, Some req =>
      nonempty (gin_RequestID c)
      && negb (String.eqb (req_Method req) "GET" || String.eqb (req_Method req) "OPTIONS")
  | _, _ => false
  end.

(** [GinUsageRecordMiddleware]: [start] and [finish] are the clock at
    entry and in the deferred function; the result is the default store and
    the context after the request, and the value the middleware panics with
    again. *)
Definition GinUsageRecordMiddleware (default_store : option Store) (c : GinContext)
    (w : Wire) (start finish : time.Time) (next : Handler)
  : option Store * GinContext * option any :=
  match default_store, gin_Request c with
  | Some store, Some req =>
      let requestID := gin_RequestID c in
      if negb (nonempty requestID) then next default_store c
      else if String.eqb (req_Method req) "GET" || String.eqb (req_Method req) "OPTIONS"
      then next default_store c
      else
        let c := gin_Set c ginUsageRecordStartKey (VTime start) in
        let requestURL := recorded_url w in
        let requestBody := captureRequestBodyBestEffort c w in
        let requestHeaders := captureHeadersBestEffort (req_Header req) in
        let model := extractModelBestEffort gjson_model (url_Path w) requestBody in
        let rec :=
          pending_record requestID start (gin_ClientIP c) model requestURL (req_Method req)
                         requestHeaders requestBody in
        let '(store, errInsert) := Insert json_Marshal store rec in
        let recID := match errInsert with Ok id => id | Err _ => 0 end in
        let c :=
          match errInsert with
          | Ok id => gin_Set c ginUsageRecordIDKey (VInt64 id)
          | Err _ => c
          end in
        let '(after, c, recovered) := next (Some store) c in
        let c' :=
          match recovered with
          | Some v => gin_Set c ginUsageRecordPanicKey (VString (fmt_Sprint Sprint_other v))
          | None => c
          end in
        ((fun st =>
            middleware_exit json_Marshal Sprint_other st c recID start requestURL
                            requestHeaders requestBody recovered finish) <$> after,
         c', recovered)
  | _, _ => next default_store c
  end.

End Entry.

(** ** The management handlers *)

(** The query string of a request, by key: [c.Query] gives the empty
    string for a key that is not there, [c.DefaultQuery] the default. *)
Definition Query (query : gmap string string) (key : string) : string :=
  default "" (query !! key).

Definition DefaultQuery (query : gmap string string) (key defaultValue : string) : string :=
  default defaultValue (query !! key).

(** [strconv.Atoi] on a machine whose int has 64 bits. *)
Definition Atoi (s : string) : option Z := Strs.ParseInt s.

(** What [strconv.ParseUint(s, 10, 64)] makes of the bytes after the sign:
    a value, a syntax error at the first byte that is no digit, or a range
    error as soon as the digits read so far pass 64 bits, whatever
    follows. *)
Inductive uint_result : Type :=
| UintValue (n : Z)
| UintSyntax
| UintRange.

Definition maxUint64 : Z := 2 ^ 64 - 1.

Fixpoint ParseUint_from (n : Z) (s : string) : uint_result :=
  match s with
  | EmptyString => UintValue n
  | String c rest =>
      if negb (Strs.is_digit c) then UintSyntax
      else if maxUint64 / 10 + 1 <=? n then UintRange
      else
        let n1 := n * 10 + Strs.digit_val c in
        if maxUint64 <? n1 then UintRange else ParseUint_from n1 rest
  end.

Definition ParseUint (s : string) : uint_result :=
  match s with
  | EmptyString => UintSyntax
  | _ => ParseUint_from 0 s
  end.

(** The value [strconv.Atoi] returns beside its error, which a caller
    that drops the error goes on with: the number when there is no error,
    zero on a syntax error, and the nearest end of int64 on a range
    error. *)
Definition Atoi_value (s : string) : Z :=
  let '(neg, body) :=
    match s with
    | String "-" rest => (true, rest)
    | String "+" rest => (false, rest)
    | _ => (false, s)
    end in
  match ParseUint body with
  | UintSyntax => 0
  | UintRange => if neg then Int64.min_int else Int64.max_int
  | UintValue un =>
      if negb neg && (2 ^ 63 <=? un) then Int64.max_int
      else if neg && (2 ^ 63 <? un) then Int64.min_int
      else if neg then - un else un
  end.

(** What a handler answers: the status code and, on success, the body. *)
Record Reply (A : Type) : Type := mkReply {
  reply_status : Z;
  reply_body : option A
}.
Arguments mkReply {A} reply_status reply_body.
Arguments reply_status {A} r.
Arguments reply_body {A} r.

(** [DeleteOldUsageRecords]: [body_days] is the days field of a JSON
    body that binds and has one. *)
Definition DeleteOldUsageRecords (default_store : option Store) (query : gmap string string)
    (body_days : option Z) (now : time.Time) : option Store * Reply Z :=
  match default_store with
  | None => (None, mkReply 503 None)
  | Some store =>
      let daysStr := DefaultQuery query "days" "30" in
      match Atoi daysStr with
      | None => (Some store, mkReply 400 None)
      | Some days =>
          if days <? 1 then (Some store, mkReply 400 None)
          else
            let days := match body_days with Some d => d | None => days end in
            if days <? 1 then (Some store, mkReply 400 None)
            else
              let age := Int64.mul (Int64.mul days 24) time.Hour in
              match DeleteOlderThan store now age with
              | (store', Ok count) => (Some store', mkReply 200 (Some count))
              | (store', Err _) => (Some store', mkReply 500 None)
              end
      end
  end.

Section Handlers.

Variable sql_where : string -> list SqlValue -> Z * Row -> bool.
Variable sql_order : string -> string -> list (Z * Row) -> list (Z * Row).
Variable json_Unmarshal : string -> option (gmap string string).
Variable loc : Z.

(** The ListQuery [GetUsageRecords] makes of the query string: the
    errors of Atoi are dropped and its values taken as they come. *)
Definition usage_records_query (query : gmap string string) : ListQuery :=
  {| q_Page := Atoi_value (DefaultQuery query "page" "1");
     q_PageSize := Atoi_value (DefaultQuery query "page_size" "20");
     q_APIKey := Query query "api_key";
     q_Model := Query query "model";
     q_Provider := Query query "provider";
     q_StartTime := Query query "start_time";
     q_EndTime := Query query "end_time";
     q_Success :=
       (let successStr := Query query "success" in
        if nonempty successStr
        then Some (String.eqb successStr "true" || String.eqb successStr "1")
        else None);
     q_Search := Query query "search";
     q_SortBy := Query query "sort_by";
     q_SortOrder := Query query "sort_order" |}.

(** [GetUsageRecords]. *)
Definition GetUsageRecords (default_store : option Store) (query : gmap string string)
  : Reply ListResult :=
  match default_store with
  | None => mkReply 503 None
  | Some store =>
      match List sql_where sql_order json_Unmarshal loc store (usage_records_query query) with
      | Ok result => mkReply 200 (Some result)
      | Err _ => mkReply 500 None
      end
  end.

(** [GetIntervalTimeline], the handler: the hours and the limit it asks
    the store for. *)
Definition timeline_hours (query : gmap string string) : Z :=
  match Atoi (DefaultQuery query "hours" "24") with
  | Some hours => if hours <? 1 then 24 else hours
  | None => 24
  end.

Definition timeline_limit (query : gmap string string) : Z :=
  match Atoi (DefaultQuery query "limit" "5000") with
  | Some limit => if limit <? 1 then 5000 else limit
  | None => 5000
  end.

Definition GetIntervalTimeline_handler (default_store : option Store)
    (query : gmap string string) (now : time.Time)
    (engine : string -> option (list (string * string))) : Reply IntervalTimelineResult :=
  match default_store with
  | None => mkReply 503 None
  | Some store =>
      match GetIntervalTimeline store now engine (timeline_hours query) (timeline_limit query) with
      | Ok result => mkReply 200 (Some result)
      | Err _ => mkReply 500 None
      end
  end.

End Handlers.

(** ** The series by day and by hour *)

(** The loop [for t := first; !t.After(last); t = next(t)] that appends
    one entry per turn; [fuel] bounds its turns. *)
Fixpoint fill_loop {A : Type} (fuel : nat) (next : time.Time -> time.Time)
    (entry : time.Time -> A) (t last : time.Time) : list A :=
  match fuel with
  | O => []
  | S k =>
      if time.After t last then []
      else entry t :: fill_loop k next entry (next t) last
  end.

Module Heatmap.

Record ActivityHeatmapDay : Type := mkDay {
  Date : string;
  Requests : Z;
  TotalTokens : Z;
  AvgDuration : Q;
  UniqueModels : Z
}.

Record ActivityHeatmap : Type := mkHeatmap {
  StartDate : string;
  EndDate : string;
  TotalDays : Z;
  MaxRequests : Z;
  Days : list ActivityHeatmapDay
}.

End Heatmap.

Definition clamp_days (days : Z) : Z :=
  let days := if days <? 1 then 90 else days in
  if 365 <? days then 365 else days.

(** The scan loop of the heatmap: the days by their date, a later row
    replacing an earlier one, and the largest count of requests. *)
Definition scan_days (rows : list Heatmap.ActivityHeatmapDay)
  : gmap string Heatmap.ActivityHeatmapDay * Z :=
  foldl (fun acc day =>
           (<[Heatmap.Date day := day]> (fst acc),
            if snd acc <? Heatmap.Requests day then Heatmap.Requests day else snd acc))
        (∅, 0) rows.

(** The entry of day [d]: what the map holds under its date, or a day
    without requests. *)
Definition day_entry (dataMap : gmap string Heatmap.ActivityHeatmapDay) (d : time.Time)
  : Heatmap.ActivityHeatmapDay :=
  let dateStr := time.Format_day d in
  match dataMap !! dateStr with
  | Some data => data
  | None => Heatmap.mkDay dateStr 0 0 0 0
  end.

(** [GetActivityHeatmap]: [query] is the engine's answer to the grouped
    query between the two bound dates, its rows scanned; [None] stands for
    its error. *)
Definition GetActivityHeatmap (fuel : nat) (s : Store) (now : time.Time)
    (query : string -> string -> option (list Heatmap.ActivityHeatmapDay)) (days : Z)
  : result Heatmap.ActivityHeatmap :=
  if closed s then Err "store is closed"
  else
    let days := clamp_days days in
    let endDate := now in
    let startDate := time.AddDate endDate 0 0 (- days + 1) in
    match query (time.Format_day startDate) (time.Format_day endDate) with
    | None => Err "failed to query heatmap data"
    | Some rows =>
        let '(dataMap, maxRequests) := scan_days rows in
        let allDays :=
          fill_loop fuel (fun d => time.AddDate d 0 0 1) (day_entry dataMap)
                    startDate endDate in
        Ok {| Heatmap.StartDate := time.Format_day startDate;
              Heatmap.EndDate := time.Format_day endDate;
              Heatmap.TotalDays := Z.of_nat (List.length allDays);
              Heatmap.MaxRequests := maxRequests;
              Heatmap.Days := allDays |}
    end.

Module Timeline.

Record RequestTimelinePoint : Type := mkPoint {
  Hour : string;
  Requests : Z;
  Tokens : Z
}.

Record RequestTimelineResult : Type := mkResult {
  StartTime : string;
  EndTime : string;
  TotalHours : Z;
  MaxRequests : Z;
  Points : list RequestTimelinePoint
}.

End Timeline.

(** The conditions on the time of a row, with their arguments. *)
Definition time_conditions (loc : Z) (startTime endTime : string)
  : list (string * SqlValue) :=
  ((if nonempty startTime
    then [("timestamp >= ?", SqlText (ParseTimeParam loc startTime))] else [])
   ++ (if nonempty endTime
       then [("timestamp <= ?", SqlText (ParseTimeParam loc endTime))] else []))%list.

(** The point of a row of the hourly query, under the hour as it is
    displayed. *)
Definition hour_point (row : string * Z * Z) : Timeline.RequestTimelinePoint :=
  let '(hour, requests, tokens) := row in
  let displayHour := replace_first_T hour ++ ":00" in
  Timeline.mkPoint displayHour requests tokens.

(** The scan loop of the timeline. *)
Definition scan_hours (rows : list (string * Z * Z))
  : gmap string Timeline.RequestTimelinePoint * Z :=
  foldl (fun acc row =>
           let point := hour_point row in
           (<[Timeline.Hour point := point]> (fst acc),
            if snd acc <? Timeline.Requests point then Timeline.Requests point else snd acc))
        (∅, 0) rows.

(** The first and the last hour of the timeline. *)
Definition timeline_window (loc : Z) (now : time.Time) (startTime endTime : string)
  : time.Time * time.Time :=
  let startDate :=
    if nonempty startTime then
      let startDate := ParseTimeParamToTime loc startTime in
      if time.IsZero startDate then time.Add now (- (24 * time.Hour)) else startDate
    else time.Add now (- (24 * time.Hour)) in
  let endDate :=
    if nonempty endTime then
      let endDate := ParseTimeParamToTime loc endTime in
      if time.IsZero endDate then now else endDate
    else now in
  (time.Truncate startDate time.Hour, time.Truncate endDate time.Hour).

Definition hour_entry (dataMap : gmap string Timeline.RequestTimelinePoint) (h : time.Time)
  : Timeline.RequestTimelinePoint :=
  let hourStr := time.Format_hour h in
  match dataMap !! hourStr with
  | Some data => data
  | None => Timeline.mkPoint hourStr 0 0
  end.

(** [GetRequestTimeline]: [query] is the engine's answer to the hourly
    query under a WHERE clause and its arguments (hour, requests, tokens);
    [None] stands for its error. *)
Definition GetRequestTimeline (fuel : nat) (s : Store) (loc : Z) (now : time.Time)
    (query : string -> list SqlValue -> option (list (string * Z * Z)))
    (startTime endTime : string) : result Timeline.RequestTimelineResult :=
  if closed s then Err "store is closed"
  else
    let conds := time_conditions loc startTime endTime in
    let whereClause := where_clause (fst <$> conds) in
    match query whereClause (snd <$> conds) with
    | None => Err "failed to query request timeline"
    | Some rows =>
        let '(dataMap, maxRequests) := scan_hours rows in
        let '(startDate, endDate) := timeline_window loc now startTime endTime in
        let points :=
          fill_loop fuel (fun h => time.Add h time.Hour) (hour_entry dataMap)
                    startDate endDate in
        Ok {| Timeline.StartTime := time.Format_RFC3339 startDate;
              Timeline.EndTime := time.Format_RFC3339 endDate;
              Timeline.TotalHours := Z.of_nat (List.length points);
              Timeline.MaxRequests := maxRequests;
              Timeline.Points := points |}
    end.

(** The two handlers. *)
Definition heatmap_days (query : gmap string string) : Z :=
  match Atoi (DefaultQuery query "days" "90") with
  | Some days => if days <? 1 then 90 else days
  | None => 90
  end.

Definition GetActivityHeatmap_handler (fuel : nat) (default_store : option Store)
    (query : gmap string string) (now : time.Time)
    (engine : string -> string -> option (list Heatmap.ActivityHeatmapDay))
  : Reply Heatmap.ActivityHeatmap :=
  match default_store with
  | None => mkReply 503 None
  | Some store =>
      match GetActivityHeatmap fuel store now engine (heatmap_days query) with
      | Ok result => mkReply 200 (Some result)
      | Err _ => mkReply 500 None
      end
  end.

Definition GetRequestTimeline_handler (fuel : nat) (default_store : option Store)
    (query : gmap string string) (loc : Z) (now : time.Time)
    (engine : string -> list SqlValue -> option (list (string * Z * Z)))
  : Reply Timeline.RequestTimelineResult :=
  match default_store with
  | None => mkReply 503 None
  | Some store =>
      match GetRequestTimeline fuel store loc now engine
              (Query query "start_time") (Query query "end_time") with
      | Ok result => mkReply 200 (Some result)
      | Err _ => mkReply 500 None
      end
  end.

(** ** The shape of a formatted time *)

(** The byte of a decimal digit. *)
Definition digit (k : Z) : ascii := ascii_of_nat (48 + Z.to_nat k).

(** Two and four decimal digits before [rest]. *)
Definition two_digits (x : Z) (rest : string) : string :=
  String (digit (x / 10)) (String (digit (x mod 10)) rest).

Definition four_digits (x : Z) (rest : string) : string :=
  String (digit (x / 1000)) (String (digit (x / 100 mod 10)) (two_digits (x mod 100) rest)).

(** The checks that [appendInt] writes a number below 100 with two digits
    and a number below 10000 with four. *)
Definition appendInt_two_ok (x : Z) : bool :=
  String.eqb (time.appendInt x 2) (two_digits x "").

Definition appendInt_four_ok (x : Z) : bool :=
  String.eqb (time.appendInt x 4) (four_digits x "").

(** The check that the day of a civil date is a day of its month. *)
Definition day_in_month_ok (doe : Z) : bool :=
  let '(y, m, d) := time.civil_of_era 0 doe in
  (1 <=? d) && (d <=? time.daysIn m y).

(** The text of an offset other than zero, and of a date with its time. *)
Definition zone_shape (off : Z) : string :=
  if off =? 0 then "Z"
  else String (if off <? 0 then "-" else "+")
         (two_digits (Z.abs off / 3600) (String ":" (two_digits (Z.abs off / 60 mod 60) ""))).

Definition rfc3339_shape (y mo d h mi sc : Z) (zone : string) : string :=
  four_digits y (String "-" (two_digits mo (String "-" (two_digits d (String "T"
    (two_digits h (String ":" (two_digits mi (String ":" (two_digits sc zone)))))))))).

(** An instant whose RFC3339 text reads back: the year has four digits
    and the offset is one of whole minutes, less than a day. *)
Definition formats_back (t : time.Time) : Prop :=
  0 <= time.Year t <= 9999 ∧ time.offset t mod 60 = 0 ∧ -86400 < time.offset t < 86400.

(** ** The order of formatted times *)

(** A comparison decided by [c] unless it says equal, and then by [rest]. *)
Definition then_compare (c rest : comparison) : comparison :=
  match c with Eq => rest | _ => c end.

(** The order of civil dates: by year, then month, then day. *)
Definition date_compare (a b : Z * Z * Z) : comparison :=
  then_compare (fst (fst a) ?= fst (fst b))
    (then_compare (snd (fst a) ?= snd (fst b)) (snd a ?= snd b)).

(** The check that the civil date of a day is before that of the next
    day, the first day of the next era coming after the last of this one. *)
Definition next_day_ok (doe : Z) : bool :=
  match date_compare (time.civil_of_era 0 doe)
          (if doe + 1 <? 146097 then time.civil_of_era 0 (doe + 1)
           else time.civil_of_era 1 0) with
  | Lt => true
  | _ => false
  end.

(** ** Recording a candidate *)

(** A call of the candidate callback, with the arguments it gets. *)
Record CandidateCall : Type := mkCandidateCall {
  call_RequestID : string;
  call_Provider : string;
  call_APIKey : string;
  call_Status : string;
  call_StatusCode : Z;
  call_Success : bool;
  call_DurationMs : Z;
  call_ErrorMessage : string;
  call_CandidateIndex : Z;
  call_RetryIndex : Z
}.

(** What one RecordCandidate did: the plugin's store afterwards, the
    candidate handed to the write queue with the queue's answer, and the
    call of the callback. *)
Record Recorded : Type := mkRecorded {
  r_store : option Store;
  r_enqueued : option (RequestCandidate * bool);
  r_call : option CandidateCall
}.

(** [RecordCandidate] on the default plugin [p]; [candidateIncrementor]
    tells whether the candidate callback is installed, [now] is the
    clock. *)
Definition RecordCandidate (p : Plugin) (candidateIncrementor : bool) (now : time.Time)
    (requestID provider apiKey status : string) (statusCode : Z) (success : bool)
    (durationMs : Z) (errorMessage : string) (candidateIndex retryIndex : Z) : Recorded :=
  match store p with
  | None => mkRecorded None None None
  | Some s =>
      if negb (enabled p) then mkRecorded (Some s) None None
      else
        let candidate :=
          {| cand_ID := 0;
             cand_RequestID := requestID;
             cand_Timestamp := now;
             cand_Provider := provider;
             cand_APIKey := apiKey;
             cand_APIKeyMasked := MaskAPIKey apiKey;
             cand_Status := status;
             cand_StatusCode := statusCode;
             cand_Success := success;
             cand_DurationMs := durationMs;
             cand_ErrorMessage := errorMessage;
             cand_CandidateIndex := candidateIndex;
             cand_RetryIndex := retryIndex |} in
        let '(s', accepted) := EnqueueRequestCandidate s candidate in
        mkRecorded (Some s') (Some (candidate, accepted))
          (if candidateIncrementor
           then Some (mkCandidateCall requestID provider apiKey status statusCode success
                        durationMs errorMessage candidateIndex retryIndex)
           else None)
  end.

(** A clock sixty days after [demo_start], a record stamped at it, and the
    store that holds the old record under id 1 and the recent one under
    id 2. *)
Definition demo_later : time.Time := time.Unix 1741766400 0.

Definition demo_recent : UsageRecord :=
  pending_record "new" demo_later "10.0.0.7" "m1" "/v1/chat/completions" "POST" ∅ "{}".

Definition demo_aged_store : Store :=
  fst (Insert empty_marshal (fst (Insert empty_marshal empty_store demo_plain)) demo_recent).
(** * Properties *)

(** ** Assignments of an UPDATE *)

Lemma assign_cons (row : Row) (c : string) (v : SqlValue) (sets : list (string * SqlValue)) :
  assign row ((c, v) :: sets) = assign (<[c := v]> row) sets.
Proof. reflexivity. Qed.

Lemma assign_untouched (sets : list (string * SqlValue)) (row : Row) (col : string) :
  col ∉ sets.*1 → assign row sets !! col = row !! col.
Proof.
  revert row. induction sets as [|[c v] sets IH]; intros row Hnot; [done|].
  rewrite assign_cons. cbn in Hnot. apply not_elem_of_cons in Hnot as [Hne Hrest].
  rewrite IH by done. by rewrite lookup_insert_ne.
Qed.

Lemma assign_written (sets : list (string * SqlValue)) (row : Row) (col : string) (v : SqlValue) :
  NoDup sets.*1 → (col, v) ∈ sets → assign row sets !! col = Some v.
Proof.
  revert row. induction sets as [|[c w] sets IH]; intros row Hnd Hin.
  - by apply elem_of_nil in Hin.
  - cbn in Hnd. apply NoDup_cons in Hnd as [Hfresh Hnd].
    rewrite assign_cons. apply elem_of_cons in Hin as [Heq|Hin].
    + injection Heq as -> ->. rewrite assign_untouched by done. apply lookup_insert_eq.
    + by apply IH.
Qed.

Lemma add_columns (c : string) (o : option SqlValue) : (add c o).*1 `sublist_of` [c].
Proof. destruct o; cbn; [reflexivity | apply sublist_nil_l]. Qed.

Section PatchFacts.
Variable json_Marshal : gmap string string -> string.

Lemma patch_sets_columns (patch : RecordPatch) :
  (patch_sets json_Marshal patch).*1 `sublist_of` all_columns.
Proof.
  unfold patch_sets. rewrite !fmap_app.
  change all_columns with
    (["timestamp"] ++ ["ip"] ++ ["api_key"] ++ ["api_key_masked"] ++ ["model"] ++ ["provider"]
     ++ ["is_streaming"] ++ ["input_tokens"] ++ ["output_tokens"] ++ ["total_tokens"]
     ++ ["cached_tokens"] ++ ["reasoning_tokens"] ++ ["duration_ms"] ++ ["status_code"]
     ++ ["success"] ++ ["request_url"] ++ ["request_method"] ++ ["request_headers"]
     ++ ["request_body"] ++ ["response_headers"] ++ ["response_body"])%list.
  repeat (apply sublist_app; [apply add_columns|]). apply add_columns.
Qed.

Lemma patch_sets_NoDup (patch : RecordPatch) : NoDup (patch_sets json_Marshal patch).*1.
Proof.
  eapply sublist_NoDup; [|apply patch_sets_columns].
  unfold all_columns. apply NoDup_ListNoDup.
  repeat (constructor; [cbn; intuition discriminate|]). constructor.
Qed.
End PatchFacts.

Section PatchFacts2.
Variable json_Marshal : gmap string string -> string.

Lemma elem_of_add (col c : string) (v : SqlValue) (o : option SqlValue) :
  (col, v) ∈ add c o ↔ col = c ∧ o = Some v.
Proof.
  destruct o as [w|]; cbn.
  - rewrite list_elem_of_singleton. split.
    + intros [= -> ->]. done.
    + intros [-> [= ->]]. done.
  - split.
    + intros H. by apply elem_of_nil in H.
    + intros [_ [=]].
Qed.

Lemma patch_sets_value (patch : RecordPatch) (col : string) (v : SqlValue) :
  (col, v) ∈ patch_sets json_Marshal patch ↔ patch_value json_Marshal patch col = Some v.
Proof.
  unfold patch_sets. rewrite !elem_of_app, !elem_of_add. split.
  - intros H. repeat (destruct H as [[-> H]|H]; [exact H|]). destruct H as [-> H]. exact H.
  - unfold patch_value.
    repeat match goal with
           | |- context [String.eqb col ?c] =>
               destruct (String.eqb_spec col c) as [->|_];
               [intros H; repeat (first [by split | left; by split | right])|]
           end.
    done.
Qed.
End PatchFacts2.

Section PatchTheorems.
Variable json_Marshal : gmap string string -> string.

Lemma add_nil (c : string) (o : option SqlValue) : add c o = [] → o = None.
Proof. by destruct o. Qed.

Lemma patch_sets_nil (patch : RecordPatch) :
  patch_sets json_Marshal patch = [] → patch = empty_patch.
Proof.
  unfold patch_sets. intros H.
  repeat (apply app_eq_nil in H as [?%add_nil%fmap_None H]).
  apply add_nil, fmap_None in H.
  destruct patch; simplify_eq/=. reflexivity.
Qed.

Lemma PatchByID_empty (s : Store) (id : Z) :
  closed s = false → 0 < id → PatchByID json_Marshal s id empty_patch = (s, Ok 0).
Proof.
  intros Hopen Hid. unfold PatchByID, isClosed. rewrite Hopen.
  destruct (Z.leb_spec id 0); [lia|]. reflexivity.
Qed.

(** A patch with a field that is not nil, on an open store with a working
    engine: the UPDATE runs and the cache is cleared. *)
Lemma PatchByID_runs (s : Store) (id : Z) (patch : RecordPatch) :
  closed s = false → db_failing s = false → 0 < id → patch ≠ empty_patch →
  PatchByID json_Marshal s id patch =
    (invalidateCaches
       (with_usage_records s
          (fst (exec_update (usage_records s) (patch_sets json_Marshal patch) id))
          (last_usage_id s)),
     Ok (snd (exec_update (usage_records s) (patch_sets json_Marshal patch) id))).
Proof.
  intros Hopen Hdb Hid Hne. unfold PatchByID, isClosed. rewrite Hopen, Hdb.
  destruct (Z.leb_spec id 0); [lia|].
  destruct (patch_sets json_Marshal patch) eqn:Hsets.
  - by apply patch_sets_nil in Hsets.
  - cbn [List.length Nat.eqb]. by destruct (exec_update _ _ _).
Qed.

(** In every outcome PatchByID leaves the store as it was or runs the
    UPDATE. *)
Lemma PatchByID_cases (s : Store) (id : Z) (patch : RecordPatch) :
  fst (PatchByID json_Marshal s id patch) = s
  ∨ (closed s = false ∧ db_failing s = false ∧ 0 < id ∧ patch ≠ empty_patch).
Proof.
  unfold PatchByID, isClosed.
  destruct (closed s) eqn:Hc; [by left|].
  destruct (Z.leb_spec id 0); [by left|].
  destruct (patch_sets json_Marshal patch) eqn:Hsets; [by left|].
  destruct (db_failing s) eqn:Hdb; [by left|].
  right. repeat split; try done. intros ->. discriminate Hsets.
Qed.

Lemma exec_update_lookup (tbl : gmap Z Row) (sets : list (string * SqlValue)) (id id' : Z) :
  fst (exec_update tbl sets id) !! id' =
    if decide (id' = id) then (fun row => assign row sets) <$> tbl !! id else tbl !! id'.
Proof.
  unfold exec_update. destruct (tbl !! id) as [row|] eqn:Hrow; cbn.
  - case_decide as Hd; [subst; by rewrite lookup_insert_eq | by rewrite lookup_insert_ne].
  - case_decide; by subst.
Qed.

End PatchTheorems.

Section PatchCells.
Variable json_Marshal : gmap string string -> string.

(** After a patch that ran on an existing row, the column of a non-nil
    field holds the patch's value. *)
Lemma PatchByID_cell (s : Store) (id : Z) (patch : RecordPatch) (col : string) (v : SqlValue) :
  closed s = false → db_failing s = false → 0 < id →
  is_Some (usage_records s !! id) →
  patch_value json_Marshal patch col = Some v →
  cell (fst (PatchByID json_Marshal s id patch)) id col = Some v.
Proof.
  intros Hopen Hdb Hid [row Hrow] Hv.
  assert (patch ≠ empty_patch) as Hne.
  { intros ->. apply patch_sets_value in Hv. by apply elem_of_nil in Hv. }
  rewrite PatchByID_runs by done. unfold cell. cbn.
  rewrite exec_update_lookup, decide_True by done. rewrite Hrow. cbn.
  apply assign_written; [apply patch_sets_NoDup | by apply patch_sets_value].
Qed.

(** A column of a nil field keeps its value, whatever the outcome. *)
Lemma PatchByID_cell_kept (s : Store) (id id' : Z) (patch : RecordPatch) (col : string) :
  id' ≠ id ∨ patch_value json_Marshal patch col = None →
  cell (fst (PatchByID json_Marshal s id patch)) id' col = cell s id' col.
Proof.
  intros Hkeep. destruct (PatchByID_cases json_Marshal s id patch) as [->|(Ho & Hdb & Hid & Hne)]; [done|].
  rewrite PatchByID_runs by done. unfold cell. cbn.
  rewrite exec_update_lookup. case_decide as Hd; [subst id'|done].
  destruct Hkeep as [?|Hnone]; [done|].
  destruct (usage_records s !! id) as [row|]; [cbn|done].
  apply assign_untouched. intros Hin.
  apply list_elem_of_fmap in Hin as [[c v] [Hc Hin]]. cbn in Hc. subst c.
  apply patch_sets_value in Hin. congruence.
Qed.

End PatchCells.


Section PatchClaim.
Variable json_Marshal : gmap string string -> string.

Lemma patch_empty_or_not (patch : RecordPatch) : patch = empty_patch ∨ patch ≠ empty_patch.
Proof.
  destruct (patch_sets json_Marshal patch) eqn:Hsets.
  - left. by apply patch_sets_nil in Hsets.
  - right. intros ->. discriminate Hsets.
Qed.

(** C7 (amended).  PatchByID refuses a closed store, and then a record id
    that is not positive, before it looks at the patch: it returns an error,
    also for a patch with every field nil, and the store is as it was.  On
    an open store and for a positive id it writes exactly the columns whose
    patch fields are not nil: with every field nil it returns zero rows
    affected without an error and makes no write; with a field that is not
    nil it fails when the engine fails and else returns the number of rows
    under the id, one or none.  In every outcome an error leaves the store
    as it was, the table keeps its rows, and every column of another row or
    of a nil field keeps its value; when it succeeds on an existing row each
    column of a non-nil field holds the patch's value; and after a
    successful patch with a non-nil field the entries of the query cache
    are cleared. *)
Theorem PatchByID_writes_only_non_nil (s : Store) (id : Z) (patch : RecordPatch) :
  let out := PatchByID json_Marshal s id patch in
  (closed s = true → out = (s, Err "store is closed"))
  ∧ (closed s = false → id <= 0 → out = (s, Err "invalid record id"))
  ∧ (closed s = false → 0 < id → patch = empty_patch → out = (s, Ok 0))
  ∧ (closed s = false → 0 < id → patch ≠ empty_patch → db_failing s = true →
     out = (s, Err "failed to update record"))
  ∧ (closed s = false → 0 < id → patch ≠ empty_patch → db_failing s = false →
     snd out = Ok (if decide (is_Some (usage_records s !! id)) then 1 else 0))
  ∧ (∀ msg, snd out = Err msg → fst out = s)
  ∧ (patch = empty_patch → fst out = s)
  ∧ (∀ id', is_Some (usage_records (fst out) !! id') ↔ is_Some (usage_records s !! id'))
  ∧ (∀ id' col, id' ≠ id ∨ patch_value json_Marshal patch col = None →
       cell (fst out) id' col = cell s id' col)
  ∧ (∀ n, snd out = Ok n → ∀ col v, is_Some (usage_records s !! id) →
       patch_value json_Marshal patch col = Some v → cell (fst out) id col = Some v)
  ∧ (∀ n, snd out = Ok n → patch ≠ empty_patch →
       cache (fst out) = clear (cache s)
       ∧ ∀ qc, cache (fst out) = Some qc → entries qc = ∅).
Proof.
  intros out.
  assert (Hclosed : closed s = true → out = (s, Err "store is closed")).
  { intros Hc. unfold out, PatchByID, isClosed. by rewrite Hc. }
  assert (Hid : closed s = false → id <= 0 → out = (s, Err "invalid record id")).
  { intros Hc Hle. unfold out, PatchByID, isClosed. rewrite Hc.
    by destruct (Z.leb_spec id 0); [|lia]. }
  assert (Hempty : closed s = false → 0 < id → patch = empty_patch → out = (s, Ok 0)).
  { intros Hc Hpos ->. by apply PatchByID_empty. }
  assert (Hfail : closed s = false → 0 < id → patch ≠ empty_patch → db_failing s = true →
                  out = (s, Err "failed to update record")).
  { intros Hc Hpos Hne Hdb. unfold out, PatchByID, isClosed. rewrite Hc, Hdb.
    destruct (Z.leb_spec id 0); [lia|].
    destruct (patch_sets json_Marshal patch) eqn:Hsets; [by apply patch_sets_nil in Hsets|].
    reflexivity. }
  assert (Hrun : closed s = false → 0 < id → patch ≠ empty_patch → db_failing s = false →
                 out = (invalidateCaches
                          (with_usage_records s
                             (fst (exec_update (usage_records s)
                                     (patch_sets json_Marshal patch) id))
                             (last_usage_id s)),
                        Ok (snd (exec_update (usage_records s)
                                   (patch_sets json_Marshal patch) id)))).
  { intros Hc Hpos Hne Hdb. by apply PatchByID_runs. }
  split; [exact Hclosed|]. split; [exact Hid|]. split; [exact Hempty|].
  split; [exact Hfail|].
  split.
  { intros Hc Hpos Hne Hdb. rewrite (Hrun Hc Hpos Hne Hdb). cbn [snd]. unfold exec_update.
    destruct (usage_records s !! id) as [row|] eqn:Hrow; cbn [snd].
    - by rewrite decide_True by eauto.
    - by rewrite decide_False by (by intros [? ?]). }
  (* the outcomes, one by one *)
  destruct (closed s) eqn:Hc.
  { rewrite (Hclosed eq_refl). cbn [fst snd]. repeat split; done. }
  destruct (Z.le_gt_cases id 0) as [Hle|Hpos].
  { rewrite (Hid eq_refl Hle). cbn [fst snd]. repeat split; done. }
  destruct (patch_empty_or_not patch) as [He|Hne].
  { rewrite (Hempty eq_refl ltac:(lia) He). cbn [fst snd]. repeat split; try done.
    intros n _ col v _ Hv. subst patch.
    apply patch_sets_value in Hv. by apply elem_of_nil in Hv. }
  destruct (db_failing s) eqn:Hdb.
  { rewrite (Hfail eq_refl ltac:(lia) Hne eq_refl). cbn [fst snd]. repeat split; done. }
  rewrite (Hrun eq_refl ltac:(lia) Hne eq_refl). cbn [fst snd].
  unfold cell. cbn [usage_records invalidateCaches with_usage_records with_cache cache].
  split; [done|]. split; [done|]. split; [|split; [|split]].
  - intros id'. rewrite exec_update_lookup. case_decide; [subst|done].
    by rewrite fmap_is_Some.
  - intros id' col [Hid'|Hnone]; rewrite exec_update_lookup; case_decide; subst; try done.
    destruct (usage_records s !! id) as [row|]; [cbn|done].
    apply assign_untouched. intros Hin.
    apply list_elem_of_fmap in Hin as [[c v] [Hcol Hin]]. cbn in Hcol. subst c.
    apply patch_sets_value in Hin. congruence.
  - intros n _ col v [row Hrow] Hv. rewrite exec_update_lookup, decide_True by done.
    rewrite Hrow. cbn. apply assign_written; [apply patch_sets_NoDup|].
    by apply patch_sets_value.
  - intros n _ _. split; [done|].
    intros qc. destruct (cache s); cbn; [intros [= <-]; done | done].
Qed.

End PatchClaim.
Section CompletionClaims.
Variable json_Marshal : gmap string string -> string.
Variable Sprint_other : any -> string.

Lemma HandleUsage_enqueued (p : Plugin) (ctx : option GinContext) (ev : UsageEvent)
    (now : time.Time) (rec : UsageRecord) (accepted : bool) :
  h_enqueued (HandleUsage json_Marshal p ctx ev now) = Some (rec, accepted) →
  rec = usage_record ev (extract ctx ev now)
          (if time.IsZero (ev_RequestedAt ev) then now else ev_RequestedAt ev)
          (if 400 <=? x_statusCode (extract ctx ev now) then false else negb (ev_Failed ev)).
Proof.
  unfold HandleUsage. destruct (store p) as [s|]; [|done].
  destruct (enabled p); cbn [negb]; [|done].
  set (x := extract ctx ev now).
  destruct (0 <? x_recordDBID x).
  - destruct (PatchByID _ _ _ _) as [s' [n|msg]]; [done|].
    destruct (EnqueueUsageRecord _ _) as [s2 acc]. cbn. by intros [= <- _].
  - destruct (EnqueueUsageRecord _ _) as [s2 acc]. cbn. by intros [= <- _].
Qed.

(** C1 (as amended).  The success flag the middleware stores when it
    finalizes a record holds exactly when the final status code, 500 after
    a recovered panic, lies strictly between 0 and 400; the failure flag of
    the usage event plays no part in it.  On the plugin's fallback insert the
    flag holds exactly when the event did not report failure and the status
    code is below 400. *)
Theorem success_flag_at_completion (s : Store) (c : GinContext) (req : Request) (recID : Z)
    (start : time.Time) (requestURL : string) (requestHeaders : gmap string string)
    (requestBody : string) (recovered : bool) (now : time.Time) :
  closed s = false → db_failing s = false → 0 < recID →
  gin_Request c = Some req → is_Some (usage_records s !! recID) →
  let s' := patchUsageRecordFinal json_Marshal Sprint_other s c recID start requestURL
              requestHeaders requestBody recovered now in
  let status := if recovered then 500 else w_Status (gin_Writer c) in
  cell s' recID "status_code" = Some (SqlInt status)
  ∧ cell s' recID "success" = Some (SqlInt (bool_int (bool_decide (0 < status < 400))))
  ∧ (recovered = true → cell s' recID "success" = Some (SqlInt 0))
  ∧ (∀ p ctx ev now' rec accepted,
       h_enqueued (HandleUsage json_Marshal p ctx ev now') = Some (rec, accepted) →
       rec_Success rec
       = negb (ev_Failed ev) && bool_decide (rec_StatusCode rec < 400)).
Proof.
  intros Hopen Hdb Hid Hreq Hrow s' status.
  assert (Hflag : cell s' recID "success"
                  = Some (SqlInt (bool_int (bool_decide (0 < status < 400))))).
  { unfold s', patchUsageRecordFinal. destruct (Z.leb_spec recID 0); [lia|]. rewrite Hreq.
    erewrite PatchByID_cell; [|done..|reflexivity].
    do 3 f_equal. unfold StatusInternalServerError, StatusBadRequest.
    change (if recovered then 500 else w_Status (gin_Writer c)) with status.
    destruct (Z.ltb_spec 0 status), (Z.ltb_spec status 400); cbn;
      case_bool_decide; try done; lia. }
  split; [|split; [exact Hflag|split]].
  - unfold s', patchUsageRecordFinal. destruct (Z.leb_spec recID 0); [lia|]. rewrite Hreq.
    erewrite PatchByID_cell; [|done..|reflexivity]. by destruct recovered.
  - intros ->. rewrite Hflag. subst status. reflexivity.
  - intros p ctx ev now' rec accepted Henq. apply HandleUsage_enqueued in Henq as ->.
    cbn [rec_Success rec_StatusCode usage_record].
    destruct (Z.leb_spec 400 (x_statusCode (extract ctx ev now')));
      [rewrite bool_decide_eq_false_2 by lia | rewrite bool_decide_eq_true_2 by lia];
      by destruct (ev_Failed ev).
Qed.

End CompletionClaims.

(** The demo store holds the pending row under id 1. *)
Lemma demo_store_row : is_Some (usage_records demo_store !! 1).
Proof.
  exists (insert_row demo_marshal demo_pending).
  unfold demo_store, Insert, empty_store. cbn [closed db_failing fst last_usage_id].
  cbn [with_usage_records usage_records]. apply lookup_insert_eq.
Qed.

(** C1, counterexample.  A request that ends with status 100, without a
    panic and without a failure report, is stored as successful, although 100
    is outside [200,400). *)
Lemma success_flag_counterexample :
  let s' := patchUsageRecordFinal demo_marshal demo_sprint demo_store (demo_context 100) 1
              demo_start "/v1/chat/completions" ∅ "{}" false demo_now in
  cell s' 1 "status_code" = Some (SqlInt 100)
  ∧ cell s' 1 "success" = Some (SqlInt 1)
  ∧ ¬ (200 <= 100 < 400).
Proof. split; [|split]; [vm_compute; reflexivity..|lia]. Qed.

Lemma success_flag_witness :
  (closed demo_store = false ∧ db_failing demo_store = false ∧ 0 < 1
   ∧ gin_Request (demo_context 502) = Some demo_request
   ∧ is_Some (usage_records demo_store !! 1))
  ∧ cell (patchUsageRecordFinal demo_marshal demo_sprint demo_store (demo_context 502) 1
            demo_start "/v1/chat/completions" ∅ "{}" false demo_now) 1 "success"
    = Some (SqlInt 0).
Proof.
  pose proof demo_store_row as Hrow.
  split; [split; [reflexivity|split; [reflexivity|split; [lia|split; [reflexivity|exact Hrow]]]]|].
  pose proof (success_flag_at_completion demo_marshal demo_sprint demo_store (demo_context 502)
                demo_request 1 demo_start "/v1/chat/completions" ∅ "{}" false demo_now
                eq_refl eq_refl ltac:(lia) eq_refl Hrow) as (_ & H & _).
  exact H.
Defined.
(** C7, counterexample.  For the record id 0 a patch with every field
    nil does not return zero rows affected without an error: PatchByID
    returns the error of an invalid record id; and on a closed store it
    returns the error of a closed store, also for a valid id. *)
Lemma PatchByID_counterexample :
  PatchByID demo_marshal demo_store 0 empty_patch = (demo_store, Err "invalid record id")
  ∧ snd (PatchByID demo_marshal demo_store 0 empty_patch) ≠ Ok 0
  ∧ snd (PatchByID demo_marshal (mkStore true false ∅ 0 ∅ 0 None None) 1 empty_patch)
    = Err "store is closed".
Proof. split; [reflexivity|]. split; [discriminate|reflexivity]. Qed.

Lemma PatchByID_witness :
  (closed demo_store = false ∧ 0 < 1)
  ∧ cell (fst (PatchByID demo_marshal demo_store 1 demo_patch)) 1 "provider"
    = Some (SqlText "openai")
  ∧ cell (fst (PatchByID demo_marshal demo_store 1 demo_patch)) 1 "model"
    = cell demo_store 1 "model".
Proof.
  split; [split; [reflexivity|lia]|].
  destruct (PatchByID_writes_only_non_nil demo_marshal demo_store 1 demo_patch)
    as (_ & _ & _ & _ & _ & _ & _ & _ & Hkept & Hset & _).
  split.
  - apply (Hset 1); [reflexivity | exact demo_store_row | reflexivity].
  - apply Hkept. right. reflexivity.
Defined.

Section TokenClaim.
Variable json_Marshal : gmap string string -> string.

Lemma PatchByID_ok (s : Store) (id : Z) (patch : RecordPatch) (n : Z) :
  snd (PatchByID json_Marshal s id patch) = Ok n → patch ≠ empty_patch →
  closed s = false ∧ db_failing s = false ∧ 0 < id.
Proof.
  unfold PatchByID, isClosed. intros Hok Hne.
  destruct (closed s); [done|].
  destruct (Z.leb_spec id 0); [done|].
  destruct (patch_sets json_Marshal patch) eqn:Hsets; [by apply patch_sets_nil in Hsets|].
  cbn in Hok. by destruct (db_failing s).
Qed.

Lemma usage_patch_nonempty (ev : UsageEvent) (isStreaming : bool) :
  usage_patch ev isStreaming ≠ empty_patch.
Proof. discriminate. Qed.

Lemma HandleUsage_patched (p : Plugin) (ctx : option GinContext) (ev : UsageEvent)
    (now : time.Time) (s s' : Store) :
  h_patched (HandleUsage json_Marshal p ctx ev now) = true →
  store p = Some s → h_store (HandleUsage json_Marshal p ctx ev now) = Some s' →
  let id := x_recordDBID (extract ctx ev now) in
  let patch := usage_patch ev (x_isStreaming (extract ctx ev now)) in
  s' = fst (PatchByID json_Marshal s id patch)
  ∧ ∃ n, snd (PatchByID json_Marshal s id patch) = Ok n.
Proof.
  unfold HandleUsage. intros Hp Hs. rewrite Hs in *. revert Hp.
  destruct (enabled p); cbn [negb]; [|done].
  set (x := extract ctx ev now).
  destruct (0 <? x_recordDBID x).
  - destruct (PatchByID _ _ _ _) as [s1 [n|msg]] eqn:Hpatch.
    + cbn. intros _ [= <-]. eauto.
    + destruct (EnqueueUsageRecord _ _). done.
  - destruct (EnqueueUsageRecord _ _). done.
Qed.

(** C2.  Whatever the plugin writes for a usage event carries
    input + output as its total (Go's addition on int64, the plain sum when
    it fits): the pending row after the patch, and the record of the fallback
    insert with the row Insert makes of it.  The total the API reported never
    reaches the store: another reported total gives the same outcome. *)
Theorem total_tokens_is_input_plus_output (p : Plugin) (ctx : option GinContext)
    (ev : UsageEvent) (now : time.Time) :
  let h := HandleUsage json_Marshal p ctx ev now in
  let input := InputTokens (ev_Detail ev) in
  let output := OutputTokens (ev_Detail ev) in
  let id := x_recordDBID (extract ctx ev now) in
  (h_patched h = true → ∀ s s', store p = Some s → h_store h = Some s' →
     is_Some (usage_records s !! id) →
     cell s' id "input_tokens" = Some (SqlInt input)
     ∧ cell s' id "output_tokens" = Some (SqlInt output)
     ∧ cell s' id "total_tokens" = Some (SqlInt (Int64.add input output)))
  ∧ (∀ rec accepted, h_enqueued h = Some (rec, accepted) →
       rec_InputTokens rec = input ∧ rec_OutputTokens rec = output
       ∧ rec_TotalTokens rec = Int64.add input output
       ∧ insert_row json_Marshal rec !! "total_tokens" = Some (SqlInt (Int64.add input output)))
  ∧ (∀ total, HandleUsage json_Marshal p ctx (with_reported_total ev total) now = h)
  ∧ (Int64.in_range (input + output) → Int64.add input output = input + output).
Proof.
  intros h input output id. split; [|split; [|split]].
  - intros Hp s s' Hs Hs' Hrow.
    destruct (HandleUsage_patched p ctx ev now s s' Hp Hs Hs') as [-> [n Hok]].
    destruct (PatchByID_ok _ _ _ _ Hok (usage_patch_nonempty _ _)) as (Hopen & Hdb & Hid).
    repeat split; apply PatchByID_cell; done.
  - intros rec accepted Henq. apply HandleUsage_enqueued in Henq as ->.
    repeat split.
  - intros total. reflexivity.
  - unfold Int64.in_range, Int64.add, Int64.wrap, Int64.min_int, Int64.max_int.
    intros Hr. rewrite Z.mod_small; lia.
Qed.

End TokenClaim.
Section BodyClaim.
Variable Sprint_other : any -> string.

(** C6 (as amended).  The response body for the record is the first in
    the fallback order that has something: the captured response_body_for_log
    when it is a non-empty byte slice (a string must be non-blank); the raw
    API_RESPONSE bytes when non-blank; after a panic the trimmed panic
    message when it is not blank; the trimmed collected errors; for a final
    status of 400 or more (500 after a panic) the line HTTP, status, reason
    (without reason when the status has no standard text); else the empty
    string.  A 502 with nothing captured yields HTTP 502 Bad Gateway. *)
Theorem response_body_fallback (c : GinContext) (recovered : bool) :
  extractResponseBodyBestEffort Sprint_other c recovered
  = first_of (fallback_order Sprint_other c recovered)
  ∧ (gin_Keys c = ∅ → gin_Errors c = [] → w_Status (gin_Writer c) = 502 →
     extractResponseBodyBestEffort Sprint_other c false = "HTTP 502 Bad Gateway").
Proof.
  assert (Hmain : ∀ r, extractResponseBodyBestEffort Sprint_other c r
                       = first_of (fallback_order Sprint_other c r)).
  { intros r. unfold extractResponseBodyBestEffort, fallback_order, first_of.
    unfold source_captured, source_upstream, source_panic, source_errors, source_status,
      gin_Get, only_if, not_blank, nonempty, StatusInternalServerError, StatusBadRequest.
    destruct (gin_Keys c !! "response_body_for_log") as [[t|t|?|?|?|?|?|?]|]; cbn [mbind option_bind];
      try (destruct t as [|a t]; cbn [String.length Nat.ltb Nat.leb Nat.eqb negb]; [|reflexivity]);
      try (destruct (negb (String.length (Strs.TrimSpace t) =? 0)%nat); [reflexivity|]).
    all: destruct (gin_Keys c !! "API_RESPONSE") as [[ub|us|?|?|?|?|?|?]|];
      try (destruct (Strs.TrimSpace ub) as [|a' b'];
             cbn [String.length Nat.ltb Nat.leb Nat.eqb negb]; [|reflexivity]).
    all: destruct r;
      [destruct (gin_Keys c !! ginUsageRecordPanicKey) as [v|]; cbn [mbind option_bind];
         [destruct (negb (String.length (Strs.TrimSpace (fmt_Sprint Sprint_other v)) =? 0)%nat);
            [reflexivity|]|]|].
    all: destruct (gin_Errors c) as [|e errs];
      cbn [List.length Nat.ltb Nat.leb];
      try (destruct (negb (String.length (Strs.TrimSpace (Errors_String (e :: errs))) =? 0)%nat);
             [reflexivity|]).
    all: try reflexivity.
    all: destruct (400 <=? w_Status (gin_Writer c)); reflexivity. }
  split; [apply Hmain|].
  intros Hkeys Herrs Hstatus. rewrite Hmain.
  unfold fallback_order, source_captured, source_upstream, source_panic, source_errors,
    source_status. rewrite Hkeys, Herrs, Hstatus, !lookup_empty. reflexivity.
Qed.

End BodyClaim.

(** C6, counterexample.  A handler panics with an empty message and
    nothing else was captured: the stored response body is not the panic
    message (the empty string) but the line for status 500. *)
Lemma response_body_counterexample :
  let s' := middleware_exit demo_marshal demo_sprint demo_store (demo_context 200) 1
              demo_start "/v1/chat/completions" ∅ "{}" (Some (VString "")) demo_now in
  cell s' 1 "response_body" = Some (SqlText "HTTP 500 Internal Server Error")
  ∧ fmt_Sprint demo_sprint (VString "") = "".
Proof. split; vm_compute; reflexivity. Qed.

(** A panic with the message boom is stored as boom, with status 500 and
    no success. *)
Example panic_path :
  let s' := middleware_exit demo_marshal demo_sprint demo_store (demo_context 200) 1
              demo_start "/v1/chat/completions" ∅ "{}" (Some (VString "boom")) demo_now in
  cell s' 1 "response_body" = Some (SqlText "boom")
  ∧ cell s' 1 "status_code" = Some (SqlInt 500)
  ∧ cell s' 1 "success" = Some (SqlInt 0).
Proof. repeat split; vm_compute; reflexivity. Qed.
(** ** Masks *)

Lemma Repeat_length (n : nat) : String.length (Strs.Repeat "*" n) = n.
Proof.
  induction n as [|n IH]; [done|].
  change (Strs.Repeat "*" (S n)) with (String "*" (Strs.Repeat "*" n)).
  cbn [String.length]. by rewrite IH.
Qed.

Lemma append_length (a b : string) :
  String.length (a ++ b) = (String.length a + String.length b)%nat.
Proof. induction a as [|c a IH]; [done|]. simpl. f_equal. exact IH. Qed.

Lemma substring_length (s : string) (lo n : nat) :
  (lo + n <= String.length s)%nat → String.length (String.substring lo n s) = n.
Proof.
  revert lo n. induction s as [|a s IH]; intros lo n Hle; cbn in *.
  - destruct lo, n; cbn; lia.
  - destruct lo; [destruct n; cbn; [done|]; rewrite (IH 0%nat) by lia; done|].
    apply IH. lia.
Qed.

(** C10.  A header under a sensitive name is stored through maskValue:
    a value of at most 8 bytes becomes as many asterisks, a longer one its
    first four bytes, three dots and its last four bytes, which is 11 bytes
    long and shows 8 bytes of the value. *)
Theorem sensitive_header_mask (headers : gmap string (list string)) (key value : string)
    (others : list string) :
  headers !! key = Some (value :: others) → isSensitiveHeader key = true →
  let n := String.length value in
  captureHeadersBestEffort headers !! key = Some (maskValue value)
  ∧ ((n <= 8)%nat → maskValue value = Strs.Repeat "*" n
                    ∧ String.length (maskValue value) = n)
  ∧ ((8 < n)%nat →
       maskValue value
       = String.substring 0 4 value ++ "..." ++ String.substring (n - 4) 4 value
       ∧ String.length (maskValue value) = 11%nat).
Proof.
  intros Hget Hsens n. split; [|split].
  - unfold captureHeadersBestEffort. rewrite map_lookup_imap, Hget.
    cbn [mbind option_bind]. by rewrite Hsens.
  - intros Hle. unfold maskValue. fold n. destruct (Nat.leb_spec n 8); [|lia].
    split; [done|apply Repeat_length].
  - intros Hlt. unfold maskValue, Strs.slice. fold n. destruct (Nat.leb_spec n 8); [lia|].
    replace (n - (n - 4))%nat with 4%nat by lia. split; [done|].
    rewrite !append_length, !substring_length by (unfold n in *; lia). reflexivity.
Qed.

Lemma sensitive_header_mask_witness :
  (req_Header demo_request !! "Authorization" = Some ["Bearer sk-test-1234567890"]
   ∧ isSensitiveHeader "Authorization" = true)
  ∧ captureHeadersBestEffort (req_Header demo_request) !! "Authorization"
    = Some "Bear...7890".
Proof.
  split; [split; vm_compute; reflexivity|].
  destruct (sensitive_header_mask (req_Header demo_request) "Authorization"
              "Bearer sk-test-1234567890" [] ltac:(vm_compute; reflexivity)
              ltac:(vm_compute; reflexivity)) as [H _].
  rewrite H. vm_compute. reflexivity.
Defined.

Example maskValue_short : maskValue "secret" = "******".
Proof. reflexivity. Qed.

Example MaskAPIKey_shape : MaskAPIKey "sk-test-1234567890" = "sk**************90".
Proof. reflexivity. Qed.
(** ** The candidate hook *)

Lemma nonempty_false (s : string) : nonempty s = false ↔ s = "".
Proof. destruct s; cbn; split; done. Qed.

Lemma allowed_status_spec (status : string) :
  allowed_status status = true ↔ status ∈ ["pending"; "success"; "failed"; "skipped"].
Proof.
  unfold allowed_status. rewrite !orb_true_iff, !String.eqb_eq.
  rewrite !elem_of_cons, elem_of_nil. tauto.
Qed.

Lemma allowed_status_decide (status : string) :
  bool_decide (status ∈ ["pending"; "success"; "failed"; "skipped"]) = allowed_status status.
Proof.
  destruct (allowed_status status) eqn:H.
  - apply bool_decide_eq_true_2, allowed_status_spec, H.
  - apply bool_decide_eq_false_2. rewrite <- allowed_status_spec. congruence.
Qed.

(** C9 (as amended).  The hook drops an event, writing no row, exactly
    when its trimmed request id is empty or its trimmed auth id and auth file
    are both empty.  Otherwise the status stored is the trimmed status when
    that is one of pending, success, failed, skipped, and else success or
    failed after the success flag; and a status code of 0 becomes 200 exactly
    when the stored status is success. *)
Theorem candidate_normalized (candidate : Candidate) (now : time.Time) :
  (candidate_record candidate now = None
   ↔ Strs.TrimSpace (RequestID candidate) = ""
     ∨ (Strs.TrimSpace (AuthID candidate) = "" ∧ Strs.TrimSpace (AuthFile candidate) = ""))
  ∧ (candidate_record candidate now = None →
     ∀ st, OnCandidate (Some st) candidate now = Some st)
  ∧ (∀ r, candidate_record candidate now = Some r →
       let status := Strs.TrimSpace (Status candidate) in
       cand_Status r
       = (if bool_decide (status ∈ ["pending"; "success"; "failed"; "skipped"]) then status
          else if Success candidate then "success" else "failed")
       ∧ cand_StatusCode r
         = (if bool_decide (StatusCode candidate = 0 ∧ cand_Status r = "success")
            then 200 else StatusCode candidate)).
Proof.
  unfold candidate_record.
  destruct (nonempty (Strs.TrimSpace (RequestID candidate))) eqn:Hrid; cbn [negb].
  2:{ apply nonempty_false in Hrid. split; [rewrite Hrid; tauto|].
      split; [|done]. intros _ st. unfold OnCandidate, candidate_record.
      by rewrite Hrid. }
  assert (Strs.TrimSpace (RequestID candidate) ≠ "") as Hrid'.
  { intros He. apply nonempty_false in He. congruence. }
  destruct (nonempty (Strs.TrimSpace (AuthID candidate))) eqn:Haid; cbn [negb andb].
  - assert (Strs.TrimSpace (AuthID candidate) ≠ "") as Haid'.
    { intros He. apply nonempty_false in He. congruence. }
    split; [split; [done|tauto]|]. split; [done|].
    intros r [= <-]. cbn [cand_Status cand_StatusCode]. split.
    + by rewrite allowed_status_decide.
    + destruct (Z.eqb_spec (StatusCode candidate) 0) as [Hz|Hz]; cbn [andb].
      * destruct (String.eqb_spec
                    (if allowed_status (Strs.TrimSpace (Status candidate))
                     then Strs.TrimSpace (Status candidate)
                     else if Success candidate then "success" else "failed") "success").
        -- by rewrite bool_decide_eq_true_2.
        -- rewrite bool_decide_eq_false_2; tauto.
      * rewrite bool_decide_eq_false_2; tauto.
  - apply nonempty_false in Haid.
    destruct (nonempty (Strs.TrimSpace (AuthFile candidate))) eqn:Haf; cbn [negb].
    + assert (Strs.TrimSpace (AuthFile candidate) ≠ "") as Haf'.
      { intros He. apply nonempty_false in He. congruence. }
      rewrite Haf. cbn [negb].
      split; [split; [done|tauto]|]. split; [done|].
      intros r [= <-]. cbn [cand_Status cand_StatusCode]. split.
      * by rewrite allowed_status_decide.
      * destruct (Z.eqb_spec (StatusCode candidate) 0) as [Hz|Hz]; cbn [andb].
        -- destruct (String.eqb_spec
                      (if allowed_status (Strs.TrimSpace (Status candidate))
                       then Strs.TrimSpace (Status candidate)
                       else if Success candidate then "success" else "failed") "success").
           ++ by rewrite bool_decide_eq_true_2.
           ++ rewrite bool_decide_eq_false_2; tauto.
        -- rewrite bool_decide_eq_false_2; tauto.
    + apply nonempty_false in Haf. rewrite Haid. cbn.
      split; [split; [tauto|done]|]. split; [|done].
      intros _ st. unfold OnCandidate, candidate_record. rewrite Hrid, Haid, Haf. done.
Qed.

(** C9, counterexample.  A status with blanks around the word failed is
    none of the four words, and the success flag is set; the stored status is
    failed all the same, not success. *)
Lemma candidate_status_counterexample :
  (cand_Status <$> candidate_record demo_candidate demo_now) = Some "failed"
  ∧ (Status demo_candidate ∉ ["pending"; "success"; "failed"; "skipped"])
  ∧ Success demo_candidate = true.
Proof.
  split; [vm_compute; reflexivity|]. split; [|reflexivity].
  rewrite <- allowed_status_spec. vm_compute. discriminate.
Qed.
(** ** Listing *)

Section ListClaim.
Variable sql_where : string -> list SqlValue -> Z * Row -> bool.
Variable sql_order : string -> string -> list (Z * Row) -> list (Z * Row).
Variable json_Unmarshal : string -> option (gmap string string).
Variable loc : Z.

Lemma omap_length_le {A B : Type} (f : A → option B) (l : list A) :
  (List.length (omap f l) <= List.length l)%nat.
Proof. induction l as [|a l IH]; cbn; [lia|]. destruct (f a); cbn; lia. Qed.

(** C8.  List never fails on account of its pagination values: it fails
    only on a closed store or a failing engine.  Otherwise the page is the
    requested one, or 1 for a request below 1; the page size is the requested
    one, with 20 for a request below 1 and 100 for one above 100; the records
    are at most a page; and the page count is the total divided by the page
    size, rounded up. *)
Theorem List_pagination (s : Store) (query : ListQuery) :
  match List sql_where sql_order json_Unmarshal loc s query with
  | Ok res =>
      Page res = Z.max 1 (q_Page query) ∧ 1 <= Page res
      ∧ PageSize res = (if bool_decide (q_PageSize query < 1) then 20
                        else Z.min 100 (q_PageSize query))
      ∧ 1 <= PageSize res <= 100
      ∧ Z.of_nat (List.length (Records res)) <= PageSize res
      ∧ 0 <= Total res
      ∧ (TotalPages res - 1) * PageSize res < Total res <= TotalPages res * PageSize res
  | Err _ => closed s = true ∨ db_failing s = true
  end
  ∧ ∀ page pageSize,
      is_err (List sql_where sql_order json_Unmarshal loc s (with_paging query page pageSize))
      = is_err (List sql_where sql_order json_Unmarshal loc s query).
Proof.
  split.
  - unfold List. destruct (closed s); [by left|]. destruct (db_failing s); [by right|].
    cbn [Page PageSize Records Total TotalPages].
    set (page := if q_Page query <? 1 then 1 else q_Page query).
    set (size0 := if q_PageSize query <? 1 then 20 else q_PageSize query).
    set (size := if 100 <? size0 then 100 else size0).
    set (matching := List.filter _ _).
    assert (Hsize : size = if bool_decide (q_PageSize query < 1) then 20
                           else Z.min 100 (q_PageSize query)).
    { unfold size, size0. case_bool_decide; destruct (Z.ltb_spec (q_PageSize query) 1);
        try lia; [reflexivity|]. destruct (Z.ltb_spec 100 (q_PageSize query)); lia. }
    assert (Hrange : 1 <= size <= 100).
    { rewrite Hsize. case_bool_decide; lia. }
    assert (Hpage : page = Z.max 1 (q_Page query)).
    { unfold page. destruct (Z.ltb_spec (q_Page query) 1); lia. }
    repeat split; try lia.
    + etrans; [apply Nat2Z.inj_le, omap_length_le|].
      rewrite length_take. lia.
    + rewrite Z.quot_div_nonneg by lia.
      pose proof (Z.mul_div_le (Z.of_nat (List.length matching) + size - 1) size).
      pose proof (Z.mod_pos_bound (Z.of_nat (List.length matching) + size - 1) size).
      pose proof (Z.div_mod (Z.of_nat (List.length matching) + size - 1) size). nia.
    + rewrite Z.quot_div_nonneg by lia.
      pose proof (Z.mod_pos_bound (Z.of_nat (List.length matching) + size - 1) size).
      pose proof (Z.div_mod (Z.of_nat (List.length matching) + size - 1) size). nia.
  - intros page pageSize. unfold List. cbn.
    destruct (closed s); [done|]. by destruct (db_failing s).
Qed.

End ListClaim.
(** ** Time parameters *)

Lemma parse_first_none (layouts : list time.Layout) (value : string) :
  (∀ l, l ∈ layouts → time.Parse l value = None) → parse_first layouts value = None.
Proof.
  induction layouts as [|l rest IH]; intros Hall; [done|]. cbn.
  rewrite (Hall l) by (apply elem_of_cons; by left).
  apply IH. intros l' Hl'. apply Hall. apply elem_of_cons. by right.
Qed.

(** C4 (as amended).  ParseTimeParam maps the empty string to the empty
    string; a string that ParseInt reads as an integer strictly between
    1000000000 and 9999999999 to the RFC3339 form of that Unix time in the
    local zone; and a string that is no such integer and parses under none of
    the four layouts to itself, unchanged. *)
Theorem ParseTimeParam_cases (loc : Z) (param : string) :
  ParseTimeParam loc "" = ""
  ∧ (∀ ts, Strs.ParseInt param = Some ts → 1000000000 < ts < 9999999999 →
       ParseTimeParam loc param = time.Format_RFC3339 (time.Unix ts loc))
  ∧ ((∀ ts, Strs.ParseInt param = Some ts → ¬ (1000000000 < ts < 9999999999)) →
     (∀ l, l ∈ timeParamLayouts → time.Parse l param = None) →
     ParseTimeParam loc param = param).
Proof.
  split; [reflexivity|]. split.
  - intros ts Hint Hrange. unfold ParseTimeParam, unix_param.
    destruct param as [|a rest]; [discriminate Hint|]. cbn [nonempty String.length Nat.eqb negb].
    rewrite Hint.
    destruct (Z.ltb_spec 1000000000 ts), (Z.ltb_spec ts 9999999999); try lia. reflexivity.
  - intros Hint Hlayouts. unfold ParseTimeParam, unix_param.
    destruct param as [|a rest]; [reflexivity|]. cbn [nonempty String.length Nat.eqb negb].
    rewrite (parse_first_none _ _ Hlayouts).
    destruct (Strs.ParseInt (String a rest)) as [ts|] eqn:Hts; [|reflexivity].
    specialize (Hint ts eq_refl).
    destruct (Z.ltb_spec 1000000000 ts), (Z.ltb_spec ts 9999999999); cbn; try reflexivity. lia.
Qed.

(** C4, counterexample.  The string 1000000000 is a Unix-seconds integer
    in [1e9, 1e10), yet it comes back as it is instead of as the RFC3339 form
    of that instant. *)
Lemma ParseTimeParam_counterexample :
  Strs.ParseInt "1000000000" = Some 1000000000
  ∧ ParseTimeParam 0 "1000000000" = "1000000000"
  ∧ time.Format_RFC3339 (time.Unix 1000000000 0) = "2001-09-09T01:46:40Z".
Proof. repeat split; vm_compute; reflexivity. Qed.

Example ParseTimeParam_unix :
  ParseTimeParam 28800 "1736582400" = "2025-01-11T16:00:00+08:00".
Proof. vm_compute. reflexivity. Qed.

Example ParseTimeParam_iso :
  ParseTimeParam 3600 "2026-01-11T12:00:00.000Z" = "2026-01-11T13:00:00+01:00".
Proof. vm_compute. reflexivity. Qed.

Example ParseTimeParam_verbatim : ParseTimeParam 0 "yesterday" = "yesterday".
Proof. vm_compute. reflexivity. Qed.
(** ** Calendar *)

Lemma all_from_spec (f : Z -> bool) (count : nat) (z0 z : Z) :
  all_from f count z0 = true → z0 <= z < z0 + Z.of_nat count → f z = true.
Proof.
  revert z0. induction count as [|k IH]; intros z0 Hall Hz; [lia|].
  cbn [all_from] in Hall. apply andb_true_iff in Hall as [Hz0 Hrest].
  destruct (decide (z = z0)) as [->|Hne]; [done|].
  apply (IH (z0 + 1)); [done|lia].
Qed.

Lemma civil_era_ok : all_from civil_day_ok (Z.to_nat 146097) 0 = true.
Proof. vm_compute. reflexivity. Qed.

Lemma civil_of_era_shift (era doe : Z) :
  time.civil_of_era era doe
  = (fst (fst (time.civil_of_era 0 doe)) + era * 400,
     snd (fst (time.civil_of_era 0 doe)), snd (time.civil_of_era 0 doe)).
Proof.
  unfold time.civil_of_era. cbv zeta. cbn [fst snd].
  destruct (_ <=? 2); f_equal; f_equal; lia.
Qed.

Lemma days_from_civil_shift (y m d e : Z) :
  time.days_from_civil (y + e * 400) m d = time.days_from_civil y m d + e * 146097.
Proof.
  unfold time.days_from_civil. cbv zeta.
  replace ((if m <=? 2 then y + e * 400 - 1 else y + e * 400))
    with ((if m <=? 2 then y - 1 else y) + e * 400) by (destruct (m <=? 2); lia).
  set (a := if m <=? 2 then y - 1 else y).
  rewrite Z.div_add by lia.
  replace (a + e * 400 - (a / 400 + e) * 400) with (a - a / 400 * 400) by lia. lia.
Qed.

(** Counting the days of the civil date of day [z] gives [z] back. *)
Lemma civil_roundtrip (z : Z) :
  time.days_from_civil (fst (fst (time.civil_from_days z))) (snd (fst (time.civil_from_days z))) 1
  + (snd (time.civil_from_days z) - 1) = z
  ∧ 1 <= snd (fst (time.civil_from_days z)) <= 12.
Proof.
  unfold time.civil_from_days. cbv zeta.
  set (era := (z + 719468) / 146097). set (doe := z + 719468 - era * 146097).
  assert (0 <= doe < 146097) as Hdoe.
  { unfold doe, era. pose proof (Z.mod_pos_bound (z + 719468) 146097).
    pose proof (Z.div_mod (z + 719468) 146097). lia. }
  rewrite civil_of_era_shift. cbn [fst snd].
  pose proof (all_from_spec _ _ 0 doe civil_era_ok ltac:(lia)) as Hok.
  unfold civil_day_ok in Hok.
  destruct (time.civil_of_era 0 doe) as [[y m] d]. cbn [fst snd].
  rewrite !andb_true_iff in Hok. destruct Hok as ((((Hd & Hm1) & Hm2) & _) & _).
  rewrite days_from_civil_shift. unfold doe in *. lia.
Qed.
(** ** Instants *)

Lemma UnixNano_of_nanos (n off : Z) : time.UnixNano (time.of_nanos n off) = n.
Proof.
  unfold time.UnixNano, time.of_nanos. cbn.
  pose proof (Z.div_mod n time.Second ltac:(done)). lia.
Qed.

Lemma Add_of_nanos (n off d : Z) :
  time.Add (time.of_nanos n off) d = time.of_nanos (n + d) off.
Proof. unfold time.Add. by rewrite UnixNano_of_nanos. Qed.

Lemma Truncate_Hour (t : time.Time) :
  time.Truncate t time.Hour
  = time.of_nanos (time.UnixNano t / time.Hour * time.Hour) (time.offset t).
Proof.
  unfold time.Truncate. cbn [Z.leb]. change (time.Hour <=? 0) with false. cbv iota.
  unfold time.Add. f_equal. unfold time.UnixNano, time.zero_sec.
  change time.Hour with 3600000000000. change time.Second with 1000000000.
  replace ((time.sec t - -62135596800) * 1000000000 + time.nsec t)
    with (time.sec t * 1000000000 + time.nsec t + 17259888 * 3600000000000) by lia.
  rewrite Z.mod_add by lia.
  pose proof (Z.div_mod (time.sec t * 1000000000 + time.nsec t) 3600000000000 ltac:(lia)).
  lia.
Qed.

Lemma midnight_nanos (t : time.Time) :
  midnight t
  = time.of_nanos ((time.wall t / 86400 * 86400 - time.offset t) * time.Second)
                  (time.offset t).
Proof.
  unfold midnight, time.Date, time.Year, time.Month, time.Day, time.civil.
  destruct (civil_roundtrip (time.wall t / 86400)) as [Hdays Hmonth].
  set (cv := time.civil_from_days (time.wall t / 86400)) in *.
  cbv zeta. f_equal.
  replace ((cv.1.2 - 1) / 12) with 0 by (symmetry; apply Z.div_small; lia).
  rewrite (Z.mod_small (cv.1.2 - 1) 12) by lia.
  replace (cv.1.1 + 0) with (cv.1.1) by lia.
  replace (cv.1.2 - 1 + 1) with (cv.1.2) by lia.
  rewrite Hdays. lia.
Qed.

Lemma AddDate_one_day (t : time.Time) :
  time.AddDate t 0 0 1 = time.Add t (24 * time.Hour).
Proof.
  unfold time.AddDate, time.Date, time.Year, time.Month, time.Day, time.civil, time.Add.
  destruct (civil_roundtrip (time.wall t / 86400)) as [Hdays Hmonth].
  set (cv := time.civil_from_days (time.wall t / 86400)) in *.
  cbv zeta. f_equal.
  replace (cv.1.2 + 0) with (cv.1.2) by lia.
  replace ((cv.1.2 - 1) / 12) with 0 by (symmetry; apply Z.div_small; lia).
  rewrite (Z.mod_small (cv.1.2 - 1) 12) by lia.
  replace (cv.1.1 + 0 + 0) with (cv.1.1) by lia.
  replace (cv.1.2 - 1 + 1) with (cv.1.2) by lia.
  replace (time.days_from_civil cv.1.1 cv.1.2 1 + (cv.2 + 1 - 1))
    with (time.wall t / 86400 + 1) by lia.
  unfold time.HourOf, time.MinuteOf, time.SecondOf, time.UnixNano.
  change time.Hour with 3600000000000. change time.Second with 1000000000.
  unfold time.wall in *. set (w := time.sec t + time.offset t).
  assert (w / 86400 * 86400 + w mod 86400 / 3600 * 3600 + w mod 3600 / 60 * 60 + w mod 60 = w).
  { clear. Z.div_mod_to_equations. lia. }
  lia.
Qed.
(** ** Dense series *)

Lemma dense_series_length (label_of : time.Time -> string) (m : gmap string Z)
    (first : time.Time) (step n : Z) :
  List.length (dense_series label_of m first step n) = Z.to_nat n.
Proof. unfold dense_series. by rewrite length_fmap, length_seqZ. Qed.

(** The loop with enough fuel, over an instant kept in normal form: it
    takes one turn per step up to [last]. *)
Lemma dense_loop_steps (step off : Z) (next : time.Time -> time.Time)
    (label_of : time.Time -> string) (reqs toks : gmap string Z) (last : time.Time) :
  0 < step →
  (∀ n, next (time.of_nanos n off) = time.of_nanos (n + step) off) →
  ∀ (fuel : nat) (n0 : Z),
    (Z.to_nat ((time.UnixNano last - n0) / step + 1) <= fuel)%nat →
    dense_loop fuel next label_of reqs toks (time.of_nanos n0 off) last
    = (dense_series label_of reqs (time.of_nanos n0 off) step
         ((time.UnixNano last - n0) / step + 1),
       dense_series label_of toks (time.of_nanos n0 off) step
         ((time.UnixNano last - n0) / step + 1)).
Proof.
  intros Hstep Hnext fuel. induction fuel as [|fuel IH]; intros n0 Hfuel.
  - cbn [dense_loop]. unfold dense_series.
    rewrite (seqZ_nil 0 ((time.UnixNano last - n0) / step + 1)) by lia. done.
  - cbn [dense_loop]. unfold time.After. rewrite UnixNano_of_nanos.
    destruct (Z.ltb_spec (time.UnixNano last) n0) as [Hafter|Hnot].
    + assert ((time.UnixNano last - n0) / step < 0) by (apply Z.div_lt_upper_bound; lia).
      unfold dense_series. rewrite (seqZ_nil 0 ((time.UnixNano last - n0) / step + 1)) by lia.
      done.
    + assert (0 <= (time.UnixNano last - n0) / step) by (apply Z.div_pos; lia).
      assert ((time.UnixNano last - (n0 + step)) / step = (time.UnixNano last - n0) / step - 1)
        as Hshift.
      { replace (time.UnixNano last - (n0 + step))
          with (time.UnixNano last - n0 + (-1) * step) by lia.
        rewrite Z.div_add by lia. lia. }
      rewrite Hnext, IH by (rewrite Hshift; lia). rewrite Hshift. cbn [fst snd].
      unfold dense_series.
      rewrite (seqZ_cons 0 ((time.UnixNano last - n0) / step + 1)) by lia.
      rewrite !fmap_cons.
      replace (Z.pred ((time.UnixNano last - n0) / step + 1))
        with ((time.UnixNano last - n0) / step - 1 + 1) by lia.
      rewrite <- (fmap_add_seqZ 1 0). rewrite <- !list_fmap_compose.
      rewrite !Add_of_nanos. replace (n0 + 0 * step) with n0 by lia.
      f_equal; f_equal; apply list_fmap_ext; intros _ k _; cbn;
        rewrite !Add_of_nanos;
        replace (n0 + step + k * step) with (n0 + (1 + k) * step) by lia; reflexivity.
Qed.

Lemma fill_maps_absent (bucket label : string) (rows : list aggRow) :
  (∀ r, r ∈ rows → row_label bucket r ≠ label) →
  at_key (fst (fill_maps bucket rows)) label = 0
  ∧ at_key (snd (fill_maps bucket rows)) label = 0.
Proof.
  unfold fill_maps.
  assert (∀ (acc : gmap string Z * gmap string Z),
            (∀ r, r ∈ rows → row_label bucket r ≠ label) →
            let out := foldl (fun maps r =>
                         let label := if String.eqb bucket "hour"
                                      then replace_first_T (key r) ++ ":00" else key r in
                         (<[label := requests r]> (fst maps), <[label := tokens r]> (snd maps)))
                       acc rows in
            fst out !! label = fst acc !! label ∧ snd out !! label = snd acc !! label) as Hgen.
  { induction rows as [|r rows IH]; intros acc Hrows; [done|].
    cbn [foldl]. destruct (IH (<[row_label bucket r := requests r]> (fst acc),
                               <[row_label bucket r := tokens r]> (snd acc))) as [H1 H2].
    { intros r' Hr'. apply Hrows. apply elem_of_cons. by right. }
    cbn [fst snd] in *. unfold row_label in *. rewrite H1, H2.
    assert ((if String.eqb bucket "hour" then replace_first_T (key r) ++ ":00" else key r)
            ≠ label) as Hne by (apply Hrows, elem_of_cons; by left).
    by rewrite !lookup_insert_ne. }
  intros Hrows. destruct (Hgen (∅, ∅) Hrows) as [H1 H2]. unfold at_key.
  cbn [fst snd] in *. by rewrite H1, H2, lookup_empty.
Qed.

Lemma trend_window_ordered (loc : Z) (now : time.Time) (startTime endTime : string) :
  time.UnixNano (fst (trend_window loc now startTime endTime))
  <= time.UnixNano (snd (trend_window loc now startTime endTime)).
Proof.
  unfold trend_window. cbv zeta.
  match goal with |- context [time.After ?a ?b] =>
    unfold time.After; destruct (Z.ltb_spec (time.UnixNano b) (time.UnixNano a)) end;
    cbn [fst snd]; lia.
Qed.

Lemma Sub_exact (t u : time.Time) :
  Int64.min_int <= time.UnixNano t - time.UnixNano u <= Int64.max_int →
  time.Sub t u = time.UnixNano t - time.UnixNano u.
Proof. unfold time.Sub. lia. Qed.

Lemma Sub_small (t u : time.Time) (d : Z) :
  time.UnixNano u <= time.UnixNano t → d < Int64.max_int →
  (time.Sub t u <= d ↔ time.UnixNano t - time.UnixNano u <= d).
Proof. unfold time.Sub, Int64.min_int, Int64.max_int. lia. Qed.


(** ** Rounding to binary64

    Facts about the correctly rounded arithmetic of [f64] that the
    interval timeline rests on. *)

Local Open Scope Q_scope.

Lemma pow2_pos (k : Z) : 0 < 2 ^ k.
Proof. apply Qpower_0_lt. reflexivity. Qed.

Lemma pow2_add (a b : Z) : 2 ^ (a + b) == 2 ^ a * 2 ^ b.
Proof. apply Qpower_plus. discriminate. Qed.

Lemma pow2_le (a b : Z) : (a <= b)%Z → 2 ^ a <= 2 ^ b.
Proof. intros H. apply Qpower_le_compat_l; [exact H|]. discriminate. Qed.

Lemma pow2_lt_inv (a b : Z) : 2 ^ a < 2 ^ b → (a < b)%Z.
Proof.
  intros H. destruct (Z.lt_ge_cases a b) as [|Hge]; [done|].
  apply pow2_le in Hge. lra.
Qed.

Lemma pow2_Z (k : Z) : (0 <= k)%Z → inject_Z (2 ^ k) == 2 ^ k.
Proof. intros H. apply (Zpower_Qpower 2 k H). Qed.

(** The exponent chosen for a positive rational brackets it. *)
Lemma ilog2_spec (x : Q) : 0 < x → 2 ^ f64.ilog2 x <= x ∧ x < 2 ^ (f64.ilog2 x + 1).
Proof.
  intros Hx. unfold f64.ilog2. destruct x as [a b]. cbn [Qnum Qden].
  assert (0 < a)%Z as Ha by (unfold Qlt in Hx; cbn in Hx; lia).
  set (la := Z.log2 a). set (lb := Z.log2 (Z.pos b)).
  destruct (Z.log2_spec a Ha) as [Ha1 Ha2]. fold la in Ha1, Ha2.
  destruct (Z.log2_spec (Z.pos b) ltac:(lia)) as [Hb1 Hb2]. fold lb in Hb1, Hb2.
  assert (0 <= la)%Z by apply Z.log2_nonneg.
  assert (0 <= lb)%Z by apply Z.log2_nonneg.
  assert (Hq : a # b == inject_Z a / inject_Z (Z.pos b)) by apply Qmake_Qdiv.
  assert (Hbpos : 0 < inject_Z (Z.pos b)) by (unfold Qlt; cbn; lia).
  assert (HA1 : 2 ^ la <= inject_Z a).
  { rewrite <- pow2_Z by lia. rewrite <- Zle_Qle. exact Ha1. }
  assert (HA2 : inject_Z a < 2 ^ (la + 1)).
  { rewrite <- pow2_Z by lia. rewrite <- Zlt_Qlt. replace (la + 1)%Z with (Z.succ la) by lia. exact Ha2. }
  assert (HB1 : 2 ^ lb <= inject_Z (Z.pos b)).
  { rewrite <- pow2_Z by lia. rewrite <- Zle_Qle. exact Hb1. }
  assert (HB2 : inject_Z (Z.pos b) < 2 ^ (lb + 1)).
  { rewrite <- pow2_Z by lia. rewrite <- Zlt_Qlt. replace (lb + 1)%Z with (Z.succ lb) by lia. exact Hb2. }
  (* a/b lies strictly between 2^(la-lb-1) and 2^(la-lb+1) *)
  assert (Hlow : 2 ^ (la - lb - 1) < a # b).
  { rewrite Hq. apply Qlt_shift_div_l; [exact Hbpos|].
    assert (2 ^ (la - lb - 1) * 2 ^ (lb + 1) == 2 ^ la) as He.
    { rewrite <- pow2_add. replace (la - lb - 1 + (lb + 1))%Z with la by lia. reflexivity. }
    pose proof (pow2_pos (la - lb - 1)). nra. }
  assert (Hhigh : a # b < 2 ^ (la - lb + 1)).
  { rewrite Hq. apply Qlt_shift_div_r; [exact Hbpos|].
    assert (2 ^ (la - lb + 1) * 2 ^ lb == 2 ^ (la + 1)) as He.
    { rewrite <- pow2_add. replace (la - lb + 1 + lb)%Z with (la + 1)%Z by lia. reflexivity. }
    pose proof (pow2_pos (la - lb + 1)). nra. }
  destruct (Qle_bool (2 ^ (la - lb)) (a # b)) eqn:Hle.
  - apply Qle_bool_iff in Hle. split; [exact Hle|exact Hhigh].
  - assert (a # b < 2 ^ (la - lb)) as Hlt.
    { apply Qnot_le_lt. intros Hc. apply Qle_bool_iff in Hc. congruence. }
    split; [apply Qlt_le_weak; exact Hlow|].
    replace (la - lb - 1 + 1)%Z with (la - lb)%Z by lia. exact Hlt.
Qed.

Lemma rne_bounds (q : Q) :
  inject_Z (f64.rne q) - (1 # 2) <= q ∧ q <= inject_Z (f64.rne q) + (1 # 2)
  ∧ (Qfloor q <= f64.rne q <= Qfloor q + 1)%Z.
Proof.
  unfold f64.rne. pose proof (Qfloor_le q) as Hf. pose proof (Qlt_floor q) as Hc.
  rewrite inject_Z_plus in Hc. change (inject_Z 1) with 1 in Hc.
  destruct (Qcompare (q - inject_Z (Qfloor q)) (1 # 2)) eqn:Hcmp;
    [apply Qeq_alt in Hcmp; destruct (Z.even (Qfloor q))
    |apply Qlt_alt in Hcmp|apply Qgt_alt in Hcmp];
    rewrite ?inject_Z_plus; change (inject_Z 1) with 1;
    (split; [lra|split; [lra|lia]]).
Qed.

Lemma rne_Z (z : Z) : f64.rne (inject_Z z) = z.
Proof.
  unfold f64.rne. rewrite Qfloor_Z.
  assert (Qcompare (inject_Z z - inject_Z z) (1 # 2) = Lt) as ->; [|done].
  apply (proj1 (Qlt_alt _ _)). ring_simplify (inject_Z z - inject_Z z). reflexivity.
Qed.

Lemma rne_mono (x y : Q) : x <= y → (f64.rne x <= f64.rne y)%Z.
Proof.
  intros Hxy. pose proof (Qfloor_resp_le _ _ Hxy) as Hfl.
  destruct (rne_bounds x) as (_ & _ & Hx). destruct (rne_bounds y) as (_ & _ & Hy).
  destruct (Z.eq_dec (Qfloor x) (Qfloor y)) as [Heq|Hne]; [|lia].
  unfold f64.rne in *. rewrite Heq in *.
  destruct (Qcompare (y - inject_Z (Qfloor y)) (1 # 2)) eqn:Hcy;
    destruct (Qcompare (x - inject_Z (Qfloor y)) (1 # 2)) eqn:Hcx;
    try (destruct (Z.even (Qfloor y))); try lia;
    repeat match goal with
           | H : Qcompare _ _ = Eq |- _ => apply Qeq_alt in H
           | H : Qcompare _ _ = Lt |- _ => apply Qlt_alt in H
           | H : Qcompare _ _ = Gt |- _ => apply Qgt_alt in H
           end; lra.
Qed.

Instance rne_proper : Proper (Qeq ==> eq) f64.rne.
Proof.
  intros x y Hxy. apply Z.le_antisymm; apply rne_mono; rewrite Hxy; apply Qle_refl.
Qed.

(** The scaled significand of a positive rational lies in [2^52, 2^53). *)
Lemma scaled_range (x : Q) :
  0 < x → 2 ^ 52 <= x * 2 ^ (52 - f64.ilog2 x) ∧ x * 2 ^ (52 - f64.ilog2 x) < 2 ^ 53.
Proof.
  intros Hx. destruct (ilog2_spec x Hx) as [Hlo Hhi].
  set (e := f64.ilog2 x) in *. pose proof (pow2_pos (52 - e)) as Hp.
  assert (2 ^ e * 2 ^ (52 - e) == 2 ^ 52) as H1.
  { rewrite <- pow2_add. replace (e + (52 - e))%Z with 52%Z by lia. reflexivity. }
  assert (2 ^ (e + 1) * 2 ^ (52 - e) == 2 ^ 53) as H2.
  { rewrite <- pow2_add. replace (e + 1 + (52 - e))%Z with 53%Z by lia. reflexivity. }
  split.
  - rewrite <- H1. apply Qmult_le_compat_r; lra.
  - rewrite <- H2. apply Qmult_lt_compat_r; lra.
Qed.

Lemma round_pos_range (x : Q) :
  0 < x → 2 ^ f64.ilog2 x <= f64.round_pos x ∧ f64.round_pos x <= 2 ^ (f64.ilog2 x + 1).
Proof.
  intros Hx. destruct (scaled_range x Hx) as [Hlo Hhi]. unfold f64.round_pos.
  set (e := f64.ilog2 x) in *. set (q := x * 2 ^ (52 - e)) in *.
  pose proof (pow2_pos (e - 52)) as Hp.
  assert (2 ^ 52 <= f64.rne q)%Z as Hm1.
  { rewrite <- (rne_Z (2 ^ 52)). apply rne_mono. rewrite pow2_Z by lia. exact Hlo. }
  assert (f64.rne q <= 2 ^ 53)%Z as Hm2.
  { rewrite <- (rne_Z (2 ^ 53)). apply rne_mono. rewrite pow2_Z by lia. lra. }
  assert (2 ^ 52 * 2 ^ (e - 52) == 2 ^ e) as H1.
  { rewrite <- pow2_add. replace (52 + (e - 52))%Z with e by lia. reflexivity. }
  assert (2 ^ 53 * 2 ^ (e - 52) == 2 ^ (e + 1)) as H2.
  { rewrite <- pow2_add. replace (53 + (e - 52))%Z with (e + 1)%Z by lia. reflexivity. }
  rewrite Zle_Qle in Hm1, Hm2. rewrite pow2_Z in Hm1, Hm2 by lia.
  split.
  - rewrite <- H1. apply Qmult_le_compat_r; lra.
  - rewrite <- H2. apply Qmult_le_compat_r; lra.
Qed.

Lemma round_pos_mono (x y : Q) : 0 < x → x <= y → f64.round_pos x <= f64.round_pos y.
Proof.
  intros Hx Hxy. assert (0 < y) as Hy by lra.
  destruct (ilog2_spec x Hx) as [Hx1 Hx2]. destruct (ilog2_spec y Hy) as [Hy1 Hy2].
  assert (f64.ilog2 x < f64.ilog2 y + 1)%Z as He by (apply pow2_lt_inv; lra).
  destruct (Z.eq_dec (f64.ilog2 x) (f64.ilog2 y)) as [Heq|Hne].
  - unfold f64.round_pos. rewrite Heq. pose proof (pow2_pos (f64.ilog2 y - 52)).
    pose proof (pow2_pos (52 - f64.ilog2 y)).
    apply Qmult_le_compat_r; [|lra]. rewrite <- Zle_Qle. apply rne_mono.
    apply Qmult_le_compat_r; lra.
  - destruct (round_pos_range x Hx) as [_ Hxr]. destruct (round_pos_range y Hy) as [Hyr _].
    pose proof (pow2_le (f64.ilog2 x + 1) (f64.ilog2 y) ltac:(lia)). lra.
Qed.

Lemma round_zero (x : Q) : x == 0 → f64.round x = 0.
Proof.
  intros H. unfold f64.round. destruct x as [a b]. unfold Qeq in H. cbn in *.
  assert (a = 0%Z) as -> by lia. reflexivity.
Qed.

Lemma round_positive (x : Q) : 0 < x → f64.round x = f64.round_pos x.
Proof.
  intros H. unfold f64.round. destruct x as [[|a|a] b]; unfold Qlt in H; cbn in H; try lia.
  reflexivity.
Qed.

Lemma round_nonneg (x : Q) : 0 <= x → 0 <= f64.round x.
Proof.
  intros H. destruct (Qlt_le_dec 0 x) as [Hpos|Hle].
  - rewrite round_positive by done. destruct (round_pos_range x Hpos) as [Hlo _].
    pose proof (pow2_pos (f64.ilog2 x)). lra.
  - rewrite round_zero by lra. lra.
Qed.

(** Rounding is monotone (on the non-negative rationals, the only ones
    the timeline computes with). *)
Lemma round_mono (x y : Q) : 0 <= x → x <= y → f64.round x <= f64.round y.
Proof.
  intros Hx Hxy. destruct (Qlt_le_dec 0 x) as [Hpos|Hle].
  - rewrite !round_positive by lra. by apply round_pos_mono.
  - rewrite (round_zero x) by lra. apply round_nonneg. lra.
Qed.

Instance round_proper : Proper (Qeq ==> Qeq) f64.round.
Proof.
  assert (∀ x y, x == y → 0 <= x → f64.round x == f64.round y) as Hnn.
  { intros x y Hxy Hx. apply Qle_antisym; apply round_mono; lra. }
  intros x y Hxy. destruct (Qlt_le_dec x 0) as [Hneg|Hge]; [|by apply Hnn].
  unfold f64.round. destruct x as [[|a|a] b], y as [[|c|c] d];
    unfold Qeq, Qlt in Hxy, Hneg; cbn in Hxy, Hneg; try lia.
  pose proof (Hnn (- (Z.neg a # b)) (- (Z.neg c # d))) as H.
  rewrite !round_positive in H by (unfold Qlt; cbn; lia).
  cbn [Qnum]. apply Qopp_comp, H; unfold Qeq, Qle; cbn; lia.
Qed.

(** An integer of at most 53 bits is a binary64 value. *)
Lemma round_int (z : Z) : (0 <= z < 2 ^ 53)%Z → f64.round (inject_Z z) == inject_Z z.
Proof.
  intros [Hz0 Hz1]. destruct (Z.eq_dec z 0%Z) as [->|Hne]; [reflexivity|].
  assert (0 < inject_Z z) as Hpos by (unfold Qlt; cbn; lia).
  rewrite round_positive by done. unfold f64.round_pos.
  destruct (ilog2_spec _ Hpos) as [Hlo Hhi]. set (e := f64.ilog2 (inject_Z z)) in *.
  assert (e < 53)%Z as He.
  { apply pow2_lt_inv. apply Qle_lt_trans with (inject_Z z); [exact Hlo|].
    rewrite <- pow2_Z by lia. rewrite <- Zlt_Qlt. exact Hz1. }
  assert (inject_Z z * 2 ^ (52 - e) == inject_Z (z * 2 ^ (52 - e))) as Hq.
  { rewrite inject_Z_mult, pow2_Z by lia. reflexivity. }
  rewrite Hq, rne_Z, inject_Z_mult, pow2_Z by lia.
  rewrite <- Qmult_assoc, <- pow2_add.
  replace (52 - e + (e - 52))%Z with 0%Z by lia. change (2 ^ 0) with 1. ring.
Qed.

(** The relative error of rounding is at most 2^-53. *)
Lemma round_upper (x : Q) : 0 <= x → f64.round x <= x * (1 + 2 ^ (-53)).
Proof.
  intros Hx. pose proof (pow2_pos (-53)) as Hu.
  destruct (Qlt_le_dec 0 x) as [Hpos|Hle]; [|rewrite round_zero by lra; nra].
  rewrite round_positive by done. unfold f64.round_pos.
  destruct (ilog2_spec _ Hpos) as [Hlo Hhi]. set (e := f64.ilog2 x) in *.
  destruct (rne_bounds (x * 2 ^ (52 - e))) as (Hr & _ & _).
  pose proof (pow2_pos (e - 52)) as Hp.
  assert (x * 2 ^ (52 - e) * 2 ^ (e - 52) == x) as H1.
  { rewrite <- Qmult_assoc, <- pow2_add. replace (52 - e + (e - 52))%Z with 0%Z by lia.
    change (2 ^ 0) with 1. ring. }
  assert ((1 # 2) * 2 ^ (e - 52) == 2 ^ e * 2 ^ (-53)) as H2.
  { change (1 # 2) with (2 ^ (-1)). rewrite <- !pow2_add.
    replace (-1 + (e - 52))%Z with (e + -53)%Z by lia. reflexivity. }
  set (m := inject_Z (f64.rne (x * 2 ^ (52 - e)))) in *.
  assert (m * 2 ^ (e - 52) <= (x * 2 ^ (52 - e) + (1 # 2)) * 2 ^ (e - 52)) as H3.
  { apply Qmult_le_compat_r; lra. }
  assert (2 ^ e * 2 ^ (-53) <= x * 2 ^ (-53)) as H4.
  { apply Qmult_le_compat_r; lra. }
  lra.
Qed.

Lemma of_int_exact (z : Z) : (0 <= z < 2 ^ 53)%Z → f64.of_int z == inject_Z z.
Proof. apply round_int. Qed.

Lemma Qle_bool_false (x y : Q) : Qle_bool x y = false ↔ y < x.
Proof.
  rewrite <- not_true_iff_false, Qle_bool_iff. split; [apply Qnot_le_lt|apply Qlt_not_le].
Qed.

Lemma gt_spec (x y : Q) : f64.gt x y = true ↔ y < x.
Proof. unfold f64.gt. rewrite negb_true_iff. apply Qle_bool_false. Qed.

Lemma gt_false (x y : Q) : f64.gt x y = false ↔ x <= y.
Proof. unfold f64.gt. rewrite negb_false_iff. apply Qle_bool_iff. Qed.

Lemma round_le_int (x : Q) (z : Z) :
  (0 <= z < 2 ^ 53)%Z → 0 <= x → x <= inject_Z z → f64.round x <= inject_Z z.
Proof. intros Hz H0 Hx. rewrite <- (round_int z Hz). by apply round_mono. Qed.

Lemma round_ge_int (x : Q) (z : Z) :
  (0 <= z < 2 ^ 53)%Z → inject_Z z <= x → inject_Z z <= f64.round x.
Proof.
  intros Hz Hx. rewrite <- (round_int z Hz). apply round_mono; [|done].
  rewrite <- (Zle_Qle 0). lia.
Qed.

(** The fraction of a minute, as [Minutes] computes it, lies in [0, 1]. *)
Lemma minute_fraction (r : Z) :
  (0 <= r < time.Minute)%Z →
  let f := f64.div (f64.of_int r) (f64.of_int (60 * 1000000000)) in
  0 <= f ∧ f <= 1 ∧ ((1 <= r)%Z → f64.div 1 (inject_Z 60000000000) <= f).
Proof.
  intros Hr f. unfold f, f64.div.
  change time.Minute with 60000000000%Z in Hr.
  assert (f64.of_int r == inject_Z r) as Hr' by (apply of_int_exact; lia).
  assert (f64.of_int (60 * 1000000000) == inject_Z 60000000000) as Hm
    by (apply (of_int_exact 60000000000); lia).
  rewrite Hr', Hm.
  assert (0 <= inject_Z r) as H0 by (rewrite <- (Zle_Qle 0); lia).
  assert (inject_Z r <= inject_Z 60000000000) as H1 by (rewrite <- Zle_Qle; lia).
  assert (0 <= inject_Z r / inject_Z 60000000000) as H2.
  { apply Qle_shift_div_l; [reflexivity|]. lra. }
  assert (inject_Z r / inject_Z 60000000000 <= 1) as H3.
  { apply Qle_shift_div_r; [reflexivity|]. lra. }
  split; [by apply round_nonneg|]. split.
  - apply (round_le_int _ 1); [lia|done|exact H3].
  - intros Hr1. apply round_mono.
    + apply Qle_shift_div_l; [reflexivity|]. lra.
    + apply Qmult_le_compat_r; [|done]. rewrite <- (Zle_Qle 1). lia.
Qed.

(** [d.Minutes() > 120] exactly when the duration exceeds two hours. *)
Lemma Minutes_gt_120 (d : Z) :
  (0 <= d <= Int64.max_int)%Z →
  f64.gt (Minutes d) (f64.of_int 120) = true ↔ (120 * time.Minute < d)%Z.
Proof.
  intros Hd. rewrite gt_spec. unfold Minutes. cbv zeta.
  rewrite Z.quot_div_nonneg, Z.rem_mod_nonneg by (unfold time.Minute, time.Second; lia).
  assert (0 < time.Minute)%Z as HM by (unfold time.Minute, time.Second; lia).
  pose proof (Z.div_mod d time.Minute ltac:(lia)) as Hdm.
  pose proof (Z.mod_pos_bound d time.Minute HM) as Hr.
  set (m := (d / time.Minute)%Z) in *. set (r := (d mod time.Minute)%Z) in *.
  assert (0 <= m < 2 ^ 53)%Z as Hm.
  { split; [apply Z.div_pos; lia|].
    apply Z.div_lt_upper_bound; [done|]. unfold Int64.max_int in Hd.
    unfold time.Minute, time.Second. lia. }
  destruct (minute_fraction r Hr) as (Hf0 & Hf1 & Hf2). cbv zeta in Hf0, Hf1, Hf2.
  set (f := f64.div (f64.of_int r) (f64.of_int (60 * 1000000000))) in *.
  assert (f64.of_int 120 == 120) as H120 by (apply (of_int_exact 120); lia).
  assert (f64.of_int m == inject_Z m) as Hm' by (apply of_int_exact; lia).
  assert (0 <= inject_Z m) as Hm0 by (rewrite <- (Zle_Qle 0); lia).
  rewrite H120. unfold f64.add. rewrite Hm'.
  change time.Minute with 60000000000%Z in *.
  split.
  - intros Hlt. destruct (Z_lt_le_dec 7200000000000%Z d) as [|Hle]; [lia|exfalso].
    assert (inject_Z m + f <= 120) as Hs.
    { destruct (Z.eq_dec m 120%Z) as [Hm120|Hne].
      - assert (r = 0%Z) as Hr0 by lia. unfold f. rewrite Hr0.
        rewrite Hm120. vm_compute. discriminate.
      - assert (m <= 119)%Z as Hm119 by lia. rewrite Zle_Qle in Hm119.
        change (inject_Z 119) with 119 in Hm119. lra. }
    assert (f64.round (inject_Z m + f) <= 120) as Hr120.
    { apply (round_le_int _ 120); [lia|lra|exact Hs]. }
    lra.
  - intros Hlt. destruct (Z_lt_le_dec m 121%Z) as [Hlt121|H121].
    + assert (m = 120%Z) as Hm120 by lia. assert (1 <= r)%Z as Hr1 by lia.
      apply Qlt_le_trans with (f64.round (120 + f64.div 1 (inject_Z 60000000000))).
      * vm_compute. reflexivity.
      * apply round_mono; [vm_compute; discriminate|].
        rewrite Hm120. change (inject_Z 120) with 120. specialize (Hf2 Hr1). lra.
    + apply Qlt_le_trans with (inject_Z 121); [reflexivity|].
      apply round_ge_int; [lia|]. rewrite Zle_Qle in H121.
      change (inject_Z 121) with 121 in *. lra.
Qed.

Lemma Minutes_nonneg (d : Z) : (0 <= d <= Int64.max_int)%Z → 0 <= Minutes d.
Proof.
  intros Hd. unfold Minutes. cbv zeta.
  rewrite Z.quot_div_nonneg, Z.rem_mod_nonneg by (unfold time.Minute, time.Second; lia).
  assert (0 < time.Minute)%Z as HM by (unfold time.Minute, time.Second; lia).
  destruct (minute_fraction (d mod time.Minute) (Z.mod_pos_bound d time.Minute HM))
    as (Hf0 & _ & _). cbv zeta in Hf0.
  apply round_nonneg.
  assert (0 <= f64.of_int (d / time.Minute)); [|lra].
  apply round_nonneg. rewrite <- (Zle_Qle 0). apply Z.div_pos; lia.
Qed.

Lemma to_int_nonneg (x : Q) : 0 <= x → f64.to_int x = Qfloor x.
Proof. intros H. unfold f64.to_int. apply Qle_bool_iff in H. by rewrite H. Qed.

Instance of_int_proper : Proper (eq ==> Qeq) f64.of_int.
Proof. by intros x y ->. Qed.

Instance to_int_proper : Proper (Qeq ==> eq) f64.to_int.
Proof.
  intros x y Hxy. unfold f64.to_int. rewrite Hxy.
  destruct (Qle_bool 0 y); [by apply Qfloor_comp|by apply Qceiling_comp].
Qed.

(** The [y] of a point: the interval cut to two decimals lies in
    [0, 120] whenever the interval does. *)
Lemma two_decimals_range (x : Q) :
  0 <= x → x <= 120 →
  let y := f64.div (f64.of_int (f64.to_int (f64.mul x (f64.of_int 100)))) (f64.of_int 100) in
  0 <= y ∧ y <= 120.
Proof.
  intros H0 H1 y. unfold y, f64.mul, f64.div.
  assert (f64.of_int 100 == 100) as H100 by (apply (of_int_exact 100); lia).
  rewrite H100.
  assert (0 <= f64.round (x * 100)) as Hp0 by (apply round_nonneg; lra).
  assert (f64.round (x * 100) <= inject_Z 12000) as Hp1.
  { apply round_le_int; [lia|lra|]. change (inject_Z 12000) with 12000. lra. }
  rewrite to_int_nonneg by done.
  set (k := Qfloor (f64.round (x * 100))).
  assert (0 <= k <= 12000)%Z as Hk.
  { split.
    - unfold k. rewrite <- (Qfloor_Z 0). by apply Qfloor_resp_le.
    - unfold k. rewrite <- (Qfloor_Z 12000). by apply Qfloor_resp_le. }
  assert (f64.of_int k == inject_Z k) as Hk' by (apply of_int_exact; lia).
  rewrite Hk'. destruct Hk as [Hk0 Hk1]. rewrite Zle_Qle in Hk0, Hk1.
  change (inject_Z 0) with 0 in Hk0. change (inject_Z 12000) with 12000 in Hk1.
  split.
  - apply round_nonneg. apply Qle_shift_div_l; [reflexivity|]. lra.
  - apply (round_le_int _ 120); [lia| |].
    + apply Qle_shift_div_l; [reflexivity|]. lra.
    + apply Qle_shift_div_r; [reflexivity|]. change (inject_Z 120) with 120. lra.
Qed.

Lemma of_int_nonneg (z : Z) : (0 <= z)%Z → 0 <= f64.of_int z.
Proof. intros H. apply round_nonneg. by rewrite <- (Zle_Qle 0). Qed.

Lemma of_int_mono (a b : Z) : (0 <= a <= b)%Z → f64.of_int a <= f64.of_int b.
Proof. intros [H0 H1]. apply round_mono; [rewrite <- (Zle_Qle 0)|rewrite <- Zle_Qle]; lia. Qed.

Lemma step_nonneg (n limit : Z) :
  (0 <= n)%Z → (0 <= limit)%Z → 0 <= f64.div (f64.of_int n) (f64.of_int limit).
Proof.
  intros Hn Hl. apply round_nonneg. pose proof (of_int_nonneg n Hn). pose proof (of_int_nonneg limit Hl).
  unfold Qdiv. apply Qmult_le_0_compat; [done|]. by apply Qinv_le_0_compat.
Qed.

(** The sampled index never goes backwards. *)
Lemma sample_index_mono (n limit i j : Z) :
  (0 <= n)%Z → (0 <= limit)%Z → (0 <= i <= j)%Z →
  (0 <= sample_index n limit i <= sample_index n limit j)%Z.
Proof.
  intros Hn Hl Hij. unfold sample_index. cbv zeta.
  pose proof (step_nonneg n limit Hn Hl) as Hs.
  set (step := f64.div (f64.of_int n) (f64.of_int limit)) in *.
  pose proof (of_int_nonneg i ltac:(lia)) as Hi.
  pose proof (of_int_mono i j Hij) as Hm.
  assert (0 <= f64.of_int i * step) as H1 by (by apply Qmult_le_0_compat).
  assert (f64.of_int i * step <= f64.of_int j * step) as H2 by (by apply Qmult_le_compat_r).
  unfold f64.mul. rewrite !to_int_nonneg by (apply round_nonneg; lra).
  split.
  - rewrite <- (Qfloor_Z 0). apply Qfloor_resp_le. by apply round_nonneg.
  - apply Qfloor_resp_le. by apply round_mono.
Qed.

(** With more points than the limit, every sampled index is in range. *)
Lemma sample_index_range (n limit i : Z) :
  (1 <= limit <= 10000)%Z → (limit < n)%Z → (0 <= i < limit)%Z →
  (0 <= sample_index n limit i < n)%Z.
Proof.
  intros Hl Hn Hi. split; [apply (sample_index_mono n limit i i); lia|].
  unfold sample_index. cbv zeta.
  pose proof (step_nonneg n limit ltac:(lia) ltac:(lia)) as Hs.
  set (E := 1 + 2 ^ (-53)).
  assert (f64.of_int i == inject_Z i) as Hi' by (apply of_int_exact; lia).
  assert (f64.of_int limit == inject_Z limit) as Hl' by (apply of_int_exact; lia).
  assert (0 < inject_Z limit) as HL by (rewrite <- (Zlt_Qlt 0); lia).
  assert (0 < inject_Z n) as HN by (rewrite <- (Zlt_Qlt 0); lia).
  assert (0 <= inject_Z i) as HI0 by (rewrite <- (Zle_Qle 0); lia).
  assert (inject_Z i <= inject_Z limit - 1) as HI1.
  { assert (inject_Z i + 1 <= inject_Z limit); [|lra].
    change 1 with (inject_Z 1). rewrite <- inject_Z_plus, <- Zle_Qle. lia. }
  assert (inject_Z limit <= 10000) as HL1.
  { change 10000 with (inject_Z 10000). rewrite <- Zle_Qle. lia. }
  set (t := inject_Z n / inject_Z limit).
  assert (0 < t) as Ht by (apply Qlt_shift_div_l; lra).
  assert (t * inject_Z limit == inject_Z n) as Htl by (unfold t; field; lra).
  assert (f64.of_int n <= inject_Z n * E) as HA.
  { apply round_upper. lra. }
  assert (0 <= f64.of_int n) as HA0 by (apply of_int_nonneg; lia).
  assert (f64.div (f64.of_int n) (f64.of_int limit) <= t * (E * E)) as HS.
  { unfold f64.div. rewrite Hl'.
    assert (0 <= f64.of_int n / inject_Z limit) as Hq.
    { apply Qle_shift_div_l; lra. }
    apply Qle_trans with (f64.of_int n / inject_Z limit * E); [by apply round_upper|].
    assert (f64.of_int n / inject_Z limit <= t * E) as Hq1.
    { apply Qle_shift_div_r; [done|].
      assert (t * E * inject_Z limit == inject_Z n * E) as -> by (unfold t; field; lra).
      done. }
    apply Qle_trans with (t * E * E); [|apply Qle_lteq; right; ring].
    apply Qmult_le_compat_r; [done|]. vm_compute. discriminate. }
  set (step := f64.div (f64.of_int n) (f64.of_int limit)) in *.
  assert (0 <= f64.of_int i * step) as HP0.
  { apply Qmult_le_0_compat; [rewrite Hi'|]; done. }
  unfold f64.mul. rewrite to_int_nonneg by (by apply round_nonneg).
  assert (f64.round (f64.of_int i * step) < inject_Z n) as HP; cycle 1.
  { assert (inject_Z (Qfloor (f64.round (f64.of_int i * step))) < inject_Z n) as H.
    { eapply Qle_lt_trans; [apply Qfloor_le|done]. }
    by rewrite <- Zlt_Qlt in H. }
  apply Qle_lt_trans with (f64.of_int i * step * E); [by apply round_upper|].
  rewrite Hi'.
  apply Qle_lt_trans with ((inject_Z limit - 1) * (t * (E * E)) * E).
  { apply Qmult_le_compat_r; [|vm_compute; discriminate].
    apply Qle_trans with (inject_Z i * (t * (E * E))).
    - rewrite (Qmult_comm (inject_Z i) step), (Qmult_comm (inject_Z i) (t * _)).
      by apply Qmult_le_compat_r.
    - apply Qmult_le_compat_r; [done|]. apply Qmult_le_0_compat; [lra|vm_compute; discriminate]. }
  rewrite <- Htl.
  assert ((inject_Z limit - 1) * (t * (E * E)) * E == t * ((inject_Z limit - 1) * (E * E * E))) as ->
    by ring.
  apply Qmult_lt_l; [done|].
  assert (E * E * E <= 10001 # 10000) as HE by (vm_compute; discriminate).
  assert (0 <= inject_Z limit - 1) as HL0 by lra.
  apply Qle_lt_trans with ((inject_Z limit - 1) * (10001 # 10000)).
  { rewrite (Qmult_comm _ (E * E * E)), (Qmult_comm _ (10001 # 10000)).
    by apply Qmult_le_compat_r. }
  lra.
Qed.

Local Close Scope Q_scope.

(** ** The interval timeline *)

Lemma interval_gt_120 (prev cur : recordData) :
  0 <= gap (prev, cur) →
  f64.gt (interval_of prev cur) (f64.of_int 120) = negb (within_two_hours (prev, cur)).
Proof.
  intros Hgap. unfold interval_of, within_two_hours, gap in *. cbn [fst snd] in *.
  set (d := time.Sub (timestamp cur) (timestamp prev)).
  assert (0 <= d <= Int64.max_int) as Hd
    by (unfold d, time.Sub, Int64.min_int, Int64.max_int; lia).
  apply eq_true_iff_eq. rewrite (Minutes_gt_120 d Hd), negb_true_iff, Z.leb_gt.
  unfold d, time.Sub, Int64.min_int, Int64.max_int, time.Minute, time.Second. lia.
Qed.

(** One point per consecutive pair no more than two hours apart. *)
Lemma interval_points_kept (prev : recordData) (rest : list recordData) :
  ascending (prev :: rest) = true →
  interval_points prev rest
  = point_of_pair <$> List.filter within_two_hours (consecutive (prev :: rest)).
Proof.
  revert prev. induction rest as [|cur rest IH]; intros prev Hasc; [done|].
  unfold ascending, consecutive in Hasc. cbn [tail zip zip_with forallb] in Hasc.
  apply andb_prop in Hasc as [Hgap Hasc]. apply Z.leb_le in Hgap.
  unfold consecutive. cbn [tail zip zip_with interval_points List.filter].
  rewrite interval_gt_120 by done. specialize (IH cur Hasc).
  unfold consecutive in IH. cbn [tail] in IH. rewrite IH.
  by destruct (within_two_hours (prev, cur)).
Qed.

Lemma all_points_kept (records : list recordData) :
  ascending records = true →
  all_points records
  = point_of_pair <$> List.filter within_two_hours (consecutive records).
Proof. destruct records as [|first rest]; [done|]. apply interval_points_kept. Qed.

(** The [y] of the point of a pair in order and within two hours. *)
Lemma point_Y_range (p : recordData * recordData) :
  0 <= gap p → within_two_hours p = true →
  (0 <= Y (point_of_pair p))%Q ∧ (Y (point_of_pair p) <= 120)%Q.
Proof.
  intros Hgap Hin. unfold point_of_pair, point_of. cbn [Y].
  unfold within_two_hours in Hin. apply Z.leb_le in Hin.
  assert (time.Sub (timestamp p.2) (timestamp p.1) = gap p) as Hsub.
  { unfold gap in *. apply Sub_exact.
    unfold Int64.min_int, Int64.max_int, time.Minute, time.Second in *. lia. }
  assert (0 <= gap p <= Int64.max_int) as Hd
    by (unfold Int64.max_int, time.Minute, time.Second in *; lia).
  apply two_decimals_range; unfold interval_of; rewrite Hsub.
  - by apply Minutes_nonneg.
  - assert (f64.gt (Minutes (gap p)) (f64.of_int 120) = false) as Hgt.
    { apply not_true_iff_false. rewrite (Minutes_gt_120 _ Hd). lia. }
    apply gt_false in Hgt. rewrite (of_int_exact 120) in Hgt by lia. exact Hgt.
Qed.

Lemma ascending_cons (a : recordData) (l : list recordData) :
  ascending (a :: l) = true →
  ascending l = true
  ∧ Forall (fun b => time.UnixNano (timestamp a) <= time.UnixNano (timestamp b)) l.
Proof.
  revert a. induction l as [|b l IH]; intros a Hasc; [done|].
  unfold ascending, consecutive in Hasc. cbn [tail zip zip_with forallb] in Hasc.
  apply andb_prop in Hasc as [Hgap Hasc]. apply Z.leb_le in Hgap.
  unfold gap in Hgap. cbn [fst snd] in Hgap.
  split; [exact Hasc|]. destruct (IH b Hasc) as [_ Hall].
  constructor; [lia|]. eapply Forall_impl; [exact Hall|]. cbn. intros; lia.
Qed.

Lemma consecutive_gaps (records : list recordData) :
  ascending records = true → Forall (fun p => 0 <= gap p) (consecutive records).
Proof.
  unfold ascending. rewrite forallb_forall, Forall_forall. intros H p Hp.
  apply Z.leb_le, H. by apply list_elem_of_In.
Qed.

(** The pairs of ascending records come in the order of their second
    records. *)
Lemma consecutive_sorted (records : list recordData) :
  ascending records = true → StronglySorted no_later (consecutive records).
Proof.
  destruct records as [|a l]; [constructor|]. unfold consecutive. cbn [tail].
  revert a. induction l as [|b l IH]; intros a Hasc; [constructor|].
  apply ascending_cons in Hasc as [Hasc _].
  change (zip (a :: b :: l) (b :: l)) with ((a, b) :: zip (b :: l) l).
  constructor; [by apply IH|].
  destruct (ascending_cons b l Hasc) as [_ Hall].
  apply Forall_forall. intros [x y] Hxy. unfold no_later. cbn [snd].
  apply elem_of_zip_r in Hxy. cbn in Hxy. rewrite Forall_forall in Hall.
  by apply Hall.
Qed.

Lemma filter_sorted {A} (R : relation A) (f : A → bool) (l : list A) :
  StronglySorted R l → StronglySorted R (List.filter f l).
Proof.
  induction 1 as [|x l Hl IH Hall]; [constructor|]. cbn.
  destruct (f x); [|done]. constructor; [done|].
  rewrite Forall_forall in *. intros y Hy. apply Hall.
  apply list_elem_of_In. apply list_elem_of_In in Hy. by apply filter_In in Hy as [? _].
Qed.

Lemma sorted_lookup {A} (R : relation A) `{!Reflexive R} (l : list A) (i j : nat) (a b : A) :
  StronglySorted R l → (i <= j)%nat → l !! i = Some a → l !! j = Some b → R a b.
Proof.
  intros Hl. revert i j. induction Hl as [|x l Hl IH Hall]; intros i j Hij Hi Hj; [done|].
  destruct i as [|i], j as [|j]; cbn in Hi, Hj; try lia.
  - by simplify_eq.
  - simplify_eq. rewrite Forall_forall in Hall. apply Hall. by eapply list_elem_of_lookup_2.
  - apply (IH i j); [lia|done..].
Qed.

Instance no_later_refl : Reflexive no_later.
Proof. intros p. unfold no_later. lia. Qed.

(** A list read off at positions that never go backwards keeps the order
    of the list. *)
Lemma omap_seqZ_sorted {B} (R : relation B) (f : Z → option B) (m len : Z) :
  (∀ i j a b, m <= i → i < j → j < m + len → f i = Some a → f j = Some b → R a b) →
  StronglySorted R (omap f (seqZ m len)).
Proof.
  destruct (Z_lt_le_dec len 0) as [Hneg|Hpos].
  { rewrite seqZ_nil by lia. constructor. }
  rewrite <- (Z2Nat.id len Hpos). generalize (Z.to_nat len). clear Hpos. intros n.
  revert m. induction n as [|n IH]; intros m H; [constructor|].
  rewrite seqZ_cons by lia. cbn [omap list_omap].
  replace (Z.pred (Z.of_nat (S n))) with (Z.of_nat n) by lia.
  assert (StronglySorted R (omap f (seqZ (Z.succ m) (Z.of_nat n)))) as Hrest.
  { apply IH. intros i j a b ? ? ?. apply H; lia. }
  destruct (f m) as [a|] eqn:Ha; [|exact Hrest].
  constructor; [exact Hrest|]. apply Forall_forall. intros b Hb.
  apply list_elem_of_omap in Hb as (j & Hj & Hfj). apply elem_of_seqZ in Hj.
  apply (H m j); [lia..|done|done].
Qed.

Lemma omap_total {A B} (f : A → option B) (l : list A) :
  Forall (fun x => is_Some (f x)) l →
  length (omap f l) = length l ∧ ∀ i, omap f l !! i = l !! i ≫= f.
Proof.
  induction 1 as [|x l [y Hy] Hl [IH1 IH2]]; [by split; [|intros []]|].
  cbn [omap list_omap]. rewrite Hy. fold (omap f l). split; [cbn; by rewrite IH1|].
  intros [|i]; cbn; [done|apply IH2].
Qed.

Lemma omap_ext_in {A B} (f g : A → option B) (l : list A) :
  (∀ x, x ∈ l → f x = g x) → omap f l = omap g l.
Proof.
  induction l as [|x l IH]; intros H; [done|]. cbn [omap list_omap].
  rewrite (H x) by (apply elem_of_cons; by left). fold (omap f l) (omap g l).
  rewrite IH; [done|]. intros y Hy. apply H, elem_of_cons. by right.
Qed.

Lemma clamp_limit_range (limit : Z) : 1 <= clamp_limit limit <= 10000.
Proof. unfold clamp_limit. repeat case_match; lia. Qed.

(** The sampling of the points of [kept], read on [kept] itself. *)
Lemma sample_kept (kept : list (recordData * recordData)) (lim : Z) :
  1 <= lim <= 10000 →
  let n := Z.of_nat (length kept) in
  let picked :=
    if lim <? n then omap (fun i => kept !! Z.to_nat (sample_index n lim i)) (seqZ 0 lim)
    else kept in
  sample (point_of_pair <$> kept) lim = point_of_pair <$> picked
  ∧ (StronglySorted no_later kept → StronglySorted no_later picked)
  ∧ (n <= lim → picked = kept)
  ∧ (lim < n →
      length picked = Z.to_nat lim
      ∧ ∀ i, 0 <= i < lim →
          0 <= sample_index n lim i < n
          ∧ picked !! Z.to_nat i = kept !! Z.to_nat (sample_index n lim i)).
Proof.
  intros Hlim n picked. unfold sample. rewrite length_fmap. fold n.
  destruct (lim <? n) eqn:Hcmp; subst picked; cbv iota.
  - apply Z.ltb_lt in Hcmp.
    assert (∀ i, 0 <= i < lim → 0 <= sample_index n lim i < n) as Hidx
      by (intros i Hi; by apply sample_index_range).
    assert (Forall (fun i => is_Some (kept !! Z.to_nat (sample_index n lim i))) (seqZ 0 lim))
      as Hsome.
    { apply Forall_forall. intros i Hi. apply elem_of_seqZ in Hi.
      apply lookup_lt_is_Some. specialize (Hidx i ltac:(lia)). lia. }
    destruct (omap_total _ _ Hsome) as [Hlen Hlook].
    split; [|split; [|split]].
    + rewrite list_fmap_omap. apply omap_ext_in. intros i Hi. apply elem_of_seqZ in Hi.
      cbv zeta. specialize (Hidx i ltac:(lia)).
      rewrite (proj2 (Z.ltb_lt _ _)) by lia. apply list_lookup_fmap.
    + intros Hsorted. apply omap_seqZ_sorted. intros i j a b Hi Hij Hj Ha Hb.
      pose proof (sample_index_mono n lim i j ltac:(lia) ltac:(lia) ltac:(lia)) as Hm.
      apply (sorted_lookup no_later kept (Z.to_nat (sample_index n lim i))
               (Z.to_nat (sample_index n lim j))); [done|lia|done|done].
    + lia.
    + intros _. split; [by rewrite Hlen, length_seqZ|].
      intros i Hi. split; [by apply Hidx|].
      rewrite Hlook, lookup_seqZ_lt by lia. cbn. by rewrite Z.add_0_l, Z2Nat.id by lia.
  - apply Z.ltb_ge in Hcmp. split; [done|]. split; [done|]. split; [done|lia].
Qed.

(** C3 (amended).  For rows whose records come in ascending order of
    their instants, an open store and an engine that answers,
    GetIntervalTimeline gives one point per consecutive pair of records no
    more than 120 minutes apart.  Every y lies in [0, 120]; y is 0 for two
    records less than 0.01 minutes apart.  With no more surviving pairs
    than the limit (clamped to 1..10000) all of them are given; with more,
    exactly limit points are given, the one at turn i being the point of
    the pair at the index the code computes in binary64,
    int(float64(i) * (float64(len) / float64(limit))), which is within the
    list.  In both cases the points come in non-decreasing order of the
    instants of their x. *)
Theorem GetIntervalTimeline_points (s : Store) (now : time.Time)
    (query : string → option (list (string * string))) (hours limit : Z)
    (rows : list (string * string)) :
  closed s = false →
  query (time.Format_RFC3339 (time.Add now (- (clamp_hours hours * time.Hour)))) = Some rows →
  ascending (scan_rows rows) = true →
  let kept := List.filter within_two_hours (consecutive (scan_rows rows)) in
  let n := Z.of_nat (length kept) in
  let lim := clamp_limit limit in
  ∃ r picked,
    GetIntervalTimeline s now query hours limit = Ok r
    ∧ Points r = point_of_pair <$> picked
    ∧ TotalPoints r = Z.of_nat (length picked)
    ∧ Forall (fun p => (0 <= Y p)%Q ∧ (Y p <= 120)%Q) (Points r)
    ∧ StronglySorted no_later picked
    ∧ (n <= lim → picked = kept)
    ∧ (lim < n →
        length picked = Z.to_nat lim
        ∧ ∀ i, 0 <= i < lim →
            0 <= sample_index n lim i < n
            ∧ picked !! Z.to_nat i = kept !! Z.to_nat (sample_index n lim i)).
Proof.
  intros Hopen Hquery Hasc kept n lim.
  destruct (sample_kept kept lim (clamp_limit_range limit)) as (Hsample & Hsorted & Hall & Hpick).
  cbv zeta in Hsample, Hsorted, Hall, Hpick. fold n in Hsample, Hsorted, Hall, Hpick.
  set (picked := if lim <? n
                 then omap (fun i => kept !! Z.to_nat (sample_index n lim i)) (seqZ 0 lim)
                 else kept) in *.
  assert (StronglySorted no_later kept) as Hkept.
  { apply filter_sorted. by apply consecutive_sorted. }
  assert (Forall (fun p => 0 <= gap p ∧ within_two_hours p = true) kept) as Hgaps.
  { apply Forall_forall. intros p Hp. apply list_elem_of_In, filter_In in Hp as [Hp Hin].
    split; [|done]. pose proof (consecutive_gaps _ Hasc) as Hg.
    rewrite Forall_forall in Hg. apply Hg. by apply list_elem_of_In. }
  assert (∀ p, p ∈ picked → p ∈ kept) as Hsub.
  { intros p Hp. unfold picked in Hp. destruct (lim <? n); [|done].
    apply list_elem_of_omap in Hp as (i & _ & Hi). by eapply list_elem_of_lookup_2. }
  unfold GetIntervalTimeline. rewrite Hopen. fold lim. rewrite Hquery.
  rewrite (all_points_kept _ Hasc). fold kept. rewrite Hsample.
  eexists _, picked. split; [reflexivity|]. cbn [Points TotalPoints].
  split; [done|]. split; [by rewrite length_fmap|].
  split; [|split; [by apply Hsorted|split; [exact Hall|exact Hpick]]].
  apply Forall_fmap, Forall_forall. intros p Hp. unfold compose.
  rewrite Forall_forall in Hgaps. destruct (Hgaps p (Hsub p Hp)) as [Hg Hin].
  exact (point_Y_range p Hg Hin).
Qed.

Lemma GetIntervalTimeline_witness :
  (closed empty_store = false ∧ ascending (scan_rows (minute_rows 4)) = true)
  ∧ ∃ r, GetIntervalTimeline empty_store demo_now (fun _ => Some (minute_rows 4)) 24 2 = Ok r
         ∧ TotalPoints r = 2.
Proof.
  split; [split; vm_compute; reflexivity|].
  destruct (GetIntervalTimeline_points empty_store demo_now (fun _ => Some (minute_rows 4))
              24 2 (minute_rows 4) eq_refl eq_refl ltac:(vm_compute; reflexivity))
    as (r & picked & Hr & _ & Htot & _ & _ & _ & Hpick).
  exists r. split; [exact Hr|]. rewrite Htot.
  destruct Hpick as [Hlen _]; [vm_compute; reflexivity|]. rewrite Hlen. reflexivity.
Defined.

(** C3, as worded, fails on two counts.  Two records with the same
    timestamp give a point whose y is 0, outside (0, 120].  And with 30
    surviving points and limit 22 the point given at turn 11 is points[14],
    while 11 * 30 / 22 is 15. *)
Lemma interval_timeline_counterexample :
  (ascending (scan_rows twin_rows) = true
   ∧ ∃ r, GetIntervalTimeline empty_store demo_now (fun _ => Some twin_rows) 24 5000 = Ok r
          ∧ Y <$> Points r = [0%Q])
  ∧ (ascending (scan_rows (minute_rows 31)) = true
     ∧ ∃ r, GetIntervalTimeline empty_store demo_now (fun _ => Some (minute_rows 31)) 24 22
            = Ok r
        ∧ length (all_points (scan_rows (minute_rows 31))) = 30%nat
        ∧ 11 * 30 / 22 = 15
        ∧ X <$> (Points r !! 11%nat)
          = X <$> (all_points (scan_rows (minute_rows 31)) !! 14%nat)
        ∧ X <$> (Points r !! 11%nat)
          ≠ X <$> (all_points (scan_rows (minute_rows 31)) !! 15%nat)).
Proof.
  split; (split; [vm_compute; reflexivity|]); eexists; (split; [vm_compute; reflexivity|]).
  - vm_compute. reflexivity.
  - split; [vm_compute; reflexivity|]. split; [reflexivity|].
    split; [vm_compute; reflexivity|]. vm_compute. discriminate.
Qed.
(** ** The mask of an API key *)

Lemma Repeat_star_eq (n m : nat) : n = m → Strs.Repeat "*" n = Strs.Repeat "*" m.
Proof. by intros ->. Qed.

(** MaskAPIKey keeps the length of the key and shows nothing of it but
    its length and, for a key of more than four bytes, its first two and
    last two bytes: two keys of one length that agree on those bytes have
    the same mask. *)
Theorem MaskAPIKey_hides_middle (key : string) :
  String.length (MaskAPIKey key) = String.length key
  ∧ ∀ other : string,
      String.length other = String.length key →
      ((4 < String.length key)%nat →
       Strs.slice other 0 2 = Strs.slice key 0 2
       ∧ Strs.slice other (String.length key - 2) (String.length key)
         = Strs.slice key (String.length key - 2) (String.length key)) →
      MaskAPIKey other = MaskAPIKey key.
Proof.
  split.
  - unfold MaskAPIKey. destruct (String.length key <=? 4)%nat eqn:Hn.
    + apply Repeat_length.
    + apply Nat.leb_gt in Hn. unfold Strs.slice.
      rewrite !append_length, Repeat_length, !substring_length by lia. lia.
  - intros other Hlen Hends. unfold MaskAPIKey. rewrite Hlen.
    destruct (String.length key <=? 4)%nat eqn:Hn; [done|].
    apply Nat.leb_gt in Hn. destruct (Hends Hn) as [-> ->]. done.
Qed.

(** ** Sensitive header names *)

Lemma prefix_app (p s : string) : String.prefix p (p ++ s) = true.
Proof.
  induction p as [|c p IH]; [by destruct s|].
  change (String c p ++ s) with (String c (p ++ s)). cbn [String.prefix].
  destruct (ascii_dec c c) as [_|Hne]; [exact IH|done].
Qed.

Lemma Contains_prefix (s sub : string) :
  String.prefix sub s = true → Strs.Contains s sub = true.
Proof. intros H. destruct s; cbn [Strs.Contains]; by rewrite H. Qed.

Lemma Contains_app (pre sub post : string) : Strs.Contains (pre ++ sub ++ post) sub = true.
Proof.
  induction pre as [|c pre IH].
  - change ("" ++ sub ++ post) with (sub ++ post). apply Contains_prefix, prefix_app.
  - change (String c pre ++ sub ++ post) with (String c (pre ++ sub ++ post)).
    cbn [Strs.Contains]. rewrite IH. by destruct (String.prefix _ _).
Qed.

Lemma append_cons (c : ascii) (a b : string) : String c a ++ b = String c (a ++ b).
Proof. reflexivity. Qed.

Lemma ToLower_app (a b : string) : Strs.ToLower (a ++ b) = Strs.ToLower a ++ Strs.ToLower b.
Proof.
  induction a as [|c a IH]; [done|].
  rewrite append_cons. cbn [Strs.ToLower]. by rewrite append_cons, IH.
Qed.

Lemma lower_upper_ascii (c : ascii) : Strs.lower_ascii (Strs.upper_ascii c) = Strs.lower_ascii c.
Proof. destruct c as [[] [] [] [] [] [] [] []]; reflexivity. Qed.

Lemma lower_lower_ascii (c : ascii) : Strs.lower_ascii (Strs.lower_ascii c) = Strs.lower_ascii c.
Proof. destruct c as [[] [] [] [] [] [] [] []]; reflexivity. Qed.

Lemma ToLower_ToUpper (s : string) : Strs.ToLower (Strs.ToUpper s) = Strs.ToLower s.
Proof. induction s as [|c s IH]; [done|]. simpl. f_equal; [apply lower_upper_ascii|exact IH]. Qed.

Lemma ToLower_ToLower (s : string) : Strs.ToLower (Strs.ToLower s) = Strs.ToLower s.
Proof. induction s as [|c s IH]; [done|]. simpl. f_equal; [apply lower_lower_ascii|exact IH]. Qed.

(** A header name in ASCII is sensitive whatever the case of its letters,
    and whenever it holds one of the sensitive names, in any case, anywhere
    in it. *)
Theorem isSensitiveHeader_any_case (key : string) :
  ascii_only key = true →
  isSensitiveHeader (Strs.ToUpper key) = isSensitiveHeader key
  ∧ isSensitiveHeader (Strs.ToLower key) = isSensitiveHeader key
  ∧ ∀ pre name post : string,
      key = pre ++ name ++ post → Strs.ToLower name ∈ sensitivePatterns →
      isSensitiveHeader key = true.
Proof.
  intros _. unfold isSensitiveHeader. rewrite ToLower_ToUpper, ToLower_ToLower.
  split; [done|]. split; [done|]. intros pre name post -> Hin.
  apply existsb_exists. exists (Strs.ToLower name).
  split; [by apply list_elem_of_In|]. rewrite !ToLower_app. apply Contains_app.
Qed.

Lemma isSensitiveHeader_witness :
  ascii_only "X-Api-Key-2" = true ∧ isSensitiveHeader "X-Api-Key-2" = true.
Proof.
  split; [reflexivity|].
  destruct (isSensitiveHeader_any_case "X-Api-Key-2" eq_refl) as (_ & _ & H).
  apply (H "X-" "Api-Key" "-2"); [reflexivity|]. vm_compute.
  apply elem_of_cons. right. apply elem_of_cons. right. apply elem_of_cons. by left.
Defined.

(** ** The captured headers *)

(** captureHeadersBestEffort keeps one entry for each header that has a
    value and none for a header without: under a name isSensitiveHeader
    takes as sensitive the entry is the first value masked; under a name of
    ASCII bytes that it does not take as sensitive the entry is the first
    value as it is; and no name appears that the headers do not have.  (A
    name with bytes outside ASCII is left out of the second case: there
    strings.ToLower may fold a letter to an ASCII one, the Kelvin sign to k,
    and make a name sensitive that is not so byte by byte.) *)
Theorem captureHeaders_entries (headers : gmap string (list string)) (key : string) :
  (is_Some (captureHeadersBestEffort headers !! key)
   ↔ ∃ value rest, headers !! key = Some (value :: rest))
  ∧ (headers !! key = Some [] → captureHeadersBestEffort headers !! key = None)
  ∧ (∀ value rest,
       headers !! key = Some (value :: rest) → isSensitiveHeader key = true →
       captureHeadersBestEffort headers !! key = Some (maskValue value))
  ∧ (∀ value rest,
       headers !! key = Some (value :: rest) →
       ascii_only key = true → isSensitiveHeader key = false →
       captureHeadersBestEffort headers !! key = Some value)
  ∧ (size (captureHeadersBestEffort headers) <= size headers)%nat.
Proof.
  unfold captureHeadersBestEffort. rewrite map_lookup_imap.
  split; [|split; [|split; [|split]]].
  - destruct (headers !! key) as [[|value rest]|]; cbn.
    + split; [by intros [? ?]|by intros (? & ? & ?)].
    + split; [by eauto|by eauto].
    + split; [by intros [? ?]|by intros (? & ? & ?)].
  - by intros ->.
  - intros value rest -> Hs. cbn -[isSensitiveHeader maskValue]. by rewrite Hs.
  - intros value rest -> _ Hns. cbn -[isSensitiveHeader maskValue]. by rewrite Hns.
  - rewrite <- !size_dom. apply subseteq_size.
    intros k Hk. apply elem_of_dom in Hk as [v Hv]. rewrite map_lookup_imap in Hv.
    apply elem_of_dom. destruct (headers !! k); [done|by cbn in Hv].
Qed.

(** ** The write queue *)

Lemma try_send_cases (s : Store) (task : writeTask) :
  (∃ q, writeQueue s = Some q ∧ closed s = false ∧ (List.length q < 2048)%nat
        ∧ try_send s task = (with_writeQueue s (Some (q ++ [task])%list), true))
  ∨ ((closed s = true ∨ writeQueue s = None
      ∨ ∃ q, writeQueue s = Some q ∧ (2048 <= List.length q)%nat)
     ∧ try_send s task = (s, false)).
Proof.
  unfold try_send, isClosed, defaultWriteQueueSize.
  destruct (writeQueue s) as [q|] eqn:Hq; [|right; by eauto].
  destruct (closed s) eqn:Hc; [right; by eauto|].
  destruct (List.length q <? 2048)%nat eqn:Hlen.
  - apply Nat.ltb_lt in Hlen. left. exists q. done.
  - apply Nat.ltb_ge in Hlen. right. split; [|done]. right. right. by exists q.
Qed.

Lemma enqueue_try_send (s : Store) (task : writeTask) : enqueue s task = try_send s task.
Proof. by destruct task. Qed.

(** Handing a task to the queue never blocks and never grows the queue
    beyond its 2048 places: the task is taken exactly when the store is open
    and the queue exists and has a free place, and then it goes to the end of
    the queue; a task that is not taken is dropped, and the store is as it
    was. *)
Theorem enqueue_bounded (s : Store) (task : writeTask) :
  (snd (enqueue s task) = true
   ↔ closed s = false ∧ ∃ q, writeQueue s = Some q ∧ (List.length q < 2048)%nat)
  ∧ (snd (enqueue s task) = false → fst (enqueue s task) = s)
  ∧ (∀ q, writeQueue s = Some q → snd (enqueue s task) = true →
       fst (enqueue s task) = with_writeQueue s (Some (q ++ [task])%list))
  ∧ (∀ q, writeQueue s = Some q → (List.length q <= 2048)%nat →
       ∃ q', writeQueue (fst (enqueue s task)) = Some q' ∧ (List.length q' <= 2048)%nat).
Proof.
  rewrite enqueue_try_send.
  destruct (try_send_cases s task)
    as [(q & Hq & Hc & Hlen & ->)|[[Hc|[Hq|(q & Hq & Hlen)]] ->]]; cbn [fst snd].
  - split; [split; [by eauto|done]|]. split; [done|]. split.
    + intros q' Hq' _. by simplify_eq.
    + intros q' Hq' _. simplify_eq. eexists. split; [reflexivity|].
      rewrite length_app. cbn. lia.
  - split; [split; [done|intros [? _]; congruence]|]. split; [done|]. split; [done|].
    by eauto.
  - split; [split; [done|intros (_ & ? & ? & _); congruence]|]. split; [done|].
    split; [done|]. by eauto.
  - split; [split; [done|intros (_ & ? & ? & ?); simplify_eq; lia]|]. split; [done|].
    split; [done|]. by eauto.
Qed.

Section QueueOrder.

Variable json_Marshal : gmap string string → string.

Lemma enqueue_all (tasks : list writeTask) (s : Store) (q : list writeTask) :
  closed s = false → writeQueue s = Some q → (List.length q + List.length tasks <= 2048)%nat →
  foldl (fun st task => fst (enqueue st task)) s tasks
  = with_writeQueue s (Some (q ++ tasks)%list).
Proof.
  revert s q. induction tasks as [|task tasks IH]; intros s q Hc Hq Hlen.
  - cbn. rewrite app_nil_r. destruct s; cbn in *. by subst.
  - cbn [foldl]. cbn in Hlen. rewrite enqueue_try_send.
    destruct (try_send_cases s task)
      as [(q' & Hq' & _ & _ & ->)|[[?|[?|(q' & Hq' & ?)]] _]];
      [|congruence|congruence|simplify_eq; lia].
    simplify_eq. cbn [fst].
    rewrite (IH _ (q ++ [task])%list); [|done|done|rewrite length_app; cbn; lia].
    rewrite <- app_assoc. done.
Qed.

Lemma run_task_queue (s : Store) (task : writeTask) (q : option (list writeTask)) :
  run_task json_Marshal (with_writeQueue s q) task
  = with_writeQueue (run_task json_Marshal s task) q.
Proof.
  destruct task; cbn [run_task]; unfold Insert, InsertRequestCandidate;
    destruct s as [[] [] ? ? ? ? ? ?]; reflexivity.
Qed.

Lemma run_task_open (s : Store) (task : writeTask) :
  closed (run_task json_Marshal s task) = closed s
  ∧ writeQueue (run_task json_Marshal s task) = writeQueue s.
Proof.
  destruct task; cbn [run_task]; unfold Insert, InsertRequestCandidate;
    destruct s as [[] [] ? ? ? ? ? ?]; done.
Qed.

Lemma writeLoop_step_open (s : Store) (task : writeTask) (rest : list writeTask) :
  closed s = false → writeQueue s = Some (task :: rest) →
  writeLoop_step json_Marshal s = run_task json_Marshal (with_writeQueue s (Some rest)) task.
Proof.
  intros Hc Hq. unfold writeLoop_step, isClosed. rewrite Hq. cbn [closed with_writeQueue].
  rewrite Hc. by destruct task.
Qed.

Lemma writeLoop_queue (q : list writeTask) (s : Store) :
  closed s = false → writeQueue s = Some q →
  writeLoop json_Marshal (List.length q) s
  = foldl (run_task json_Marshal) (with_writeQueue s (Some [])) q.
Proof.
  revert s. induction q as [|task rest IH]; intros s Hc Hq.
  - cbn. destruct s; cbn in *. by subst.
  - cbn [List.length writeLoop foldl]. rewrite (writeLoop_step_open s task rest Hc Hq).
    rewrite run_task_queue.
    destruct (run_task_open s task) as [Hc' Hq'].
    rewrite IH; [|by cbn; rewrite Hc', Hc|done].
    f_equal. rewrite run_task_queue. by destruct (run_task json_Marshal s task).
Qed.

(** What goes through the queue is written in the order it was handed
    in: on an open store with an empty queue, tasks handed in one after the
    other (no more than the queue holds) and then received by the write loop
    leave the store as the same inserts made at once, in that order, would;
    none is dropped and the queue is empty again. *)
Theorem writeLoop_runs_in_order (s : Store) (tasks : list writeTask) :
  closed s = false → writeQueue s = Some [] → (List.length tasks <= 2048)%nat →
  let queued := foldl (fun st task => fst (enqueue st task)) s tasks in
  writeQueue queued = Some tasks
  ∧ writeLoop json_Marshal (List.length tasks) queued
    = foldl (run_task json_Marshal) s tasks.
Proof.
  intros Hc Hq Hlen queued. unfold queued.
  rewrite (enqueue_all tasks s [] Hc Hq) by (cbn; lia). cbn [app].
  split; [done|].
  rewrite writeLoop_queue; [|done|done]. f_equal.
  destruct s; cbn in *. by subst.
Qed.

End QueueOrder.

Lemma writeLoop_runs_in_order_witness :
  let tasks := [ writeTaskInsertUsageRecord demo_pending;
                 writeTaskInsertRequestCandidate demo_stored_candidate;
                 writeTaskInsertUsageRecord demo_plain ] in
  let queued := foldl (fun st task => fst (enqueue st task)) empty_store tasks in
  (closed empty_store = false ∧ writeQueue empty_store = Some []
   ∧ (List.length tasks <= 2048)%nat)
  ∧ writeQueue queued = Some tasks
  ∧ usage_records (writeLoop demo_marshal 3 queued) !! 1
    = Some (insert_row demo_marshal demo_pending)
  ∧ usage_records (writeLoop demo_marshal 3 queued) !! 2
    = Some (insert_row demo_marshal demo_plain)
  ∧ request_candidates (writeLoop demo_marshal 3 queued) !! 1
    = Some (candidate_row demo_stored_candidate)
  ∧ writeQueue (writeLoop demo_marshal 3 queued) = Some [].
Proof.
  intros tasks queued.
  split; [split; [reflexivity|split; [reflexivity|cbn; lia]]|].
  destruct (writeLoop_runs_in_order demo_marshal empty_store tasks eq_refl eq_refl
              ltac:(cbn; lia)) as [Hq H].
  fold queued in Hq, H. split; [exact Hq|].
  change (List.length tasks) with 3%nat in H. rewrite H.
  unfold tasks. cbn [foldl run_task].
  unfold Insert, InsertRequestCandidate, empty_store.
  cbn [closed db_failing fst last_usage_id last_candidate_id usage_records request_candidates
       with_usage_records with_request_candidates writeQueue].
  split; [|split; [|split; [|reflexivity]]].
  - change (0 + 1 + 1) with 2. change (0 + 1) with 1.
    rewrite lookup_insert_ne by done. apply lookup_insert_eq.
  - change (0 + 1 + 1) with 2. apply lookup_insert_eq.
  - change (0 + 1) with 1. apply lookup_insert_eq.
Defined.

(** ** Insert and the reads *)

Section InsertRead.

Variable json_Marshal : gmap string string → string.
Variable json_Unmarshal : string → option (gmap string string).

(** Insert on an open store with a working engine adds exactly one row,
    under an id no row had, and touches nothing else: every other row, the
    candidates table and the query cache are as before.  On a closed store
    or a failing engine it returns an error and the store is as it was. *)
Theorem Insert_adds_one_row (s : Store) (record : UsageRecord) :
  ids_bounded s →
  let s' := fst (Insert json_Marshal s record) in
  (closed s = false → db_failing s = false →
   ∃ id, snd (Insert json_Marshal s record) = Ok id
         ∧ usage_records s !! id = None
         ∧ usage_records s' !! id = Some (insert_row json_Marshal record)
         ∧ (∀ other, other ≠ id → usage_records s' !! other = usage_records s !! other)
         ∧ size (usage_records s') = S (size (usage_records s)))
  ∧ (closed s = true ∨ db_failing s = true →
     s' = s ∧ ∃ msg, snd (Insert json_Marshal s record) = Err msg)
  ∧ ids_bounded s'
  ∧ request_candidates s' = request_candidates s
  ∧ cache s' = cache s
  ∧ closed s' = closed s.
Proof.
  intros Hids s'. subst s'. unfold Insert.
  assert (usage_records s !! (last_usage_id s + 1) = None) as Hfresh.
  { destruct (usage_records s !! (last_usage_id s + 1)) eqn:E; [|done].
    specialize (Hids (last_usage_id s + 1) ltac:(by rewrite E)). lia. }
  destruct (closed s) eqn:Hc; [|destruct (db_failing s) eqn:Hf]; cbn [fst snd].
  - split; [done|]. split; [by eauto|]. done.
  - split; [done|]. split; [by eauto|]. done.
  - split.
    + intros _ _. exists (last_usage_id s + 1). split; [done|]. split; [done|].
      cbn [usage_records with_usage_records].
      split; [by rewrite lookup_insert_eq|]. split.
      * intros other Hne. by rewrite lookup_insert_ne.
      * by rewrite map_size_insert_None.
    + split; [by intros [?|?]|]. split; [|done].
      intros id. cbn [usage_records with_usage_records last_usage_id].
      destruct (decide (id = last_usage_id s + 1)) as [->|Hne]; [lia|].
      rewrite lookup_insert_ne by done. intros H. specialize (Hids id H). lia.
Qed.

Lemma scan_insert_row (record : UsageRecord) (id : Z) :
  json_Unmarshal (json_Marshal (rec_RequestHeaders record)) = Some (rec_RequestHeaders record) →
  json_Unmarshal (json_Marshal (rec_ResponseHeaders record))
  = Some (rec_ResponseHeaders record) →
  scan_record json_Unmarshal (id, insert_row json_Marshal record)
  = Some (stored_as record id).
Proof.
  intros Hreq Hresp. unfold scan_record, stored_as, col_text, col_int. cbn [fst snd].
  replace (insert_row json_Marshal record !! "request_id")
    with (Some (SqlText (rec_RequestID record))) by reflexivity.
  replace (insert_row json_Marshal record !! "timestamp")
    with (Some (SqlText (time.Format_RFC3339 (rec_Timestamp record)))) by reflexivity.
  replace (insert_row json_Marshal record !! "ip")
    with (Some (SqlText (rec_IP record))) by reflexivity.
  replace (insert_row json_Marshal record !! "api_key")
    with (Some (SqlText (rec_APIKey record))) by reflexivity.
  replace (insert_row json_Marshal record !! "api_key_masked")
    with (Some (SqlText (rec_APIKeyMasked record))) by reflexivity.
  replace (insert_row json_Marshal record !! "model")
    with (Some (SqlText (rec_Model record))) by reflexivity.
  replace (insert_row json_Marshal record !! "provider")
    with (Some (SqlText (rec_Provider record))) by reflexivity.
  replace (insert_row json_Marshal record !! "is_streaming")
    with (Some (SqlInt (bool_int (rec_IsStreaming record)))) by reflexivity.
  replace (insert_row json_Marshal record !! "input_tokens")
    with (Some (SqlInt (rec_InputTokens record))) by reflexivity.
  replace (insert_row json_Marshal record !! "output_tokens")
    with (Some (SqlInt (rec_OutputTokens record))) by reflexivity.
  replace (insert_row json_Marshal record !! "total_tokens")
    with (Some (SqlInt (rec_TotalTokens record))) by reflexivity.
  replace (insert_row json_Marshal record !! "cached_tokens")
    with (Some (SqlInt (rec_CachedTokens record))) by reflexivity.
  replace (insert_row json_Marshal record !! "reasoning_tokens")
    with (Some (SqlInt (rec_ReasoningTokens record))) by reflexivity.
  replace (insert_row json_Marshal record !! "duration_ms")
    with (Some (SqlInt (rec_DurationMs record))) by reflexivity.
  replace (insert_row json_Marshal record !! "status_code")
    with (Some (SqlInt (rec_StatusCode record))) by reflexivity.
  replace (insert_row json_Marshal record !! "success")
    with (Some (SqlInt (bool_int (rec_Success record)))) by reflexivity.
  replace (insert_row json_Marshal record !! "request_url")
    with (Some (SqlText (rec_RequestURL record))) by reflexivity.
  replace (insert_row json_Marshal record !! "request_method")
    with (Some (SqlText (rec_RequestMethod record))) by reflexivity.
  replace (insert_row json_Marshal record !! "request_headers")
    with (Some (SqlText (json_Marshal (rec_RequestHeaders record)))) by reflexivity.
  replace (insert_row json_Marshal record !! "request_body")
    with (Some (SqlText (rec_RequestBody record))) by reflexivity.
  replace (insert_row json_Marshal record !! "response_headers")
    with (Some (SqlText (json_Marshal (rec_ResponseHeaders record)))) by reflexivity.
  replace (insert_row json_Marshal record !! "response_body")
    with (Some (SqlText (rec_ResponseBody record))) by reflexivity.
  cbn [mbind option_bind]. rewrite Hreq, Hresp. cbn [default].
  by destruct (rec_IsStreaming record), (rec_Success record).
Qed.

(** A record read back by its id is the record that was inserted: every
    field as it was given, the id the one Insert returned, and the timestamp
    as its RFC3339 text reads.  (The header maps are taken to survive their
    JSON text, as maps of strings do.)  An id without a row gives no record
    and no error, and a record found carries the id asked for. *)
Theorem GetByID_after_Insert (s : Store) (record : UsageRecord) :
  closed s = false → db_failing s = false →
  json_Unmarshal (json_Marshal (rec_RequestHeaders record)) = Some (rec_RequestHeaders record) →
  json_Unmarshal (json_Marshal (rec_ResponseHeaders record))
  = Some (rec_ResponseHeaders record) →
  (∃ id, snd (Insert json_Marshal s record) = Ok id
         ∧ GetByID json_Unmarshal (fst (Insert json_Marshal s record)) id
           = Ok (Some (stored_as record id)))
  ∧ (∀ id, usage_records s !! id = None → GetByID json_Unmarshal s id = Ok None)
  ∧ (∀ id r, GetByID json_Unmarshal s id = Ok (Some r) → rec_ID r = id).
Proof.
  intros Hc Hf Hreq Hresp. split; [|split].
  - unfold Insert. rewrite Hc, Hf. cbn [fst snd]. eexists. split; [reflexivity|].
    unfold GetByID. cbn [closed db_failing usage_records with_usage_records].
    rewrite Hc, Hf, lookup_insert_eq. by rewrite scan_insert_row.
  - intros id Hnone. unfold GetByID. by rewrite Hc, Hf, Hnone.
  - intros id r. unfold GetByID. rewrite Hc, Hf.
    destruct (usage_records s !! id) as [row|]; [|done].
    destruct (scan_record json_Unmarshal (id, row)) as [r'|] eqn:Hscan; [|done].
    intros [= <-]. unfold scan_record in Hscan. cbn [fst snd] in Hscan.
    repeat (match type of Hscan with
            | (?m ≫= _) = Some _ => destruct m; cbn [mbind option_bind] in Hscan; [|done]
            end).
    by simplify_eq.
Qed.

End InsertRead.

Lemma ids_bounded_empty : ids_bounded empty_store.
Proof. intros id [row Hrow]. cbn in Hrow. by rewrite lookup_empty in Hrow. Qed.

Lemma Insert_adds_one_row_witness :
  ids_bounded empty_store
  ∧ size (usage_records (fst (Insert empty_marshal empty_store demo_plain))) = 1%nat.
Proof.
  split; [exact ids_bounded_empty|].
  destruct (Insert_adds_one_row empty_marshal empty_store demo_plain ids_bounded_empty)
    as [H _].
  destruct (H eq_refl eq_refl) as (id & _ & _ & _ & _ & Hsize). exact Hsize.
Defined.

Lemma GetByID_after_Insert_witness :
  (closed empty_store = false ∧ db_failing empty_store = false
   ∧ empty_unmarshal (empty_marshal (rec_RequestHeaders demo_plain))
     = Some (rec_RequestHeaders demo_plain)
   ∧ empty_unmarshal (empty_marshal (rec_ResponseHeaders demo_plain))
     = Some (rec_ResponseHeaders demo_plain))
  ∧ GetByID empty_unmarshal (fst (Insert empty_marshal empty_store demo_plain)) 1
    = Ok (Some (stored_as demo_plain 1)).
Proof.
  split; [repeat split; reflexivity|].
  destruct (GetByID_after_Insert empty_marshal empty_unmarshal empty_store demo_plain
              eq_refl eq_refl eq_refl eq_refl) as [(id & Hid & Hget) _].
  cbn in Hid. injection Hid as <-. exact Hget.
Defined.

(** ** Deleting old records *)

(** DeleteOlderThan removes exactly the rows whose stored timestamp is
    below the RFC3339 text of the cutoff, the clock at the call less the
    age: a row stays if and only if it was there and is not below the
    cutoff, the count returned is the number of rows removed, a second call
    at the same clock removes nothing, and neither the candidates nor the
    query cache are touched.  On a closed store or a failing engine nothing
    is removed. *)
Theorem DeleteOlderThan_removes_the_old (s : Store) (now : time.Time) (age : Z) :
  let cutoff := time.Format_RFC3339 (time.Add now (Int64.sub 0 age)) in
  let s' := fst (DeleteOlderThan s now age) in
  (closed s = false → db_failing s = false →
   snd (DeleteOlderThan s now age)
   = Ok (Z.of_nat (size (filter (fun kv => older_than cutoff kv.2 = true) (usage_records s))))
   ∧ (∀ id row, usage_records s' !! id = Some row
                ↔ usage_records s !! id = Some row ∧ older_than cutoff row = false)
   ∧ DeleteOlderThan s' now age = (s', Ok 0))
  ∧ (closed s = true ∨ db_failing s = true →
     s' = s ∧ ∃ msg, snd (DeleteOlderThan s now age) = Err msg)
  ∧ request_candidates s' = request_candidates s
  ∧ cache s' = cache s
  ∧ last_usage_id s' = last_usage_id s.
Proof.
  intros cutoff s'. subst s'. unfold DeleteOlderThan. fold cutoff.
  destruct (closed s) eqn:Hc; [|destruct (db_failing s) eqn:Hf]; cbn [fst snd].
  - split; [done|]. split; [by eauto|]. done.
  - split; [done|]. split; [by eauto|]. done.
  - split; [|split; [by intros [?|?]|done]]. intros _ _.
    set (kept := filter (fun kv => older_than cutoff kv.2 = false) (usage_records s)).
    cbn [usage_records with_usage_records closed db_failing last_usage_id]. rewrite Hc, Hf.
    split; [|split].
    + f_equal.
      pose proof (map_size_disj_union
                    (filter (fun kv => older_than cutoff kv.2 = true) (usage_records s))
                    kept) as Hsize.
      assert (filter (fun kv => older_than cutoff kv.2 = true) (usage_records s) ∪ kept
              = usage_records s) as Hunion.
      { unfold kept. rewrite <- (map_filter_union_complement
                                   (fun kv => older_than cutoff kv.2 = true) (usage_records s)) at 3.
        f_equal. apply map_filter_ext. intros i x _. cbn. by destruct (older_than cutoff x). }
      rewrite Hunion in Hsize. rewrite Hsize; [lia|].
      apply map_disjoint_spec. intros i x y Hx Hy. unfold kept in Hy.
      apply map_lookup_filter_Some in Hx as [Hx1 Hx]. apply map_lookup_filter_Some in Hy as [Hy1 Hy].
      cbn in *. congruence.
    + intros id row. unfold kept. rewrite map_lookup_filter_Some. done.
    + f_equal.
      * destruct s; cbn in *. f_equal. unfold kept.
        rewrite map_filter_filter. apply map_filter_ext. intros i x _. cbn. tauto.
      * f_equal. assert (filter (fun kv => older_than cutoff kv.2 = false) kept = kept) as ->; [|lia].
        unfold kept. rewrite map_filter_filter. apply map_filter_ext. intros i x _. cbn. tauto.
Qed.

(** ** A closed store *)

Section Closed.

Variable json_Marshal : gmap string string → string.
Variable json_Unmarshal : string → option (gmap string string).
Variable sql_where : string → list SqlValue → Z * Row → bool.
Variable sql_order : string → string → list (Z * Row) → list (Z * Row).
Variable loc : Z.

Lemma writeLoop_closed (turns : nat) (s : Store) :
  closed s = true →
  closed (writeLoop json_Marshal turns s) = true
  ∧ usage_records (writeLoop json_Marshal turns s) = usage_records s
  ∧ request_candidates (writeLoop json_Marshal turns s) = request_candidates s.
Proof.
  revert s. induction turns as [|turns IH]; intros s Hc; [done|].
  cbn [writeLoop].
  assert (closed (writeLoop_step json_Marshal s) = true
          ∧ usage_records (writeLoop_step json_Marshal s) = usage_records s
          ∧ request_candidates (writeLoop_step json_Marshal s) = request_candidates s)
    as (Hc' & Hu & Hr).
  { unfold writeLoop_step, isClosed. destruct (writeQueue s) as [[|task rest]|]; [done| |done].
    cbn [closed with_writeQueue]. by rewrite Hc. }
  destruct (IH _ Hc') as (? & ? & ?). split; [done|]. split; congruence.
Qed.

(** Close is final and harmless to the data.  It leaves both tables as
    they are and closing again changes nothing; from then on every operation
    of the store is refused with the error that the store is closed (a task
    handed to the queue is dropped), the store stays as it is, and the write
    loop discards what is left in the queue without writing it. *)
Theorem Close_refuses_everything (s : Store) :
  let s' := fst (Close s) in
  (closed s' = true ∧ usage_records s' = usage_records s
   ∧ request_candidates s' = request_candidates s ∧ Close s' = (s', Ok tt))
  ∧ (∀ record, Insert json_Marshal s' record = (s', Err "store is closed"))
  ∧ (∀ candidate, InsertRequestCandidate s' candidate = (s', Err "store is closed"))
  ∧ (∀ id patch, PatchByID json_Marshal s' id patch = (s', Err "store is closed"))
  ∧ (∀ now age, DeleteOlderThan s' now age = (s', Err "store is closed"))
  ∧ (∀ id, GetByID json_Unmarshal s' id = Err "store is closed")
  ∧ (∀ query, List sql_where sql_order json_Unmarshal loc s' query = Err "store is closed")
  ∧ (∀ now query hours limit,
       GetIntervalTimeline s' now query hours limit = Err "store is closed")
  ∧ (∀ task, enqueue s' task = (s', false))
  ∧ (∀ turns, usage_records (writeLoop json_Marshal turns s') = usage_records s
              ∧ request_candidates (writeLoop json_Marshal turns s') = request_candidates s).
Proof.
  intros s'.
  assert (closed s' = true ∧ usage_records s' = usage_records s
          ∧ request_candidates s' = request_candidates s) as (Hc & Hu & Hr).
  { subst s'. unfold Close. by destruct (closed s) eqn:E. }
  split; [split; [done|split; [done|split; [done|]]]|].
  { unfold Close. by rewrite Hc. }
  split; [intros; unfold Insert; by rewrite Hc|].
  split; [intros; unfold InsertRequestCandidate; by rewrite Hc|].
  split; [intros; unfold PatchByID, isClosed; by rewrite Hc|].
  split; [intros; unfold DeleteOlderThan; by rewrite Hc|].
  split; [intros; unfold GetByID; by rewrite Hc|].
  split; [intros; unfold List; by rewrite Hc|].
  split; [intros; unfold GetIntervalTimeline; by rewrite Hc|].
  split.
  - intros task. rewrite enqueue_try_send. unfold try_send, isClosed. rewrite Hc.
    by destruct (writeQueue s').
  - intros turns. destruct (writeLoop_closed turns s' Hc) as (_ & -> & ->). done.
Qed.

End Closed.

(** ** The query cache *)

Lemma unexpired_Some (c : queryCache) (key : string) (now : time.Time) (v : any) :
  unexpired c key now = Some v
  ↔ ∃ entry, entries c !! key = Some entry ∧ value entry = v
             ∧ time.UnixNano now < time.UnixNano (expiresAt entry).
Proof.
  unfold unexpired, time.Before. destruct (entries c !! key) as [entry|].
  - destruct (Z.ltb_spec (time.UnixNano now) (time.UnixNano (expiresAt entry))).
    + split; [intros [= <-]; by eauto|]. intros (e & [= <-] & <- & _). done.
    + split; [done|]. intros (e & [= <-] & _ & ?). lia.
  - split; [done|]. by intros (? & ? & _).
Qed.

Lemma get_hit (qc : queryCache) (key : string) (fn : result any) (now1 now2 now3 : time.Time)
    (v : any) :
  0 < ttl qc → unexpired qc key now1 = Some v →
  get (Some qc) key fn now1 now2 now3 = (Some qc, Ok v).
Proof.
  intros Httl Hhit. unfold get. rewrite (proj2 (Z.leb_gt _ _)) by lia. by rewrite Hhit.
Qed.

(** The cache serves a value for as long as its entry lives, and never
    an error.  A value that get returns is, from then on, what every get of
    that key returns while the clock is before the expiry of its entry,
    whatever the function would now compute; a value computed on a miss
    expires one ttl after the clock reading taken when it is stored.  An
    error of the function is returned and not stored, entries under other
    keys are never touched, and a cleared cache computes anew. *)
Theorem get_serves_until_expiry (qc : queryCache) (key : string) (fn : result any)
    (now1 now2 now3 : time.Time) :
  0 < ttl qc →
  let c' := fst (get (Some qc) key fn now1 now2 now3) in
  let r := snd (get (Some qc) key fn now1 now2 now3) in
  (∀ v, r = Ok v →
     ∃ qc' entry,
       c' = Some qc' ∧ ttl qc' = ttl qc ∧ entries qc' !! key = Some entry ∧ value entry = v
       ∧ (unexpired qc key now1 = None → unexpired qc key now2 = None →
          fn = Ok v ∧ time.UnixNano (expiresAt entry) = time.UnixNano now3 + ttl qc)
       ∧ ∀ fn' t1 t2 t3,
           time.UnixNano t1 < time.UnixNano (expiresAt entry) →
           get c' key fn' t1 t2 t3 = (c', Ok v))
  ∧ (∀ msg, r = Err msg → fn = Err msg ∧ c' = Some qc)
  ∧ (∀ qc' other, c' = Some qc' → other ≠ key → entries qc' !! other = entries qc !! other)
  ∧ snd (get (clear (Some qc)) key fn now1 now2 now3) = fn.
Proof.
  intros Httl c' r.
  assert (∀ (q : queryCache) entry v fn' t1 t2 t3,
            0 < ttl q → entries q !! key = Some entry → value entry = v →
            time.UnixNano t1 < time.UnixNano (expiresAt entry) →
            get (Some q) key fn' t1 t2 t3 = (Some q, Ok v)) as Hserve.
  { intros q entry v fn' t1 t2 t3 Hq He Hv Ht. apply get_hit; [done|].
    apply unexpired_Some. by exists entry. }
  subst c' r. unfold get. rewrite (proj2 (Z.leb_gt _ _)) by lia.
  split; [|split; [|split]].
  - intros v. destruct (unexpired qc key now1) as [v1|] eqn:H1; cbn [fst snd].
    { intros [= <-]. apply unexpired_Some in H1 as (entry & He & Hv & Ht).
      exists qc, entry. repeat split; try done. intros. by apply (Hserve qc entry). }
    destruct (unexpired qc key now2) as [v2|] eqn:H2; cbn [fst snd].
    { intros [= <-]. apply unexpired_Some in H2 as (entry & He & Hv & Ht).
      exists qc, entry. repeat split; try done. intros. by apply (Hserve qc entry). }
    destruct fn as [v'|msg]; cbn [fst snd]; [|done]. intros [= ->].
    set (entry := mkCacheEntry (time.Add now3 (ttl qc)) v).
    set (qc' := mkQueryCache (ttl qc) (<[key := entry]> (entries qc))).
    assert (entries qc' !! key = Some entry) as He by apply lookup_insert_eq.
    exists qc', entry. split; [done|]. split; [done|]. split; [done|]. split; [done|].
    split.
    + intros _ _. split; [done|]. unfold entry, time.Add. cbn [expiresAt].
      by rewrite UnixNano_of_nanos.
    + intros fn' t1 t2 t3 Ht. by apply (Hserve qc' entry).
  - intros msg. destruct (unexpired qc key now1); cbn [fst snd]; [done|].
    destruct (unexpired qc key now2); cbn [fst snd]; [done|].
    destruct fn; cbn [fst snd]; [done|]. by intros [= <-].
  - intros qc' other. destruct (unexpired qc key now1); cbn [fst snd]; [by intros [= <-]|].
    destruct (unexpired qc key now2); cbn [fst snd]; [by intros [= <-]|].
    destruct fn; cbn [fst snd]; [|by intros [= <-]].
    intros [= <-] Hne. cbn [entries]. by rewrite lookup_insert_ne.
  - cbn [clear ttl]. rewrite (proj2 (Z.leb_gt _ _)) by lia.
    unfold unexpired. cbn [entries]. rewrite lookup_empty. by destruct fn.
Qed.

Lemma get_serves_until_expiry_witness :
  0 < ttl demo_cache
  ∧ snd (get (fst (get (Some demo_cache) "kpis" (Ok (VInt 7)) demo_now demo_now demo_now))
             "kpis" (Err "engine down") demo_now demo_now demo_now)
    = Ok (VInt 7).
Proof.
  split; [reflexivity|].
  destruct (get_serves_until_expiry demo_cache "kpis" (Ok (VInt 7)) demo_now demo_now demo_now
              eq_refl) as [H _].
  destruct (H (VInt 7) eq_refl) as (qc' & entry & _ & _ & _ & _ & Hexp & Hserve).
  destruct (Hexp eq_refl eq_refl) as [_ Hentry].
  rewrite (Hserve (Err "engine down") demo_now demo_now demo_now); [reflexivity|].
  rewrite Hentry. reflexivity.
Defined.

(** ** The two readers of a time parameter *)

(** ParseTimeParam and ParseTimeParamToTime agree.  On a parameter they
    understand, the text the first gives is the RFC3339 form of the time the
    second gives, and that time is in the local zone; on any other the first
    gives the parameter back and the second the zero time. *)
Theorem ParseTimeParam_agrees (loc : Z) (param : string) :
  if understood param
  then ParseTimeParam loc param = time.Format_RFC3339 (ParseTimeParamToTime loc param)
       ∧ time.offset (ParseTimeParamToTime loc param) = loc
  else ParseTimeParam loc param = param ∧ ParseTimeParamToTime loc param = time.zero.
Proof.
  unfold understood, ParseTimeParam, ParseTimeParamToTime.
  destruct (nonempty param) eqn:Hne; cbn [negb andb].
  - destruct (unix_param param) as [ts|]; [by rewrite bool_decide_eq_true_2 by eauto|].
    rewrite (bool_decide_eq_false_2 (is_Some None)) by (by intros [? ?]). cbn [orb].
    destruct (parse_first timeParamLayouts param) as [t|].
    + by rewrite bool_decide_eq_true_2 by eauto.
    + by rewrite bool_decide_eq_false_2 by (by intros [? ?]).
  - apply nonempty_false in Hne. by subst.
Qed.

(** ** The statement List builds *)

Lemma count_byte_app (c : ascii) (a b : string) :
  count_byte c (a ++ b) = (count_byte c a + count_byte c b)%nat.
Proof.
  induction a as [|x a IH]; [done|]. rewrite append_cons. cbn [count_byte]. rewrite IH. lia.
Qed.

Lemma count_byte_concat (c : ascii) (sep : string) (l : list string) :
  count_byte c sep = 0%nat →
  count_byte c (String.concat sep l) = sum_list (count_byte c <$> l).
Proof.
  intros Hsep. induction l as [|a l IH]; [done|]. destruct l as [|b l].
  - cbn. lia.
  - change (String.concat sep (a :: b :: l)) with (a ++ sep ++ String.concat sep (b :: l)).
    rewrite !count_byte_app, Hsep, IH. cbn. lia.
Qed.

Lemma upper_ascii_A (c : ascii) :
  Strs.upper_ascii c = "A"%char ↔ c = "A"%char ∨ c = "a"%char.
Proof.
  split; [|by intros [->| ->]].
  destruct c as [[] [] [] [] [] [] [] []]; vm_compute; intros H;
    first [discriminate H | by left | by right].
Qed.

Lemma upper_ascii_S (c : ascii) :
  Strs.upper_ascii c = "S"%char ↔ c = "S"%char ∨ c = "s"%char.
Proof.
  split; [|by intros [->| ->]].
  destruct c as [[] [] [] [] [] [] [] []]; vm_compute; intros H;
    first [discriminate H | by left | by right].
Qed.

Lemma upper_ascii_C (c : ascii) :
  Strs.upper_ascii c = "C"%char ↔ c = "C"%char ∨ c = "c"%char.
Proof.
  split; [|by intros [->| ->]].
  destruct c as [[] [] [] [] [] [] [] []]; vm_compute; intros H;
    first [discriminate H | by left | by right].
Qed.

(** The sort orders that read as ASC under ToUpper. *)
Lemma ToUpper_ASC (sortOrder : string) :
  Strs.ToUpper sortOrder = "ASC"
  ↔ ∃ a s c, sortOrder = String a (String s (String c ""))
             ∧ (a = "A"%char ∨ a = "a"%char) ∧ (s = "S"%char ∨ s = "s"%char)
             ∧ (c = "C"%char ∨ c = "c"%char).
Proof.
  split.
  - destruct sortOrder as [|a [|s [|c [|d rest]]]]; try discriminate.
    cbn [Strs.ToUpper]. intros [= Ha Hs Hc].
    exists a, s, c. rewrite <- upper_ascii_A, <- upper_ascii_S, <- upper_ascii_C. done.
  - intros (a & s & c & -> & Ha & Hs & Hc). cbn [Strs.ToUpper].
    apply upper_ascii_A in Ha. apply upper_ascii_S in Hs. apply upper_ascii_C in Hc.
    by rewrite Ha, Hs, Hc.
Qed.

Section Statement.

Variable loc : Z.

Lemma list_conditions_placeholders (query : ListQuery) :
  Forall (fun cond => count_byte "?" (fst cond) = List.length (snd cond))
         (list_conditions loc query).
Proof.
  unfold list_conditions.
  repeat (apply Forall_app; split);
    repeat match goal with
           | |- Forall _ (if ?b then _ else _) => destruct b
           | |- Forall _ (match ?o with _ => _ end) => destruct o as [[]|]
           end;
    try (by constructor); by repeat constructor.
Qed.

(** The statement List sends has one placeholder for each argument it
    binds, whatever the filters; the text of the filters goes into the
    arguments only.  The column it orders by is one of the six it allows,
    the one asked for when it is one of them and timestamp otherwise; the
    direction is ASC or DESC, whatever the query asks for, and for a sort
    order of ASCII bytes it is ASC exactly when the sort order is the word
    asc in small or capital letters, in any mix.  (Outside ASCII
    strings.ToUpper folds the long s, U+017F, to S as well, which the
    byte-wise upper case here does not.) *)
Theorem List_statement_well_formed (query : ListQuery) :
  let conds := list_conditions loc query in
  count_byte "?" (where_clause (fst <$> conds)) = List.length (concat (snd <$> conds))
  ∧ sort_column (q_SortBy query)
    ∈ ["timestamp"; "model"; "provider"; "total_tokens"; "duration_ms"; "status_code"]
  ∧ (q_SortBy query
     ∈ ["timestamp"; "model"; "provider"; "total_tokens"; "duration_ms"; "status_code"]
     → sort_column (q_SortBy query) = q_SortBy query)
  ∧ (q_SortBy query
     ∉ ["timestamp"; "model"; "provider"; "total_tokens"; "duration_ms"; "status_code"]
     → sort_column (q_SortBy query) = "timestamp")
  ∧ sort_direction (q_SortOrder query) ∈ ["ASC"; "DESC"]
  ∧ (ascii_only (q_SortOrder query) = true →
     (sort_direction (q_SortOrder query) = "ASC"
      ↔ q_SortOrder query ∈ ["asc"; "asC"; "aSc"; "aSC"; "Asc"; "AsC"; "ASc"; "ASC"])
     ∧ (sort_direction (q_SortOrder query) = "DESC"
        ↔ q_SortOrder query ∉ ["asc"; "asC"; "aSc"; "aSC"; "Asc"; "AsC"; "ASc"; "ASC"])).
Proof.
  intros conds. split; [|split; [|split; [|split; [|split]]]].
  - pose proof (list_conditions_placeholders query) as Hall. fold conds in Hall.
    unfold where_clause. rewrite length_fmap.
    assert (sum_list (count_byte "?" <$> (fst <$> conds))
            = List.length (concat (snd <$> conds))) as Hsum.
    { induction Hall as [|[cond args] l Hc Hl IH]; [done|].
      cbn in *. rewrite length_app, Hc, IH. done. }
    destruct conds as [|c l]; [done|].
    cbn [List.length Nat.ltb Nat.leb]. rewrite count_byte_app, count_byte_concat by done.
    rewrite Hsum. done.
  - unfold sort_column.
    destruct (existsb _ _) eqn:Hex; [|apply elem_of_cons; by left].
    apply existsb_exists in Hex as (x & Hin & Heq). apply String.eqb_eq in Heq. subst x.
    by apply list_elem_of_In.
  - intros Hin. unfold sort_column.
    destruct (existsb _ _) eqn:Hex; [done|].
    assert (existsb (String.eqb (q_SortBy query))
              ["timestamp"; "model"; "provider"; "total_tokens"; "duration_ms"; "status_code"]
            = true) as Hyes.
    { apply existsb_exists. exists (q_SortBy query). split; [by apply list_elem_of_In|].
      apply String.eqb_refl. }
    congruence.
  - intros Hout. unfold sort_column.
    destruct (existsb _ _) eqn:Hex; [|done].
    apply existsb_exists in Hex as (x & Hin & Heq). apply String.eqb_eq in Heq. subst x.
    by apply list_elem_of_In in Hin.
  - unfold sort_direction. destruct (String.eqb _ _).
    + apply elem_of_cons. by left.
    + apply elem_of_cons. right. apply elem_of_cons. by left.
  - intros _.
    assert (Strs.ToUpper (q_SortOrder query) = "ASC"
            ↔ q_SortOrder query
              ∈ ["asc"; "asC"; "aSc"; "aSC"; "Asc"; "AsC"; "ASc"; "ASC"]) as Hset.
    { rewrite ToUpper_ASC, !elem_of_cons, elem_of_nil. split.
      - intros (a & s & c & -> & [->| ->] & [->| ->] & [->| ->]); tauto.
      - intros H. repeat (destruct H as [->|H]; [do 3 eexists; split; [reflexivity|]; tauto|]).
        done. }
    unfold sort_direction.
    destruct (String.eqb_spec (Strs.ToUpper (q_SortOrder query)) "ASC") as [Heq|Hne].
    + split; [split; [intros _; by apply Hset|done]|].
      split; [done|]. intros Hout. by apply Hset in Heq.
    + split; [split; [done|]|].
      * intros Hin. by apply Hset in Hin.
      * split; [|done]. intros _ Hin. by apply Hset in Hin.
Qed.

End Statement.

(** ** The timeline, whatever the rows *)

Lemma sample_sub (points : list IntervalTimelinePoint) (limit : Z) (p : IntervalTimelinePoint) :
  p ∈ sample points limit → p ∈ points.
Proof.
  unfold sample. destruct (limit <? _); [|done]. intros Hp.
  apply list_elem_of_omap in Hp as (i & _ & Hi). cbv zeta in Hi.
  destruct (_ <? _); [|done]. by eapply list_elem_of_lookup_2.
Qed.

Lemma sample_length (points : list IntervalTimelinePoint) (limit : Z) :
  1 <= limit → Z.of_nat (List.length (sample points limit)) <= limit.
Proof.
  intros Hl. unfold sample. destruct (Z.ltb_spec limit (Z.of_nat (List.length points))); [|lia].
  set (l := omap _ _).
  assert (List.length l <= Z.to_nat limit)%nat as Hle.
  { unfold l. etrans; [apply omap_length_le|]. by rewrite length_seqZ. }
  lia.
Qed.

Lemma clamp_hours_range (hours : Z) :
  1 <= clamp_hours hours <= 720 ∧ (1 <= hours <= 720 → clamp_hours hours = hours).
Proof.
  unfold clamp_hours.
  destruct (Z.ltb_spec hours 1); [cbn; lia|]. destruct (Z.ltb_spec 720 hours); lia.
Qed.

(** The points the loop makes, whatever the order of the records: one
    per consecutive pair whose interval is not over 120 minutes. *)
Lemma interval_points_pairs (prev : recordData) (rest : list recordData) :
  interval_points prev rest
  = point_of_pair
      <$> List.filter (fun p => negb (f64.gt (interval_of p.1 p.2) (f64.of_int 120)))
            (consecutive (prev :: rest)).
Proof.
  revert prev. induction rest as [|cur rest IH]; intros prev; [done|].
  unfold consecutive. cbn [tail zip zip_with interval_points List.filter fst snd].
  specialize (IH cur). unfold consecutive in IH. cbn [tail] in IH. rewrite IH.
  by destruct (f64.gt (interval_of prev cur) (f64.of_int 120)).
Qed.

Lemma all_points_pairs (records : list recordData) :
  all_points records
  = point_of_pair
      <$> List.filter (fun p => negb (f64.gt (interval_of p.1 p.2) (f64.of_int 120)))
            (consecutive records).
Proof. destruct records as [|first rest]; [done|]. apply interval_points_pairs. Qed.

(** A consecutive pair is a record with the record just before it. *)
Lemma consecutive_adjacent (records : list recordData) (p : recordData * recordData) :
  p ∈ consecutive records
  ↔ ∃ i : nat, records !! i = Some p.1 ∧ records !! S i = Some p.2.
Proof.
  unfold consecutive. destruct p as [a b]. cbn [fst snd]. split.
  - intros Hin. apply list_elem_of_lookup_1 in Hin as [i Hi]. exists i.
    apply lookup_zip_with_Some in Hi as (x & y & [= <- <-] & Hx & Hy).
    split; [done|]. by rewrite <- lookup_tail.
  - intros (i & Ha & Hb). apply (list_elem_of_lookup_2 _ i).
    apply lookup_zip_with_Some. exists a, b. split; [done|]. split; [done|].
    by rewrite lookup_tail.
Qed.

Lemma clamp_hours_cases (hours : Z) :
  (hours < 1 → clamp_hours hours = 24)
  ∧ (1 <= hours <= 720 → clamp_hours hours = hours)
  ∧ (720 < hours → clamp_hours hours = 720).
Proof.
  unfold clamp_hours.
  destruct (Z.ltb_spec hours 1); [cbn; lia|]. destruct (Z.ltb_spec 720 hours); lia.
Qed.

Lemma clamp_limit_cases (limit : Z) :
  (limit < 1 → clamp_limit limit = 5000)
  ∧ (1 <= limit <= 10000 → clamp_limit limit = limit)
  ∧ (10000 < limit → clamp_limit limit = 10000).
Proof.
  unfold clamp_limit.
  destruct (Z.ltb_spec limit 1); [cbn; lia|]. destruct (Z.ltb_spec 10000 limit); lia.
Qed.

(** GetIntervalTimeline keeps within its bounds whatever the rows and
    their order.  It fails exactly on a closed store or when the engine
    fails.  Otherwise the period it reports is the hours asked for, 24 for
    less than 1 and 720 for more than 720, and that period before the clock
    is the start it asks the engine for; the points are no more than the
    limit, 5000 for less than 1 and 10000 for more than 10000, and their
    count is the one reported.  Every point is the point of a record read
    and the record read just before it, whose interval is not over 120
    minutes, at the time and with the model of the later record; when these
    pairs are no more than the limit there is a point for each, in their
    order.  The models listed are exactly the non-empty models of the later
    records of these pairs. *)
Theorem GetIntervalTimeline_bounds (s : Store) (now : time.Time)
    (query : string → option (list (string * string))) (hours limit : Z) :
  let asked := query (time.Format_RFC3339 (time.Add now (- (clamp_hours hours * time.Hour)))) in
  let near (p : recordData * recordData) :=
    negb (f64.gt (interval_of p.1 p.2) (f64.of_int 120)) in
  ((hours < 1 → clamp_hours hours = 24)
   ∧ (1 <= hours <= 720 → clamp_hours hours = hours)
   ∧ (720 < hours → clamp_hours hours = 720))
  ∧ ((limit < 1 → clamp_limit limit = 5000)
     ∧ (1 <= limit <= 10000 → clamp_limit limit = limit)
     ∧ (10000 < limit → clamp_limit limit = 10000))
  ∧ (is_err (GetIntervalTimeline s now query hours limit) = true
     ↔ closed s = true ∨ asked = None)
  ∧ ∀ r, GetIntervalTimeline s now query hours limit = Ok r →
      AnalysisPeriodHours r = clamp_hours hours
      ∧ TotalPoints r = Z.of_nat (List.length (Points r))
      ∧ TotalPoints r <= clamp_limit limit
      ∧ ∃ rows,
          asked = Some rows
          ∧ (∀ p, p ∈ Points r →
               ∃ i before cur,
                 scan_rows rows !! i = Some before ∧ scan_rows rows !! S i = Some cur
                 ∧ near (before, cur) = true
                 ∧ p = point_of before cur
                 ∧ X p = time.Format_RFC3339 (timestamp cur) ∧ Model p = model cur)
          ∧ (Z.of_nat (List.length (List.filter near (consecutive (scan_rows rows))))
             <= clamp_limit limit →
             Points r = point_of_pair <$> List.filter near (consecutive (scan_rows rows)))
          ∧ ∀ m, m ∈ Models r
                 ↔ m ≠ "" ∧ ∃ p, p ∈ consecutive (scan_rows rows) ∧ near p = true
                                 ∧ model p.2 = m.
Proof.
  intros asked near.
  split; [apply clamp_hours_cases|]. split; [apply clamp_limit_cases|].
  unfold GetIntervalTimeline. fold asked.
  destruct (closed s) eqn:Hc.
  { split; [split; [by left|done]|]. done. }
  destruct asked as [rows|] eqn:Hq.
  2:{ split; [split; [by right|done]|]. done. }
  split.
  { cbn [is_err]. split; [done|]. by intros [?|?]. }
  intros r [= <-]. cbn [AnalysisPeriodHours TotalPoints Points Models].
  pose proof (clamp_limit_range limit) as Hlim.
  split; [done|]. split; [done|]. split; [by apply sample_length; lia|].
  exists rows. split; [done|].
  rewrite all_points_pairs. fold near.
  set (kept := List.filter near (consecutive (scan_rows rows))).
  split; [|split].
  - intros p Hp. apply sample_sub in Hp.
    apply list_elem_of_fmap in Hp as ([before cur] & -> & Hin).
    apply list_elem_of_In, filter_In in Hin as [Hin Hnear].
    apply list_elem_of_In, consecutive_adjacent in Hin as (i & Hb & Hcur).
    exists i, before, cur. cbn [fst snd] in *. done.
  - intros Hfew. unfold sample. rewrite length_fmap.
    by destruct (Z.ltb_spec (clamp_limit limit) (Z.of_nat (List.length kept))); [lia|].
  - intros m. unfold models_of. rewrite elem_of_list_to_set. split.
    + intros Hm. apply list_elem_of_In, filter_In in Hm as [Hm Hne].
      apply list_elem_of_In, list_elem_of_fmap in Hm as (p & -> & Hp).
      apply list_elem_of_fmap in Hp as (pr & -> & Hin).
      apply list_elem_of_In, filter_In in Hin as [Hin Hnear].
      split; [intros E; by rewrite E in Hne|].
      exists pr. split; [by apply list_elem_of_In|]. done.
    + intros (Hne & pr & Hin & Hnear & <-).
      apply list_elem_of_In, filter_In. split.
      * apply list_elem_of_In, list_elem_of_fmap. exists (point_of_pair pr). split; [done|].
        apply list_elem_of_fmap. exists pr. split; [done|].
        apply list_elem_of_In, filter_In. split; [by apply list_elem_of_In|done].
      * unfold nonempty. destruct (model pr.2); [done|reflexivity].
Qed.

(** ** What a usage event sets off *)

Section PluginGate.

Variable json_Marshal : gmap string string → string.

Lemma PatchByID_same_ids (s : Store) (id : Z) (patch : RecordPatch) :
  dom (usage_records (fst (PatchByID json_Marshal s id patch))) = dom (usage_records s)
  ∧ request_candidates (fst (PatchByID json_Marshal s id patch)) = request_candidates s
  ∧ writeQueue (fst (PatchByID json_Marshal s id patch)) = writeQueue s
  ∧ closed (fst (PatchByID json_Marshal s id patch)) = closed s.
Proof.
  destruct (PatchByID_cases json_Marshal s id patch) as [->|(Hc & Hf & Hid & Hne)]; [done|].
  rewrite PatchByID_runs by done. cbn [fst]. split; [|done].
  cbn [usage_records invalidateCaches with_cache with_usage_records].
  apply set_eq. intros k. rewrite !elem_of_dom, exec_update_lookup.
  case_decide as Hk; [subst k|done]. by rewrite fmap_is_Some.
Qed.

(** A usage event does nothing on a plugin without a store or switched
    off.  Otherwise it either patches the pending row or hands one new
    record to the write queue, never both and never neither, and patches only
    under a positive record id; it inserts no row itself, so the ids of the
    rows are the same before and after.  The token callback is called only
    when installed, for a non-empty key and when a token count is positive;
    the usage callback only when installed and for a non-empty key. *)
Theorem HandleUsage_patches_or_enqueues (p : Plugin) (ctx : option GinContext)
    (ev : UsageEvent) (now : time.Time) :
  let h := HandleUsage json_Marshal p ctx ev now in
  (store p = None ∨ enabled p = false →
   h_store h = store p ∧ h_patched h = false ∧ h_enqueued h = None ∧ h_calls h = [])
  ∧ (is_Some (store p) → enabled p = true →
     (h_patched h = true ↔ h_enqueued h = None)
     ∧ (h_patched h = true → 0 < x_recordDBID (extract ctx ev now))
     ∧ h_calls h = callbacks p ev)
  ∧ (∀ s s', store p = Some s → h_store h = Some s' →
       dom (usage_records s') = dom (usage_records s)
       ∧ request_candidates s' = request_candidates s)
  ∧ (∀ key i o, TokenIncrement key i o ∈ h_calls h →
       tokenIncrementor p = true ∧ key = ev_APIKey ev ∧ key ≠ ""
       ∧ i = InputTokens (ev_Detail ev) ∧ o = OutputTokens (ev_Detail ev)
       ∧ (0 < i ∨ 0 < o))
  ∧ (∀ key, UsageIncrement key ∈ h_calls h →
       usageIncrementor p = true ∧ key = ev_APIKey ev ∧ key ≠ "").
Proof.
  intros h.
  assert (h_calls h = [] ∨ h_calls h = callbacks p ev) as Hcalls.
  { subst h. unfold HandleUsage. destruct (store p); [|by left].
    destruct (enabled p); cbn [negb]; [|by left].
    destruct (0 <? _); [destruct (PatchByID _ _ _ _) as [? []]|]; cbn;
      try destruct (EnqueueUsageRecord _ _); by right. }
  assert (∀ c, c ∈ callbacks p ev →
            match c with
            | TokenIncrement key i o =>
                tokenIncrementor p = true ∧ key = ev_APIKey ev ∧ key ≠ ""
                ∧ i = InputTokens (ev_Detail ev) ∧ o = OutputTokens (ev_Detail ev)
                ∧ (0 < i ∨ 0 < o)
            | UsageIncrement key =>
                usageIncrementor p = true ∧ key = ev_APIKey ev ∧ key ≠ ""
            end) as Hcb.
  { intros c Hc. unfold callbacks in Hc. apply elem_of_app in Hc as [Hc|Hc].
    - destruct (tokenIncrementor p) eqn:Ht; [|by apply elem_of_nil in Hc].
      destruct (nonempty (ev_APIKey ev)) eqn:Hk; [|by apply elem_of_nil in Hc].
      cbn [andb] in Hc.
      destruct (_ || _) eqn:Hpos; [|by apply elem_of_nil in Hc].
      apply list_elem_of_singleton in Hc as ->.
      apply orb_true_iff in Hpos. rewrite !Z.ltb_lt in Hpos.
      repeat split; try done. intros E. by rewrite E in Hk.
    - destruct (usageIncrementor p) eqn:Hu; [|by apply elem_of_nil in Hc].
      destruct (nonempty (ev_APIKey ev)) eqn:Hk; [|by apply elem_of_nil in Hc].
      apply list_elem_of_singleton in Hc as ->.
      repeat split; try done. intros E. by rewrite E in Hk. }
  split; [|split; [|split; [|split]]].
  - subst h. unfold HandleUsage. intros [Hs|He].
    + by rewrite Hs.
    + destruct (store p); [|done]. by rewrite He.
  - subst h. unfold HandleUsage. intros [s Hs] He. rewrite Hs, He. cbn [negb].
    destruct (Z.ltb_spec 0 (x_recordDBID (extract ctx ev now))).
    + destruct (PatchByID _ _ _ _) as [s1 [n|msg]]; cbn.
      * done.
      * destruct (EnqueueUsageRecord _ _). cbn. split; [split; done|done].
    + destruct (EnqueueUsageRecord _ _) eqn:E. cbn. split; [split; done|]. split; [done|done].
  - subst h. unfold HandleUsage. intros s s' Hs. rewrite Hs.
    destruct (enabled p); cbn [negb]; [|by intros [= <-]].
    assert (∀ s1 rec, dom (usage_records (fst (EnqueueUsageRecord s1 rec))) = dom (usage_records s1)
                      ∧ request_candidates (fst (EnqueueUsageRecord s1 rec))
                        = request_candidates s1) as Henq.
    { intros s1 rec. unfold EnqueueUsageRecord.
      destruct (try_send_cases s1 (writeTaskInsertUsageRecord rec))
        as [(q & _ & _ & _ & ->)|[_ ->]]; done. }
    destruct (0 <? _).
    + pose proof (PatchByID_same_ids s (x_recordDBID (extract ctx ev now))
                    (usage_patch ev (x_isStreaming (extract ctx ev now)))) as (Hd & Hr & _).
      destruct (PatchByID _ _ _ _) as [s1 [n|msg]]; cbn [fst] in Hd, Hr.
      * cbn. by intros [= <-].
      * match goal with |- context [EnqueueUsageRecord s1 ?r] =>
          destruct (Henq s1 r) as [Hd' Hr']; destruct (EnqueueUsageRecord s1 r) end.
        cbn in *. intros [= <-]. split; congruence.
    + match goal with |- context [EnqueueUsageRecord s ?r] =>
        destruct (Henq s r) as [Hd' Hr']; destruct (EnqueueUsageRecord s r) end.
      cbn in *. by intros [= <-].
  - intros key i o Hin. destruct Hcalls as [E|E]; rewrite E in Hin;
      [by apply elem_of_nil in Hin|]. exact (Hcb _ Hin).
  - intros key Hin. destruct Hcalls as [E|E]; rewrite E in Hin;
      [by apply elem_of_nil in Hin|]. exact (Hcb _ Hin).
Qed.

End PluginGate.

(** ** The snapshot file's own trimming *)

Lemma append_nil_r (s : string) : s ++ "" = s.
Proof. induction s as [|c s IH]; [done|]. by rewrite append_cons, IH. Qed.

Lemma append_assoc (a b c : string) : (a ++ b) ++ c = a ++ b ++ c.
Proof. induction a as [|x a IH]; [done|]. by rewrite !append_cons, IH. Qed.

Lemma all_blank_app (a b : string) : all_blank (a ++ b) = all_blank a && all_blank b.
Proof.
  induction a as [|c a IH]; [done|]. rewrite append_cons. cbn [all_blank].
  by rewrite IH, andb_assoc.
Qed.

(** A string that is not empty is its front and its last byte. *)
Lemma last_snoc (s : string) :
  s ≠ "" →
  ∃ r, String.get (String.length s - 1) s = Some r
       ∧ s = String.substring 0 (String.length s - 1) s ++ String r "".
Proof.
  induction s as [|c s IH]; [done|]. intros _. destruct s as [|c' s].
  - exists c. done.
  - destruct (IH ltac:(done)) as (r & Hget & Hs). exists r.
    cbn [String.length] in *. replace (S (S (String.length s)) - 1)%nat
      with (S (S (String.length s) - 1)) by lia.
    split; [exact Hget|]. cbn [String.substring]. rewrite append_cons. by f_equal.
Qed.

Lemma drop_leading_spec (value : string) :
  ∃ pre, value = pre ++ drop_leading value ∧ all_blank pre = true
         ∧ match drop_leading value with
           | EmptyString => True
           | String r _ => is_blank r = false
           end.
Proof.
  induction value as [|r rest (pre & Hv & Hpre & Hfirst)]; [by exists ""|].
  cbn [drop_leading]. destruct (is_blank r) eqn:Hr.
  - exists (String r pre). rewrite append_cons. split; [by f_equal|].
    split; [by cbn; rewrite Hr|done].
  - exists "". done.
Qed.

Lemma drop_trailing_spec (fuel : nat) (value : string) :
  (String.length value <= fuel)%nat →
  ∃ post, value = drop_trailing fuel value ++ post ∧ all_blank post = true
          ∧ match last_byte (drop_trailing fuel value) with
            | Some r => is_blank r = false
            | None => drop_trailing fuel value = ""
            end.
Proof.
  revert value. induction fuel as [|fuel IH]; intros value Hlen.
  - destruct value; [|cbn in Hlen; lia]. by exists "".
  - cbn [drop_trailing]. destruct value as [|c v] eqn:Ev; [by exists ""|]. rewrite <- Ev in *.
    assert (value ≠ "") as Hne by (by subst).
    assert ((0 <? String.length value)%nat = true) as ->
      by (apply Nat.ltb_lt; subst; cbn; lia).
    destruct (last_snoc value Hne) as (r & Hget & Hsnoc). rewrite Hget.
    destruct (is_blank r) eqn:Hr.
    + assert (String.length (String.substring 0 (String.length value - 1) value) <= fuel)%nat
        as Hshort.
      { rewrite substring_length; lia. }
      destruct (IH _ Hshort) as (post & Hv & Hpost & Hlast).
      exists (post ++ String r ""). split; [|split; [|done]].
      * rewrite <- append_assoc, <- Hv. exact Hsnoc.
      * rewrite all_blank_app, Hpost. cbn. by rewrite Hr.
    + exists "". rewrite append_nil_r. split; [done|]. split; [done|].
      unfold last_byte. by rewrite Hget.
Qed.

Lemma drop_leading_fixed (value : string) :
  match value with EmptyString => True | String r _ => is_blank r = false end →
  drop_leading value = value.
Proof. destruct value as [|r rest]; [done|]. cbn. by intros ->. Qed.

Lemma drop_trailing_fixed (fuel : nat) (value : string) :
  match last_byte value with Some r => is_blank r = false | None => value = "" end →
  drop_trailing fuel value = value.
Proof.
  destruct fuel as [|fuel]; [done|]. cbn [drop_trailing]. unfold last_byte.
  destruct (0 <? String.length value)%nat; [|done].
  destruct (String.get _ value) as [r|]; [|done]. by intros ->.
Qed.

Lemma first_of_app (a b : string) :
  a ≠ "" → match a ++ b with
           | EmptyString => False
           | String r _ => first_byte a = Some r
           end.
Proof. destruct a as [|c a]; [done|]. intros _. by rewrite append_cons. Qed.

Lemma stringsTrimSpace_core (value : string) :
  (∃ pre post,
     value = pre ++ stringsTrimSpace value ++ post
     ∧ all_blank pre = true ∧ all_blank post = true)
  ∧ match first_byte (stringsTrimSpace value) with
    | Some r => is_blank r = false
    | None => stringsTrimSpace value = ""
    end
  ∧ match last_byte (stringsTrimSpace value) with
    | Some r => is_blank r = false
    | None => stringsTrimSpace value = ""
    end.
Proof.
  unfold stringsTrimSpace.
  destruct (String.eqb_spec value "") as [->|Hne].
  { split; [by exists "", ""|]. done. }
  destruct (drop_leading_spec value) as (pre & Hv & Hpre & Hfirst).
  set (mid := drop_leading value) in *.
  destruct (drop_trailing_spec (String.length mid) mid ltac:(lia)) as (post & Hm & Hpost & Hlast).
  set (core := drop_trailing (String.length mid) mid) in *.
  split; [exists pre, post; by rewrite <- Hm|]. split; [|done].
  destruct core as [|r core'] eqn:Ec; [done|]. cbn. rewrite Hm, append_cons in Hfirst.
  exact Hfirst.
Qed.

Lemma stringsTrimSpace_fixed (value : string) :
  match first_byte value with Some r => is_blank r = false | None => value = "" end →
  match last_byte value with Some r => is_blank r = false | None => value = "" end →
  stringsTrimSpace value = value.
Proof.
  intros Hfirst Hlast. unfold stringsTrimSpace.
  destruct (String.eqb_spec value "") as [Hc|Hc]; [by rewrite Hc|].
  rewrite drop_leading_fixed.
  - by apply drop_trailing_fixed.
  - destruct value as [|r rest]; [done|]. exact Hfirst.
Qed.

(** stringsTrimSpace takes the blanks (space, tab, line feed, carriage
    return) off both ends and nothing else: the value is a run of blanks, the
    result and another run of blanks; the result neither begins nor ends with
    a blank; and trimming the result again changes nothing. *)
Theorem stringsTrimSpace_strips_both_ends (value : string) :
  (∃ pre post,
     value = pre ++ stringsTrimSpace value ++ post
     ∧ all_blank pre = true ∧ all_blank post = true)
  ∧ match first_byte (stringsTrimSpace value) with
    | Some r => is_blank r = false
    | None => stringsTrimSpace value = ""
    end
  ∧ match last_byte (stringsTrimSpace value) with
    | Some r => is_blank r = false
    | None => stringsTrimSpace value = ""
    end
  ∧ stringsTrimSpace (stringsTrimSpace value) = stringsTrimSpace value.
Proof.
  destruct (stringsTrimSpace_core value) as (Hparts & Hfirst & Hlast).
  split; [done|]. split; [done|]. split; [done|]. by apply stringsTrimSpace_fixed.
Qed.

(** ** The model of a request *)

Lemma prefix_byte (c a : ascii) (s : string) :
  String.prefix (String c "") (String a s) = Ascii.eqb a c.
Proof.
  cbn. destruct (ascii_dec c a) as [->|Hne].
  - rewrite Ascii.eqb_refl. by destruct s.
  - symmetry. apply Ascii.eqb_neq. congruence.
Qed.

Lemma Index_from_before (c : ascii) (s : string) (i : nat) :
  Index_from i s (String c "")
  = if (count_byte c s =? 0)%nat then -1 else Z.of_nat (i + String.length (before c s)).
Proof.
  revert i. induction s as [|a s IH]; intros i; [done|].
  cbn [Index_from]. rewrite prefix_byte. cbn [count_byte before].
  destruct (Ascii.eqb a c); cbn [Nat.add Nat.eqb String.length].
  - f_equal. lia.
  - rewrite IH. destruct (count_byte c s =? 0)%nat; [done|]. f_equal. cbn. lia.
Qed.

Lemma substring_before (c : ascii) (s : string) :
  String.substring 0 (String.length (before c s)) s = before c s.
Proof.
  induction s as [|a s IH]; [done|]. cbn [before].
  destruct (Ascii.eqb a c); [done|]. cbn. by rewrite IH.
Qed.

Lemma before_all (c : ascii) (s : string) : count_byte c s = 0%nat → before c s = s.
Proof.
  induction s as [|a s IH]; [done|]. cbn. destruct (Ascii.eqb a c); [done|].
  intros H. by rewrite IH.
Qed.

(** The cut the function makes at the first [c] is [before]. *)
Lemma cut_before (c : ascii) (s : string) :
  (if 0 <=? Index s (String c "")
   then Strs.slice s 0 (Z.to_nat (Index s (String c ""))) else s)
  = before c s.
Proof.
  unfold Index, Strs.slice. rewrite Index_from_before.
  destruct (count_byte c s =? 0)%nat eqn:Hn.
  - apply Nat.eqb_eq in Hn. cbn. by rewrite before_all.
  - rewrite (proj2 (Z.leb_le _ _)) by lia. rewrite Nat2Z.id, Nat.sub_0_r. cbn [Nat.add].
    apply substring_before.
Qed.

Lemma before_free (c : ascii) (s : string) : count_byte c (before c s) = 0%nat.
Proof.
  induction s as [|a s IH]; [done|]. cbn. destruct (Ascii.eqb a c) eqn:E; [done|].
  cbn. by rewrite E, IH.
Qed.

Lemma before_count (c d : ascii) (s : string) :
  (count_byte d (before c s) <= count_byte d s)%nat.
Proof.
  induction s as [|a s IH]; [done|]. cbn. destruct (Ascii.eqb a c); cbn; [lia|].
  destruct (Ascii.eqb a d); lia.
Qed.

Lemma before_app (c : ascii) (m rest : string) :
  count_byte c m = 0%nat → before c (m ++ rest) = m ++ before c rest.
Proof.
  induction m as [|a m IH]; [done|]. rewrite !append_cons. cbn.
  destruct (Ascii.eqb a c); [done|]. intros H. by rewrite IH.
Qed.

Lemma count_byte_substring (d : ascii) (s : string) (lo n : nat) :
  (count_byte d (String.substring lo n s) <= count_byte d s)%nat.
Proof.
  revert lo n. induction s as [|a s IH]; intros lo n; [by destruct lo, n|].
  destruct lo as [|lo]; [destruct n as [|n]|]; cbn.
  - lia.
  - specialize (IH 0%nat n). lia.
  - specialize (IH lo n). lia.
Qed.

Lemma count_byte_TrimSpace (d : ascii) (s : string) :
  (count_byte d (Strs.TrimSpace s) <= count_byte d s)%nat.
Proof.
  assert (∀ fuel t, count_byte d (Strs.TrimLeft_fuel fuel t) <= count_byte d t)%nat as Hl.
  { induction fuel as [|fuel IH]; intros t; [cbn; lia|]. cbn [Strs.TrimLeft_fuel].
    destruct (Strs.leading_space t); [|lia].
    etrans; [apply IH|apply count_byte_substring]. }
  assert (∀ fuel t, count_byte d (Strs.TrimRight_fuel fuel t) <= count_byte d t)%nat as Hr.
  { induction fuel as [|fuel IH]; intros t; [cbn; lia|]. cbn [Strs.TrimRight_fuel].
    destruct (Strs.trailing_space t); [|lia].
    etrans; [apply IH|apply count_byte_substring]. }
  unfold Strs.TrimSpace, Strs.TrimRight, Strs.TrimLeft. etrans; [apply Hr|apply Hl].
Qed.

Lemma substring_all (b : string) : String.substring 0 (String.length b) b = b.
Proof. induction b as [|c b IH]; [done|]. cbn. by rewrite IH. Qed.

Lemma substring_drop_app (a b : string) :
  String.substring (String.length a) (String.length (a ++ b) - String.length a) (a ++ b) = b.
Proof.
  rewrite append_length. replace (String.length a + String.length b - String.length a)%nat
    with (String.length b) by lia.
  induction a as [|c a IH]; [apply substring_all|]. rewrite append_cons. exact IH.
Qed.

Lemma TrimPrefix_app (a b : string) : TrimPrefix (a ++ b) a = b.
Proof. unfold TrimPrefix, HasPrefix. rewrite prefix_app. apply substring_drop_app. Qed.

Section Model.

Variable gjson_model : string → string.

(** The model of a request on a Gemini path is the path segment after
    /v1beta/models/, up to the first slash or colon, trimmed: it never holds
    a slash or a colon, and for a path /v1beta/models/MODEL followed by
    nothing, or by a colon or a slash and anything, it is MODEL trimmed.  On
    every other path it is the trimmed model field of the body, and empty for
    an empty body. *)
Theorem extractModelBestEffort_path (path body : string) :
  let result := extractModelBestEffort gjson_model path body in
  (HasPrefix (Strs.TrimSpace path) "/v1beta/models/" = true →
   count_byte "/" result = 0%nat ∧ count_byte ":" result = 0%nat)
  ∧ (∀ model rest,
       Strs.TrimSpace path = "/v1beta/models/" ++ model ++ rest →
       model ≠ "" → count_byte "/" model = 0%nat → count_byte ":" model = 0%nat →
       (rest = "" ∨ ∃ c tail, rest = String c tail ∧ (c = "/"%char ∨ c = ":"%char)) →
       result = Strs.TrimSpace model)
  ∧ (HasPrefix (Strs.TrimSpace path) "/v1beta/models/" = false →
     result = if (String.length body =? 0)%nat then ""
              else Strs.TrimSpace (gjson_model body)).
Proof.
  intros result. subst result. unfold extractModelBestEffort. cbv zeta.
  set (rest0 := TrimPrefix (TrimPrefix (Strs.TrimSpace path) "/v1beta/models/") "/").
  rewrite (cut_before "/" rest0), (cut_before ":" (before "/" rest0)).
  split; [|split].
  - intros ->. destruct (nonempty rest0); cbn [negb]; [|done].
    split.
    + pose proof (count_byte_TrimSpace "/" (before ":" (before "/" rest0))) as H1.
      pose proof (before_count ":" "/" (before "/" rest0)) as H2.
      pose proof (before_free "/" rest0) as H3. lia.
    + pose proof (count_byte_TrimSpace ":" (before ":" (before "/" rest0))) as H1.
      pose proof (before_free ":" (before "/" rest0)) as H2. lia.
  - intros model rest Hpath Hne Hslash Hcolon Hrest.
    assert (rest0 = model ++ rest) as Hrest0.
    { unfold rest0. rewrite Hpath, TrimPrefix_app. unfold TrimPrefix, HasPrefix.
      destruct model as [|a model]; [done|]. rewrite append_cons, prefix_byte.
      cbn in Hslash. by destruct (Ascii.eqb a "/"). }
    unfold HasPrefix. rewrite Hpath, prefix_app, Hrest0.
    assert (nonempty (model ++ rest) = true) as -> by (by destruct model).
    cbn [negb]. f_equal.
    destruct Hrest as [->|(c & tail & -> & [->| ->])].
    + rewrite append_nil_r, (before_all "/" model), (before_all ":" model) by done. done.
    + rewrite (before_app "/" model) by done. cbn [before]. rewrite Ascii.eqb_refl.
      rewrite append_nil_r. by apply before_all.
    + rewrite (before_app "/" model) by done. cbn [before].
      change (Ascii.eqb ":" "/") with false. cbv iota.
      rewrite (before_app ":" model) by done. cbn [before]. rewrite Ascii.eqb_refl.
      apply append_nil_r.
  - by intros ->.
Qed.

End Model.

(** ** The candidates of a request *)

Lemma scan_candidate_row (candidate : RequestCandidate) (id : Z) :
  scan_candidate (id, candidate_row candidate) = Some (candidate_stored_as candidate id).
Proof.
  unfold scan_candidate, candidate_stored_as, col_text, col_int. cbn [fst snd].
  replace (candidate_row candidate !! "request_id")
    with (Some (SqlText (cand_RequestID candidate))) by reflexivity.
  replace (candidate_row candidate !! "timestamp")
    with (Some (SqlText (time.Format_RFC3339 (cand_Timestamp candidate)))) by reflexivity.
  replace (candidate_row candidate !! "provider")
    with (Some (SqlText (cand_Provider candidate))) by reflexivity.
  replace (candidate_row candidate !! "api_key")
    with (Some (SqlText (cand_APIKey candidate))) by reflexivity.
  replace (candidate_row candidate !! "api_key_masked")
    with (Some (SqlText (cand_APIKeyMasked candidate))) by reflexivity.
  replace (candidate_row candidate !! "status")
    with (Some (SqlText (cand_Status candidate))) by reflexivity.
  replace (candidate_row candidate !! "status_code")
    with (Some (SqlInt (cand_StatusCode candidate))) by reflexivity.
  replace (candidate_row candidate !! "success")
    with (Some (SqlInt (bool_int (cand_Success candidate)))) by reflexivity.
  replace (candidate_row candidate !! "duration_ms")
    with (Some (SqlInt (cand_DurationMs candidate))) by reflexivity.
  replace (candidate_row candidate !! "error_message")
    with (Some (SqlText (cand_ErrorMessage candidate))) by reflexivity.
  replace (candidate_row candidate !! "candidate_index")
    with (Some (SqlInt (cand_CandidateIndex candidate))) by reflexivity.
  replace (candidate_row candidate !! "retry_index")
    with (Some (SqlInt (cand_RetryIndex candidate))) by reflexivity.
  cbn [mbind option_bind]. by destruct (cand_Success candidate).
Qed.

Lemma scan_candidate_fields (id : Z) (row : Row) (c : RequestCandidate) :
  scan_candidate (id, row) = Some c →
  cand_ID c = id
  ∧ row !! "request_id" = Some (SqlText (cand_RequestID c))
  ∧ row_key (id, row) = candidate_key c.
Proof.
  unfold scan_candidate, row_key, candidate_key. cbn [fst snd]. intros Hscan.
  destruct (col_text row "request_id") as [rid|] eqn:Hrid; [|done].
  cbn [mbind option_bind] in Hscan.
  repeat (match type of Hscan with
          | (?m ≫= _) = Some _ =>
              let E := fresh "E" in
              destruct m eqn:E; cbn [mbind option_bind] in Hscan; [|done]
          end).
  injection Hscan as <-. cbn. split; [done|]. split; [|done].
  unfold col_text in Hrid. by destruct (row !! "request_id") as [[]|]; simplify_eq.
Qed.

Lemma omap_sorted {A B} (R : relation A) (R' : relation B) (f : A → option B) (l : list A) :
  (∀ a b x y, R a b → f a = Some x → f b = Some y → R' x y) →
  StronglySorted R l → StronglySorted R' (omap f l).
Proof.
  intros Hf. induction 1 as [|a l Hl IH Hall]; [constructor|].
  cbn [omap list_omap]. fold (omap f l). destruct (f a) as [x|] eqn:Ha; [|done].
  constructor; [done|]. apply Forall_forall. intros y Hy.
  apply list_elem_of_omap in Hy as (b & Hb & Hfb). rewrite Forall_forall in Hall.
  by apply (Hf a b x y); [apply Hall| |].
Qed.

Lemma omap_NoDup {A B C} `{EqDecision C} (f : A → option B) (ka : A → C) (kb : B → C)
    (l : list A) :
  (∀ a b, f a = Some b → kb b = ka a) →
  NoDup (ka <$> l) → NoDup (kb <$> omap f l).
Proof.
  intros Hk. induction l as [|a l IH]; [done|]. cbn [fmap list_fmap]. fold (ka <$> l).
  intros Hnd. apply NoDup_cons in Hnd as [Hnotin Hnd]. cbn [omap list_omap]. fold (omap f l).
  destruct (f a) as [b|] eqn:Ha; [|by apply IH].
  cbn [fmap list_fmap]. fold (kb <$> omap f l). apply NoDup_cons. split; [|by apply IH].
  intros Hin. apply Hnotin. apply list_elem_of_fmap in Hin as (b' & Hkb & Hb').
  apply list_elem_of_omap in Hb' as (a' & Ha' & Hfa').
  apply list_elem_of_fmap. exists a'. split; [|done].
  rewrite <- (Hk a b Ha), Hkb. by apply Hk.
Qed.

Section CandidatesRead.

Variable sql_order_candidates : list (Z * Row) → list (Z * Row).

Hypothesis order_permutes : ∀ rows, sql_order_candidates rows ≡ₚ rows.
Hypothesis order_sorts : ∀ rows, StronglySorted rows_in_order (sql_order_candidates rows).

Lemma GetRequestCandidates_spec (s : Store) (requestID : string) :
  closed s = false → db_failing s = false →
  ∃ l, GetRequestCandidates sql_order_candidates s requestID = Ok l
       ∧ (∀ c, c ∈ l ↔ cand_RequestID c = requestID
                        ∧ ∃ row, request_candidates s !! cand_ID c = Some row
                                 ∧ scan_candidate (cand_ID c, row) = Some c)
       ∧ StronglySorted (fun a b => key_le (candidate_key a) (candidate_key b)) l
       ∧ NoDup (cand_ID <$> l).
Proof.
  intros Hc Hf. unfold GetRequestCandidates. rewrite Hc, Hf.
  set (rows := List.filter (request_is requestID) (map_to_list (request_candidates s))).
  eexists. split; [reflexivity|]. split; [|split].
  - intros c. rewrite list_elem_of_omap. split.
    + intros ([id row] & Hin & Hscan). rewrite order_permutes in Hin.
      apply list_elem_of_In, filter_In in Hin as [Hin Hreq].
      apply list_elem_of_In, elem_of_map_to_list in Hin.
      destruct (scan_candidate_fields id row c Hscan) as (Hid & Hrid & _).
      unfold request_is in Hreq. cbn [snd] in Hreq. rewrite Hrid in Hreq.
      apply String.eqb_eq in Hreq. rewrite Hid. split; [done|]. by exists row.
    + intros (Hreq & row & Hrow & Hscan). exists (cand_ID c, row). split; [|done].
      rewrite order_permutes. apply list_elem_of_In, filter_In. split.
      * by apply list_elem_of_In, elem_of_map_to_list.
      * destruct (scan_candidate_fields _ row c Hscan) as (_ & Hrid & _).
        unfold request_is. cbn [snd]. rewrite Hrid. by apply String.eqb_eq.
  - apply (omap_sorted rows_in_order); [|apply order_sorts].
    intros [ia ra] [ib rb] x y Hab Hx Hy. unfold rows_in_order in Hab.
    destruct (scan_candidate_fields _ _ _ Hx) as (_ & _ & <-).
    destruct (scan_candidate_fields _ _ _ Hy) as (_ & _ & <-). exact Hab.
  - apply (omap_NoDup scan_candidate fst cand_ID).
    + intros [id row] c Hscan. by destruct (scan_candidate_fields _ _ _ Hscan) as (-> & _).
    + rewrite order_permutes. unfold rows.
      apply (sublist_NoDup _ ((map_to_list (request_candidates s)).*1));
        [apply NoDup_fst_map_to_list|].
      apply fmap_sublist. clear. induction (map_to_list (request_candidates s)) as [|r l IH].
      * constructor.
      * cbn. destruct (request_is requestID r); by constructor.
Qed.

(** GetRequestCandidates returns the candidates of the request asked
    for, all of them and no other, each once, by candidate index and then by
    retry index (the engine being taken to sort as its ORDER BY says); and a
    candidate just inserted is among those of its request, with the id the
    insert gave it. *)
Theorem GetRequestCandidates_of_request (s : Store) (requestID : string) :
  closed s = false → db_failing s = false →
  ∃ l, GetRequestCandidates sql_order_candidates s requestID = Ok l
       ∧ (∀ c, c ∈ l ↔ cand_RequestID c = requestID
                        ∧ ∃ row, request_candidates s !! cand_ID c = Some row
                                 ∧ scan_candidate (cand_ID c, row) = Some c)
       ∧ StronglySorted (fun a b => key_le (candidate_key a) (candidate_key b)) l
       ∧ NoDup (cand_ID <$> l)
       ∧ ∀ candidate,
           cand_RequestID candidate = requestID →
           ∃ id l',
             snd (InsertRequestCandidate s candidate) = Ok id
             ∧ GetRequestCandidates sql_order_candidates
                 (fst (InsertRequestCandidate s candidate)) requestID = Ok l'
             ∧ candidate_stored_as candidate id ∈ l'.
Proof.
  intros Hc Hf. destruct (GetRequestCandidates_spec s requestID Hc Hf) as (l & Hl & Hin & Hs & Hn).
  exists l. split; [done|]. split; [done|]. split; [done|]. split; [done|].
  intros candidate Hreq. unfold InsertRequestCandidate. rewrite Hc, Hf. cbn [fst snd].
  set (id := last_candidate_id s + 1).
  set (s' := with_request_candidates s _ id).
  destruct (GetRequestCandidates_spec s' requestID) as (l' & Hl' & Hin' & _); [done|done|].
  exists id, l'. split; [done|]. split; [done|]. apply Hin'. split; [done|].
  exists (candidate_row candidate). split.
  - cbn [cand_ID candidate_stored_as]. unfold s'.
    cbn [request_candidates with_request_candidates]. apply lookup_insert_eq.
  - apply scan_candidate_row.
Qed.

End CandidatesRead.

Instance key_le_trans : Transitive key_le.
Proof. intros a b c. unfold key_le. lia. Qed.

Instance key_le_total : base.Total key_le.
Proof. intros a b. unfold key_le. lia. Qed.

Instance rows_in_order_trans : Transitive rows_in_order.
Proof. intros a b c. unfold rows_in_order. apply key_le_trans. Qed.

Instance rows_in_order_total : base.Total rows_in_order.
Proof. intros a b. unfold rows_in_order. apply key_le_total. Qed.

Lemma merge_order_permutes (rows : list (Z * Row)) : merge_order rows ≡ₚ rows.
Proof. apply merge_sort_Permutation. Qed.

Lemma merge_order_sorts (rows : list (Z * Row)) : StronglySorted rows_in_order (merge_order rows).
Proof. apply StronglySorted_merge_sort; apply _. Qed.

Lemma GetRequestCandidates_of_request_witness :
  (closed empty_store = false ∧ db_failing empty_store = false)
  ∧ ∃ l, GetRequestCandidates merge_order
           (fst (InsertRequestCandidate empty_store demo_stored_candidate)) "r1" = Ok l
         ∧ candidate_stored_as demo_stored_candidate 1 ∈ l.
Proof.
  split; [split; reflexivity|].
  destruct (GetRequestCandidates_of_request merge_order merge_order_permutes merge_order_sorts
              empty_store "r1" eq_refl eq_refl) as (_ & _ & _ & _ & _ & Hins).
  destruct (Hins demo_stored_candidate eq_refl) as (id & l' & Hid & Hget & Hin).
  cbn in Hid. injection Hid as <-. by exists l'.
Defined.

(** ** The retention cleaner *)

Section RetentionFacts.

Variable sql_order_timestamp : list (Z * Row) → list (Z * Row).
Hypothesis order_permutes : ∀ rows, sql_order_timestamp rows ≡ₚ rows.

Lemma batch_closed_or_failing (s : Store) (cutoff : string) (batchSize : Z) :
  closed s = true ∨ db_failing s = true →
  ∃ msg, deleteOlderThanCutoffBatch sql_order_timestamp s cutoff batchSize = (s, Err msg).
Proof.
  unfold deleteOlderThanCutoffBatch. intros [->| ->]; [by eauto|].
  destruct (closed s); by eauto.
Qed.

(** One batch on an open store with a working engine. *)
Lemma batch_step (s : Store) (cutoff : string) (batchSize : Z) :
  closed s = false → db_failing s = false →
  ∃ s' n,
    deleteOlderThanCutoffBatch sql_order_timestamp s cutoff batchSize = (s', Ok n)
    ∧ closed s' = false ∧ db_failing s' = false
    ∧ request_candidates s' = request_candidates s
    ∧ usage_records s' ⊆ usage_records s
    ∧ (∀ id row, usage_records s !! id = Some row → older_than cutoff row = false →
                 usage_records s' !! id = Some row)
    ∧ 0 <= n
    ∧ (n = 0 → rows_below cutoff s = ∅ ∧ s' = s)
    ∧ (n ≠ 0 → (size (rows_below cutoff s') < size (rows_below cutoff s))%nat).
Proof.
  intros Hc Hf. unfold deleteOlderThanCutoffBatch. rewrite Hc, Hf. cbv zeta.
  set (b := Z.to_nat (if batchSize <=? 0 then defaultRetentionBatchSize else batchSize)).
  assert (0 < b)%nat as Hb.
  { unfold b, defaultRetentionBatchSize. destruct (Z.leb_spec batchSize 0); lia. }
  set (older := List.filter (fun r => older_than cutoff r.2) (map_to_list (usage_records s))).
  set (chosen := take b (sql_order_timestamp older)).
  set (kept := filter (fun kv => kv.1 ∉ chosen.*1) (usage_records s)).
  assert (∀ r, r ∈ chosen → usage_records s !! r.1 = Some r.2 ∧ older_than cutoff r.2 = true)
    as Hchosen.
  { intros [id row] Hr. unfold chosen in Hr.
    assert ((id, row) ∈ older) as Hin.
    { apply list_elem_of_lookup_1 in Hr as [i Hi]. apply lookup_take_Some in Hi as [Hi _].
      rewrite <- (order_permutes older). by eapply list_elem_of_lookup_2. }
    apply list_elem_of_In, filter_In in Hin as [Hin Hold].
    apply list_elem_of_In, elem_of_map_to_list in Hin. done. }
  assert (kept ⊆ usage_records s) as Hsub by apply map_filter_subseteq.
  eexists _, _. split; [reflexivity|].
  cbn [closed db_failing request_candidates usage_records with_usage_records].
  split; [done|]. split; [done|]. split; [done|]. split; [done|].
  split.
  { intros id row Hrow Hnew. apply map_lookup_filter_Some. split; [done|]. cbn.
    intros Hin. apply list_elem_of_fmap in Hin as ([id' row'] & Heq & Hin). cbn in Heq. subst id'.
    destruct (Hchosen _ Hin) as [Hrow' Hold]. cbn in *. congruence. }
  pose proof (map_subseteq_size _ _ Hsub) as Hsize.
  split; [lia|]. split.
  - intros Hzero.
    assert (kept = usage_records s) as Hkept.
    { apply map_subseteq_size_eq; [done|lia]. }
    assert (chosen = []) as Hnil.
    { destruct chosen as [|[id row] rest] eqn:Ech; [done|].
      destruct (Hchosen (id, row)) as [Hrow _]; [apply elem_of_cons; by left|].
      cbn in Hrow. rewrite <- Hkept in Hrow. apply map_lookup_filter_Some in Hrow as [_ Hnot].
      cbn in Hnot. exfalso. apply Hnot. apply elem_of_cons. by left. }
    assert (older = []) as Holder.
    { unfold chosen in Hnil. apply (f_equal List.length) in Hnil.
      rewrite length_take, (Permutation_length (order_permutes older)) in Hnil.
      cbn in Hnil. destruct older; [done|cbn in Hnil; lia]. }
    split.
    + unfold rows_below. apply map_empty. intros id.
      apply map_lookup_filter_None. right. intros row Hrow Hold. cbn in Hold.
      assert ((id, row) ∈ older) as Hin.
      { apply list_elem_of_In, filter_In. split; [|done].
        by apply list_elem_of_In, elem_of_map_to_list. }
      rewrite Holder in Hin. by apply elem_of_nil in Hin.
    + rewrite Hkept. destruct s; cbn in *. done.
  - intros Hne. unfold rows_below. cbn [usage_records with_usage_records].
    assert (kept ≠ usage_records s) as Hkept by (intros E; rewrite E in Hne; lia).
    assert (∃ id row, (id, row) ∈ chosen) as (id & row & Hin).
    { destruct chosen as [|[id row] rest] eqn:Ech.
      - exfalso. apply Hkept. unfold kept. apply map_filter_id. intros i x _. cbn.
        by apply not_elem_of_nil.
      - exists id, row. apply elem_of_cons. by left. }
    destruct (Hchosen _ Hin) as [Hrow Hold]. cbn in Hrow, Hold.
    apply map_subset_size. split.
    + by apply map_filter_subseteq_mono.
    + intros Hrev. rewrite map_subseteq_spec in Hrev.
      assert (filter (fun kv => older_than cutoff kv.2 = true) kept !! id = Some row) as Hk.
      { apply Hrev. by apply map_lookup_filter_Some. }
      apply map_lookup_filter_Some in Hk as [Hk _]. unfold kept in Hk.
      apply map_lookup_filter_Some in Hk as [_ Hnot]. cbn in Hnot. apply Hnot.
      apply list_elem_of_fmap. by exists (id, row).
Qed.

Lemma loop_only_removes_old (fuel turn : nat) (alive stopped : nat → bool) (s : Store)
    (cutoff : string) (batchSize total : Z) :
  let s' := fst (retention_loop sql_order_timestamp fuel turn alive stopped s cutoff
                                batchSize total) in
  usage_records s' ⊆ usage_records s
  ∧ (∀ id row, usage_records s !! id = Some row → older_than cutoff row = false →
               usage_records s' !! id = Some row)
  ∧ request_candidates s' = request_candidates s.
Proof.
  revert turn s total. induction fuel as [|fuel IH]; intros turn s total; [done|].
  cbn [retention_loop]. destruct (alive turn); cbn [negb]; [|done].
  destruct (closed s) eqn:Hc.
  { destruct (batch_closed_or_failing s cutoff batchSize) as (msg & ->); [by left|]. done. }
  destruct (db_failing s) eqn:Hf.
  { destruct (batch_closed_or_failing s cutoff batchSize) as (msg & ->); [by right|]. done. }
  destruct (batch_step s cutoff batchSize Hc Hf)
    as (s1 & n & -> & _ & _ & Hcand & Hsub & Hnew & _ & _ & _).
  destruct (n =? 0); [done|]. destruct (stopped turn); [done|].
  specialize (IH (S turn) s1 (Int64.add total n)). cbv zeta in IH.
  destruct IH as (Hsub' & Hnew' & Hcand').
  split; [by etrans|]. split; [|congruence].
  intros id row Hrow Hold. apply Hnew'; [|done]. by apply Hnew.
Qed.

Lemma loop_finishes (fuel turn : nat) (alive stopped : nat → bool) (s : Store)
    (cutoff : string) (batchSize total : Z) :
  closed s = false → db_failing s = false →
  (∀ k, alive k = true) → (∀ k, stopped k = false) →
  (size (rows_below cutoff s) < fuel)%nat →
  rows_below cutoff
    (fst (retention_loop sql_order_timestamp fuel turn alive stopped s cutoff batchSize total))
  = ∅.
Proof.
  intros Hc Hf Halive Hstop. revert turn s total Hc Hf.
  induction fuel as [|fuel IH]; intros turn s total Hc Hf Hsize; [lia|].
  cbn [retention_loop]. rewrite Halive, Hstop. cbn [negb].
  destruct (batch_step s cutoff batchSize Hc Hf)
    as (s1 & n & -> & Hc1 & Hf1 & _ & _ & _ & _ & Hzero & Hless).
  destruct (Z.eqb_spec n 0) as [Hn|Hn].
  - destruct (Hzero Hn) as [Hempty ->]. done.
  - apply IH; [done|done|]. specialize (Hless Hn). lia.
Qed.

Lemma loop_fuel (fuel1 fuel2 turn : nat) (alive stopped : nat → bool) (s : Store)
    (cutoff : string) (batchSize total : Z) :
  (size (rows_below cutoff s) < fuel1)%nat → (size (rows_below cutoff s) < fuel2)%nat →
  retention_loop sql_order_timestamp fuel1 turn alive stopped s cutoff batchSize total
  = retention_loop sql_order_timestamp fuel2 turn alive stopped s cutoff batchSize total.
Proof.
  revert fuel2 turn s total. induction fuel1 as [|fuel1 IH]; intros fuel2 turn s total H1 H2;
    [lia|].
  destruct fuel2 as [|fuel2]; [lia|]. cbn [retention_loop].
  destruct (alive turn); cbn [negb]; [|done].
  destruct (closed s) eqn:Hc.
  { destruct (batch_closed_or_failing s cutoff batchSize) as (msg & ->); [by left|]. done. }
  destruct (db_failing s) eqn:Hf.
  { destruct (batch_closed_or_failing s cutoff batchSize) as (msg & ->); [by right|]. done. }
  destruct (batch_step s cutoff batchSize Hc Hf)
    as (s1 & n & -> & _ & _ & _ & _ & _ & _ & _ & Hless).
  destruct (Z.eqb_spec n 0) as [Hn|Hn]; [done|]. destruct (stopped turn); [done|].
  specialize (Hless Hn). apply IH; lia.
Qed.

(** A run of the cleaner removes old rows only, and all of them when it
    is let to finish.  With a retention of zero days or less it removes
    nothing.  Otherwise no row is added or changed, no row whose timestamp is
    not below the cutoff is removed, and the candidates are not touched,
    however the run ends; and on an open store with a working engine, when
    the run is neither stopped nor out of time, no row below the cutoff is
    left.  The loop ends by itself: beyond one turn for each row below the
    cutoff, and one more, further turns change nothing. *)
Theorem runOnce_removes_only_the_old (fuel : nat) (s : Store) (retentionDays : Z)
    (now : time.Time) (alive stopped : nat → bool) :
  let cutoff := retention_cutoff retentionDays now in
  (size (rows_below cutoff s) < fuel)%nat →
  ∃ s', runOnce sql_order_timestamp fuel (Some s) retentionDays now alive stopped = Some s'
        ∧ (retentionDays <= 0 → s' = s)
        ∧ usage_records s' ⊆ usage_records s
        ∧ (∀ id row, usage_records s !! id = Some row → older_than cutoff row = false →
                     usage_records s' !! id = Some row)
        ∧ request_candidates s' = request_candidates s
        ∧ (0 < retentionDays → closed s = false → db_failing s = false →
           (∀ k, alive k = true) → (∀ k, stopped k = false) →
           rows_below cutoff s' = ∅)
        ∧ ∀ more, (fuel <= more)%nat →
            runOnce sql_order_timestamp more (Some s) retentionDays now alive stopped = Some s'.
Proof.
  intros cutoff Hfuel. unfold runOnce. fold cutoff.
  destruct (Z.leb_spec retentionDays 0) as [Hd|Hd].
  - exists s. split; [done|]. split; [done|]. split; [done|]. split; [done|].
    split; [done|]. split; [lia|done].
  - eexists. split; [reflexivity|]. split; [lia|].
    pose proof (loop_only_removes_old fuel 0 alive stopped s cutoff defaultRetentionBatchSize 0)
      as (Hsub & Hnew & Hcand).
    split; [done|]. split; [done|]. split; [done|]. split.
    + intros _ Hc Hf Halive Hstop. by apply loop_finishes.
    + intros more Hmore. f_equal. f_equal. apply loop_fuel; lia.
Qed.

End RetentionFacts.

Lemma demo_aged_rows :
  usage_records demo_aged_store !! 1 = Some (insert_row empty_marshal demo_plain)
  ∧ usage_records demo_aged_store !! 2 = Some (insert_row empty_marshal demo_recent).
Proof.
  unfold demo_aged_store, Insert, empty_store.
  cbn [closed db_failing fst last_usage_id usage_records with_usage_records].
  change (0 + 1 + 1) with 2. change (0 + 1) with 1. split.
  - rewrite lookup_insert_ne by done. apply lookup_insert_eq.
  - apply lookup_insert_eq.
Qed.

Lemma demo_aged_old :
  older_than (retention_cutoff 30 demo_later) (insert_row empty_marshal demo_plain) = true
  ∧ older_than (retention_cutoff 30 demo_later) (insert_row empty_marshal demo_recent) = false.
Proof. split; vm_compute; reflexivity. Qed.

Lemma runOnce_removes_only_the_old_witness :
  (size (rows_below (retention_cutoff 30 demo_later) demo_aged_store) < 2)%nat
  ∧ is_Some (usage_records demo_aged_store !! 1)
  ∧ ∃ s', runOnce merge_order 2 (Some demo_aged_store) 30 demo_later
            (fun _ => true) (fun _ => false) = Some s'
          ∧ usage_records s' !! 1 = None
          ∧ usage_records s' !! 2 = Some (insert_row empty_marshal demo_recent).
Proof.
  assert (size (rows_below (retention_cutoff 30 demo_later) demo_aged_store) < 2)%nat as Hsize
    by (vm_compute; lia).
  destruct demo_aged_rows as [Hrow1 Hrow2]. destruct demo_aged_old as [Hold Hnew].
  split; [exact Hsize|]. split; [by rewrite Hrow1|].
  destruct (runOnce_removes_only_the_old merge_order merge_order_permutes 2 demo_aged_store 30
              demo_later (fun _ => true) (fun _ => false) Hsize)
    as (s' & Hrun & _ & Hsub & Hkeep & _ & Hdone & _).
  exists s'. split; [exact Hrun|]. split.
  - specialize (Hdone ltac:(lia) eq_refl eq_refl (fun _ => eq_refl) (fun _ => eq_refl)).
    destruct (usage_records s' !! 1) as [row|] eqn:Hrow; [|reflexivity].
    assert (row = insert_row empty_marshal demo_plain) as ->.
    { pose proof (lookup_weaken _ _ _ _ Hrow Hsub) as Hin. rewrite Hrow1 in Hin.
      by injection Hin. }
    assert (rows_below (retention_cutoff 30 demo_later) s' !! 1
            = Some (insert_row empty_marshal demo_plain)) as Hbelow.
    { apply map_lookup_filter_Some. split; [exact Hrow|exact Hold]. }
    rewrite Hdone in Hbelow. by rewrite lookup_empty in Hbelow.
  - exact (Hkeep 2 _ Hrow2 Hnew).
Defined.

(** ** The middleware, entry to exit *)

Section EntryExit.

Variable json_Marshal : gmap string string → string.
Variable Sprint_other : any → string.
Variable MaskSensitiveQuery : string → string.
Variable gjson_model : string → string.

Lemma tracked_true (default_store : option Store) (c : GinContext) :
  tracked default_store c = true →
  ∃ store req, default_store = Some store ∧ gin_Request c = Some req
               ∧ nonempty (gin_RequestID c) = true
               ∧ (String.eqb (req_Method req) "GET" || String.eqb (req_Method req) "OPTIONS")
                 = false.
Proof.
  unfold tracked. destruct default_store as [store|]; [|done].
  destruct (gin_Request c) as [req|]; [|done]. intros H.
  apply andb_prop in H as [H1 H2]. apply negb_true_iff in H2. by exists store, req.
Qed.

Lemma middleware_exit_row (st : Store) (c : GinContext) (req : Request) (recID : Z)
    (start : time.Time) (requestURL : string) (requestHeaders : gmap string string)
    (requestBody : string) (recovered : option any) (finish : time.Time) :
  closed st = false → db_failing st = false → 0 < recID →
  gin_Request c = Some req → is_Some (usage_records st !! recID) →
  let final := middleware_exit json_Marshal Sprint_other st c recID start requestURL
                 requestHeaders requestBody recovered finish in
  dom (usage_records final) = dom (usage_records st)
  ∧ cell final recID "status_code"
    = Some (SqlInt (match recovered with
                    | Some _ => 500
                    | None => w_Status (gin_Writer c)
                    end))
  ∧ cell final recID "request_id" = cell st recID "request_id"
  ∧ cell final recID "timestamp" = cell st recID "timestamp"
  ∧ cell final recID "model" = cell st recID "model".
Proof.
  intros Hc Hf Hid Hreq Hrow final. subst final. unfold middleware_exit.
  rewrite (proj2 (Z.ltb_lt 0 recID)) by done. unfold patchUsageRecordFinal.
  rewrite (proj2 (Z.leb_gt recID 0)) by done.
  set (c' := match recovered with
             | Some v => gin_Set c ginUsageRecordPanicKey (VString (fmt_Sprint Sprint_other v))
             | None => c
             end).
  assert (gin_Request c' = Some req ∧ gin_Writer c' = gin_Writer c) as [Hreq' Hw].
  { unfold c'. by destruct recovered. }
  rewrite Hreq'.
  split; [apply PatchByID_same_ids|].
  split.
  - erewrite PatchByID_cell; [|done..|reflexivity]. rewrite Hw.
    destruct recovered; by rewrite ?bool_decide_eq_true_2, ?bool_decide_eq_false_2
      by (by intros [? ?] || eauto).
  - split; [|split]; apply PatchByID_cell_kept; by right.
Qed.

(** The middleware is transparent to a request it does not track, and
    adds exactly one row for one it tracks.  An untracked request (no default
    store, no request, no request id, or the method GET or OPTIONS) goes to
    the rest of the chain as it is.  For a tracked request on an open store
    with a working engine, the chain is run on a store with one new row,
    under a fresh id that the context carries, along with the start time; if
    the chain leaves the store open and working, the request in place and the
    rows where they are, then after the request the store has exactly that
    one row more, holding the final status code (500 after a panic) and the
    request id, timestamp and model it had.  A panic of the chain is passed
    on. *)
Theorem middleware_tracks_one_row (default_store : option Store) (c : GinContext) (w : Wire)
    (start finish : time.Time) (next : Handler) :
  let result :=
    GinUsageRecordMiddleware json_Marshal Sprint_other MaskSensitiveQuery gjson_model
                             default_store c w start finish next in
  (tracked default_store c = false → result = next default_store c)
  ∧ ∀ store,
      default_store = Some store → tracked default_store c = true →
      closed store = false → db_failing store = false →
      ids_bounded store → 0 <= last_usage_id store →
      let id := last_usage_id store + 1 in
      ∃ store1 c1,
        dom (usage_records store1) = {[id]} ∪ dom (usage_records store)
        ∧ (id ∉ dom (usage_records store))
        ∧ cell store1 id "provider" = Some (SqlText "pending")
        ∧ cell store1 id "request_id" = Some (SqlText (gin_RequestID c))
        ∧ gin_Get c1 ginUsageRecordIDKey = Some (VInt64 id)
        ∧ gin_Get c1 ginUsageRecordStartKey = Some (VTime start)
        ∧ snd result = snd (next (Some store1) c1)
        ∧ ∀ after c2 req,
            fst (next (Some store1) c1) = (Some after, c2) →
            closed after = false → db_failing after = false →
            gin_Request c2 = Some req →
            dom (usage_records after) = dom (usage_records store1) →
            ∃ final,
              fst (fst result) = Some final
              ∧ dom (usage_records final) = {[id]} ∪ dom (usage_records store)
              ∧ cell final id "status_code"
                = Some (SqlInt (match snd result with
                                | Some _ => 500
                                | None => w_Status (gin_Writer c2)
                                end))
              ∧ cell final id "request_id" = cell after id "request_id"
              ∧ cell final id "timestamp" = cell after id "timestamp"
              ∧ cell final id "model" = cell after id "model".
Proof.
  intros result. split.
  - subst result. unfold tracked, GinUsageRecordMiddleware.
    destruct default_store as [store|]; [|done]. destruct (gin_Request c) as [req|]; [|done].
    destruct (nonempty (gin_RequestID c)); cbn [negb andb]; [|done].
    by destruct (_ || _).
  - intros store Hstore Htracked Hc Hf Hids Hlast id.
    destruct (tracked_true _ _ Htracked) as (store' & req & Hs' & Hreq & Hrid & Hmethod).
    rewrite Hstore in Hs'. injection Hs' as <-.
    subst result. unfold GinUsageRecordMiddleware. rewrite Hstore, Hreq, Hrid, Hmethod.
    cbn [negb]. cbv zeta.
    set (c0 := gin_Set c ginUsageRecordStartKey (VTime start)).
    set (rec := pending_record _ _ _ _ _ _ _ _).
    assert (usage_records store !! id = None) as Hfresh.
    { destruct (usage_records store !! id) eqn:E; [|done].
      specialize (Hids id ltac:(by rewrite E)). unfold id in Hids. lia. }
    unfold Insert. rewrite Hc, Hf. fold id.
    set (store1 := with_usage_records store _ id).
    set (c1 := gin_Set c0 ginUsageRecordIDKey (VInt64 id)).
    exists store1, c1.
    assert (dom (usage_records store1) = {[id]} ∪ dom (usage_records store)) as Hdom.
    { unfold store1. cbn [usage_records with_usage_records]. by rewrite dom_insert_L. }
    split; [done|]. split; [by apply not_elem_of_dom|].
    split; [unfold cell, store1; cbn [usage_records with_usage_records];
            by rewrite lookup_insert_eq|].
    split; [unfold cell, store1; cbn [usage_records with_usage_records];
            by rewrite lookup_insert_eq|].
    split; [unfold c1, gin_Get, gin_Set; cbn [gin_Keys]; by rewrite lookup_insert_eq|].
    split; [unfold c1, c0, gin_Get, gin_Set; cbn [gin_Keys];
            by rewrite lookup_insert_ne, lookup_insert_eq|].
    destruct (next (Some store1) c1) as [[after c2] recovered] eqn:Hnext.
    cbn [fst snd]. split; [done|].
    intros after' c2' req' [= -> ->] Hca Hfa Hreq' Hdoma. cbn [fmap option_fmap option_map].
    eexists. split; [reflexivity|].
    assert (0 < id) as Hid by (unfold id; lia).
    assert (is_Some (usage_records after' !! id)) as Hrowa.
    { apply elem_of_dom. rewrite Hdoma, Hdom. by apply elem_of_union_l, elem_of_singleton. }
    destruct (middleware_exit_row after' c2' req' id start (recorded_url MaskSensitiveQuery w)
                (captureHeadersBestEffort (req_Header req))
                (captureRequestBodyBestEffort c0 w) recovered finish Hca Hfa Hid Hreq' Hrowa)
      as (Hd & Hst & Hri & Hts & Hm).
    split; [by rewrite Hd, Hdoma|]. done.
Qed.

End EntryExit.

(** ** The management handlers *)

Lemma DeleteOlderThan_error (s : Store) (now : time.Time) (age : Z) (s' : Store) (msg : string) :
  DeleteOlderThan s now age = (s', Err msg) → s' = s.
Proof.
  unfold DeleteOlderThan. destruct (closed s); [by intros [= <-]|].
  destruct (db_failing s); [by intros [= <-]|]. done.
Qed.

Lemma days_without_overflow (days : Z) :
  1 <= days <= 106751 →
  Int64.mul (Int64.mul days 24) time.Hour = days * 24 * time.Hour.
Proof.
  intros Hd. unfold Int64.mul, Int64.wrap, time.Hour, time.Minute, time.Second.
  rewrite (Z.mod_small (days * 24 + 2 ^ 63)) by lia.
  replace (days * 24 + 2 ^ 63 - 2 ^ 63) with (days * 24) by lia.
  rewrite Z.mod_small by lia. lia.
Qed.


(** ** The values of Atoi *)
Lemma is_digit_range (c : ascii) :
  Strs.is_digit c = true → 0 <= Strs.digit_val c <= 9.
Proof.
  unfold Strs.is_digit, Strs.digit_val. cbv zeta. intros H.
  apply andb_prop in H as [H1 H2]. apply Nat.leb_le in H1, H2. lia.
Qed.

Lemma digits_val_grows (s : string) (n v : Z) :
  0 <= n → Strs.digits_val n s = Some v → n <= v.
Proof.
  revert n. induction s as [|c rest IH]; intros n Hn Hv.
  - cbn in Hv. injection Hv as <-. lia.
  - cbn [Strs.digits_val] in Hv. destruct (Strs.is_digit c) eqn:Hc; [|done].
    pose proof (is_digit_range c Hc) as Hd.
    specialize (IH (10 * n + Strs.digit_val c) ltac:(lia) Hv). lia.
Qed.

(** ParseUint on a run of digits: its value when that fits 64 bits, and
    a range error when it does not. *)
Lemma ParseUint_from_digits (s : string) (n v : Z) :
  0 <= n <= maxUint64 → Strs.digits_val n s = Some v →
  (v <= maxUint64 → ParseUint_from n s = UintValue v)
  ∧ (maxUint64 < v → ParseUint_from n s = UintRange).
Proof.
  revert n. induction s as [|c rest IH]; intros n Hn Hv.
  - cbn in Hv. injection Hv as <-. cbn. split; [done|]. intros Hbig. exfalso. lia.
  - cbn [Strs.digits_val] in Hv. destruct (Strs.is_digit c) eqn:Hc; [|done].
    pose proof (is_digit_range c Hc) as Hd.
    pose proof (digits_val_grows rest (10 * n + Strs.digit_val c) v ltac:(lia) Hv) as Hle.
    cbn [ParseUint_from]. rewrite Hc. cbn [negb].
    replace (n * 10 + Strs.digit_val c) with (10 * n + Strs.digit_val c) by lia.
    unfold maxUint64 in *.
    change (2 ^ 64 - 1) with 18446744073709551615 in *.
    change (18446744073709551615 / 10 + 1) with 1844674407370955162.
    destruct (Z.leb_spec 1844674407370955162 n); [split; [lia|done]|].
    destruct (Z.ltb_spec 18446744073709551615 (10 * n + Strs.digit_val c));
      [split; [lia|done]|].
    apply IH; [lia|done].
Qed.

(** The value of Atoi: the number it returns without an error; the end
    of int64 for digits that pass it; zero for the empty string and for a
    first byte that is neither a sign nor a digit; always within int64. *)
Lemma Atoi_value_spec :
  (∀ s z, Atoi s = Some z → Atoi_value s = z)
  ∧ (∀ digits v, Strs.digits_val 0 digits = Some v → Int64.max_int < v →
       Strs.is_digit (default "0"%char (head (list_ascii_of_string digits))) = true →
       Atoi digits = None ∧ Atoi_value digits = Int64.max_int)
  ∧ (∀ digits v, Strs.digits_val 0 digits = Some v → - Int64.min_int < v →
       Atoi (String "-" digits) = None ∧ Atoi_value (String "-" digits) = Int64.min_int)
  ∧ Atoi_value "" = 0
  ∧ (∀ c rest, Strs.is_digit c = false → c ≠ "+"%char → c ≠ "-"%char →
       Atoi (String c rest) = None ∧ Atoi_value (String c rest) = 0).
Proof.
  split; [|split; [|split; [|split]]].
  - intros s z. unfold Atoi, Strs.ParseInt, Atoi_value.
    set (split := match s with
                  | String "-" rest => (true, rest)
                  | String "+" rest => (false, rest)
                  | _ => (false, s)
                  end).
    destruct split as [neg body].
    destruct body as [|c rest] eqn:Hbody; [done|]. rewrite <- Hbody.
    destruct (Strs.digits_val 0 body) as [v|] eqn:Hv; [|done].
    destruct (ParseUint_from_digits body 0 v ltac:(unfold maxUint64; lia) Hv) as (Hfit & _).
    unfold Int64.min_int, Int64.max_int.
    destruct ((- 2 ^ 63 <=? (if neg then - v else v)) && ((if neg then - v else v) <=? 2 ^ 63 - 1))
      eqn:Hrange; [|done].
    intros [= <-]. apply andb_prop in Hrange as [H1 H2]. apply Z.leb_le in H1, H2.
    unfold ParseUint. rewrite Hbody, <- Hbody.
    rewrite Hfit by (unfold maxUint64; destruct neg; lia).
    destruct neg; cbn [negb andb].
    + by destruct (Z.ltb_spec (2 ^ 63) v); [lia|].
    + by destruct (Z.leb_spec (2 ^ 63) v); [lia|].
  - intros digits v Hv Hbig Hfirst.
    destruct digits as [|c rest];
      [cbn in Hv; injection Hv as <-; unfold Int64.max_int in Hbig; lia|].
    cbn [list_ascii_of_string head default from_option] in Hfirst. unfold id in Hfirst.
    assert (c ≠ "-"%char ∧ c ≠ "+"%char) as [Hm Hp] by (split; intros ->; discriminate).
    assert (match String c rest with
            | String "-" rest0 => (true, rest0)
            | String "+" rest0 => (false, rest0)
            | _ => (false, String c rest)
            end = (false, String c rest)) as Hsplit.
    { destruct c as [[] [] [] [] [] [] [] []]; try reflexivity; congruence. }
    unfold Atoi, Strs.ParseInt, Atoi_value. rewrite Hsplit, Hv.
    unfold Int64.min_int, Int64.max_int in *.
    destruct (ParseUint_from_digits _ 0 v ltac:(unfold maxUint64; lia) Hv) as (Hfit & Hover).
    split.
    + destruct (Z.leb_spec v (2 ^ 63 - 1)); [lia|]. by rewrite andb_false_r.
    + unfold ParseUint. destruct (Z.le_gt_cases v maxUint64) as [Hin|Hout].
      * rewrite (Hfit Hin). cbn [negb andb]. by destruct (Z.leb_spec (2 ^ 63) v); [|lia].
      * by rewrite (Hover Hout).
  - intros digits v Hv Hbig.
    unfold Atoi, Strs.ParseInt, Atoi_value.
    unfold Int64.min_int, Int64.max_int in *.
    destruct (ParseUint_from_digits _ 0 v ltac:(unfold maxUint64; lia) Hv) as (Hfit & Hover).
    assert (ParseUint digits = ParseUint_from 0 digits ∧ digits ≠ "") as [Hparse Hne].
    { destruct digits; [cbn in Hv; injection Hv as <-; lia|done]. }
    rewrite Hparse, Hv. split.
    + destruct digits; [done|].
      destruct (Z.leb_spec (- 2 ^ 63) (- v)); [lia|]. done.
    + destruct (Z.le_gt_cases v maxUint64) as [Hin|Hout].
      * rewrite (Hfit Hin). cbn [negb andb]. by destruct (Z.ltb_spec (2 ^ 63) v); [|lia].
      * by rewrite (Hover Hout).
  - reflexivity.
  - intros c rest Hc Hp Hm.
    assert (match String c rest with
            | String "-" rest0 => (true, rest0)
            | String "+" rest0 => (false, rest0)
            | _ => (false, String c rest)
            end = (false, String c rest)) as Hsplit.
    { destruct c as [[] [] [] [] [] [] [] []]; try reflexivity; congruence. }
    unfold Atoi, Strs.ParseInt, Atoi_value. rewrite Hsplit.
    cbn [Strs.digits_val ParseUint ParseUint_from]. rewrite Hc. done.
Qed.

Lemma ParseUint_from_value (s : string) (n un : Z) :
  0 <= n → ParseUint_from n s = UintValue un → n <= un.
Proof.
  revert n. induction s as [|c rest IH]; intros n Hn Hrun.
  - cbn in Hrun. injection Hrun as <-. lia.
  - cbn [ParseUint_from] in Hrun. destruct (Strs.is_digit c) eqn:Hc; [|done].
    cbn [negb] in Hrun. pose proof (is_digit_range c Hc) as Hd.
    destruct (_ <=? n); [done|]. cbv zeta in Hrun. destruct (_ <? _); [done|].
    specialize (IH (n * 10 + Strs.digit_val c) ltac:(lia) Hrun). lia.
Qed.

Lemma Atoi_value_range (s : string) : Int64.min_int <= Atoi_value s <= Int64.max_int.
Proof.
  unfold Atoi_value.
  destruct (match s with
            | String "-" rest => (true, rest)
            | String "+" rest => (false, rest)
            | _ => (false, s)
            end) as [neg body].
  unfold Int64.min_int, Int64.max_int.
  destruct (ParseUint body) as [un| |] eqn:Hrun; [|lia|destruct neg; lia].
  assert (0 <= un) as Hun.
  { unfold ParseUint in Hrun. destruct body; [done|].
    by apply (ParseUint_from_value _ 0 un) in Hrun. }
  destruct neg; cbn [negb andb].
  - destruct (Z.ltb_spec (2 ^ 63) un); lia.
  - destruct (Z.leb_spec (2 ^ 63) un); lia.
Qed.

Lemma ParseUint_from_all_digits (s : string) (n un : Z) :
  ParseUint_from n s = UintValue un → Strs.digits_val n s = Some un.
Proof.
  revert n. induction s as [|c rest IH]; intros n Hrun.
  - cbn in *. by injection Hrun as <-.
  - cbn [ParseUint_from Strs.digits_val] in *. destruct (Strs.is_digit c); [|done].
    cbn [negb] in Hrun. destruct (_ <=? n); [done|]. cbv zeta in Hrun.
    destruct (_ <? _); [done|]. apply IH in Hrun.
    by replace (10 * n + Strs.digit_val c) with (n * 10 + Strs.digit_val c) by lia.
Qed.

(** On an error of Atoi its value is zero or an end of int64. *)
Lemma Atoi_value_on_error (s : string) :
  Atoi s = None →
  Atoi_value s = 0 ∨ Atoi_value s = Int64.max_int ∨ Atoi_value s = Int64.min_int.
Proof.
  unfold Atoi, Strs.ParseInt, Atoi_value.
  destruct (match s with
            | String "-" rest => (true, rest)
            | String "+" rest => (false, rest)
            | _ => (false, s)
            end) as [neg body].
  intros Herr.
  destruct (ParseUint body) as [un| |] eqn:Hrun; [|by left|destruct neg; tauto].
  unfold ParseUint in Hrun. destruct body as [|c rest] eqn:Hbody; [done|]. rewrite <- Hbody in *.
  pose proof (ParseUint_from_value _ 0 un ltac:(lia) Hrun) as Hun.
  apply ParseUint_from_all_digits in Hrun. rewrite Hrun in Herr.
  assert (match body with "" => None
          | String _ _ =>
              if (Int64.min_int <=? (if neg then - un else un))
                 && ((if neg then - un else un) <=? Int64.max_int)
              then Some (if neg then - un else un) else None
          end = None) as Herr' by (by rewrite Hbody in *).
  rewrite Hbody in Herr'.
  unfold Int64.min_int, Int64.max_int in *.
  destruct neg; cbn [negb andb].
  - destruct (Z.ltb_spec (2 ^ 63) un); [tauto|].
    destruct (Z.leb_spec (- 2 ^ 63) (- un)); [|lia].
    destruct (Z.leb_spec (- un) (2 ^ 63 - 1)); [done|lia].
  - destruct (Z.leb_spec (2 ^ 63) un); [tauto|].
    destruct (Z.leb_spec (- 2 ^ 63) un); [|lia].
    destruct (Z.leb_spec un (2 ^ 63 - 1)); [done|lia].
Qed.

Section HandlerFacts.

Variable sql_where : string → list SqlValue → Z * Row → bool.
Variable sql_order : string → string → list (Z * Row) → list (Z * Row).
Variable json_Unmarshal : string → option (gmap string string).
Variable loc : Z.

Lemma success_param (query : gmap string string) :
  q_Success (usage_records_query query)
  = match query !! "success" with
    | None => None
    | Some value =>
        if nonempty value then Some (bool_decide (value = "true" ∨ value = "1")) else None
    end.
Proof.
  cbn [q_Success usage_records_query]. unfold Query.
  destruct (query !! "success") as [value|]; cbn [default from_option]; [|reflexivity].
  unfold id. destruct (nonempty value); [|reflexivity]. f_equal.
  destruct (String.eqb_spec value "true"), (String.eqb_spec value "1"); cbn;
    by rewrite ?bool_decide_eq_true_2, ?bool_decide_eq_false_2 by tauto.
Qed.

(** GetUsageRecords answers 503 without a default store, 500 exactly
    when the store is closed or its engine fails, and 200 otherwise, whatever
    the query string.  The page and the page size are the values Atoi
    returns, its error dropped: the page is that value, or 1 for a value
    below 1, and the page size that value, 20 for a value below 1 and 100 for
    one above 100.  So an absent parameter counts as 1 and 20, and so does
    one that is not a number (Atoi returns zero); digits too many for int64
    count as the largest int64 and give that page and a page size of 100; on
    any error of Atoi the page is 1 or the largest int64 and the page size
    20 or 100.  The success filter is set exactly when the parameter is not
    empty, to true for the values true and 1 and to false for any other. *)
Theorem GetUsageRecords_reply (default_store : option Store) (query : gmap string string) :
  let reply := GetUsageRecords sql_where sql_order json_Unmarshal loc default_store query in
  let page := Atoi_value (DefaultQuery query "page" "1") in
  let size := Atoi_value (DefaultQuery query "page_size" "20") in
  (reply_status reply = 503 ↔ default_store = None)
  ∧ (∀ store, default_store = Some store →
       (reply_status reply = 500 ↔ closed store = true ∨ db_failing store = true)
       ∧ (reply_status reply = 200 ↔ closed store = false ∧ db_failing store = false))
  ∧ (∀ result, reply_body reply = Some result →
       reply_status reply = 200
       ∧ Page result = (if page <? 1 then 1 else page)
       ∧ PageSize result = (if size <? 1 then 20 else if 100 <? size then 100 else size)
       ∧ 1 <= Page result <= Int64.max_int ∧ 1 <= PageSize result <= 100
       ∧ (Atoi (DefaultQuery query "page" "1") = None →
          Page result = 1 ∨ Page result = Int64.max_int)
       ∧ (Atoi (DefaultQuery query "page_size" "20") = None →
          PageSize result = 20 ∨ PageSize result = 100))
  ∧ (query !! "page" = None → page = 1)
  ∧ (query !! "page_size" = None → size = 20)
  ∧ ((∀ s z, Atoi s = Some z → Atoi_value s = z)
     ∧ (∀ digits v, Strs.digits_val 0 digits = Some v → Int64.max_int < v →
          Strs.is_digit (default "0"%char (head (list_ascii_of_string digits))) = true →
          Atoi digits = None ∧ Atoi_value digits = Int64.max_int)
     ∧ (∀ digits v, Strs.digits_val 0 digits = Some v → - Int64.min_int < v →
          Atoi (String "-" digits) = None
          ∧ Atoi_value (String "-" digits) = Int64.min_int)
     ∧ Atoi_value "" = 0
     ∧ (∀ c rest, Strs.is_digit c = false → c ≠ "+"%char → c ≠ "-"%char →
          Atoi (String c rest) = None ∧ Atoi_value (String c rest) = 0))
  ∧ (Atoi "99999999999999999999" = None ∧ Atoi_value "99999999999999999999" = Int64.max_int)
  ∧ q_Success (usage_records_query query)
    = match query !! "success" with
      | None => None
      | Some value =>
          if nonempty value then Some (bool_decide (value = "true" ∨ value = "1")) else None
      end.
Proof.
  intros reply page size. subst reply.
  assert (query !! "page" = None → page = 1) as Hp by (unfold page, DefaultQuery; by intros ->).
  assert (query !! "page_size" = None → size = 20) as Hs
    by (unfold size, DefaultQuery; by intros ->).
  assert (Hrest :
    (query !! "page" = None → page = 1)
    ∧ (query !! "page_size" = None → size = 20)
    ∧ ((∀ s z, Atoi s = Some z → Atoi_value s = z)
       ∧ (∀ digits v, Strs.digits_val 0 digits = Some v → Int64.max_int < v →
            Strs.is_digit (default "0"%char (head (list_ascii_of_string digits))) = true →
            Atoi digits = None ∧ Atoi_value digits = Int64.max_int)
       ∧ (∀ digits v, Strs.digits_val 0 digits = Some v → - Int64.min_int < v →
            Atoi (String "-" digits) = None
            ∧ Atoi_value (String "-" digits) = Int64.min_int)
       ∧ Atoi_value "" = 0
       ∧ (∀ c rest, Strs.is_digit c = false → c ≠ "+"%char → c ≠ "-"%char →
            Atoi (String c rest) = None ∧ Atoi_value (String c rest) = 0))
    ∧ (Atoi "99999999999999999999" = None
       ∧ Atoi_value "99999999999999999999" = Int64.max_int)
    ∧ q_Success (usage_records_query query)
      = match query !! "success" with
        | None => None
        | Some value =>
            if nonempty value then Some (bool_decide (value = "true" ∨ value = "1"))
            else None
        end).
  { split; [done|]. split; [done|]. split; [exact Atoi_value_spec|].
    split; [split; reflexivity|]. apply success_param. }
  unfold GetUsageRecords.
  destruct default_store as [store|]; cbn [reply_status reply_body].
  2: { split; [done|]. split; [done|]. split; [done|]. exact Hrest. }
  unfold List. destruct (closed store) eqn:Hc; cbn [reply_status reply_body].
  { split; [done|]. split.
    { intros st [= <-]. split; [split; [intros _; by left|done]|].
      split; [done|intros [H _]; congruence]. }
    split; [done|]. exact Hrest. }
  destruct (db_failing store) eqn:Hf; cbn [reply_status reply_body].
  { split; [done|]. split.
    { intros st [= <-]. split; [split; [intros _; by right|done]|].
      split; [done|intros [_ H]; congruence]. }
    split; [done|]. exact Hrest. }
  split; [done|]. split.
  { intros st [= <-]. split; [split; [done|intros [H|H]; congruence]|done]. }
  split; [|exact Hrest].
  intros result [= <-]. cbn [Page PageSize q_Page q_PageSize usage_records_query].
  fold page size.
  pose proof (Atoi_value_range (DefaultQuery query "page" "1")) as Hpr. fold page in Hpr.
  pose proof (Atoi_value_on_error (DefaultQuery query "page" "1")) as Hpe. fold page in Hpe.
  pose proof (Atoi_value_on_error (DefaultQuery query "page_size" "20")) as Hse.
  fold size in Hse. unfold Int64.min_int, Int64.max_int in *.
  assert ((if 100 <? (if size <? 1 then 20 else size) then 100
           else if size <? 1 then 20 else size)
          = (if size <? 1 then 20 else if 100 <? size then 100 else size)) as ->.
  { destruct (Z.ltb_spec size 1); [done|]. by destruct (Z.ltb_spec 100 size). }
  split; [done|]. split; [done|]. split; [done|].
  split; [destruct (Z.ltb_spec page 1); lia|].
  split.
  { destruct (Z.ltb_spec size 1); [lia|]. destruct (Z.ltb_spec 100 size); lia. }
  split.
  - intros Herr. destruct (Hpe Herr) as [->|[->| ->]]; cbn; tauto.
  - intros Herr. destruct (Hse Herr) as [->|[->| ->]]; cbn; tauto.
Qed.


End HandlerFacts.

(** ** The series by day and by hour *)

Lemma AddDate_days (t : time.Time) (k : Z) :
  time.AddDate t 0 0 k = time.Add t (k * (24 * time.Hour)).
Proof.
  unfold time.AddDate, time.Date, time.Year, time.Month, time.Day, time.civil, time.Add.
  destruct (civil_roundtrip (time.wall t / 86400)) as [Hdays Hmonth].
  set (cv := time.civil_from_days (time.wall t / 86400)) in *.
  cbv zeta. f_equal.
  replace (cv.1.2 + 0) with (cv.1.2) by lia.
  replace ((cv.1.2 - 1) / 12) with 0 by (symmetry; apply Z.div_small; lia).
  rewrite (Z.mod_small (cv.1.2 - 1) 12) by lia.
  replace (cv.1.1 + 0 + 0) with (cv.1.1) by lia.
  replace (cv.1.2 - 1 + 1) with (cv.1.2) by lia.
  replace (time.days_from_civil cv.1.1 cv.1.2 1 + (cv.2 + k - 1))
    with (time.wall t / 86400 + k) by lia.
  unfold time.HourOf, time.MinuteOf, time.SecondOf, time.UnixNano.
  change time.Hour with 3600000000000. change time.Second with 1000000000.
  unfold time.wall in *. set (w := time.sec t + time.offset t).
  assert (w / 86400 * 86400 + w mod 86400 / 3600 * 3600 + w mod 3600 / 60 * 60 + w mod 60 = w).
  { clear. Z.div_mod_to_equations. lia. }
  lia.
Qed.

(** The loop with enough fuel takes one turn per step up to [last]. *)
Lemma fill_loop_steps {A : Type} (step off : Z) (next : time.Time -> time.Time)
    (entry : time.Time -> A) (last : time.Time) :
  0 < step →
  (∀ n, next (time.of_nanos n off) = time.of_nanos (n + step) off) →
  ∀ (fuel : nat) (n0 : Z),
    (Z.to_nat ((time.UnixNano last - n0) / step + 1) <= fuel)%nat →
    fill_loop fuel next entry (time.of_nanos n0 off) last
    = (fun k => entry (time.of_nanos (n0 + k * step) off))
        <$> seqZ 0 ((time.UnixNano last - n0) / step + 1).
Proof.
  intros Hstep Hnext fuel. induction fuel as [|fuel IH]; intros n0 Hfuel.
  - cbn [fill_loop]. rewrite (seqZ_nil 0 ((time.UnixNano last - n0) / step + 1)) by lia. done.
  - cbn [fill_loop]. unfold time.After. rewrite UnixNano_of_nanos.
    destruct (Z.ltb_spec (time.UnixNano last) n0) as [Hafter|Hnot].
    + assert ((time.UnixNano last - n0) / step < 0) by (apply Z.div_lt_upper_bound; lia).
      rewrite (seqZ_nil 0 ((time.UnixNano last - n0) / step + 1)) by lia. done.
    + assert (0 <= (time.UnixNano last - n0) / step) by (apply Z.div_pos; lia).
      assert ((time.UnixNano last - (n0 + step)) / step = (time.UnixNano last - n0) / step - 1)
        as Hshift.
      { replace (time.UnixNano last - (n0 + step))
          with (time.UnixNano last - n0 + (-1) * step) by lia.
        rewrite Z.div_add by lia. lia. }
      rewrite Hnext, IH by (rewrite Hshift; lia). rewrite Hshift.
      rewrite (seqZ_cons 0 ((time.UnixNano last - n0) / step + 1)) by lia.
      rewrite fmap_cons.
      replace (Z.pred ((time.UnixNano last - n0) / step + 1))
        with ((time.UnixNano last - n0) / step - 1 + 1) by lia.
      rewrite <- (fmap_add_seqZ 1 0). rewrite <- list_fmap_compose.
      replace (n0 + 0 * step) with n0 by lia.
      f_equal. apply list_fmap_ext. intros _ k _. cbn.
      replace (n0 + step + k * step) with (n0 + (1 + k) * step) by lia. reflexivity.
Qed.

(** What a scan loop leaves: every entry of the map is the point of a row
    and stands under its own label, a label without an entry is the label
    of no row, and the largest count is at least that of every row. *)
Lemma scan_fold {A B : Type} (point : B -> A) (label : A -> string) (count : A -> Z)
    (rows : list B) (acc : gmap string A * Z) :
  let out := foldl (fun acc row =>
                      (<[label (point row) := point row]> (fst acc),
                       if snd acc <? count (point row) then count (point row) else snd acc))
                   acc rows in
  (∀ k d, fst out !! k = Some d →
     (label d = k ∧ ∃ row, row ∈ rows ∧ d = point row) ∨ fst acc !! k = Some d)
  ∧ (∀ k, fst out !! k = None →
       fst acc !! k = None ∧ ∀ row, row ∈ rows → label (point row) ≠ k)
  ∧ snd acc <= snd out
  ∧ (∀ row, row ∈ rows → count (point row) <= snd out).
Proof.
  revert acc. induction rows as [|r rows IH]; intros acc; cbn [foldl].
  - repeat split; try tauto; try lia; intros row Hin; by apply elem_of_nil in Hin.
  - specialize (IH (<[label (point r) := point r]> (fst acc),
                    if snd acc <? count (point r) then count (point r) else snd acc)).
    cbv zeta in IH. cbn [fst snd] in IH. destruct IH as (Hsome & Hnone & Hmax & Hall).
    set (out := foldl _ _ rows) in *.
    assert (snd acc <= snd out ∧ count (point r) <= snd out) as [Hacc Hr].
    { destruct (Z.ltb_spec (snd acc) (count (point r))); lia. }
    repeat split; try done.
    + intros k d Hk. destruct (Hsome k d Hk) as [(Hl & row & Hin & Heq)|Hins].
      * left. split; [done|]. exists row. split; [|done]. apply elem_of_cons. by right.
      * destruct (decide (label (point r) = k)) as [<-|Hne].
        -- rewrite lookup_insert_eq in Hins. injection Hins as <-. left. split; [done|].
           exists r. split; [|done]. apply elem_of_cons. by left.
        -- rewrite lookup_insert_ne in Hins by done. by right.
    + destruct (Hnone k H) as [Hins _].
      destruct (decide (label (point r) = k)) as [<-|Hne].
      * by rewrite lookup_insert_eq in Hins.
      * by rewrite lookup_insert_ne in Hins.
    + intros row Hin. destruct (Hnone k H) as [Hins Hrows].
      apply elem_of_cons in Hin as [->|Hin]; [|by apply Hrows].
      intros Heq. by rewrite Heq, lookup_insert_eq in Hins.
    + intros row Hin. apply elem_of_cons in Hin as [->|Hin]; [done|by apply Hall].
Qed.

Lemma scan_days_spec (rows : list Heatmap.ActivityHeatmapDay) :
  (∀ k d, fst (scan_days rows) !! k = Some d → Heatmap.Date d = k ∧ d ∈ rows)
  ∧ (∀ k, fst (scan_days rows) !! k = None → ∀ r, r ∈ rows → Heatmap.Date r ≠ k)
  ∧ 0 <= snd (scan_days rows)
  ∧ (∀ r, r ∈ rows → Heatmap.Requests r <= snd (scan_days rows)).
Proof.
  destruct (scan_fold id Heatmap.Date Heatmap.Requests rows (∅, 0))
    as (Hsome & Hnone & Hmax & Hall).
  repeat split.
  - destruct (Hsome k d H) as [(Hl & _)|Hempty]; [done|]. cbn in Hempty; by rewrite lookup_empty in Hempty.
  - destruct (Hsome k d H) as [(_ & row & Hin & ->)|Hempty]; [done|].
    cbn in Hempty; by rewrite lookup_empty in Hempty.
  - intros k Hk. by apply Hnone.
  - exact Hmax.
  - exact Hall.
Qed.

Lemma scan_hours_spec (rows : list (string * Z * Z)) :
  (∀ k p, fst (scan_hours rows) !! k = Some p →
     Timeline.Hour p = k ∧ ∃ row, row ∈ rows ∧ p = hour_point row)
  ∧ (∀ k, fst (scan_hours rows) !! k = None →
       ∀ row, row ∈ rows → Timeline.Hour (hour_point row) ≠ k)
  ∧ 0 <= snd (scan_hours rows)
  ∧ (∀ row, row ∈ rows → Timeline.Requests (hour_point row) <= snd (scan_hours rows)).
Proof.
  destruct (scan_fold hour_point Timeline.Hour Timeline.Requests rows (∅, 0))
    as (Hsome & Hnone & Hmax & Hall).
  repeat split.
  - destruct (Hsome k p H) as [(Hl & _)|Hempty]; [done|]. cbn in Hempty; by rewrite lookup_empty in Hempty.
  - destruct (Hsome k p H) as [(_ & Hrow)|Hempty]; [done|].
    cbn in Hempty; by rewrite lookup_empty in Hempty.
  - intros k Hk. by apply Hnone.
  - exact Hmax.
  - exact Hall.
Qed.

Lemma clamp_days_range (days : Z) :
  1 <= clamp_days days <= 365 ∧ (1 <= days <= 365 → clamp_days days = days)
  ∧ (days < 1 → clamp_days days = 90) ∧ (365 < days → clamp_days days = 365).
Proof.
  unfold clamp_days. cbv zeta.
  destruct (Z.ltb_spec days 1); [cbn; lia|]. destruct (Z.ltb_spec 365 days); lia.
Qed.

Lemma lookup_fmap_seqZ {A : Type} (f : Z -> A) (n k : Z) :
  0 <= k < n → (f <$> seqZ 0 n) !! Z.to_nat k = Some (f k).
Proof.
  intros Hk. rewrite list_lookup_fmap, lookup_seqZ_lt by lia. cbn. f_equal. f_equal. lia.
Qed.
Lemma Format_day_wall (t u : time.Time) :
  time.wall t / 86400 = time.wall u / 86400 → time.Format_day t = time.Format_day u.
Proof.
  intros H. unfold time.Format_day, time.fmt_date, time.Year, time.Month, time.Day, time.civil.
  by rewrite H.
Qed.


(** The days of the heatmap, with enough fuel: one per day from the first
    day to the day of the clock. *)
Lemma GetActivityHeatmap_days (fuel : nat) (s : Store) (now : time.Time)
    (query : string -> string -> option (list Heatmap.ActivityHeatmapDay)) (days : Z)
    (h : Heatmap.ActivityHeatmap) :
  (365 <= fuel)%nat →
  GetActivityHeatmap fuel s now query days = Ok h →
  let n := clamp_days days in
  let n0 := time.UnixNano now + - (n - 1) * (24 * time.Hour) in
  ∃ rows,
    query (time.Format_day (time.of_nanos n0 (time.offset now))) (time.Format_day now)
    = Some rows
    ∧ h = {| Heatmap.StartDate := time.Format_day (time.of_nanos n0 (time.offset now));
             Heatmap.EndDate := time.Format_day now;
             Heatmap.TotalDays := n;
             Heatmap.MaxRequests := snd (scan_days rows);
             Heatmap.Days :=
               (fun k => day_entry (fst (scan_days rows))
                           (time.of_nanos (n0 + k * (24 * time.Hour)) (time.offset now)))
                 <$> seqZ 0 n |}.
Proof.
  intros Hfuel Hrun n n0. destruct (clamp_days_range days) as (Hn & _).
  unfold GetActivityHeatmap in Hrun. destruct (closed s); [done|]. cbv zeta in Hrun.
  fold n in Hrun. rewrite AddDate_days in Hrun.
  replace ((- n + 1) * (24 * time.Hour)) with (- (n - 1) * (24 * time.Hour)) in Hrun by lia.
  unfold time.Add in Hrun. fold n0 in Hrun.
  destruct (query _ _) as [rows|]; [|done]. exists rows. split; [done|].
  destruct (scan_days rows) as [dataMap maxRequests]. cbn [fst snd].
  assert ((time.UnixNano now - n0) / (24 * time.Hour) + 1 = n) as Hcount.
  { unfold n0.
    replace (time.UnixNano now - (time.UnixNano now + - (n - 1) * (24 * time.Hour)))
      with ((n - 1) * (24 * time.Hour)) by lia.
    rewrite Z.div_mul by done. lia. }
  rewrite (fill_loop_steps (24 * time.Hour) (time.offset now)) in Hrun;
    [ | done
      | intros m; rewrite AddDate_days;
        replace (1 * (24 * time.Hour)) with (24 * time.Hour) by lia; apply Add_of_nanos
      | rewrite Hcount; lia ].
  rewrite Hcount, length_fmap, length_seqZ in Hrun.
  replace (Z.of_nat (Z.to_nat n)) with n in Hrun by lia. by injection Hrun as <-.
Qed.

Lemma GetActivityHeatmap_runs (fuel : nat) (s : Store) (now : time.Time)
    (query : string -> string -> option (list Heatmap.ActivityHeatmapDay)) (days : Z) :
  closed s = false →
  let n := clamp_days days in
  let first := time.Add now (- (n - 1) * (24 * time.Hour)) in
  match query (time.Format_day first) (time.Format_day now) with
  | None => is_err (GetActivityHeatmap fuel s now query days) = true
  | Some _ => is_err (GetActivityHeatmap fuel s now query days) = false
  end.
Proof.
  intros Hopen n first. unfold GetActivityHeatmap. rewrite Hopen. cbv zeta. fold n.
  rewrite AddDate_days.
  replace ((- n + 1) * (24 * time.Hour)) with (- (n - 1) * (24 * time.Hour)) by lia.
  fold first. destruct (query _ _); [|done]. by destruct (scan_days _).
Qed.


(** The first and the last hour of the timeline are whole hours. *)
Lemma timeline_window_hours (loc : Z) (now : time.Time) (startTime endTime : string) :
  ∃ a b offa offb,
    timeline_window loc now startTime endTime
    = (time.of_nanos (a * time.Hour) offa, time.of_nanos (b * time.Hour) offb)
    ∧ (startTime = "" → endTime = "" → b = a + 24).
Proof.
  unfold timeline_window. cbv zeta. rewrite !Truncate_Hour.
  do 4 eexists. split; [reflexivity|].
  intros -> ->. change (nonempty "") with false. cbv iota.
  unfold time.Add. rewrite UnixNano_of_nanos.
  replace (time.UnixNano now + - (24 * time.Hour))
    with (time.UnixNano now + (-24) * time.Hour) by lia.
  rewrite Z.div_add by done. lia.
Qed.

(** The points of the timeline, with enough fuel: one per hour from the
    first hour to the last. *)
Lemma GetRequestTimeline_points (fuel : nat) (s : Store) (loc : Z) (now : time.Time)
    (query : string -> list SqlValue -> option (list (string * Z * Z)))
    (startTime endTime : string) (r : Timeline.RequestTimelineResult) :
  let w := timeline_window loc now startTime endTime in
  let n := (time.UnixNano (snd w) - time.UnixNano (fst w)) / time.Hour + 1 in
  let conds := time_conditions loc startTime endTime in
  (Z.to_nat n <= fuel)%nat →
  GetRequestTimeline fuel s loc now query startTime endTime = Ok r →
  ∃ rows,
    query (where_clause (fst <$> conds)) (snd <$> conds) = Some rows
    ∧ r = {| Timeline.StartTime := time.Format_RFC3339 (fst w);
             Timeline.EndTime := time.Format_RFC3339 (snd w);
             Timeline.TotalHours := Z.max 0 n;
             Timeline.MaxRequests := snd (scan_hours rows);
             Timeline.Points :=
               (fun k => hour_entry (fst (scan_hours rows))
                           (time.Add (fst w) (k * time.Hour)))
                 <$> seqZ 0 n |}.
Proof.
  intros w n conds Hfuel Hrun.
  unfold GetRequestTimeline in Hrun. destruct (closed s); [done|]. cbv zeta in Hrun.
  fold conds in Hrun. destruct (query _ _) as [rows|]; [|done]. exists rows. split; [done|].
  destruct (scan_hours rows) as [dataMap maxRequests]. cbn [fst snd].
  fold w in Hrun. unfold n in *. clear n.
  destruct (timeline_window_hours loc now startTime endTime) as (a & b & offa & offb & Hw & _).
  fold w in Hw. destruct w as [ws we]. cbn [fst snd] in *. injection Hw as -> ->.
  rewrite (UnixNano_of_nanos (a * time.Hour) offa) in Hfuel |- *.
  rewrite (fill_loop_steps time.Hour offa) in Hrun;
    [ | done | intros m; apply Add_of_nanos | exact Hfuel ].
  rewrite length_fmap, length_seqZ in Hrun. injection Hrun as <-.
  f_equal; [lia|]. apply list_fmap_ext. intros _ k _. by rewrite Add_of_nanos.
Qed.

Lemma GetRequestTimeline_runs (fuel : nat) (s : Store) (loc : Z) (now : time.Time)
    (query : string -> list SqlValue -> option (list (string * Z * Z)))
    (startTime endTime : string) :
  closed s = false →
  let conds := time_conditions loc startTime endTime in
  match query (where_clause (fst <$> conds)) (snd <$> conds) with
  | None => is_err (GetRequestTimeline fuel s loc now query startTime endTime) = true
  | Some _ => is_err (GetRequestTimeline fuel s loc now query startTime endTime) = false
  end.
Proof.
  intros Hopen conds. unfold GetRequestTimeline. rewrite Hopen. cbv zeta. fold conds.
  destruct (query _ _); [|done]. destruct (scan_hours _). by destruct (timeline_window _ _ _ _).
Qed.

(** GetRequestTimeline refuses a closed store.  On an open one the
    timeline runs from the hour of the start to the hour of the end, the
    start being 24 hours before the clock and the end the clock when the
    parameter is empty or not understood: it has one point per hour, point
    k standing k hours after the first hour; a point carries a row the
    engine returned under its hour, or no requests when the engine
    returned no row under it; the largest count is at least the count of
    every row and of every point.  Without parameters there are exactly 25
    points and no condition on the rows.  A start in a later hour than the
    end gives no point at all: the two are not exchanged.  The handler
    answers 503 without a store; with one it answers what GetRequestTimeline
    returns for the parameters start_time and end_time, each empty when
    absent, with 200, or 500 when that fails, which it does exactly on a
    closed store or when the engine fails. *)
Theorem GetRequestTimeline_dense (fuel : nat) (s : Store) (loc : Z) (now : time.Time)
    (query : string -> list SqlValue -> option (list (string * Z * Z)))
    (startTime endTime : string) :
  let w := timeline_window loc now startTime endTime in
  let n := (time.UnixNano (snd w) - time.UnixNano (fst w)) / time.Hour + 1 in
  let hour_of k := time.Format_hour (time.Add (fst w) (k * time.Hour)) in
  let conds := time_conditions loc startTime endTime in
  (closed s = true → is_err (GetRequestTimeline fuel s loc now query startTime endTime) = true)
  ∧ (closed s = false → (Z.to_nat n <= fuel)%nat →
     match query (where_clause (fst <$> conds)) (snd <$> conds) with
     | None => is_err (GetRequestTimeline fuel s loc now query startTime endTime) = true
     | Some rows =>
         ∃ r, GetRequestTimeline fuel s loc now query startTime endTime = Ok r
           ∧ Timeline.TotalHours r = Z.max 0 n
           ∧ List.length (Timeline.Points r) = Z.to_nat n
           ∧ Timeline.StartTime r = time.Format_RFC3339 (fst w)
           ∧ Timeline.EndTime r = time.Format_RFC3339 (snd w)
           ∧ (∀ k, 0 <= k < n →
                ∃ p, Timeline.Points r !! Z.to_nat k = Some p
                  ∧ Timeline.Hour p = hour_of k
                  ∧ ((∃ row, row ∈ rows ∧ p = hour_point row)
                     ∨ (p = Timeline.mkPoint (hour_of k) 0 0
                        ∧ ∀ row, row ∈ rows → Timeline.Hour (hour_point row) ≠ hour_of k))
                  ∧ Timeline.Requests p <= Timeline.MaxRequests r)
           ∧ (∀ hour requests tokens, (hour, requests, tokens) ∈ rows →
                requests <= Timeline.MaxRequests r)
     end)
  ∧ (startTime = "" → endTime = "" → n = 25 ∧ conds = [])
  ∧ (time.UnixNano (snd w) < time.UnixNano (fst w) → n <= 0)
  ∧ (time.UnixNano (fst w) <= time.UnixNano (snd w) → 1 <= n)
  ∧ (∀ params : gmap string string,
       let asked_start := default "" (params !! "start_time") in
       let asked_end := default "" (params !! "end_time") in
       let asked := time_conditions loc asked_start asked_end in
       GetRequestTimeline_handler fuel None params loc now query = mkReply 503 None
       ∧ GetRequestTimeline_handler fuel (Some s) params loc now query
         = match GetRequestTimeline fuel s loc now query asked_start asked_end with
           | Ok r => mkReply 200 (Some r)
           | Err _ => mkReply 500 None
           end
       ∧ (reply_status (GetRequestTimeline_handler fuel (Some s) params loc now query) = 500
          ↔ closed s = true
            ∨ query (where_clause (fst <$> asked)) (snd <$> asked) = None)
       ∧ (reply_status (GetRequestTimeline_handler fuel (Some s) params loc now query) = 200
          ∨ reply_status (GetRequestTimeline_handler fuel (Some s) params loc now query)
            = 500)
       ∧ (params !! "start_time" = None → params !! "end_time" = None →
          (25 <= fuel)%nat →
          match GetRequestTimeline_handler fuel (Some s) params loc now query with
          | {| reply_status := code; reply_body := body |} =>
              (code = 200 ∧ ∃ r, body = Some r ∧ Timeline.TotalHours r = 25
                 ∧ List.length (Timeline.Points r) = 25%nat)
              ∨ (code = 500 ∧ body = None)
          end)).
Proof.
  intros w n hour_of conds.
  destruct (timeline_window_hours loc now startTime endTime) as (a & b & offa & offb & Hw & Hab).
  assert (n = b - a + 1) as Hn.
  { unfold n, w. rewrite Hw. cbn [fst snd]. rewrite !UnixNano_of_nanos.
    rewrite <- Z.mul_sub_distr_r, Z.div_mul by done. reflexivity. }
  split.
  { intros Hclosed. unfold GetRequestTimeline. by rewrite Hclosed. }
  split; [|split; [|split; [|split]]].
  - intros Hopen Hfuel.
    pose proof (GetRequestTimeline_runs fuel s loc now query startTime endTime Hopen) as Hrun.
    cbv zeta in Hrun. fold conds in Hrun.
    destruct (query (where_clause (fst <$> conds)) (snd <$> conds)) as [rows|] eqn:Hquery;
      [|done].
    destruct (GetRequestTimeline fuel s loc now query startTime endTime) as [r|] eqn:Hr;
      [|done].
    destruct (GetRequestTimeline_points _ _ _ _ _ _ _ _ Hfuel Hr) as (rows' & Hquery' & ->).
    fold conds in Hquery'. rewrite Hquery in Hquery'. injection Hquery' as <-.
    fold w n.
    destruct (scan_hours_spec rows) as (Hsome & Hnone & Hmax0 & Hmax).
    eexists. split; [reflexivity|].
    cbn [Timeline.TotalHours Timeline.Points Timeline.StartTime Timeline.EndTime
         Timeline.MaxRequests].
    rewrite length_fmap, length_seqZ.
    split; [done|]. split; [done|]. split; [done|]. split; [done|]. split.
    + intros k Hk. eexists. split; [by apply lookup_fmap_seqZ|].
      cbn beta. unfold hour_entry. cbv zeta. fold (hour_of k).
      destruct (fst (scan_hours rows) !! hour_of k) as [data|] eqn:Hlook.
      * destruct (Hsome _ _ Hlook) as [Hhour (row & Hin & ->)]. split; [done|].
        split; [left; by exists row|]. by apply Hmax.
      * cbn [Timeline.Hour Timeline.Requests]. split; [done|]. split; [|lia].
        right. split; [done|]. by apply Hnone.
    + intros hour requests tokens Hin. exact (Hmax _ Hin).
  - intros -> ->. split; [|done]. specialize (Hab eq_refl eq_refl). lia.
  - unfold w. rewrite Hw. cbn [fst snd]. rewrite !UnixNano_of_nanos.
    change time.Hour with 3600000000000. lia.
  - unfold w. rewrite Hw. cbn [fst snd]. rewrite !UnixNano_of_nanos.
    change time.Hour with 3600000000000. lia.
  - intros params asked_start asked_end asked. split; [done|]. split; [done|].
    assert (reply_status (GetRequestTimeline_handler fuel (Some s) params loc now query) = 500
            ↔ closed s = true
              ∨ query (where_clause (fst <$> asked)) (snd <$> asked) = None) as H500.
    { unfold GetRequestTimeline_handler, Query. fold asked_start asked_end.
      destruct (closed s) eqn:Hclosed.
      { unfold GetRequestTimeline. rewrite Hclosed. cbn [reply_status].
        split; [by left|done]. }
      pose proof (GetRequestTimeline_runs fuel s loc now query asked_start asked_end Hclosed)
        as Hruns. cbv zeta in Hruns. fold asked in Hruns.
      destruct (query (where_clause (fst <$> asked)) (snd <$> asked)) as [rows|];
        destruct (GetRequestTimeline fuel s loc now query asked_start asked_end)
          as [r|msg]; try done; cbn [reply_status].
      - split; [done|by intros [?|?]].
      - split; [by right|done]. }
    split; [exact H500|]. split.
    { unfold GetRequestTimeline_handler.
      destruct (GetRequestTimeline fuel s loc now query _ _); cbn [reply_status]; tauto. }
    intros Hstart Hend Hfuel.
    unfold GetRequestTimeline_handler, Query. rewrite Hstart, Hend. cbn [default from_option].
    destruct (timeline_window_hours loc now "" "") as (a' & b' & offa' & offb' & Hw' & Hab').
    specialize (Hab' eq_refl eq_refl).
    assert ((time.UnixNano (snd (timeline_window loc now "" ""))
             - time.UnixNano (fst (timeline_window loc now "" ""))) / time.Hour + 1 = 25)
      as Hn'.
    { rewrite Hw'. cbn [fst snd]. rewrite !UnixNano_of_nanos.
      rewrite <- Z.mul_sub_distr_r, Z.div_mul by done. lia. }
    destruct (GetRequestTimeline fuel s loc now query "" "") as [r|] eqn:Hr;
      [left|by right].
    split; [done|]. exists r. split; [done|].
    destruct (GetRequestTimeline_points fuel s loc now query "" "" r) as (rows' & _ & ->);
      [rewrite Hn'; lia|done|].
    cbn [Timeline.TotalHours Timeline.Points]. rewrite length_fmap, length_seqZ, Hn'.
    split; [done|]. reflexivity.
Qed.
(** ** Formatted times read back *)

Lemma appendInt_two_checked : all_from appendInt_two_ok (Z.to_nat 100) 0 = true.
Proof. vm_compute. reflexivity. Qed.

Lemma appendInt_four_checked : all_from appendInt_four_ok (Z.to_nat 10000) 0 = true.
Proof. vm_compute. reflexivity. Qed.

Lemma day_in_month_checked : all_from day_in_month_ok (Z.to_nat 146097) 0 = true.
Proof. vm_compute. reflexivity. Qed.

Lemma appendInt_two (x : Z) (rest : string) :
  0 <= x < 100 → time.appendInt x 2 ++ rest = two_digits x rest.
Proof.
  intros Hx. pose proof (all_from_spec _ _ 0 x appendInt_two_checked ltac:(lia)) as Hok.
  unfold appendInt_two_ok in Hok. apply String.eqb_eq in Hok. rewrite Hok. reflexivity.
Qed.

Lemma appendInt_four (x : Z) (rest : string) :
  0 <= x < 10000 → time.appendInt x 4 ++ rest = four_digits x rest.
Proof.
  intros Hx. pose proof (all_from_spec _ _ 0 x appendInt_four_checked ltac:(lia)) as Hok.
  unfold appendInt_four_ok in Hok. apply String.eqb_eq in Hok. rewrite Hok. reflexivity.
Qed.

Lemma digit_cases (k : Z) :
  0 <= k < 10 →
  k = 0 ∨ k = 1 ∨ k = 2 ∨ k = 3 ∨ k = 4 ∨ k = 5 ∨ k = 6 ∨ k = 7 ∨ k = 8 ∨ k = 9.
Proof. lia. Qed.

Lemma is_digit_digit (k : Z) : 0 <= k < 10 → Strs.is_digit (digit k) = true.
Proof. intros Hk. destruct (digit_cases k Hk) as [->|H]; [done|]. repeat (destruct H as [->|H]; [done|]). by subst. Qed.

Lemma digit_val_digit (k : Z) : 0 <= k < 10 → Strs.digit_val (digit k) = k.
Proof. intros Hk. destruct (digit_cases k Hk) as [->|H]; [done|]. repeat (destruct H as [->|H]; [done|]). by subst. Qed.

Lemma digit_not (c : ascii) (k : Z) :
  Strs.is_digit c = false → 0 <= k < 10 → Ascii.eqb c (digit k) = false.
Proof.
  intros Hc Hk. destruct (Ascii.eqb_spec c (digit k)) as [->|]; [|done].
  by rewrite is_digit_digit in Hc.
Qed.

Lemma getnum_two_digits (fixed : bool) (x : Z) (rest : string) :
  0 <= x < 100 → time.getnum fixed (two_digits x rest) = Some (x, rest).
Proof.
  intros Hx. unfold two_digits, time.getnum.
  assert (0 <= x / 10 < 10) by (split; [apply Z.div_pos|apply Z.div_lt_upper_bound]; lia).
  pose proof (Z.mod_pos_bound x 10 ltac:(lia)).
  rewrite !is_digit_digit, !digit_val_digit by done.
  do 2 f_equal. pose proof (Z.div_mod x 10 ltac:(lia)). lia.
Qed.

Lemma long_year_four_digits (y : Z) (rest : string) :
  0 <= y < 10000 → time.long_year (four_digits y rest) = Some (y, rest).
Proof.
  intros Hy. unfold four_digits, two_digits, time.long_year.
  cbn [String.length Nat.leb String.substring Nat.sub Strs.digits_val].
  assert (0 <= y / 1000 < 10) by (split; [apply Z.div_pos|apply Z.div_lt_upper_bound]; lia).
  pose proof (Z.mod_pos_bound (y / 100) 10 ltac:(lia)).
  pose proof (Z.mod_pos_bound (y mod 100) 10 ltac:(lia)).
  pose proof (Z.mod_pos_bound y 100 ltac:(lia)).
  assert (0 <= y mod 100 / 10 < 10) by (split; [apply Z.div_pos|apply Z.div_lt_upper_bound]; lia).
  rewrite !is_digit_digit, !digit_val_digit by done.
  replace (String.substring 0 0 rest) with EmptyString by (by destruct rest).
  rewrite Nat.sub_0_r, substring_all. cbn [Strs.digits_val].
  do 2 f_equal. clear. Z.div_mod_to_equations. lia.
Qed.

Lemma is_leap_shift (y e : Z) : time.is_leap (y + e * 400) = time.is_leap y.
Proof.
  unfold time.is_leap.
  replace (y + e * 400) with (y + (e * 100) * 4) at 1 by lia.
  replace (y + e * 400) with (y + (e * 4) * 100) at 1 by lia.
  by rewrite !Z.mod_add.
Qed.

(** The civil date of a day: the month is one of the twelve, the day one
    of the month, and counting the days of the date gives the day back. *)
Lemma civil_date_valid (z : Z) :
  let '(y, m, d) := time.civil_from_days z in
  1 <= m <= 12 ∧ 1 <= d <= time.daysIn m y ∧ time.days_from_civil y m 1 + (d - 1) = z.
Proof.
  destruct (civil_roundtrip z) as [Hdays Hmonth].
  unfold time.civil_from_days in *. cbv zeta in *.
  set (era := (z + 719468) / 146097) in *. set (doe := z + 719468 - era * 146097) in *.
  assert (0 <= doe < 146097) as Hdoe.
  { unfold doe, era. pose proof (Z.mod_pos_bound (z + 719468) 146097).
    pose proof (Z.div_mod (z + 719468) 146097). lia. }
  rewrite civil_of_era_shift in *. cbn [fst snd] in *.
  pose proof (all_from_spec _ _ 0 doe day_in_month_checked ltac:(lia)) as Hok.
  unfold day_in_month_ok in Hok.
  destruct (time.civil_of_era 0 doe) as [[y m] d]. cbn [fst snd] in *.
  rewrite andb_true_iff in Hok. destruct Hok as [Hd1 Hd2].
  unfold time.daysIn in *. rewrite is_leap_shift. lia.
Qed.

Lemma zone_shape_fmt (off : Z) :
  off mod 60 = 0 → -86400 < off < 86400 → time.fmt_zone off = zone_shape off.
Proof.
  intros Hmin Hday. unfold time.fmt_zone, zone_shape. cbv zeta.
  destruct (Z.eqb_spec off 0) as [|Hne]; [done|].
  assert (Z.abs (Z.quot off 60) = Z.abs off / 60) as Habs.
  { rewrite <- Z.quot_abs by done. apply Z.quot_div_nonneg; lia. }
  assert ((Z.quot off 60 <? 0) = (off <? 0)) as Hsign.
  { destruct (Z.ltb_spec off 0).
    - apply Z.ltb_lt. pose proof (Z.quot_div_nonneg (- off) 60 ltac:(lia) ltac:(lia)).
      rewrite Z.quot_opp_l in H0 by done.
      assert (0 < - off / 60) by (apply Z.div_str_pos; Z.div_mod_to_equations; lia). lia.
    - apply Z.ltb_ge. apply Z.quot_pos; lia. }
  rewrite Habs, Hsign.
  assert (0 <= Z.abs off / 60 < 1440) as Hz
    by (split; [apply Z.div_pos|apply Z.div_lt_upper_bound]; lia).
  assert (Z.abs off / 60 / 60 = Z.abs off / 3600) as Hhr by (rewrite Z.div_div by lia; done).
  rewrite Hhr.
  assert (0 <= Z.abs off / 3600 < 100)
    by (split; [apply Z.div_pos|apply Z.div_lt_upper_bound]; lia).
  pose proof (Z.mod_pos_bound (Z.abs off / 60) 60 ltac:(lia)).
  rewrite <- (appendInt_two (Z.abs off / 60 mod 60) "") by lia.
  rewrite <- (appendInt_two (Z.abs off / 3600)) by lia.
  rewrite append_nil_r. destruct (off <? 0); reflexivity.
Qed.

Lemma zone_colon_shape (off : Z) :
  off mod 60 = 0 → -86400 < off < 86400 →
  time.optional_fraction (zone_shape off) = (0, zone_shape off)
  ∧ time.zone_colon (zone_shape off) = Some (off, "").
Proof.
  intros Hmin Hday. unfold zone_shape.
  destruct (Z.eqb_spec off 0) as [->|Hne]; [done|].
  assert (0 <= Z.abs off / 3600 < 24) as Hhr
    by (split; [apply Z.div_pos|apply Z.div_lt_upper_bound]; lia).
  pose proof (Z.mod_pos_bound (Z.abs off / 60) 60 ltac:(lia)) as Hmm.
  assert ((Z.abs off / 3600 * 60 + Z.abs off / 60 mod 60) * 60 = Z.abs off) as Hback.
  { clear - Hmin. Z.div_mod_to_equations. lia. }
  split.
  - by destruct (off <? 0).
  - set (hr := Z.abs off / 3600) in *. set (mm := Z.abs off / 60 mod 60) in *.
    assert (0 <= hr / 10 < 10) by (split; [apply Z.div_pos|apply Z.div_lt_upper_bound]; lia).
    assert (0 <= mm / 10 < 10) by (split; [apply Z.div_pos|apply Z.div_lt_upper_bound]; lia).
    pose proof (Z.mod_pos_bound hr 10 ltac:(lia)).
    pose proof (Z.mod_pos_bound mm 10 ltac:(lia)).
    assert (10 * (hr / 10) + hr mod 10 = hr) as Hhr' by (pose proof (Z.div_mod hr 10); lia).
    assert (10 * (mm / 10) + mm mod 10 = mm) as Hmm' by (pose proof (Z.div_mod mm 10); lia).
    unfold two_digits, time.zone_colon.
    destruct (Z.ltb_spec off 0);
      cbn [Ascii.eqb Bool.eqb];
      rewrite !is_digit_digit, !digit_val_digit by done; cbn [andb];
      rewrite Hhr', Hmm';
      destruct (Z.leb_spec hr 24); try lia; destruct (Z.leb_spec mm 60); try lia;
      cbn [andb]; do 2 f_equal; lia.
Qed.

Lemma clock_fields (t : time.Time) :
  0 <= time.HourOf t < 24 ∧ 0 <= time.MinuteOf t < 60 ∧ 0 <= time.SecondOf t < 60
  ∧ time.wall t / 86400 * 86400 + time.HourOf t * 3600 + time.MinuteOf t * 60
    + time.SecondOf t = time.wall t.
Proof.
  unfold time.HourOf, time.MinuteOf, time.SecondOf. set (w := time.wall t).
  clearbody w. Z.div_mod_to_equations. lia.
Qed.

Lemma Format_RFC3339_shape (t : time.Time) :
  formats_back t →
  time.Format_RFC3339 t
  = rfc3339_shape (time.Year t) (time.Month t) (time.Day t)
      (time.HourOf t) (time.MinuteOf t) (time.SecondOf t) (zone_shape (time.offset t)).
Proof.
  intros (Hyear & Hmin & Hday).
  destruct (clock_fields t) as (Hh & Hmi & Hs & _).
  pose proof (civil_date_valid (time.wall t / 86400)) as Hcivil.
  unfold time.Format_RFC3339, time.fmt_date, rfc3339_shape.
  unfold time.Year, time.Month, time.Day, time.civil in *.
  destruct (time.civil_from_days (time.wall t / 86400)) as [[y m] d]. cbn [fst snd] in *.
  destruct Hcivil as (Hm & Hd & _).
  assert (time.daysIn m y <= 31).
  { unfold time.daysIn. repeat match goal with |- context [if ?b then _ else _] => destruct b end; lia. }
  rewrite zone_shape_fmt by done.
  rewrite !append_assoc.
  rewrite (appendInt_two (time.SecondOf t)) by lia.
  change (":" ++ ?x) with (String ":" x).
  rewrite (appendInt_two (time.MinuteOf t)) by lia.
  change (":" ++ ?x) with (String ":" x).
  rewrite (appendInt_two (time.HourOf t)) by lia.
  change ("T" ++ ?x) with (String "T" x).
  rewrite (appendInt_two d) by lia.
  change ("-" ++ ?x) with (String "-" x).
  rewrite (appendInt_two m) by lia.
  change ("-" ++ ?x) with (String "-" x).
  rewrite (appendInt_four y) by lia.
  reflexivity.
Qed.

(** The text of a date with its time and offset parses to the instant it
    stands for, at that offset. *)
Lemma Parse_rfc3339_shape (y mo d h mi sc off : Z) :
  0 <= y <= 9999 → 1 <= mo <= 12 → 1 <= d <= time.daysIn mo y →
  0 <= h < 24 → 0 <= mi < 60 → 0 <= sc < 60 →
  off mod 60 = 0 → -86400 < off < 86400 →
  time.Parse time.RFC3339 (rfc3339_shape y mo d h mi sc (zone_shape off))
  = Some (time.mkTime
            ((time.days_from_civil y mo 1 + (d - 1)) * 86400 + h * 3600 + mi * 60 + sc - off)
            0 off).
Proof.
  intros Hy Hmo Hd Hh Hmi Hsc Hmin Hday.
  assert (time.daysIn mo y <= 31).
  { unfold time.daysIn. repeat match goal with |- context [if ?b then _ else _] => destruct b end; lia. }
  destruct (zone_colon_shape off Hmin Hday) as [Hfrac Hzone].
  unfold time.Parse, rfc3339_shape.
  rewrite long_year_four_digits by lia. cbn [mbind option_bind time.expect Ascii.eqb Bool.eqb].
  rewrite getnum_two_digits by lia. cbn [mbind option_bind time.expect Ascii.eqb Bool.eqb].
  rewrite getnum_two_digits by lia. cbn [mbind option_bind time.expect Ascii.eqb Bool.eqb].
  rewrite getnum_two_digits by lia. cbn [mbind option_bind time.expect Ascii.eqb Bool.eqb].
  rewrite getnum_two_digits by lia. cbn [mbind option_bind time.expect Ascii.eqb Bool.eqb].
  rewrite getnum_two_digits by lia. cbn [mbind option_bind time.expect Ascii.eqb Bool.eqb].
  unfold time.parse_tail. rewrite Hfrac, Hzone. cbn [mbind option_bind String.length Nat.eqb].
  destruct (Z.leb_spec 1 mo); [|lia]. destruct (Z.leb_spec mo 12); [|lia].
  destruct (Z.leb_spec 1 d); [|lia]. destruct (Z.leb_spec d (time.daysIn mo y)); [|lia].
  destruct (Z.ltb_spec h 24); [|lia]. destruct (Z.ltb_spec mi 60); [|lia].
  destruct (Z.ltb_spec sc 60); [|lia]. cbn [andb]. cbv zeta.
  unfold time.Date. cbv zeta.
  replace ((mo - 1) / 12) with 0 by (symmetry; apply Z.div_small; lia).
  rewrite (Z.mod_small (mo - 1) 12) by lia.
  replace (y + 0) with y by lia. replace (mo - 1 + 1) with mo by lia.
  unfold time.of_nanos. cbn [time.sec time.nsec].
  rewrite Z.add_0_r, Z.sub_0_r, Z.div_mul, Z.mod_mul by done. reflexivity.
Qed.

(** The RFC3339 text of an instant reads back as the instant, to the
    second, at the same offset. *)
Lemma Parse_Format_RFC3339 (t : time.Time) :
  formats_back t →
  time.Parse time.RFC3339 (time.Format_RFC3339 t)
  = Some (time.mkTime (time.sec t) 0 (time.offset t)).
Proof.
  intros Hback. rewrite Format_RFC3339_shape by done. destruct Hback as (Hyear & Hmin & Hday).
  destruct (clock_fields t) as (Hh & Hmi & Hs & Hwall).
  pose proof (civil_date_valid (time.wall t / 86400)) as Hcivil.
  unfold time.Year, time.Month, time.Day, time.civil in *.
  destruct (time.civil_from_days (time.wall t / 86400)) as [[y m] d]. cbn [fst snd] in *.
  destruct Hcivil as (Hm & Hd & Hdays).
  rewrite Parse_rfc3339_shape by done. rewrite Hdays. do 2 f_equal.
  unfold time.wall in *. lia.
Qed.

(** The other two layouts of the read path on an RFC3339 text: the one
    with a blank does not read it, the one with a literal Z reads it when
    the offset is zero. *)
Lemma Parse_other_layouts (y mo d h mi sc off : Z) :
  0 <= y <= 9999 → 1 <= mo <= 12 → 1 <= d <= time.daysIn mo y →
  0 <= h < 24 → 0 <= mi < 60 → 0 <= sc < 60 →
  off mod 60 = 0 → -86400 < off < 86400 →
  time.Parse time.SQLDateTime (rfc3339_shape y mo d h mi sc (zone_shape off)) = None
  ∧ time.Parse time.ISOSecondsZ (rfc3339_shape y mo d h mi sc (zone_shape off))
    = if off =? 0
      then Some (time.mkTime
                   ((time.days_from_civil y mo 1 + (d - 1)) * 86400 + h * 3600 + mi * 60 + sc)
                   0 0)
      else None.
Proof.
  intros Hy Hmo Hd Hh Hmi Hsc Hmin Hday.
  assert (time.daysIn mo y <= 31).
  { unfold time.daysIn. repeat match goal with |- context [if ?b then _ else _] => destruct b end; lia. }
  destruct (zone_colon_shape off Hmin Hday) as [Hfrac Hzone].
  unfold time.Parse, rfc3339_shape. split.
  - rewrite long_year_four_digits by lia. cbn [mbind option_bind time.expect Ascii.eqb Bool.eqb].
    rewrite getnum_two_digits by lia. cbn [mbind option_bind time.expect Ascii.eqb Bool.eqb].
    rewrite getnum_two_digits by lia. reflexivity.
  - rewrite long_year_four_digits by lia. cbn [mbind option_bind time.expect Ascii.eqb Bool.eqb].
    rewrite getnum_two_digits by lia. cbn [mbind option_bind time.expect Ascii.eqb Bool.eqb].
    rewrite getnum_two_digits by lia. cbn [mbind option_bind time.expect Ascii.eqb Bool.eqb].
    rewrite getnum_two_digits by lia. cbn [mbind option_bind time.expect Ascii.eqb Bool.eqb].
    rewrite getnum_two_digits by lia. cbn [mbind option_bind time.expect Ascii.eqb Bool.eqb].
    rewrite getnum_two_digits by lia. cbn [mbind option_bind time.expect Ascii.eqb Bool.eqb].
    unfold time.parse_tail. rewrite Hfrac. unfold zone_shape.
    destruct (Z.eqb_spec off 0) as [->|Hne].
    + cbn [time.expect Ascii.eqb Bool.eqb mbind option_bind String.length Nat.eqb].
      destruct (Z.leb_spec 1 mo); [|lia]. destruct (Z.leb_spec mo 12); [|lia].
      destruct (Z.leb_spec 1 d); [|lia]. destruct (Z.leb_spec d (time.daysIn mo y)); [|lia].
      destruct (Z.ltb_spec h 24); [|lia]. destruct (Z.ltb_spec mi 60); [|lia].
      destruct (Z.ltb_spec sc 60); [|lia]. cbn [andb]. cbv zeta.
      unfold time.Date. cbv zeta.
      replace ((mo - 1) / 12) with 0 by (symmetry; apply Z.div_small; lia).
      rewrite (Z.mod_small (mo - 1) 12) by lia.
      replace (y + 0) with y by lia. replace (mo - 1 + 1) with mo by lia.
      unfold time.of_nanos. cbn [time.sec time.nsec].
      rewrite Z.add_0_r, !Z.sub_0_r, Z.div_mul, Z.mod_mul by done. reflexivity.
    + by destruct (off <? 0).
Qed.

(** A stored timestamp reads back as the instant that was written, to the
    second and at the same offset; the zero time reads back as the zero
    time. *)
Lemma parse_stored_Format (t : time.Time) :
  formats_back t →
  parse_stored (time.Format_RFC3339 t)
  = if time.sec t =? time.zero_sec then time.zero
    else time.mkTime (time.sec t) 0 (time.offset t).
Proof.
  intros Hback. unfold parse_stored, time.Parse_or_zero. cbv zeta.
  rewrite Parse_Format_RFC3339 by done. cbn [default from_option]. unfold id.
  assert (time.IsZero (time.mkTime (time.sec t) 0 (time.offset t))
          = (time.sec t =? time.zero_sec)) as Hz.
  { unfold time.IsZero. cbn [time.sec time.nsec]. apply andb_true_r. }
  rewrite !Hz.
  destruct (Z.eqb_spec (time.sec t) time.zero_sec) as [Hzero|Hne];
    [|cbv iota; by rewrite Hz].
  rewrite Format_RFC3339_shape by done. destruct Hback as (Hyear & Hmin & Hday).
  destruct (clock_fields t) as (Hh & Hmi & Hs & Hwall).
  pose proof (civil_date_valid (time.wall t / 86400)) as Hcivil.
  unfold time.Year, time.Month, time.Day, time.civil in *.
  destruct (time.civil_from_days (time.wall t / 86400)) as [[y m] d]. cbn [fst snd] in *.
  destruct Hcivil as (Hm & Hd & Hdays).
  destruct (Parse_other_layouts y m d (time.HourOf t) (time.MinuteOf t) (time.SecondOf t)
              (time.offset t)) as [-> ->]; try done.
  cbn [default from_option]. change (time.IsZero time.zero) with true. cbv iota.
  destruct (Z.eqb_spec (time.offset t) 0) as [Hoff|]; [|done].
  cbn [default from_option]. rewrite Hdays. unfold time.zero. f_equal.
  unfold time.wall in *. lia.
Qed.

Lemma ParseInt_four_digits (y : Z) (rest : string) :
  0 <= y <= 9999 → Strs.ParseInt (four_digits y (String "-" rest)) = None.
Proof.
  intros Hy. unfold four_digits, two_digits.
  assert (0 <= y / 1000 < 10) as H1
    by (split; [apply Z.div_pos|apply Z.div_lt_upper_bound]; lia).
  pose proof (Z.mod_pos_bound (y / 100) 10 ltac:(lia)).
  pose proof (Z.mod_pos_bound (y mod 100) 10 ltac:(lia)).
  pose proof (Z.mod_pos_bound y 100 ltac:(lia)).
  assert (0 <= y mod 100 / 10 < 10) by (split; [apply Z.div_pos|apply Z.div_lt_upper_bound]; lia).
  assert (∀ c acc, Strs.is_digit c = true →
            Strs.digits_val acc
              (String c (String (digit ((y / 100) mod 10)) (String (digit (y mod 100 / 10))
                 (String (digit ((y mod 100) mod 10)) (String "-" rest))))) = None) as Hrun.
  { intros c acc Hc. cbn [Strs.digits_val]. rewrite Hc, !is_digit_digit by done. reflexivity. }
  destruct (digit_cases _ H1) as [->|Hk];
    [unfold Strs.ParseInt; change (digit 0) with "0"%char; cbv iota beta; by rewrite Hrun|].
  repeat (destruct Hk as [->|Hk];
    [unfold Strs.ParseInt;
     match goal with |- context [digit ?k] =>
       let c := eval vm_compute in (digit k) in change (digit k) with c end;
     cbv iota beta; by rewrite Hrun|]).
  rewrite Hk. unfold Strs.ParseInt. change (digit 9) with "9"%char. cbv iota beta.
  by rewrite Hrun.
Qed.

Lemma Format_RFC3339_wall (t u : time.Time) :
  time.sec t = time.sec u → time.offset t = time.offset u →
  time.Format_RFC3339 t = time.Format_RFC3339 u.
Proof.
  intros Hsec Hoff.
  unfold time.Format_RFC3339, time.fmt_date, time.Year, time.Month, time.Day, time.civil,
    time.HourOf, time.MinuteOf, time.SecondOf, time.wall.
  by rewrite Hsec, Hoff.
Qed.

(** The text and the time of a parameter the two parsers understand. *)
Lemma ParseTimeParam_understood (loc : Z) (param : string) :
  understood param = true →
  ParseTimeParam loc param = time.Format_RFC3339 (ParseTimeParamToTime loc param)
  ∧ time.offset (ParseTimeParamToTime loc param) = loc.
Proof.
  unfold understood, ParseTimeParam, ParseTimeParamToTime.
  destruct (nonempty param) eqn:Hne; cbn [negb andb]; [|done].
  destruct (unix_param param) as [ts|]; [done|].
  rewrite (bool_decide_eq_false_2 (is_Some None)) by (by intros [? ?]). cbn [orb].
  destruct (parse_first timeParamLayouts param) as [t|]; [done|].
  by rewrite bool_decide_eq_false_2 by (by intros [? ?]).
Qed.

Lemma ParseTimeParam_not_understood (loc : Z) (param : string) :
  understood param = false →
  ParseTimeParam loc param = param ∧ ParseTimeParamToTime loc param = time.zero.
Proof.
  unfold understood, ParseTimeParam, ParseTimeParamToTime.
  destruct (nonempty param) eqn:Hne; cbn [negb andb].
  - destruct (unix_param param) as [ts|]; [by rewrite bool_decide_eq_true_2 by eauto|].
    rewrite (bool_decide_eq_false_2 (is_Some None)) by (by intros [? ?]). cbn [orb].
    destruct (parse_first timeParamLayouts param) as [t|]; [|done].
    by rewrite bool_decide_eq_true_2 by eauto.
  - intros _. apply nonempty_false in Hne. by subst.
Qed.

(** The readers of a time parameter on an RFC3339 text. *)
Lemma ParseTimeParam_Format (loc : Z) (t : time.Time) :
  formats_back t →
  ParseTimeParam loc (time.Format_RFC3339 t)
  = time.Format_RFC3339 (time.mkTime (time.sec t) 0 loc)
  ∧ ParseTimeParamToTime loc (time.Format_RFC3339 t) = time.mkTime (time.sec t) 0 loc.
Proof.
  intros Hback.
  assert (nonempty (time.Format_RFC3339 t) = true) as Hne
    by (by rewrite Format_RFC3339_shape).
  assert (unix_param (time.Format_RFC3339 t) = None) as Hunix.
  { rewrite Format_RFC3339_shape by done. unfold unix_param, rfc3339_shape.
    rewrite ParseInt_four_digits; [done|]. apply Hback. }
  assert (parse_first timeParamLayouts (time.Format_RFC3339 t)
          = Some (time.mkTime (time.sec t) 0 (time.offset t))) as Hparse.
  { unfold timeParamLayouts. cbn [parse_first]. by rewrite Parse_Format_RFC3339. }
  unfold ParseTimeParam, ParseTimeParamToTime. rewrite Hne, Hunix, Hparse. cbn [negb].
  done.
Qed.

(** ParseTimeParam gives a fixed point: on the text it returns it
    returns that text again, whether it understood the parameter or gave it
    back as it was; and ParseTimeParamToTime reads that text as the instant
    it reads the parameter as, to the second and in the same zone.  (The
    local zone is one of whole minutes, and the year of the instant has
    four digits.) *)
Theorem ParseTimeParam_idempotent (loc : Z) (param : string) :
  loc mod 60 = 0 → -86400 < loc < 86400 →
  0 <= time.Year (ParseTimeParamToTime loc param) <= 9999 →
  ParseTimeParam loc (ParseTimeParam loc param) = ParseTimeParam loc param
  ∧ ParseTimeParamToTime loc (ParseTimeParam loc param)
    = time.mkTime (time.sec (ParseTimeParamToTime loc param)) 0
                  (time.offset (ParseTimeParamToTime loc param)).
Proof.
  intros Hmin Hday Hyear. destruct (understood param) eqn:Hund.
  - destruct (ParseTimeParam_understood loc param Hund) as [Htext Hoff].
    set (t := ParseTimeParamToTime loc param) in *.
    assert (formats_back t) as Hback by (unfold formats_back; rewrite Hoff; done).
    destruct (ParseTimeParam_Format loc t Hback) as [Htext' Htime'].
    rewrite Htext, Htext', Htime', Hoff. split; [|done].
    by apply Format_RFC3339_wall.
  - destruct (ParseTimeParam_not_understood loc param Hund) as [Htext Htime].
    by rewrite Htext, Htext, Htime.
Qed.

Lemma ParseTimeParam_idempotent_witness :
  (28800 mod 60 = 0 ∧ -86400 < 28800 < 86400
   ∧ 0 <= time.Year (ParseTimeParamToTime 28800 "2025-01-11T08:00:00.25Z") <= 9999)
  ∧ ParseTimeParam 28800 (ParseTimeParam 28800 "2025-01-11T08:00:00.25Z")
    = "2025-01-11T16:00:00+08:00".
Proof.
  assert (0 <= time.Year (ParseTimeParamToTime 28800 "2025-01-11T08:00:00.25Z") <= 9999)
    as Hyear by (vm_compute; split; discriminate).
  split; [split; [reflexivity|split; [lia|exact Hyear]]|].
  destruct (ParseTimeParam_idempotent 28800 "2025-01-11T08:00:00.25Z"
              eq_refl ltac:(lia) Hyear) as [H _].
  rewrite H. vm_compute. reflexivity.
Defined.

Section StoredTimes.

Variable json_Marshal : gmap string string → string.
Variable json_Unmarshal : string → option (gmap string string).

(** A timestamp survives its stay in the table: the record read
    back by the id Insert returned carries the instant that was written, to
    the second, and the offset it was written with; the zero time alone
    comes back at offset zero.  The same holds of every reader of a stored
    timestamp: the text Insert writes for an instant reads back as that
    instant cut to the second.  (The offset is one of whole minutes and the
    year has four digits; the header maps are taken to survive their JSON
    text.) *)
Theorem timestamp_survives_storage (s : Store) (record : UsageRecord) :
  formats_back (rec_Timestamp record) →
  closed s = false → db_failing s = false →
  json_Unmarshal (json_Marshal (rec_RequestHeaders record)) = Some (rec_RequestHeaders record) →
  json_Unmarshal (json_Marshal (rec_ResponseHeaders record))
  = Some (rec_ResponseHeaders record) →
  let written := rec_Timestamp record in
  (∃ id r, snd (Insert json_Marshal s record) = Ok id
     ∧ GetByID json_Unmarshal (fst (Insert json_Marshal s record)) id = Ok (Some r)
     ∧ time.sec (rec_Timestamp r) = time.sec written
     ∧ time.nsec (rec_Timestamp r) = 0
     ∧ (time.sec written ≠ time.zero_sec → time.offset (rec_Timestamp r) = time.offset written)
     ∧ (time.sec written = time.zero_sec → rec_Timestamp r = time.zero))
  ∧ time.UnixNano (parse_stored (time.Format_RFC3339 written))
    = time.sec written * time.Second
  ∧ (0 <= time.nsec written < time.Second →
     time.UnixNano written - time.Second
     < time.UnixNano (parse_stored (time.Format_RFC3339 written)) <= time.UnixNano written).
Proof.
  intros Hback Hc Hf Hreq Hresp written.
  pose proof (parse_stored_Format written Hback) as Hread.
  assert (time.UnixNano (parse_stored (time.Format_RFC3339 written))
          = time.sec written * time.Second) as Hnanos.
  { rewrite Hread. unfold time.UnixNano, time.zero.
    destruct (Z.eqb_spec (time.sec written) time.zero_sec) as [Hzero|Hne];
      cbn [time.sec time.nsec]; lia. }
  split; [|split; [done|]].
  - unfold Insert. rewrite Hc, Hf. cbn [fst snd]. eexists. eexists. split; [reflexivity|].
    split.
    { unfold GetByID. cbn [closed db_failing usage_records with_usage_records].
      rewrite Hc, Hf, lookup_insert_eq. by rewrite scan_insert_row. }
    cbn [rec_Timestamp stored_as]. fold written. rewrite Hread.
    destruct (Z.eqb_spec (time.sec written) time.zero_sec) as [Hzero|Hne]; by repeat split.
  - intros Hnsec. rewrite Hnanos. unfold time.UnixNano. lia.
Qed.

End StoredTimes.

Lemma timestamp_survives_storage_witness :
  formats_back (rec_Timestamp demo_plain)
  ∧ ∃ r, GetByID empty_unmarshal (fst (Insert empty_marshal empty_store demo_plain)) 1
         = Ok (Some r)
         ∧ time.sec (rec_Timestamp r) = 1736582400.
Proof.
  assert (formats_back (rec_Timestamp demo_plain)) as Hback.
  { repeat split; vm_compute; discriminate. }
  split; [exact Hback|].
  destruct (timestamp_survives_storage empty_marshal empty_unmarshal empty_store demo_plain
              Hback eq_refl eq_refl eq_refl eq_refl) as [(id & r & Hid & Hget & Hsec & _) _].
  cbn in Hid. injection Hid as <-. exists r. split; [exact Hget|exact Hsec].
Defined.

(** ** The order of formatted times *)

Lemma next_day_checked : all_from next_day_ok (Z.to_nat 146097) 0 = true.
Proof. vm_compute. reflexivity. Qed.

Lemma then_compare_Lt (c rest : comparison) :
  then_compare c rest = Lt ↔ c = Lt ∨ (c = Eq ∧ rest = Lt).
Proof. destruct c; cbn; split; try tauto; intros [?|[? ?]]; done. Qed.

Lemma date_compare_Lt (a b : Z * Z * Z) :
  date_compare a b = Lt
  ↔ a.1.1 < b.1.1 ∨ (a.1.1 = b.1.1 ∧ (a.1.2 < b.1.2 ∨ (a.1.2 = b.1.2 ∧ a.2 < b.2))).
Proof.
  unfold date_compare. rewrite !then_compare_Lt, !Z.compare_lt_iff, !Z.compare_eq_iff.
  tauto.
Qed.

Lemma date_compare_shift (a b : Z * Z * Z) (e : Z) :
  date_compare (a.1.1 + e * 400, a.1.2, a.2) (b.1.1 + e * 400, b.1.2, b.2)
  = date_compare a b.
Proof.
  unfold date_compare. cbn [fst snd]. f_equal.
  destruct (Z.compare_spec (a.1.1) (b.1.1));
    [apply Z.compare_eq_iff|apply Z.compare_lt_iff|apply Z.compare_gt_iff]; lia.
Qed.

Lemma civil_next_day (z : Z) :
  date_compare (time.civil_from_days z) (time.civil_from_days (z + 1)) = Lt.
Proof.
  unfold time.civil_from_days. cbv zeta.
  set (era := (z + 719468) / 146097). set (doe := z + 719468 - era * 146097).
  assert (0 <= doe < 146097) as Hdoe.
  { unfold doe, era. pose proof (Z.mod_pos_bound (z + 719468) 146097).
    pose proof (Z.div_mod (z + 719468) 146097). lia. }
  pose proof (all_from_spec _ _ 0 doe next_day_checked ltac:(lia)) as Hok.
  unfold next_day_ok in Hok.
  destruct (Z.ltb_spec (doe + 1) 146097) as [Hin|Hout].
  - assert ((z + 1 + 719468) / 146097 = era) as ->.
    { symmetry. apply (Z.div_unique _ _ _ (doe + 1)); unfold doe; lia. }
    replace (z + 1 + 719468 - era * 146097) with (doe + 1) by (unfold doe; lia).
    rewrite (civil_of_era_shift era doe), (civil_of_era_shift era (doe + 1)).
    rewrite date_compare_shift. by destruct (date_compare _ _).
  - assert ((z + 1 + 719468) / 146097 = era + 1) as ->.
    { symmetry. apply (Z.div_unique _ _ _ 0); unfold doe in *; lia. }
    replace (z + 1 + 719468 - (era + 1) * 146097) with 0 by (unfold doe in *; lia).
    rewrite (civil_of_era_shift era doe), (civil_of_era_shift (era + 1) 0).
    replace ((time.civil_of_era 0 0).1.1 + (era + 1) * 400)
      with ((time.civil_of_era 1 0).1.1 + era * 400) by (vm_compute (time.civil_of_era _ 0); cbn [fst snd]; lia).
    change ((time.civil_of_era 0 0).1.2) with ((time.civil_of_era 1 0).1.2).
    change ((time.civil_of_era 0 0).2) with ((time.civil_of_era 1 0).2).
    rewrite date_compare_shift. by destruct (date_compare _ _).
Qed.

Lemma date_compare_trans (a b c : Z * Z * Z) :
  date_compare a b = Lt → date_compare b c = Lt → date_compare a c = Lt.
Proof. rewrite !date_compare_Lt. lia. Qed.

(** Later days have later civil dates. *)
Lemma civil_mono (z z' : Z) :
  z < z' → date_compare (time.civil_from_days z) (time.civil_from_days z') = Lt.
Proof.
  intros Hlt. replace z' with (z + 1 + Z.of_nat (Z.to_nat (z' - z - 1))) by lia.
  induction (Z.to_nat (z' - z - 1)) as [|k IH].
  - rewrite Z.add_0_r. apply civil_next_day.
  - eapply date_compare_trans; [exact IH|].
    replace (z + 1 + Z.of_nat (S k)) with (z + 1 + Z.of_nat k + 1) by lia.
    apply civil_next_day.
Qed.

Lemma date_compare_refl (a : Z * Z * Z) : date_compare a a = Eq.
Proof. unfold date_compare. by rewrite !Z.compare_refl. Qed.

Lemma date_compare_Gt (a b : Z * Z * Z) : date_compare b a = Lt → date_compare a b = Gt.
Proof.
  rewrite date_compare_Lt. unfold date_compare, then_compare. intros H.
  destruct (Z.compare_spec (a.1.1) (b.1.1)); try lia; [|done].
  destruct (Z.compare_spec (a.1.2) (b.1.2)); try lia; [|done].
  destruct (Z.compare_spec (a.2) (b.2)); try lia; done.
Qed.

(** The civil dates of two days compare as the days do. *)
Lemma civil_compare (z z' : Z) :
  date_compare (time.civil_from_days z) (time.civil_from_days z') = (z ?= z').
Proof.
  destruct (Z.compare_spec z z') as [->|Hlt|Hgt].
  - apply date_compare_refl.
  - by apply civil_mono.
  - by apply date_compare_Gt, civil_mono.
Qed.

Lemma digit_compare (a b : Z) :
  0 <= a < 10 → 0 <= b < 10 → Ascii.compare (digit a) (digit b) = (a ?= b).
Proof.
  intros Ha Hb.
  destruct (digit_cases a Ha) as [->|H]; [|repeat (destruct H as [->|H])]; subst;
    (destruct (digit_cases b Hb) as [->|H']; [|repeat (destruct H' as [->|H'])]); subst;
    reflexivity.
Qed.

Lemma two_digits_compare (x x' : Z) (rest rest' : string) :
  0 <= x < 100 → 0 <= x' < 100 →
  String.compare (two_digits x rest) (two_digits x' rest')
  = then_compare (x ?= x') (String.compare rest rest').
Proof.
  intros Hx Hx'. unfold two_digits. cbn [String.compare].
  assert (0 <= x / 10 < 10) by (split; [apply Z.div_pos|apply Z.div_lt_upper_bound]; lia).
  assert (0 <= x' / 10 < 10) by (split; [apply Z.div_pos|apply Z.div_lt_upper_bound]; lia).
  pose proof (Z.mod_pos_bound x 10 ltac:(lia)). pose proof (Z.mod_pos_bound x' 10 ltac:(lia)).
  pose proof (Z.div_mod x 10 ltac:(lia)). pose proof (Z.div_mod x' 10 ltac:(lia)).
  rewrite !digit_compare by done.
  destruct (Z.compare_spec (x / 10) (x' / 10));
    destruct (Z.compare_spec (x mod 10) (x' mod 10));
    destruct (Z.compare_spec x x'); try lia; reflexivity.
Qed.

Lemma four_digits_compare (x x' : Z) (rest rest' : string) :
  0 <= x <= 9999 → 0 <= x' <= 9999 →
  String.compare (four_digits x rest) (four_digits x' rest')
  = then_compare (x ?= x') (String.compare rest rest').
Proof.
  intros Hx Hx'. unfold four_digits. cbn [String.compare].
  assert (0 <= x / 1000 < 10) by (split; [apply Z.div_pos|apply Z.div_lt_upper_bound]; lia).
  assert (0 <= x' / 1000 < 10) by (split; [apply Z.div_pos|apply Z.div_lt_upper_bound]; lia).
  pose proof (Z.mod_pos_bound (x / 100) 10 ltac:(lia)).
  pose proof (Z.mod_pos_bound (x' / 100) 10 ltac:(lia)).
  pose proof (Z.mod_pos_bound x 100 ltac:(lia)). pose proof (Z.mod_pos_bound x' 100 ltac:(lia)).
  rewrite !digit_compare, two_digits_compare by done.
  assert (x = 1000 * (x / 1000) + 100 * ((x / 100) mod 10) + x mod 100) as Hsplit
    by (clear; Z.div_mod_to_equations; lia).
  assert (x' = 1000 * (x' / 1000) + 100 * ((x' / 100) mod 10) + x' mod 100) as Hsplit'
    by (clear; Z.div_mod_to_equations; lia).
  destruct (Z.compare_spec (x / 1000) (x' / 1000));
    destruct (Z.compare_spec ((x / 100) mod 10) ((x' / 100) mod 10));
    destruct (Z.compare_spec (x mod 100) (x' mod 100));
    destruct (Z.compare_spec x x'); try lia; reflexivity.
Qed.

Lemma string_compare_refl (s : string) : String.compare s s = Eq.
Proof.
  induction s as [|c s IH]; [done|]. cbn [String.compare].
  unfold Ascii.compare. by rewrite N.compare_refl.
Qed.

(** Two texts with the same offset compare as their fields do, from the
    year down to the second. *)
Lemma rfc3339_shape_compare (y mo d h mi sc y' mo' d' h' mi' sc' : Z) (zone : string) :
  0 <= y <= 9999 → 0 <= y' <= 9999 →
  0 <= mo < 100 → 0 <= mo' < 100 → 0 <= d < 100 → 0 <= d' < 100 →
  0 <= h < 100 → 0 <= h' < 100 → 0 <= mi < 100 → 0 <= mi' < 100 →
  0 <= sc < 100 → 0 <= sc' < 100 →
  String.compare (rfc3339_shape y mo d h mi sc zone) (rfc3339_shape y' mo' d' h' mi' sc' zone)
  = then_compare (date_compare (y, mo, d) (y', mo', d'))
      (then_compare (h ?= h') (then_compare (mi ?= mi') (sc ?= sc'))).
Proof.
  intros. unfold rfc3339_shape, date_compare. cbn [fst snd].
  rewrite four_digits_compare by done.
  change (String.compare (String "-" ?a) (String "-" ?b)) with (String.compare a b).
  rewrite two_digits_compare by done.
  change (String.compare (String "-" ?a) (String "-" ?b)) with (String.compare a b).
  rewrite two_digits_compare by done.
  change (String.compare (String "T" ?a) (String "T" ?b)) with (String.compare a b).
  rewrite two_digits_compare by done.
  change (String.compare (String ":" ?a) (String ":" ?b)) with (String.compare a b).
  rewrite two_digits_compare by done.
  change (String.compare (String ":" ?a) (String ":" ?b)) with (String.compare a b).
  rewrite two_digits_compare by done. rewrite string_compare_refl.
  destruct (y ?= y'), (mo ?= mo'), (d ?= d'), (h ?= h'), (mi ?= mi'), (sc ?= sc'); reflexivity.
Qed.

(** The RFC3339 texts of two instants shown at the same offset compare as
    the instants do, to the second. *)
Lemma Format_RFC3339_compare (t u : time.Time) :
  formats_back t → formats_back u → time.offset t = time.offset u →
  String.compare (time.Format_RFC3339 t) (time.Format_RFC3339 u) = (time.sec t ?= time.sec u).
Proof.
  intros Ht Hu Hoff. rewrite !Format_RFC3339_shape by done.
  destruct Ht as (Hyt & _). destruct Hu as (Hyu & _).
  destruct (clock_fields t) as (Hh & Hmi & Hs & Hwall).
  destruct (clock_fields u) as (Hh' & Hmi' & Hs' & Hwall').
  pose proof (civil_date_valid (time.wall t / 86400)) as Hcivil.
  pose proof (civil_date_valid (time.wall u / 86400)) as Hcivil'.
  pose proof (civil_compare (time.wall t / 86400) (time.wall u / 86400)) as Hcmp.
  unfold time.Year, time.Month, time.Day, time.civil in *.
  destruct (time.civil_from_days (time.wall t / 86400)) as [[y m] d].
  destruct (time.civil_from_days (time.wall u / 86400)) as [[y' m'] d']. cbn [fst snd] in *.
  destruct Hcivil as (Hm & Hd & _). destruct Hcivil' as (Hm' & Hd' & _).
  assert (time.daysIn m y <= 31).
  { unfold time.daysIn. repeat match goal with |- context [if ?b then _ else _] => destruct b end; lia. }
  assert (time.daysIn m' y' <= 31).
  { unfold time.daysIn. repeat match goal with |- context [if ?b then _ else _] => destruct b end; lia. }
  rewrite Hoff, rfc3339_shape_compare by lia. rewrite Hcmp.
  assert (time.wall t - time.wall u = time.sec t - time.sec u) as Hdiff
    by (unfold time.wall; lia).
  set (wt := time.wall t) in *. set (wu := time.wall u) in *.
  set (st := time.sec t) in *. set (su := time.sec u) in *.
  clearbody wt wu st su.
  destruct (Z.compare_spec (wt / 86400) (wu / 86400));
    destruct (Z.compare_spec (time.HourOf t) (time.HourOf u));
    destruct (Z.compare_spec (time.MinuteOf t) (time.MinuteOf u));
    destruct (Z.compare_spec (time.SecondOf t) (time.SecondOf u));
    destruct (Z.compare_spec st su); cbn [then_compare]; try reflexivity; lia.
Qed.

(** The engine's comparison of a stored RFC3339 text with a cutoff of the
    same offset decides by the instants. *)
Lemma older_than_by_time (cutoff t : time.Time) (row : Row) :
  formats_back cutoff → formats_back t → time.offset t = time.offset cutoff →
  row !! "timestamp" = Some (SqlText (time.Format_RFC3339 t)) →
  older_than (time.Format_RFC3339 cutoff) row = (time.sec t <? time.sec cutoff).
Proof.
  intros Hc Ht Hoff Hrow. unfold older_than, sql_lt_text. rewrite Hrow.
  unfold String.ltb. rewrite Format_RFC3339_compare by done.
  destruct (Z.compare_spec (time.sec t) (time.sec cutoff)), (Z.ltb_spec (time.sec t) (time.sec cutoff));
    try lia; reflexivity.
Qed.

(** DeleteOlderThan decides by time.  With the cutoff the clock less the
    age, a row stamped by Insert at the offset of the clock is removed when
    its instant is earlier than the cutoff by a second or more, counted in
    whole seconds, and is left as it was otherwise; a row stamped in the
    very second of the cutoff stays.  (Years have four digits and the
    offset is one of whole minutes.) *)
Theorem DeleteOlderThan_by_time (s : Store) (now : time.Time) (age : Z)
    (id : Z) (row : Row) (t : time.Time) :
  let cutoff := time.Add now (Int64.sub 0 age) in
  let s' := fst (DeleteOlderThan s now age) in
  formats_back cutoff → formats_back t → time.offset t = time.offset now →
  closed s = false → db_failing s = false →
  usage_records s !! id = Some row →
  row !! "timestamp" = Some (SqlText (time.Format_RFC3339 t)) →
  (time.sec t < time.sec cutoff → usage_records s' !! id = None)
  ∧ (time.sec cutoff <= time.sec t → usage_records s' !! id = Some row)
  ∧ (Int64.min_int < age <= Int64.max_int →
     time.sec cutoff = (time.UnixNano now - age) / time.Second)
  ∧ rows_below (time.Format_RFC3339 cutoff) s !! id
    = (if time.sec t <? time.sec cutoff then Some row else None).
Proof.
  intros cutoff s' Hc Ht Hoff Hopen Hwork Hid Hrow.
  pose proof (older_than_by_time cutoff t row Hc Ht Hoff Hrow) as Hold.
  unfold s', DeleteOlderThan. rewrite Hopen, Hwork. fold cutoff.
  cbn [fst usage_records with_usage_records].
  split; [|split; [|split]].
  - intros Hlt. apply map_lookup_filter_None. right. intros row' Hrow'. cbn [snd].
    rewrite Hid in Hrow'. injection Hrow' as <-. rewrite Hold.
    by rewrite (proj2 (Z.ltb_lt _ _) Hlt).
  - intros Hge. apply map_lookup_filter_Some. split; [done|]. cbn [snd]. rewrite Hold.
    by apply Z.ltb_ge.
  - intros Hage. unfold cutoff, time.Add, time.of_nanos. cbn [time.sec].
    unfold Int64.sub, Int64.wrap, Int64.min_int, Int64.max_int in *. f_equal.
    replace ((0 - age + 2 ^ 63) mod 2 ^ 64) with (0 - age + 2 ^ 63)
      by (symmetry; apply Z.mod_small; lia).
    lia.
  - unfold rows_below. destruct (time.sec t <? time.sec cutoff) eqn:Hcmp.
    + apply map_lookup_filter_Some. split; [done|]. exact Hold.
    + apply map_lookup_filter_None. right. intros row' Hrow'. cbn [snd].
      rewrite Hid in Hrow'. injection Hrow' as <-. by rewrite Hold.
Qed.

Lemma DeleteOlderThan_by_time_witness :
  let s := fst (Insert empty_marshal empty_store demo_plain) in
  let now := time.Unix 1736668801 0 in
  usage_records (fst (DeleteOlderThan s now (24 * time.Hour))) !! 1 = None
  ∧ usage_records (fst (DeleteOlderThan s now (24 * time.Hour + time.Second))) !! 1
    = Some (insert_row empty_marshal demo_plain).
Proof.
  intros s now.
  assert (∀ age, time.offset (time.Add now (Int64.sub 0 age)) = 0) as Hoff by done.
  assert (formats_back demo_start) as Hstart by (repeat split; vm_compute; discriminate).
  assert (usage_records s !! 1 = Some (insert_row empty_marshal demo_plain)) as Hrow
    by apply lookup_insert_eq.
  split.
  - assert (formats_back (time.Add now (Int64.sub 0 (24 * time.Hour)))) as Hcut
      by (repeat split; vm_compute; discriminate).
    destruct (DeleteOlderThan_by_time s now (24 * time.Hour) 1
                (insert_row empty_marshal demo_plain) demo_start
                Hcut Hstart eq_refl eq_refl eq_refl Hrow eq_refl) as [Hgone _].
    apply Hgone. vm_compute. reflexivity.
  - assert (formats_back (time.Add now (Int64.sub 0 (24 * time.Hour + time.Second)))) as Hcut
      by (repeat split; vm_compute; discriminate).
    destruct (DeleteOlderThan_by_time s now (24 * time.Hour + time.Second) 1
                (insert_row empty_marshal demo_plain) demo_start
                Hcut Hstart eq_refl eq_refl eq_refl Hrow eq_refl) as (_ & Hkept & _).
    apply Hkept. vm_compute. discriminate.
Defined.

(** ** Recording a candidate *)

Section Recording.

Variable json_Marshal : gmap string string → string.
Variable sql_order_candidates : list (Z * Row) → list (Z * Row).
Hypothesis order_permutes : ∀ rows, sql_order_candidates rows ≡ₚ rows.
Hypothesis order_sorts : ∀ rows, StronglySorted rows_in_order (sql_order_candidates rows).

(** RecordCandidate does nothing on a plugin without a store or one that
    is disabled.  Otherwise it hands the write queue a candidate with the
    arguments as they are given (the status is not normalised), the clock
    as its time and the API key masked beside the key itself, and calls the
    candidate callback when one is installed, whether or not the queue took
    the candidate: a candidate the queue refuses is counted and not stored.
    On an open store with a working engine and an empty queue the candidate
    is taken, and once the write loop has received it, it is among the
    candidates GetRequestCandidates returns for its request.  (The engine is
    taken to sort as its ORDER BY says.) *)
Theorem RecordCandidate_reaches_the_table (p : Plugin) (candidateIncrementor : bool)
    (now : time.Time) (requestID provider apiKey status : string) (statusCode : Z)
    (success : bool) (durationMs : Z) (errorMessage : string)
    (candidateIndex retryIndex : Z) :
  let done := RecordCandidate p candidateIncrementor now requestID provider apiKey status
                statusCode success durationMs errorMessage candidateIndex retryIndex in
  let candidate :=
    mkCandidate 0 requestID now provider apiKey (MaskAPIKey apiKey) status statusCode
                success durationMs errorMessage candidateIndex retryIndex in
  (store p = None ∨ enabled p = false →
   r_store done = store p ∧ r_enqueued done = None ∧ r_call done = None)
  ∧ (∀ s, store p = Some s → enabled p = true →
       ∃ s' accepted,
         r_store done = Some s' ∧ r_enqueued done = Some (candidate, accepted)
         ∧ r_call done
           = (if candidateIncrementor
              then Some (mkCandidateCall requestID provider apiKey status statusCode success
                           durationMs errorMessage candidateIndex retryIndex)
              else None)
         ∧ (accepted = false → s' = s)
         ∧ (accepted = true ↔
            closed s = false
            ∧ ∃ queue, writeQueue s = Some queue ∧ (List.length queue < 2048)%nat)
         ∧ usage_records s' = usage_records s
         ∧ request_candidates s' = request_candidates s
         ∧ (closed s = false → db_failing s = false → writeQueue s = Some [] →
            accepted = true
            ∧ ∃ l, GetRequestCandidates sql_order_candidates
                     (writeLoop json_Marshal 1 s') requestID = Ok l
                   ∧ candidate_stored_as candidate (last_candidate_id s + 1) ∈ l)).
Proof.
  intros done candidate. split.
  - intros Hoff. unfold done, RecordCandidate.
    destruct (store p) as [s|]; [|done]. destruct Hoff as [Hnone | Hdis]; [done|by rewrite Hdis].
  - intros s Hs Hen. unfold done, RecordCandidate. rewrite Hs, Hen. cbn [negb]. fold candidate.
    unfold EnqueueRequestCandidate.
    destruct (try_send_cases s (writeTaskInsertRequestCandidate candidate))
      as [(q & Hq & Hc & Hroom & ->)|[Hno ->]].
    + eexists _, true. split; [reflexivity|]. split; [reflexivity|]. split; [reflexivity|].
      split; [done|]. split.
      { split; [|done]. intros _. split; [done|]. by exists q. }
      split; [done|]. split; [done|].
      intros _ Hf Hempty. rewrite Hq in Hempty. injection Hempty as ->. split; [done|].
      cbn [app writeLoop]. unfold writeLoop_step.
      cbn [writeQueue with_writeQueue]. unfold isClosed.
      cbn [closed with_writeQueue]. rewrite Hc.
      unfold InsertRequestCandidate. cbn [closed db_failing with_writeQueue]. rewrite Hc, Hf.
      cbn [fst last_candidate_id request_candidates with_writeQueue].
      match goal with |- ∃ l, GetRequestCandidates _ ?st _ = _ ∧ _ =>
        destruct (GetRequestCandidates_spec sql_order_candidates order_permutes order_sorts
                    st requestID) as (l & Hl & Hin & _); [exact Hc|exact Hf|] end.
      exists l. split; [exact Hl|]. apply Hin. split; [done|].
      exists (candidate_row candidate). split; [|apply scan_candidate_row].
      cbn [cand_ID candidate_stored_as request_candidates with_request_candidates].
      apply lookup_insert_eq.
    + assert (¬ (closed s = false
                 ∧ ∃ queue, writeQueue s = Some queue ∧ (List.length queue < 2048)%nat))
        as Hrefused.
      { intros (Hc & queue & Hq & Hlen).
        destruct Hno as [Hc'|[Hq'|(q & Hq' & Hlen')]]; [congruence|congruence|].
        rewrite Hq in Hq'. injection Hq' as <-. lia. }
      exists s, false. split; [done|]. split; [done|]. split; [done|].
      split; [done|]. split; [split; [done|by intros H; destruct (Hrefused H)]|].
      split; [done|]. split; [done|]. intros Hc Hf Hq. exfalso. apply Hrefused.
      split; [done|]. exists []. split; [done|]. cbn. lia.
Qed.

End Recording.

Lemma RecordCandidate_reaches_the_table_witness :
  let p := mkPlugin (Some (with_writeQueue empty_store (Some []))) true false false in
  ∃ s' l,
    r_store (RecordCandidate p true demo_now "r1" "openai" "sk-test-1234567890" "failed"
               502 false 120 "" 0 0) = Some s'
    ∧ GetRequestCandidates merge_order (writeLoop empty_marshal 1 s') "r1" = Ok l
    ∧ l ≠ [].
Proof.
  intros p.
  destruct (RecordCandidate_reaches_the_table empty_marshal merge_order merge_order_permutes
              merge_order_sorts p true demo_now "r1" "openai" "sk-test-1234567890" "failed"
              502 false 120 "" 0 0) as [_ Hon].
  destruct (Hon _ eq_refl eq_refl) as (s' & accepted & Hs' & _ & _ & _ & _ & _ & _ & Hrun).
  destruct (Hrun eq_refl eq_refl eq_refl) as (_ & l & Hl & Hin).
  exists s', l. split; [exact Hs'|]. split; [exact Hl|].
  intros ->. by apply elem_of_nil in Hin.
Defined.
